(* ===== verification/_CoqProject ===== *)
-Q . S2P
Prelude.v
CString.v
Hash.v
Base64.v
Strmatch.v
Env.v
Api.v
Namespace.v
Cluster.v
RemapPath.v
RemapHost.v
CryptB64.v
Des.v
DesRef.v
Sha2.v
ShaCrypt.v
Bcrypt.v
BcryptRef.v
Crypt.v
Auth.v
Config.v
RemapDb.v
RemapBuild.v
Watcher.v
Synth.v
Compress.v
DebugLog.v
TsRemap.v
EndToEnd.v
WatchLoop.v
TsMime.v
TsHeaders.v
Debug.v
TsEvents.v
Stream.v
Plugin.v
Locks.v
Rax.v
RaxMap.v
RaxIter.v
HashRax.v
