(* ===== verification/Prelude.v ===== *)
(** * Verification of k8s-ts-ingress

    k8s-ts-ingress is a plugin that makes Apache Traffic Server a Kubernetes
    Ingress controller.  A watcher thread keeps a copy of the cluster's objects
    in step with the API server; from that copy a remap database is built (host
    names, paths, backends, policies); the request hook looks every request up
    in the database and forwards, redirects, refuses or answers it.  This
    library models that chain from the C sources under [src/] and proves the
    properties that make it correct.

    ** Parts and files

    - [Prelude]: bytes, machine integers, the result type [cres] of C code (a
      value, or the fault it runs into: null dereference, out of bounds,
      uninitialised read, use after free, misaligned access, division by zero,
      failed assertion, data race, endless loop) and its monad, arrays, folds, generic
      lemmas, tactics and the hint database [c_db].
    - [CString]: the parts of the C library the program uses ([strtok_r],
      [strsep], [strcmp], [atoi], [%d], [qsort] on strings).
    - [Env]: code outside the repository as classes of operations, with the
      documented behaviour theorems rely on as separate classes of laws:
      json-c ([JsonC]), regular expressions and [inet_pton] ([Posix]), digests
      ([Digests]), OpenSSL ([OpenSSL]).  Small concrete instances, local to the
      files that use them, show that the laws can hold.
    - [Hash] (util/hash.c, the chained table): buckets, FNV hash, insertion,
      lookup, deletion, iteration.  [hash_models] relates a table to a finite
      map; its lemmas are the interface every client uses.
    - [Base64] (util/base64.c), [Strmatch] (contrib/netbsd/strmatch.c).
    - [Api] (api/endpoints.c, service.c, ingress.c, secret.c, configmap.c and
      api.h): the object types and their parsers.
    - [Namespace], [Cluster] (api/namespace.c, cluster.c): the tables of
      objects, the ConfigMap, default certificates, domain access control.
    - [Watcher] (api/watcher.c): the options of the requests, decoding of list
      and watch responses, line splitting, full resynchronisation.  [WatchLoop]
      (same file): the polling loops of a full fetch and of a watch, the thread
      around them and the rebuild it triggers.
    - [RemapPath], [RemapHost] (remap/remap_path.c, remap_host.c): annotations,
      users, whitelists, backend choice, path selection.
    - [CryptB64], [Sha2], [ShaCrypt] (crypt/crypt_sha256.c, crypt_sha512.c):
      the two SHA-2 functions, written once over a record of what differs
      (word size, tables, rotations), the crypt functions built on them, and
      the text encoding the crypt functions share.
    - [Des] (crypt/crypt_des.c): the DES crypt function with the tables it
      computes; [DesRef]: DES on lists of bits as the standard describes it,
      and the proof that the code computes it.  [Bcrypt] (crypt/crypt_bf.c):
      Blowfish, the expensive key schedule and the self-test; [BcryptRef]:
      bcrypt on one list of words, and the proof.
    - [Crypt], [Auth] (crypt/crypt.c, crypt_md5.c, auth/auth.c): password hash
      formats, MD5 crypt, Basic authentication, IP whitelists.
    - [Config] (tsapi/config.c): the configuration file, the service account
      and the environment.
    - [RemapDb] (remap/remap_db.c): [remap_run] and its checks, query
      normalisation, the cache key.
    - [RemapBuild] (remap/remap_build.c): the database built from the cluster.
    - [Synth], [Compress], [TsRemap] (tsapi/synth.c, compress.c, remap.c,
      tls.c): generated responses with the connection that delivers them, the
      decision to compress, and the request and TLS hooks, as the list of
      Traffic Server calls they make.  [EndToEnd] composes the build, the
      request hook and the replacement of the database.
    - [TsMime], [TsHeaders], [TsEvents] (tsapi/remap.c, compress.c): the MIME
      header interface of Traffic Server as a class with laws, the header
      continuations and server push against it, and the transaction events
      from the request to the close with what they allocate and free.
    - [Stream] (tsapi/compress.c): the encoder loops of the transform over
      interfaces for zlib, brotli and the buffers of Traffic Server.
    - [DebugLog], [Debug] (tsapi/debug.c): the lines that debug logging writes.
      [DebugLog] has the log of the client's request, which the request hook
      writes for a path with debug logging ([debug_calls] of [TsRemap]),
      [Debug] the logs of the transaction events ([log_calls] of [TsEvents]).
    - [Plugin] (tsapi/plugin.c): start-up, the protocols of the acceptors, and
      the whole program: the watcher thread it starts and the hooks it
      installs.
    - [Locks] (the lock regions of tsapi/remap.c, tls.c and api/watcher.c): the
      watcher thread and any number of hooks as threads that interleave at
      every access to a lock, to the database pointer, to the memory of the
      databases and to the static buffers of the MD5 and DES functions, which
      no lock protects: two hooks in the same function at once are the fault
      [DataRace].
    - [Rax] (contrib/rax/rax.c): the radix tree, its iterator and random walks;
      [RaxMap]: the tree as a finite map; [RaxIter]: the order in which the
      iterator yields the keys.  [HashRax] (util/hash.c with [HASH_USE_RAX]):
      the other build of the table, and the interface ([Table], [TableLaws])
      that both builds implement.

    A C struct is a record with the fields of the struct (a pointer and its
    length become a list; a pointer that may be null an option); a function is
    a definition of the same name that passes the changed state along; a loop
    whose recursion is not structural takes fuel that the caller computes from
    its input, and running out of it is the fault [Diverges].  Allocation is
    assumed to succeed.  Outside [Locks] each lock region is one step, which
    [locks_atomic] justifies for the runs without that race.

    ** What is shown

    - The program: from start-up on, whatever the watcher thread has done, a
      request is answered from the objects the cluster has now
      ([plugin_serves_current]).  In every interleaving of the threads in which
      no two hooks are in the same MD5 or DES function at once, a request is
      answered from the database of the last rebuild ([concurrent_requests],
      [concurrent_answers]) and the program behaves as if each change, rebuild
      and hook were one step ([locks_atomic]); such a race is the only fault
      the threads add, needs two logins with such hashes ([no_buffers_no_race],
      [request_buffer_none]) and can change an answer ([init_des_race]).  In
      every interleaving no database is used after it is freed, freed twice or
      lost ([locks_safe]), and the threads never block each other for good
      ([locks_live], [writer_not_starved]; [writer_starves] shows what a lock
      that prefers readers allows).
    - Requests: a backend is contacted only for a request whose host is
      configured, which need not be redirected to TLS and whose client passed
      the checks of its path ([handle_remap_contacts], [remap_run_forwards],
      [auth_decision], [tls_redirect_first]); every request is answered, once
      ([remap_run_total], [handle_remap_once]), except that a path with debug
      logging faults for a URL longer than the method
      ([handle_remap_debug_overread]); queries, cookies and cache keys
      ([query_normalised], [cookies_filtered], [cache_key_injective],
      [keep_parameter_decision]); CORS, path choice, backend choice,
      TLS versions, HTTP/2 per host ([http2_withdrawn]).  On a
      database that was built from valid objects no request faults
      ([built_db_safe]), and after a rebuild requests see
      exactly the new cluster ([rebuilt_requests]).
    - Responses: a transaction frees what it allocated, once
      ([txn_lifecycle]); the headers a response leaves with
      ([send_response_headers]) and the pushed links ([push_exact]); a
      generated response is delivered whole and its connection freed once, for
      every list of events, with the ones out of order that fault
      ([synth_delivers]); decoding what the transform wrote gives the body
      back, however it arrived ([stream_roundtrip]).
    - Building: only hosts a namespace may use enter the database
      ([built_hosts_permitted]), the backends of a path are exactly those of
      the service's endpoints ([backends_exact]), and the build terminates
      although it inserts into the table it iterates over ([build_total]).
    - Watching: the state after a line of the watch or a full fetch is the one
      the objects received say ([watch_line_refines], [resync_refines]),
      however the stream is cut into blocks ([watch_read_chunks]); whenever
      the thread waits, the database is the one of its cluster
      ([watcher_up_to_date]).  Requests verify the API server as configured
      ([requests_trusted]).
    - Authentication: addresses by prefix bits ([ipv4_in_network_prefix],
      [ipv6_in_network_prefix], [whitelist_decision]), passwords
      ([basic_auth_decision], [md5_hash_check], [sha_hash_check],
      [des_hash_check], [bcrypt_hash_check], [rfc2307_checks]), the SHA-2
      functions against their definition on whole messages ([sha2_streaming],
      [crypt_sha_refines]), DES and bcrypt against their textbook definitions
      ([crypt_des_is_des], [crypt_blowfish_is_bcrypt]), and the user database
      ([auth_secret_roundtrip]).
    - Data structures and codecs: the table refines a finite map
      ([hash_refines_map]), the cluster a map of maps
      ([cluster_refines_objects]), the radix tree a finite map
      ([rax_refines_map]) that an iteration goes through in the order of the
      keys ([rax_iteration]); the two builds of the table give their clients
      the same answers ([table_builds_agree]), and the one over the tree frees
      each value it owns once ([rhash_frees_once]); base64, patterns and domain patterns meet
      their declarative definitions.

    ** Bounds and fuel

    The fuel of each loop is the length of what is left to read, plus one (the
    lines of the watch, tokens, certificates of a chain), or the number of
    tables, buckets and namespaces that can still be visited (the build); the
    totality theorems show that it is enough.  [strmatch] gets the length of
    the pattern plus three, a step of the tree iterator twice the number of
    nodes.  The encoder loops of [Stream] take their fuel as an
    argument; the theorem names the amount from which it suffices, a measure
    of what the encoder still has to write.  Integers are [Z]; where the C code relies on a
    width (the FNV hash, [atoi], netmasks, the lengths in the cache key, ports)
    the wrap-around is written out.

    ** Not modelled

    The functions that print a radix tree for debugging, and the backward
    iteration over it beyond its definitions (no code of the repository uses
    it); the MD5 and SHA-1 of libcrypto (parameters of [Crypt]); the inside of zlib and of
    the contributed brotli (interfaces of [Stream]); libcurl, json-c, OpenSSL
    and Traffic Server, whose reports are inputs and whose calls are outputs;
    the tail-queue macros, whose lists are lists here; freeing of memory except
    where a theorem is about it. *)

From Stdlib Require Export Ascii ZArith Lia.
From stdpp Require Export base tactics list gmap strings.

(** * Bytes and C strings

    A [char] is an [ascii], i.e. eight bits; a NUL-terminated C string is the
    list of its characters without the terminator, and a buffer of known size
    is the list of its bytes. *)
Abbreviation byte := ascii (only parsing).
Abbreviation bytes := (list ascii).

Declare Scope c_scope.
Delimit Scope c_scope with C.

(** A C string literal. *)
Definition lit (s : string) : bytes := String.list_ascii_of_string s.

(** The value of a byte as an [unsigned char], and the conversion of an
    integer to [unsigned char] (modulo 256). *)
Definition u8 (c : ascii) : Z := Z.of_N (N_of_ascii c).
Definition of_u8 (z : Z) : ascii := ascii_of_N (Z.to_N (z mod 256)).

(** The value of a [char] where [char] is signed. *)
Definition s8 (c : ascii) : Z := if (u8 c <? 128)%Z then u8 c else (u8 c - 256)%Z.

(** Wrap-around of the unsigned and signed integer types. *)
Definition wrapu (w : Z) (z : Z) : Z := z mod 2 ^ w.
Definition wraps (w : Z) (z : Z) : Z := (z + 2 ^ (w - 1)) mod 2 ^ w - 2 ^ (w - 1).

Definition NUL : ascii := "000"%char.
Definition no_nul (s : bytes) : Prop := NUL ∉ s.

#[global] Instance no_nul_dec s : Decision (no_nul s).
Proof. unfold no_nul. apply _. Defined.

(** [strcmp (a, b) == 0] on C strings. *)
Definition streq (a b : bytes) : bool := bool_decide (a = b).

(** * Faults

    What the code does outside the defined behaviour of C, or a loop it never
    leaves, is a [Fault]; everything else is an [Ok]. *)
Inductive fault :=
  | NullDeref       (* a NULL pointer is dereferenced *)
  | OutOfBounds     (* a read or write outside the object *)
  | Uninitialised   (* an uninitialised object is read *)
  | Diverges        (* a loop whose condition stays true forever *)
  | DivZero         (* an integer division by zero *)
  | ShiftRange      (* a shift by a negative or too large count *)
  | AssertFail      (* assert () or abort () *)
  | UseAfterFree    (* a freed object is used *)
  | DataRace        (* two threads use an object at once, and one writes it *)
  | Misaligned.     (* a word is read at an address that is not aligned *)

Inductive cres (A : Type) :=
  | Ok (a : A)
  | Fault (f : fault).
Arguments Ok {A} a.
Arguments Fault {A} f.

#[global] Instance fault_eq_dec : EqDecision fault.
Proof. solve_decision. Defined.
#[global] Instance cres_eq_dec {A} `{EqDecision A} : EqDecision (cres A).
Proof. solve_decision. Defined.

#[global] Instance cres_ret : MRet cres := λ A a, Ok a.
#[global] Instance cres_bind : MBind cres := λ A B f m,
  match m with Ok a => f a | Fault e => Fault e end.
#[global] Instance cres_fmap : FMap cres := λ A B f m,
  match m with Ok a => Ok (f a) | Fault e => Fault e end.

#[global] Instance Ok_inj {A} : Inj (=) (=) (@Ok A).
Proof. by intros a b [= ->]. Qed.

Definition okb {A} (m : cres A) : bool := match m with Ok _ => true | Fault _ => false end.

(** Dereference of a pointer that may be NULL. *)
Definition deref {A} (p : option A) : cres A :=
  match p with Some a => Ok a | None => Fault NullDeref end.

(** A [for] loop over the elements of an array or list, threading a state. *)
Fixpoint foldC {A B} (f : B → A → cres B) (l : list A) (b : B) : cres B :=
  match l with
  | [] => Ok b
  | a :: l => b' ← f b a; foldC f l b'
  end.

(** An element of an array, and an assignment to one. *)
Definition arr_get {A} (l : list A) (i : nat) : cres A :=
  match l !! i with Some a => Ok a | None => Fault OutOfBounds end.
Definition arr_set {A} (l : list A) (i : nat) (a : A) : cres (list A) :=
  if (i <? length l)%nat then Ok (<[i := a]> l) else Fault OutOfBounds.

(** [s[i]] for a string, whose terminator is its last character. *)
Definition char_at (s : bytes) (i : nat) : cres ascii := arr_get (s ++ [NUL]) i.

(** * Splitting a list at the first element that satisfies a test *)
Section span.
Context {A : Type} (p : A → bool).

Fixpoint take_while (l : list A) : list A :=
  match l with
  | [] => []
  | a :: l => if p a then a :: take_while l else []
  end.

Fixpoint drop_while (l : list A) : list A :=
  match l with
  | [] => []
  | a :: l' => if p a then drop_while l' else l
  end.

Lemma take_drop_while l : take_while l ++ drop_while l = l.
Proof. induction l as [|a l IH]; simpl; [done|]. destruct (p a); simpl; by rewrite ?IH. Qed.

Lemma take_while_Forall l : Forall (λ a, p a = true) (take_while l).
Proof. induction l as [|a l IH]; simpl; [done|]. destruct (p a) eqn:?; by constructor. Qed.

Lemma take_while_all l : Forall (λ a, p a = true) l → take_while l = l.
Proof. induction 1 as [|a l Ha _ IH]; simpl; [done|]. by rewrite Ha, IH. Qed.

Lemma drop_while_all l : Forall (λ a, p a = true) l → drop_while l = [].
Proof. induction 1 as [|a l Ha _ IH]; simpl; [done|]. by rewrite Ha. Qed.

Lemma length_take_while l : length (take_while l) ≤ length l.
Proof. induction l as [|a l IH]; simpl; [done|]. destruct (p a); simpl; lia. Qed.

Lemma length_drop_while l : length (drop_while l) ≤ length l.
Proof. induction l as [|a l IH]; simpl; [done|]. destruct (p a); simpl; lia. Qed.

Lemma drop_while_head l a l' : drop_while l = a :: l' → p a = false.
Proof.
  induction l as [|b l IH]; simpl; [done|].
  destruct (p b) eqn:Hb; [done|]. intros ?; by simplify_eq.
Qed.

Lemma take_while_app l a k :
  Forall (λ a, p a = true) l → p a = false → take_while (l ++ a :: k) = l.
Proof. induction 1 as [|b l Hb _ IH]; simpl; intros Ha; [by rewrite Ha|]. rewrite Hb. by rewrite IH. Qed.

Lemma drop_while_app l a k :
  Forall (λ a, p a = true) l → p a = false → drop_while (l ++ a :: k) = a :: k.
Proof. induction 1 as [|b l Hb _ IH]; simpl; intros Ha; [by rewrite Ha|]. rewrite Hb. by apply IH. Qed.
End span.

(** * Lemmas on bytes *)
Lemma u8_range c : (0 ≤ u8 c < 256)%Z.
Proof. unfold u8. pose proof (N_ascii_bounded c). lia. Qed.

Lemma of_u8_u8 c : of_u8 (u8 c) = c.
Proof.
  unfold of_u8. rewrite Z.mod_small by apply u8_range.
  unfold u8. by rewrite N2Z.id, ascii_N_embedding.
Qed.

Lemma u8_of_u8 z : u8 (of_u8 z) = (z mod 256)%Z.
Proof.
  unfold u8, of_u8. pose proof (Z.mod_pos_bound z 256 eq_refl).
  rewrite N_ascii_embedding by lia. lia.
Qed.

#[global] Instance u8_inj : Inj (=) (=) u8.
Proof. intros a b H. by rewrite <- (of_u8_u8 a), H, of_u8_u8. Qed.

Lemma streq_true a b : streq a b = true ↔ a = b.
Proof. apply bool_decide_eq_true. Qed.
Lemma streq_false a b : streq a b = false ↔ a ≠ b.
Proof. apply bool_decide_eq_false. Qed.
Lemma streq_refl a : streq a a = true.
Proof. by apply streq_true. Qed.

Lemma wrapu_range w z : (0 ≤ w)%Z → (0 ≤ wrapu w z < 2 ^ w)%Z.
Proof. intros. apply Z.mod_pos_bound. lia. Qed.
Lemma wrapu_id w z : (0 ≤ z < 2 ^ w)%Z → wrapu w z = z.
Proof. apply Z.mod_small. Qed.

(** All 256 bytes, for the proofs by exhaustive evaluation. *)
Definition all_bytes : list ascii := (λ n, ascii_of_nat n) <$> seq 0 256.

Lemma all_bytes_complete c : c ∈ all_bytes.
Proof.
  unfold all_bytes. rewrite list_elem_of_fmap. exists (nat_of_ascii c).
  rewrite ascii_nat_embedding. split; [done|].
  apply elem_of_seq. pose proof (nat_ascii_bounded c). lia.
Qed.

Lemma forall_bytes (P : ascii → bool) :
  forallb P all_bytes = true → ∀ c, P c = true.
Proof.
  intros H c. rewrite forallb_forall in H. apply H, list_elem_of_In, all_bytes_complete.
Qed.

(** * Lemmas on lists *)
Lemma cons_eq {A} (a b : A) l k : a :: l = b :: k ↔ a = b ∧ l = k.
Proof. naive_solver. Qed.

(** * Lemmas on bit operations *)
Lemma forall_range (n : nat) (P : Z → bool) :
  forallb (λ i, P (Z.of_nat i)) (seq 0 n) = true → ∀ z, (0 ≤ z < Z.of_nat n)%Z → P z = true.
Proof.
  intros H z Hz. rewrite forallb_forall in H. rewrite <- (Z2Nat.id z) by lia.
  apply H, list_elem_of_In, elem_of_seq. lia.
Qed.

(** [|] of two words that share no bit is their sum. *)
Lemma lor_add a b k : (0 ≤ k)%Z → (0 ≤ a < 2 ^ k)%Z → Z.lor a (b * 2 ^ k) = (a + b * 2 ^ k)%Z.
Proof.
  intros Hk Ha. assert (Hl : Z.land a (b * 2 ^ k) = 0%Z).
  { apply Z.bits_inj'. intros n Hn. rewrite Z.land_spec, Z.bits_0.
    destruct (decide (n < k)%Z).
    - rewrite Z.mul_pow2_bits_low by lia. apply andb_false_r.
    - rewrite <- (Z.mod_small a (2 ^ k)) by done. by rewrite Z.mod_pow2_bits_high by lia. }
  by rewrite <- Z.lxor_lor, Z.add_nocarry_lxor.
Qed.

Lemma lor_add_swap a b k : (0 ≤ k)%Z → (0 ≤ a < 2 ^ k)%Z → Z.lor (b * 2 ^ k) a = (a + b * 2 ^ k)%Z.
Proof. intros. rewrite Z.lor_comm. by apply lor_add. Qed.

(** * Lemmas on the fault monad *)
Lemma bind_ok {A B} (a : A) (f : A → cres B) : (Ok a ≫= f) = f a.
Proof. done. Qed.

Lemma foldC_app {A B} (f : B → A → cres B) l k b :
  foldC f (l ++ k) b = (foldC f l b ≫= foldC f k).
Proof.
  revert b; induction l as [|a l IH]; intros b; [done|]. simpl.
  destruct (f b a); simpl; [apply IH|done].
Qed.

Lemma foldC_step {A B} (f : B → A → cres B) a l b b' : f b a = Ok b' → foldC f (a :: l) b = foldC f l b'.
Proof. intros H. cbn. by rewrite H. Qed.

(** An invariant that every iteration preserves (and under which no iteration
    faults) holds after the loop. *)
Lemma foldC_inv {A B} (I : B → Prop) (f : B → A → cres B) l b :
  I b → (∀ b a, a ∈ l → I b → ∃ b', f b a = Ok b' ∧ I b') →
  ∃ b', foldC f l b = Ok b' ∧ I b'.
Proof.
  revert b; induction l as [|a l IH]; intros b Hb Hf; simpl; [by eauto|].
  destruct (Hf b a) as (b' & -> & Hb'); [set_solver|done|]. simpl.
  apply IH; [done|]. intros; apply Hf; set_solver.
Qed.

(** A loop none of whose iterations faults does not fault. *)
Lemma foldC_total {A B} (f : B → A → cres B) l b :
  (∀ b a, a ∈ l → ∃ b', f b a = Ok b') → ∃ b', foldC f l b = Ok b'.
Proof.
  intros Hf. destruct (foldC_inv (λ _, True) f l b) as (b' & Hb & _); [done| |by eauto].
  intros b1 a Ha _. destruct (Hf b1 a Ha) as [b2 Hb2]. eauto.
Qed.

(** Partial-correctness form: whatever the loop returns satisfies [I]. *)
Lemma foldC_post {A B} (I : B → Prop) (f : B → A → cres B) l b b' :
  I b → (∀ b a b', a ∈ l → I b → f b a = Ok b' → I b') →
  foldC f l b = Ok b' → I b'.
Proof.
  revert b; induction l as [|a l IH]; intros b Hb Hf; simpl.
  - intros ?; by simplify_eq.
  - destruct (f b a) as [b1|] eqn:E; simpl; [|done].
    apply IH; [by apply (Hf b a); [left|..]|].
    intros b2 a2 b3 ?; apply Hf; by right.
Qed.

(** A loop that simulates a fold of the specification step by step. *)
Lemma foldC_sim {A B C} (R : B → C → Prop) (f : B → A → cres B) (g : C → A → C) l b c :
  R b c → (∀ b c a, a ∈ l → R b c → ∃ b', f b a = Ok b' ∧ R b' (g c a)) →
  ∃ b', foldC f l b = Ok b' ∧ R b' (foldl g c l).
Proof.
  revert b c; induction l as [|a l IH]; intros b c Hb Hf; simpl; [by eauto|].
  destruct (Hf b c a) as (b' & -> & Hb'); [set_solver|done|]. simpl.
  apply IH; [done|]. intros; apply Hf; set_solver.
Qed.

Lemma foldC_fmap {A A' B} (f : B → A → cres B) (h : A' → A) l b : foldC f (h <$> l) b = foldC (λ b a, f b (h a)) l b.
Proof. revert b; induction l as [|a l IH]; intros b; [done|]. simpl. destruct (f b (h a)); [apply IH|done]. Qed.

Lemma foldC_pure {A B} (f : B → A → B) l b :
  foldC (λ b a, Ok (f b a)) l b = Ok (foldl f b l).
Proof. revert b; induction l as [|a l IH]; intros b; [done|]. simpl. apply IH. Qed.

Lemma arr_get_ok {A} (l : list A) i a : l !! i = Some a → arr_get l i = Ok a.
Proof. unfold arr_get. by intros ->. Qed.
Lemma arr_set_ok {A} (l : list A) i a : (i < length l)%nat → arr_set l i a = Ok (<[i := a]> l).
Proof. intros Hi. unfold arr_set. by rewrite (proj2 (Nat.ltb_lt _ _) Hi). Qed.

(** * Automation *)

(** Bit positions as numerals. *)
Ltac eval_positions :=
  repeat match goal with |- context [Z.testbit ?x ?n] =>
    lazymatch n with Z0 => fail | Zpos _ => fail | Zneg _ => fail
    | _ => let m := eval vm_compute in n in change (Z.testbit x n) with (Z.testbit x m) end end.

(** The bit at a position that is a numeral, through masks and shifts. *)
Ltac bit_at :=
  eval_positions;
  repeat (first [match goal with |- context [Z.testbit ?x (Zneg ?n)] => rewrite (Z.testbit_neg_r x (Zneg n)) by lia end
                | rewrite Z.land_spec | rewrite Z.lor_spec | rewrite Z.shiftl_spec by lia | rewrite Z.shiftr_spec by lia];
          eval_positions);
  repeat match goal with |- context [Z.testbit (Zpos ?x) ?n] => 
    let b := eval vm_compute in (Z.testbit (Zpos x) n) in change (Z.testbit (Zpos x) n) with b end;
  rewrite ?andb_true_r, ?andb_false_r, ?andb_false_l, ?orb_false_r, ?orb_false_l.

(** Rewriting of the monad and of decided string tests. *)
Create HintDb c_db.
#[export] Hint Rewrite streq_refl @take_drop_while of_u8_u8 : c_db.
#[export] Hint Resolve u8_range : c_db.

(** Break the tests of the goal, keeping the equations. *)
Ltac case_tests :=
  repeat match goal with
  | |- context [if ?b then _ else _] => destruct b eqn:?
  | |- context [match ?x with Some _ => _ | None => _ end] => destruct x eqn:?
  end.

(** Take apart a hypothesis [... = Ok _] about a monadic computation. *)
Ltac inv_ok H :=
  repeat (
    simpl in H;
    match type of H with
    | (mbind _ ?m) = Ok _ => destruct m eqn:?; simpl in H; [|discriminate H]
    | (match ?x with _ => _ end) = Ok _ => destruct x eqn:?; simpl in H; try discriminate H
    | Ok _ = Ok _ => injection H as H; try subst
    | Fault _ = Ok _ => discriminate H
    end).

Ltac str_tests :=
  repeat match goal with
  | H : streq _ _ = true |- _ => apply streq_true in H
  | H : streq _ _ = false |- _ => apply streq_false in H
  end.
