(* ===== verification/CString.v ===== *)
(** The C library's string functions as the program uses them: searching and
    cutting ([strchr], [index], [memchr]), tokenising ([strtok_r], [strsep]),
    ordering ([strcmp]), character classes ([isspace], [tolower]) and decimal
    conversions ([atoi], [strtoul], [%d]).

    A loop over tokens is the iteration of the library call, with enough fuel
    for the length of its argument; the lemmas show the fuel is enough and
    relate the loops to a structural split. *)

From stdpp Require Import sorting.
From S2P Require Import Prelude.

Local Open Scope Z_scope.

(** * Definitions *)

(** [isspace] and [tolower] in the C locale. *)
Definition isspace (c : ascii) : bool :=
  bool_decide (u8 c = 32) || bool_decide (9 ≤ u8 c ≤ 13).
Definition isdigit (c : ascii) : bool := bool_decide (48 ≤ u8 c ≤ 57).
Definition tolower (c : ascii) : ascii :=
  if bool_decide (65 ≤ u8 c ≤ 90) then of_u8 (u8 c + 32) else c.

(** [strchr (s, c)]: the text before the first [c] and the text after it (the
    callers overwrite that [c] with a NUL or step past it). *)
Fixpoint cut (c : ascii) (s : bytes) : option (bytes * bytes) :=
  match s with
  | [] => None
  | x :: s' =>
      if bool_decide (x = c) then Some ([], s')
      else match cut c s' with
           | Some (a, b) => Some (x :: a, b)
           | None => None
           end
  end.

(** A buffer read as a C string: what precedes its first NUL. *)
Definition c_str (b : bytes) : bytes := take_while (λ c, negb (bool_decide (c = NUL))) b.

Definition is_delim (delim : bytes) (c : ascii) : bool := bool_decide (c ∈ delim).
Definition non_delim (delim : bytes) (c : ascii) : bool := negb (is_delim delim c).

(** [strtok_r]: the next token and the saved pointer, or [None] for NULL. *)
Definition strtok_r (delim s : bytes) : option (bytes * bytes) :=
  match drop_while (is_delim delim) s with
  | [] => None
  | s' => Some (take_while (non_delim delim) s', drop 1 (drop_while (non_delim delim) s'))
  end.

(** [for (p = strtok_r (s, delim, &r); p; p = strtok_r (NULL, delim, &r))] *)
Fixpoint strtok_loop (fuel : nat) (delim s : bytes) : list bytes :=
  match fuel with
  | O => []
  | S fuel =>
      match strtok_r delim s with
      | None => []
      | Some (tok, rest) => tok :: strtok_loop fuel delim rest
      end
  end.
Definition strtok_all (delim s : bytes) : list bytes :=
  strtok_loop (S (length s)) delim s.

(** [strsep]: the token up to the next delimiter, and the rest ([None] when
    the string pointer becomes NULL). *)
Definition strsep (delim : bytes) (s : option bytes) : option (bytes * option bytes) :=
  match s with
  | None => None
  | Some s =>
      Some (take_while (non_delim delim) s,
            match drop_while (non_delim delim) s with
            | [] => None
            | _ :: rest => Some rest
            end)
  end.

(** [while ((p = strsep (&s, delim)) != NULL)] *)
Fixpoint strsep_loop (fuel : nat) (delim : bytes) (s : option bytes) : list bytes :=
  match fuel with
  | O => []
  | S fuel =>
      match strsep delim s with
      | None => []
      | Some (tok, rest) => tok :: strsep_loop fuel delim rest
      end
  end.
Definition strsep_all (delim s : bytes) : list bytes :=
  strsep_loop (S (S (length s))) delim (Some s).

(** [strcmp], as the difference of the first differing characters. *)
Fixpoint strcmp (a b : bytes) : Z :=
  match a, b with
  | [], [] => 0
  | [], y :: _ => - u8 y
  | x :: _, [] => u8 x
  | x :: a, y :: b =>
      if bool_decide (x = y) then if bool_decide (x = NUL) then 0 else strcmp a b
      else u8 x - u8 y
  end.

(** [strncmp (s, p, strlen (p)) == 0] *)
Definition has_prefix (p s : bytes) : bool := bool_decide (take (length p) s = p).

(** Accumulation of a run of decimal digits. *)
Fixpoint digits_val (acc : Z) (s : bytes) : Z :=
  match s with
  | [] => acc
  | c :: s => if isdigit c then digits_val (acc * 10 + (u8 c - 48)) s else acc
  end.

(** [atoi]: blanks, an optional sign, digits; the [long] result of [strtol]
    saturates and is then truncated to [int]. *)
Definition atoi (s : bytes) : Z :=
  let clamp z := Z.max (- 2 ^ 63) (Z.min z (2 ^ 63 - 1)) in
  wraps 32 (clamp
    match drop_while isspace s with
    | [] => 0
    | c :: s' =>
        if bool_decide (c = "-"%char) then - digits_val 0 s'
        else if bool_decide (c = "+"%char) then digits_val 0 s'
        else digits_val 0 (c :: s')
    end).

(** [strtoul (s, &endp, 10)]: the value and [endp].  Without a digit [endp] is
    [s]; a value that does not fit saturates, and a sign negates modulo 2^64. *)
Definition strtoul (s : bytes) : Z * bytes :=
  let t := drop_while isspace s in
  let neg := bool_decide (head t = Some "-"%char) in
  let t := if neg || bool_decide (head t = Some "+"%char) then drop 1 t else t in
  let v := digits_val 0 t in
  if bool_decide (take_while isdigit t = []) then (0, s)
  else (if 2 ^ 64 <=? v then 2 ^ 64 - 1 else if neg then wrapu 64 (- v) else v, drop_while isdigit t).

(** [%d] of [printf]. *)
Definition digit (d : Z) : ascii := of_u8 (48 + d).
Fixpoint fmt_digits (fuel : nat) (z : Z) : bytes :=
  match fuel with
  | O => []
  | S fuel => if bool_decide (z < 10) then [digit z]
              else fmt_digits fuel (z / 10) ++ [digit (z mod 10)]
  end.
Definition fmt_d (z : Z) : bytes :=
  if bool_decide (z < 0) then "-"%char :: fmt_digits 20 (- z) else fmt_digits 20 z.

(** The structural split at every delimiter, the reference for both
    tokenisers. *)
Fixpoint split (delim s : bytes) : list bytes :=
  match s with
  | [] => [[]]
  | c :: s =>
      if is_delim delim c then [] :: split delim s
      else match split delim s with
           | [] => [[c]]
           | t :: ts => (c :: t) :: ts
           end
  end.

(** * Cutting *)
Lemma cut_Some c s a b : cut c s = Some (a, b) ↔ s = a ++ c :: b ∧ c ∉ a.
Proof.
  revert a b; induction s as [|x s IH]; intros a b; simpl.
  { split; [done|]. intros [H _]. by destruct a. }
  case_bool_decide; subst.
  - split.
    + intros; simplify_eq. split; [done|]. apply not_elem_of_nil.
    + intros [H Ha]. destruct a; simplify_eq/=; [done|]. set_solver.
  - destruct (cut c s) as [[a' b']|] eqn:E.
    + assert (s = a' ++ c :: b' ∧ c ∉ a') as [-> ?] by by apply IH.
      split.
      * intros; simplify_eq. split; [done|]. set_solver.
      * intros [H' Ha]. destruct a as [|y a]; simplify_eq/=.
        assert (a' = a ∧ b' = b) as [-> ->]; [|done].
        assert (Some (a', b') = Some (a, b)); [|by simplify_eq].
        apply IH. split; [done|set_solver].
    + split; [done|]. intros [H' Ha]. destruct a as [|y a]; simplify_eq/=.
      assert (None = Some (a, b)) by (apply IH; split; [done|set_solver]). done.
Qed.

Lemma cut_None c s : cut c s = None ↔ c ∉ s.
Proof.
  induction s as [|x s IH]; simpl; [split; [intros _; apply not_elem_of_nil|done]|].
  case_bool_decide; subst; [split; [done|set_solver]|].
  destruct (cut c s) as [[]|]; split; try done; set_solver.
Qed.

Lemma cut_app c a b : c ∉ a → cut c (a ++ c :: b) = Some (a, b).
Proof. intros. by apply cut_Some. Qed.

Lemma c_str_no_nul b : no_nul (c_str b).
Proof.
  unfold no_nul, c_str. intros H.
  pose proof (take_while_Forall (λ c, negb (bool_decide (c = NUL))) b) as HF.
  rewrite Forall_forall in HF. specialize (HF _ H). by rewrite bool_decide_eq_true_2 in HF.
Qed.

Lemma no_nul_Forall s : no_nul s ↔ Forall (λ c, negb (bool_decide (c = NUL)) = true) s.
Proof.
  unfold no_nul. rewrite Forall_forall. split.
  - intros H c Hc. case_bool_decide; [|done]. by subst.
  - intros H HN. specialize (H _ HN). by rewrite bool_decide_eq_true_2 in H.
Qed.

Lemma c_str_id s : no_nul s → c_str s = s.
Proof. intros. apply take_while_all. by apply no_nul_Forall. Qed.

Lemma c_str_app_nul s b : no_nul s → c_str (s ++ NUL :: b) = s.
Proof. intros. apply take_while_app; [by apply no_nul_Forall|]. by rewrite bool_decide_eq_true_2. Qed.

(** * Tokenisers *)
Lemma non_delim_is_delim delim c : non_delim delim c = negb (is_delim delim c).
Proof. done. Qed.

Lemma split_nonempty delim s : split delim s ≠ [].
Proof. destruct s as [|c s]; simpl; [done|]. destruct (is_delim delim c); [done|]. by destruct (split delim s). Qed.

Lemma split_step delim s :
  split delim s =
    take_while (non_delim delim) s ::
    match drop_while (non_delim delim) s with [] => [] | _ :: rest => split delim rest end.
Proof.
  induction s as [|c s IH]; simpl; [done|]. rewrite non_delim_is_delim.
  destruct (is_delim delim c); simpl; [done|]. by rewrite IH.
Qed.

Lemma strsep_loop_split fuel delim s :
  (S (length s) < fuel)%nat → strsep_loop fuel delim (Some s) = split delim s.
Proof.
  revert s; induction fuel as [|fuel IH]; intros s Hf; [lia|]. simpl.
  rewrite split_step. f_equal.
  pose proof (length_drop_while (non_delim delim) s) as Hl.
  destruct (drop_while (non_delim delim) s) as [|c r]; simpl in *.
  - destruct fuel; [lia|done].
  - apply IH. lia.
Qed.

(** The [strsep] loop is the split at every delimiter. *)
Lemma strsep_all_split delim s : strsep_all delim s = split delim s.
Proof. apply strsep_loop_split. lia. Qed.

Definition nonempty (t : bytes) : Prop := t ≠ [].
#[global] Instance nonempty_dec t : Decision (nonempty t).
Proof. unfold nonempty. apply _. Defined.

Lemma filter_split_skip delim s :
  filter nonempty (split delim s) = filter nonempty (split delim (drop_while (is_delim delim) s)).
Proof.
  induction s as [|c s IH]; [done|]. simpl.
  destruct (is_delim delim c) eqn:E; [by rewrite filter_cons|].
  simpl. by rewrite E.
Qed.

Lemma strtok_loop_split fuel delim s :
  (length s < fuel)%nat → strtok_loop fuel delim s = filter nonempty (split delim s).
Proof.
  revert s; induction fuel as [|fuel IH]; intros s Hf; [lia|]. simpl.
  rewrite filter_split_skip. unfold strtok_r.
  pose proof (length_drop_while (is_delim delim) s) as Hl.
  destruct (drop_while (is_delim delim) s) as [|c r] eqn:E; [done|].
  apply drop_while_head in E.
  assert (Hnd : non_delim delim c = true) by by rewrite non_delim_is_delim, E.
  rewrite split_step. simpl. rewrite Hnd. rewrite filter_cons, decide_True by done.
  f_equal. pose proof (length_drop_while (non_delim delim) r) as Hr. simpl in Hl.
  destruct (drop_while (non_delim delim) r) as [|d r']; simpl in *.
  - destruct fuel; [lia|]. simpl. done.
  - rewrite drop_0. apply IH. lia.
Qed.

(** The [strtok_r] loop returns the non-empty fields. *)
Lemma strtok_all_split delim s : strtok_all delim s = filter nonempty (split delim s).
Proof. apply strtok_loop_split. lia. Qed.

Lemma split_no_delim delim s t c : t ∈ split delim s → c ∈ delim → c ∉ t.
Proof.
  revert t; induction s as [|x s IH]; simpl; intros t Ht Hc.
  { apply list_elem_of_singleton in Ht as ->. apply not_elem_of_nil. }
  unfold is_delim in *. case_bool_decide.
  { apply elem_of_cons in Ht as [->|Ht]; [apply not_elem_of_nil|eauto]. }
  destruct (split delim s) as [|t0 ts] eqn:E; [by apply split_nonempty in E|].
  apply elem_of_cons in Ht as [->|Ht]; [|apply IH; [by right|done]].
  apply not_elem_of_cons. split; [by intros ->|]. apply IH; [by left|done].
Qed.

Lemma split_chars delim s t c : t ∈ split delim s → c ∈ t → c ∈ s.
Proof.
  revert t; induction s as [|x s IH]; simpl; intros t Ht Hc.
  { apply list_elem_of_singleton in Ht as ->. by apply elem_of_nil in Hc. }
  destruct (is_delim delim x).
  { apply elem_of_cons in Ht as [->|Ht]; [by apply elem_of_nil in Hc|]. right. eauto. }
  destruct (split delim s) as [|t0 ts] eqn:E; [by apply split_nonempty in E|].
  apply elem_of_cons in Ht as [->|Ht]; [|right; eapply IH; [by right|done]].
  apply elem_of_cons in Hc as [->|Hc]; [by left|]. right. eapply IH; [by left|done].
Qed.

Lemma strtok_all_no_delim delim s t c : t ∈ strtok_all delim s → c ∈ delim → c ∉ t.
Proof. rewrite strtok_all_split, list_elem_of_filter. intros [_ ?]. by eapply split_no_delim. Qed.

Lemma strtok_all_nonempty delim s t : t ∈ strtok_all delim s → t ≠ [].
Proof. rewrite strtok_all_split, list_elem_of_filter. by intros [? _]. Qed.

Lemma strtok_all_no_nul delim s t : no_nul s → t ∈ strtok_all delim s → no_nul t.
Proof.
  unfold no_nul. rewrite strtok_all_split, list_elem_of_filter. intros Hs [_ Ht] HN.
  by eapply Hs, split_chars.
Qed.

(** Joining fields that hold no delimiter and splitting again is the
    identity. *)
Lemma split_app_delim delim t c s :
  Forall (λ x, x ∉ delim) t → c ∈ delim → split delim (t ++ c :: s) = t :: split delim s.
Proof.
  induction 1 as [|x t Hx _ IH]; intros Hc; simpl; unfold is_delim in *.
  - by rewrite bool_decide_eq_true_2.
  - rewrite bool_decide_eq_false_2 by done. by rewrite IH.
Qed.

Lemma split_no_delim_id delim t : Forall (λ x, x ∉ delim) t → split delim t = [t].
Proof.
  induction 1 as [|x t Hx _ IH]; simpl; [done|]. unfold is_delim.
  rewrite bool_decide_eq_false_2 by done. by rewrite IH.
Qed.

(** * Ordering *)
Lemma strcmp_refl a : strcmp a a = 0.
Proof. induction a as [|x a IH]; simpl; [done|]. rewrite bool_decide_eq_true_2 by done. by case_bool_decide. Qed.

Lemma strcmp_antisym a b : strcmp b a = - strcmp a b.
Proof.
  revert b; induction a as [|x a IH]; intros [|y b]; simpl; [done|lia|lia|].
  repeat case_bool_decide; subst; try done. lia.
Qed.

Lemma strcmp_0 a b : no_nul a → no_nul b → strcmp a b = 0 → a = b.
Proof.
  unfold no_nul.
  revert b; induction a as [|x a IH]; intros [|y b] Ha Hb; simpl; intros H.
  - done.
  - assert (y = NUL) as -> by (apply u8_inj; change (u8 NUL) with 0; lia). set_solver.
  - assert (x = NUL) as -> by (apply u8_inj; change (u8 NUL) with 0; lia). set_solver.
  - case_bool_decide; subst.
    { case_bool_decide; [set_solver|]. f_equal; apply IH; set_solver. }
    assert (x = y) by (apply u8_inj; lia). done.
Qed.

Definition strle (a b : bytes) : Prop := strcmp a b ≤ 0.
#[global] Instance strle_dec : RelDecision strle.
Proof. intros a b. unfold strle. apply _. Defined.
#[global] Instance strle_total : Total strle.
Proof. intros a b. unfold strle. rewrite (strcmp_antisym a b). lia. Qed.
#[global] Instance strle_trans : Transitive strle.
Proof.
  unfold strle. intros a. induction a as [|x a IH]; intros [|y b] [|z c]; simpl;
    repeat match goal with c : ascii |- _ => unless (0 ≤ u8 c < 256) by assumption; pose proof (u8_range c) end;
    try lia.
  all: repeat case_bool_decide; subst; try lia; try done; eauto.
  all: change (u8 NUL) with 0 in *; intros; exfalso;
    match goal with
    | H : ?p ≠ ?q |- _ => apply H, u8_inj; change (u8 NUL) with 0; lia
    end.
Qed.

(** [qsort] with [strcmp] as its comparison. *)
Definition qsort_str (l : list bytes) : list bytes := merge_sort strle l.

Lemma has_prefix_app p s : has_prefix p (p ++ s) = true.
Proof. unfold has_prefix. apply bool_decide_eq_true. by rewrite take_app_length. Qed.

(** * Decimal conversions *)
Lemma digits_val_app acc a b :
  Forall (λ c, isdigit c = true) a → digits_val acc (a ++ b) = digits_val (digits_val acc a) b.
Proof. intros H; revert acc; induction H as [|c a Hc _ IH]; intros acc; simpl; [done|]. by rewrite Hc. Qed.

Lemma digit_val d : 0 ≤ d < 10 → u8 (digit d) = 48 + d.
Proof. intros. unfold digit. rewrite u8_of_u8. apply Z.mod_small. lia. Qed.
Lemma isdigit_digit d : 0 ≤ d < 10 → isdigit (digit d) = true.
Proof. intros. apply bool_decide_eq_true. rewrite digit_val by lia. lia. Qed.

Lemma fmt_digits_spec fuel z :
  0 ≤ z < 10 ^ Z.of_nat fuel → (0 < fuel)%nat →
  Forall (λ c, isdigit c = true) (fmt_digits fuel z) ∧ digits_val 0 (fmt_digits fuel z) = z
  ∧ fmt_digits fuel z ≠ [].
Proof.
  revert z; induction fuel as [|fuel IH]; intros z Hz Hf; [lia|]. simpl.
  case_bool_decide.
  - rewrite Forall_singleton. split_and!; [apply isdigit_digit; lia| |done].
    simpl. rewrite isdigit_digit, digit_val by lia. lia.
  - destruct fuel as [|fuel']; [simpl in Hz; lia|].
    assert (0 ≤ z / 10 < 10 ^ Z.of_nat (S fuel')).
    { rewrite Nat2Z.inj_succ, Z.pow_succ_r in Hz by lia.
      split; [apply Z.div_pos; lia|apply Z.div_lt_upper_bound; lia]. }
    destruct (IH (z / 10)) as (Hd & Hv & Hn); [lia|lia|].
    pose proof (Z.mod_pos_bound z 10 eq_refl).
    split_and!.
    + apply Forall_app. split; [done|]. apply Forall_singleton, isdigit_digit. lia.
    + rewrite digits_val_app, Hv by done. cbn [digits_val].
      rewrite isdigit_digit, digit_val by lia. pose proof (Z.div_mod z 10). lia.
    + intros Happ. apply app_nil in Happ as [_ ?]. done.
Qed.

Lemma wraps_id w z : 0 < w → - 2 ^ (w - 1) ≤ z < 2 ^ (w - 1) → wraps w z = z.
Proof.
  intros Hw Hz. unfold wraps. rewrite Z.mod_small; [lia|].
  replace (2 ^ w) with (2 * 2 ^ (w - 1)); [lia|].
  rewrite <- Z.pow_succ_r by lia. f_equal. lia.
Qed.

Lemma isdigit_head c : isdigit c = true → isspace c = false ∧ c ≠ "-"%char ∧ c ≠ "+"%char.
Proof.
  intros Hc. apply bool_decide_eq_true in Hc. unfold isspace.
  rewrite !bool_decide_eq_false_2 by lia.
  split; [done|]. split; intros ->; vm_compute in Hc; destruct Hc; done.
Qed.

(** Printing an [int] and reading it back. *)
Lemma atoi_fmt_d z : - 2 ^ 31 ≤ z < 2 ^ 31 → atoi (fmt_d z) = z.
Proof.
  intros Hz. unfold atoi, fmt_d. case_bool_decide.
  - destruct (fmt_digits_spec 20 (- z)) as (_ & Hv & _); [lia|lia|].
    cbn [drop_while]. change (isspace "-"%char) with false. cbv iota.
    rewrite bool_decide_eq_true_2, Hv by done. rewrite wraps_id; lia.
  - destruct (fmt_digits_spec 20 z) as (Hd & Hv & Hn); [lia|lia|].
    destruct (fmt_digits 20 z) as [|c ds]; [done|].
    apply Forall_cons in Hd as [(Hs & Hm & Hp)%isdigit_head _]. cbn [drop_while].
    rewrite Hs, !bool_decide_eq_false_2, Hv by done. rewrite wraps_id; lia.
Qed.

Lemma atoi_int32 s : - 2 ^ 31 ≤ atoi s < 2 ^ 31.
Proof.
  unfold atoi, wraps. change (32 - 1) with 31.
  match goal with |- context [?a mod ?b] => pose proof (Z.mod_pos_bound a b eq_refl) end. lia.
Qed.

(** Printing a [size_t] and reading it back in front of other text. *)
Lemma digits_val_stop acc a b :
  Forall (λ c, isdigit c = true) a → head b = None ∨ isdigit (default NUL (head b)) = false →
  digits_val acc (a ++ b) = digits_val acc a.
Proof.
  intros Ha Hb. rewrite digits_val_app by done. destruct b as [|c b]; [done|]. destruct Hb as [?|Hb]; [done|].
  simpl in *. by rewrite Hb.
Qed.

Lemma strtoul_fmt z c rest :
  0 ≤ z < 10 ^ 19 → isdigit c = false → strtoul (fmt_d z ++ c :: rest) = (z, c :: rest).
Proof.
  intros Hz Hc. unfold fmt_d. rewrite bool_decide_eq_false_2 by lia. unfold strtoul.
  destruct (fmt_digits_spec 20 z) as (Hd & Hv & Hn); [lia|lia|].
  destruct (fmt_digits 20 z) as [|d ds]; [done|].
  assert (Hd' := Hd). apply Forall_cons in Hd' as [(Hs & Hm & Hp)%isdigit_head _].
  cbn [app drop_while]. rewrite Hs. cbn [head].
  rewrite !(bool_decide_eq_false_2 (Some d = _)) by congruence. cbn [orb].
  rewrite app_comm_cons, take_while_app, drop_while_app by done.
  rewrite bool_decide_eq_false_2 by done. rewrite digits_val_stop, Hv by (done || by right).
  rewrite (proj2 (Z.leb_gt _ _)) by lia. done.
Qed.
