(* ===== verification/Hash.v ===== *)
(** [util/hash.c]: the chained hash table every other component stores its
    data in (the [HASH_USE_RAX == 0] build, which is the one [hash.h] selects).

    A table is its array of chains, newest entry first.  [hash_set] always
    prepends, so a key can have several entries: the abstraction of a table is
    the stack of values of each key ([hash_stack]), with [hash_get] reading
    its top, [hash_set] pushing and [hash_del] popping.  Under the discipline
    of the callers (a key is set when absent, or deleted and then set) the
    stacks have at most one element and the table refines a finite map
    ([hash_models]). *)

From S2P Require Import Prelude CString.

Create HintDb hash_db.

Local Open Scope Z_scope.

(** * Data *)

(** [hb_key] holds the [hb_keylen] bytes [strndup] copied; [hb_next] is the
    rest of the list the entry is in. *)
Record hashbucket (V : Type) := HashBucket {
  hb_key : bytes;
  hb_keylen : nat;
  hb_value : V;
}.
Arguments HashBucket {V}.
Arguments hb_key {V}.
Arguments hb_keylen {V}.
Arguments hb_value {V}.

(** [hs_free_fn] records whether the table owns its values. *)
Record hash (V : Type) := Hash {
  hs_size : nat;
  hs_free_fn : bool;
  hs_buckets : list (list (hashbucket V));
}.
Arguments Hash {V}.
Arguments hs_size {V}.
Arguments hs_free_fn {V}.
Arguments hs_buckets {V}.

(** A table used as a set stores [HASH_PRESENT] for every key. *)
Abbreviation hashset := (hash unit).
Abbreviation HASH_PRESENT := (Some tt).

(** The iterator: the bucket number and the entry last returned with those
    after it in its chain ([[]] for the NULL pointer). *)
Record hash_iter_state (V : Type) := HashIter {
  it_i : nat;
  it_p : list (hashbucket V);
}.
Arguments HashIter {V}.
Arguments it_i {V}.
Arguments it_p {V}.

(** * Operations *)
Definition FNV_32_PRIME : Z := 0x01000193.
Definition FNV1_32_INIT : Z := 0x811c9dc5.

Fixpoint fnv32_loop (hval : Z) (s : bytes) : Z :=
  match s with
  | [] => hval
  | c :: s => fnv32_loop (Z.lxor (wrapu 32 (hval * FNV_32_PRIME)) (u8 c)) s
  end.
Definition fnv32 (s : bytes) : Z := fnv32_loop FNV1_32_INIT s.

Section ops.
Context {V : Type}.
Implicit Types (h : hash V) (b : hashbucket V) (st : hash_iter_state V).

Definition hash_new (sz : nat) (freefn : bool) : hash V :=
  {| hs_size := sz; hs_free_fn := freefn; hs_buckets := replicate sz [] |}.

Definition bucket_number h (key : bytes) : nat :=
  Z.to_nat (fnv32 key mod Z.of_nat (hs_size h)).

Definition bucket h (bn : nat) : list (hashbucket V) := default [] (hs_buckets h !! bn).

(** [hb->hb_keylen == keylen && memcmp (hb->hb_key, key, keylen) == 0] *)
Definition key_matches (key : bytes) b : bool :=
  bool_decide (hb_keylen b = length key) && bool_decide (take (length key) (hb_key b) = key).

Definition set_bucket h (bn : nat) (chain : list (hashbucket V)) : hash V :=
  {| hs_size := hs_size h; hs_free_fn := hs_free_fn h;
     hs_buckets := <[bn := chain]> (hs_buckets h) |}.

(** The copy of the key that [strndup] makes is the whole key: the keys are C
    strings, which contain no NUL. *)
Definition hash_setn h (key : bytes) (value : V) : hash V :=
  let bn := bucket_number h key in
  let newb := {| hb_key := key; hb_keylen := length key; hb_value := value |} in
  set_bucket h bn (newb :: bucket h bn).

Definition hash_set h (key : bytes) (value : V) : hash V := hash_setn h key value.

Fixpoint chain_get (key : bytes) (chain : list (hashbucket V)) : option V :=
  match chain with
  | [] => None
  | hb :: next => if key_matches key hb then Some (hb_value hb) else chain_get key next
  end.

Definition hash_getn h (key : bytes) : option V :=
  chain_get key (bucket h (bucket_number h key)).
Definition hash_get h (key : bytes) : option V := hash_getn h key.

(** The entry is unlinked from its chain; its value is not passed to the free
    function. *)
Fixpoint chain_del (key : bytes) (chain : list (hashbucket V)) : list (hashbucket V) :=
  match chain with
  | [] => []
  | hb :: next => if negb (key_matches key hb) then hb :: chain_del key next else next
  end.

Definition hash_deln h (key : bytes) : hash V :=
  let bn := bucket_number h key in set_bucket h bn (chain_del key (bucket h bn)).
Definition hash_del h (key : bytes) : hash V := hash_deln h key.

(** [hash_free]: the values handed to the free function, in order. *)
Definition hash_free h : list V :=
  if hs_free_fn h then flat_map (λ chain, hb_value <$> chain) (hs_buckets h) else [].

Fixpoint chain_find (fn : bytes → V → bool) (chain : list (hashbucket V)) : option V :=
  match chain with
  | [] => None
  | b :: next => if fn (hb_key b) (hb_value b) then Some (hb_value b) else chain_find fn next
  end.
Fixpoint buckets_find (fn : bytes → V → bool) (bs : list (list (hashbucket V))) : option V :=
  match bs with
  | [] => None
  | chain :: bs =>
      match chain_find fn chain with Some v => Some v | None => buckets_find fn bs end
  end.
Definition hash_find h (fn : bytes → V → bool) : option V := buckets_find fn (hs_buckets h).

(** The [for] loop of [hash_iterate]: the next non-empty bucket from [i] on,
    among the [n] that are left. *)
Fixpoint iter_scan h (n i : nat) : option (hashbucket V) * hash_iter_state V :=
  match n with
  | O => (None, HashIter i [])
  | S n =>
      match bucket h i with
      | [] => iter_scan h n (S i)
      | b :: next => (Some b, HashIter i (b :: next))
      end
  end.

Definition hash_iterate h st : option (hashbucket V) * hash_iter_state V :=
  if (hs_size h <=? it_i st)%nat then (None, st)
  else match it_p st with
  | _ :: b :: next => (Some b, HashIter (it_i st) (b :: next))
  | [_] => iter_scan h (hs_size h - S (it_i st)) (S (it_i st))
  | [] => iter_scan h (hs_size h - it_i st) (it_i st)
  end.

Definition iter_start : hash_iter_state V := HashIter 0 [].

Fixpoint iterate_all (fuel : nat) h st : list (hashbucket V) :=
  match fuel with
  | O => []
  | S fuel =>
      match hash_iterate h st with
      | (None, _) => []
      | (Some b, st') => b :: iterate_all fuel h st'
      end
  end.

(** Number of entries, the bound on the iterations of a loop. *)
Definition hash_count h : nat := length (concat (hs_buckets h)).

(** [hash_foreach (HASH, KEY, KEYLEN, VALUE)]: the entries in the order the
    loop body sees them. *)
Definition hash_foreach h : list (hashbucket V) := iterate_all (S (hash_count h)) h iter_start.

(** The abstraction: the values stored under a key, newest first. *)
Definition chain_stack (key : bytes) (chain : list (hashbucket V)) : list V :=
  hb_value <$> filter (λ b, key_matches key b = true) chain.
Definition hash_stack h (key : bytes) : list V :=
  chain_stack key (bucket h (bucket_number h key)).
End ops.

(** The values of a table are pointers: a client that holds the pointer
    [hash_get] returned and changes the object behind it changes the newest
    entry of the key in place. *)
Fixpoint chain_alter {V} (key : bytes) (f : V → V) (chain : list (hashbucket V)) : list (hashbucket V) :=
  match chain with
  | [] => []
  | b :: next =>
      if key_matches key b
      then HashBucket (hb_key b) (hb_keylen b) (f (hb_value b)) :: next
      else b :: chain_alter key f next
  end.
Definition hash_alter {V} (h : hash V) (key : bytes) (f : V → V) : hash V :=
  let bn := bucket_number h key in set_bucket h bn (chain_alter key f (bucket h bn)).

(** Adding keys to a set, as the [strtok_r]/[strsep] loops of the callers do. *)
Definition hashset_add (h : hashset) (key : bytes) : hashset := hash_set h key tt.
Definition hashset_of (sz : nat) (keys : list bytes) : hashset :=
  foldl hashset_add (hash_new sz false) keys.

(** * Well-formedness *)

(** Every entry is in the chain its key hashes to, and records its length. *)
Definition entry_wf {V} (h : hash V) (bn : nat) (b : hashbucket V) : Prop :=
  hb_keylen b = length (hb_key b) ∧ bucket_number h (hb_key b) = bn.
Record hash_wf {V} (h : hash V) : Prop := {
  wf_size : (0 < hs_size h)%nat;
  wf_length : length (hs_buckets h) = hs_size h;
  wf_entries : ∀ bn b, b ∈ bucket h bn → entry_wf h bn b;
}.

Section lemmas.
Context {V : Type}.
Implicit Types (h : hash V) (b : hashbucket V) (st : hash_iter_state V).

Lemma fnv32_range s : 0 ≤ fnv32 s < 2 ^ 32.
Proof.
  unfold fnv32. assert (0 ≤ FNV1_32_INIT < 2 ^ 32) as H by (vm_compute; intuition discriminate).
  revert H. generalize FNV1_32_INIT. induction s as [|c s IH]; intros z Hz; [done|]. simpl.
  apply IH. pose proof (wrapu_range 32 (z * FNV_32_PRIME) ltac:(lia)) as Hw.
  pose proof (u8_range c). split; [apply Z.lxor_nonneg; lia|].
  destruct (decide (Z.lxor (wrapu 32 (z * FNV_32_PRIME)) (u8 c) = 0)) as [->|Hne]; [lia|].
  apply Z.log2_lt_pow2; [pose proof (Z.lxor_nonneg (wrapu 32 (z * FNV_32_PRIME)) (u8 c)); lia|].
  eapply Z.le_lt_trans; [apply Z.log2_lxor; lia|].
  assert (Hlog : ∀ x, 0 ≤ x < 2 ^ 32 → Z.log2 x < 32).
  { intros x Hx. destruct (decide (x = 0)) as [->|]; [by vm_compute|]. apply Z.log2_lt_pow2; lia. }
  pose proof (Hlog (wrapu 32 (z * FNV_32_PRIME))). pose proof (Hlog (u8 c)). lia.
Qed.

Lemma bucket_number_lt h key : (0 < hs_size h)%nat → (bucket_number h key < hs_size h)%nat.
Proof.
  intros. unfold bucket_number.
  pose proof (Z.mod_pos_bound (fnv32 key) (Z.of_nat (hs_size h))). lia.
Qed.

Lemma bucket_set_bucket h bn chain i :
  (bn < length (hs_buckets h))%nat →
  bucket (set_bucket h bn chain) i = if decide (i = bn) then chain else bucket h i.
Proof.
  intros. unfold bucket, set_bucket; simpl. case_decide as Hi; [subst i|].
  - by rewrite list_lookup_insert_eq.
  - by rewrite list_lookup_insert_ne.
Qed.

Lemma bucket_number_set_bucket h bn chain key :
  bucket_number (set_bucket h bn chain) key = bucket_number h key.
Proof. done. Qed.

Lemma key_matches_wf h bn b key :
  entry_wf h bn b → key_matches key b = bool_decide (hb_key b = key).
Proof.
  intros [Hl _]. unfold key_matches. rewrite Hl.
  repeat case_bool_decide; simplify_eq/=; try done.
  - rewrite take_ge in H0 by lia. done.
  - by rewrite take_ge in H0.
Qed.

Lemma key_matches_new key key' (v : V) :
  key_matches key {| hb_key := key'; hb_keylen := length key'; hb_value := v |}
  = bool_decide (key' = key).
Proof.
  unfold key_matches; simpl. repeat case_bool_decide; simplify_eq/=; try done.
  - rewrite take_ge in H0 by lia. done.
  - by rewrite take_ge in H0.
Qed.

Lemma chain_get_stack key chain : chain_get (V:=V) key chain = head (chain_stack key chain).
Proof.
  unfold chain_stack. induction chain as [|b chain IH]; simpl; [done|].
  rewrite filter_cons. by destruct (key_matches key b).
Qed.

Lemma chain_del_stack key chain : chain_stack (V:=V) key (chain_del key chain) = tail (chain_stack key chain).
Proof.
  unfold chain_stack. induction chain as [|b chain IH]; simpl; [done|].
  rewrite (filter_cons _ b). destruct (key_matches key b) eqn:E; simpl; [done|].
  by rewrite filter_cons, E.
Qed.

Lemma chain_del_subset key chain b : b ∈ chain_del (V:=V) key chain → b ∈ chain.
Proof.
  induction chain as [|b' chain IH]; simpl; [done|].
  destruct (key_matches key b'); simpl; set_solver.
Qed.

Lemma hash_new_wf sz ff : (0 < sz)%nat → hash_wf (hash_new (V:=V) sz ff).
Proof.
  intros. split; simpl; [done|apply length_replicate|].
  intros bn b. unfold bucket; simpl. destruct (replicate sz [] !! bn) eqn:E; simpl.
  - apply lookup_replicate in E as [-> _]. by intros ?%elem_of_nil.
  - by intros ?%elem_of_nil.
Qed.

Lemma set_bucket_wf h bn chain :
  hash_wf h → (bn < hs_size h)%nat → (∀ b, b ∈ chain → entry_wf h bn b) →
  hash_wf (set_bucket h bn chain).
Proof.
  intros [Hs Hl He] Hbn Hc. split; simpl; [done|by rewrite length_insert|].
  intros i b. rewrite bucket_set_bucket by lia. case_decide; subst; [apply Hc|apply He].
Qed.

Lemma hash_set_wf h key v : hash_wf h → hash_wf (hash_set h key v).
Proof.
  intros H. apply set_bucket_wf; [done|apply bucket_number_lt, H|].
  intros b [->|Hb]%elem_of_cons; [done|by apply (wf_entries h)].
Qed.

Lemma hash_del_wf h key : hash_wf h → hash_wf (hash_del h key).
Proof.
  intros H. apply set_bucket_wf; [done|apply bucket_number_lt, H|].
  intros b Hb. by apply (wf_entries h); [|apply chain_del_subset in Hb].
Qed.

Lemma hash_get_stack h key : hash_get h key = head (hash_stack h key).
Proof. apply chain_get_stack. Qed.

Lemma hash_stack_new sz ff key : hash_stack (hash_new (V:=V) sz ff) key = [].
Proof.
  unfold hash_stack, bucket; simpl. destruct (_ !! _) eqn:E; simpl; [|done].
  by apply lookup_replicate in E as [-> _].
Qed.

(** The stack of a key after an update of one chain. *)
Lemma hash_stack_set_bucket h bn chain key :
  hash_wf h → (bn < hs_size h)%nat →
  hash_stack (set_bucket h bn chain) key =
    if decide (bucket_number h key = bn) then chain_stack key chain else hash_stack h key.
Proof.
  intros [_ Hl _] Hbn. unfold hash_stack at 1. rewrite bucket_number_set_bucket.
  rewrite bucket_set_bucket by lia. by case_decide.
Qed.

Lemma hash_stack_set h key key' v :
  hash_wf h →
  hash_stack (hash_set h key v) key' =
    if decide (key = key') then v :: hash_stack h key' else hash_stack h key'.
Proof.
  intros Hwf. unfold hash_set, hash_setn.
  rewrite hash_stack_set_bucket by (done || apply bucket_number_lt, Hwf).
  unfold chain_stack at 1. rewrite filter_cons, key_matches_new.
  destruct (decide (key = key')) as [->|Hne].
  - rewrite !decide_True by (done || by apply bool_decide_eq_true_2). done.
  - case_decide as Hb; [|done]. rewrite decide_False by (rewrite bool_decide_eq_false_2; done).
    unfold hash_stack. by rewrite Hb.
Qed.

(** Entries of other keys are untouched by the removal from a chain. *)
Lemma chain_stack_del_ne h key key' chain bn :
  (∀ b, b ∈ chain → entry_wf h bn b) → key ≠ key' →
  chain_stack key' (chain_del key chain) = chain_stack key' chain.
Proof.
  intros He Hne. unfold chain_stack. induction chain as [|b chain IH]; simpl; [done|].
  assert (Hb : entry_wf h bn b) by (apply He; by left).
  rewrite (key_matches_wf h bn b key) by done. rewrite (filter_cons _ b).
  rewrite (key_matches_wf h bn b key') by done.
  case_bool_decide; simpl.
  - subst key. rewrite (bool_decide_eq_false_2 (hb_key b = key')) by done. by rewrite decide_False.
  - rewrite filter_cons, (key_matches_wf h bn b key') by done.
    assert (IH' := IH (λ b0 Hin, He b0 (list_elem_of_further _ _ _ Hin))).
    case_decide; [|done]. cbn. by f_equal.
Qed.

Lemma hash_stack_del h key key' :
  hash_wf h →
  hash_stack (hash_del h key) key' =
    if decide (key = key') then tail (hash_stack h key') else hash_stack h key'.
Proof.
  intros Hwf. unfold hash_del, hash_deln.
  rewrite hash_stack_set_bucket by (done || apply bucket_number_lt, Hwf).
  destruct (decide (key = key')) as [->|Hne].
  - rewrite decide_True by done. apply chain_del_stack.
  - case_decide as Hb; [|done].
    erewrite chain_stack_del_ne; [| |done]; [|by apply (wf_entries h)].
    unfold hash_stack. by rewrite Hb.
Qed.
End lemmas.

(** * Refinement of a finite map *)

(** The table holds exactly the bindings of [m], each once. *)
Record hash_models {V} (h : hash V) (m : gmap bytes V) : Prop := {
  hm_wf : hash_wf h;
  hm_stack : ∀ key, hash_stack h key = option_list (m !! key);
}.

(** [hash_del] then [hash_set], the [namespace_put_*] idiom. *)
Definition hash_put {V} (h : hash V) (key : bytes) (v : V) : hash V :=
  hash_set (hash_del h key) key v.

Section models.
Context {V : Type}.
Implicit Types (h : hash V) (m : gmap bytes V).

Lemma hash_models_new sz ff : (0 < sz)%nat → hash_models (hash_new (V:=V) sz ff) ∅.
Proof. intros. split; [by apply hash_new_wf|]. intros. by rewrite hash_stack_new, lookup_empty. Qed.

Lemma hash_models_get h m key : hash_models h m → hash_get h key = m !! key.
Proof. intros [_ H]. rewrite hash_get_stack, H. by destruct (m !! key). Qed.

Lemma hash_models_set h m key v :
  hash_models h m → m !! key = None → hash_models (hash_set h key v) (<[key:=v]> m).
Proof.
  intros [Hwf H] Hn. split; [by apply hash_set_wf|]. intros key'.
  rewrite hash_stack_set, H, lookup_insert by done. case_decide; [subst key'|done]. by rewrite Hn.
Qed.

Lemma hash_models_del h m key : hash_models h m → hash_models (hash_del h key) (delete key m).
Proof.
  intros [Hwf H]. split; [by apply hash_del_wf|]. intros key'.
  rewrite hash_stack_del, H, lookup_delete by done. case_decide; [subst key'|done]. by destruct (m !! key).
Qed.

Lemma hash_models_put h m key v : hash_models h m → hash_models (hash_put h key v) (<[key:=v]> m).
Proof.
  intros H. unfold hash_put. rewrite <- insert_delete_eq.
  apply hash_models_set; [by apply hash_models_del|apply lookup_delete_eq].
Qed.

(** A lookup after [hash_set], with or without an earlier entry. *)
Lemma hash_get_set h key key' v :
  hash_wf h →
  hash_get (hash_set h key v) key' = if decide (key = key') then Some v else hash_get h key'.
Proof. intros. rewrite !hash_get_stack, hash_stack_set by done. by case_decide. Qed.
End models.

Section alter.
Context {V : Type}.
Implicit Types (h : hash V) (m : gmap bytes V).

Lemma chain_alter_wf h bn key f chain :
  (∀ b, b ∈ chain → entry_wf h bn b) → ∀ b, b ∈ chain_alter key f chain → entry_wf h bn b.
Proof.
  induction chain as [|b0 chain IH]; simpl; intros He b; [apply He|].
  destruct (key_matches key b0); intros [->|Hb]%elem_of_cons.
  - apply (He b0). by left.
  - apply He. by right.
  - apply He. by left.
  - apply IH; [|done]. intros; apply He; by right.
Qed.

Lemma chain_alter_stack h bn key key' f chain :
  (∀ b, b ∈ chain → entry_wf h bn b) →
  chain_stack key' (chain_alter key f chain) =
    if decide (key = key') then match chain_stack key' chain with v :: l => f v :: l | [] => [] end
    else chain_stack key' chain.
Proof.
  intros He. unfold chain_stack. induction chain as [|b chain IH]; [by case_decide|].
  assert (Hb : entry_wf h bn b) by (apply He; by left).
  specialize (IH (λ b0 Hin, He b0 (list_elem_of_further _ _ _ Hin))). simpl.
  assert (Hm : ∀ k (v : V), key_matches k (HashBucket (hb_key b) (hb_keylen b) v) = key_matches k b) by done.
  destruct (key_matches key b) eqn:E; rewrite !filter_cons, ?Hm.
  - rewrite (key_matches_wf h bn b key), bool_decide_eq_true in E by done. subst key.
    rewrite (key_matches_wf h bn b key') by done.
    destruct (decide (hb_key b = key')) as [->|Hne].
    + by rewrite bool_decide_eq_true_2, decide_True by done.
    + by rewrite bool_decide_eq_false_2, decide_False by done.
  - destruct (decide (key = key')) as [<-|Hne].
    + rewrite E, !decide_False by done. by rewrite IH.
    + case_decide; [cbn; by rewrite IH|by rewrite IH].
Qed.

Lemma hash_alter_wf h key f : hash_wf h → hash_wf (hash_alter h key f).
Proof.
  intros H. apply set_bucket_wf; [done|apply bucket_number_lt, H|].
  apply chain_alter_wf, (wf_entries h H).
Qed.

Lemma hash_stack_alter h key key' f :
  hash_wf h →
  hash_stack (hash_alter h key f) key' =
    if decide (key = key') then match hash_stack h key' with v :: l => f v :: l | [] => [] end
    else hash_stack h key'.
Proof.
  intros Hwf. unfold hash_alter.
  rewrite hash_stack_set_bucket by (done || apply bucket_number_lt, Hwf).
  erewrite chain_alter_stack by apply (wf_entries h Hwf). unfold hash_stack.
  destruct (decide (key = key')) as [->|Hne]; [by rewrite decide_True|].
  case_decide as Hb; [|done]. by rewrite Hb.
Qed.

Lemma hash_models_alter h m key f :
  hash_models h m → hash_models (hash_alter h key f) (alter f key m).
Proof.
  intros [Hwf H]. split; [by apply hash_alter_wf|]. intros key'.
  rewrite hash_stack_alter, H, lookup_alter by done.
  case_decide; [subst key'|done]. by destruct (m !! key).
Qed.
End alter.

(** * Iteration *)
Section iteration.
Context {V : Type}.
Implicit Types (h : hash V) (b : hashbucket V) (st : hash_iter_state V).

(** What the iterator has still to return. *)
Definition iter_rest h st : list (hashbucket V) :=
  if (hs_size h <=? it_i st)%nat then []
  else match it_p st with
  | _ :: next => next ++ concat (drop (S (it_i st)) (hs_buckets h))
  | [] => concat (drop (it_i st) (hs_buckets h))
  end.

Lemma iter_scan_rest h n i :
  length (hs_buckets h) = hs_size h → (i + n = hs_size h)%nat →
  match iter_scan h n i with
  | (None, st) => concat (drop i (hs_buckets h)) = []
  | (Some b, st) => concat (drop i (hs_buckets h)) = b :: iter_rest h st
  end.
Proof.
  intros Hl. revert i; induction n as [|n IH]; intros i Hi; simpl.
  { rewrite drop_ge by lia. done. }
  unfold bucket. destruct (lookup_lt_is_Some_2 (hs_buckets h) i) as [chain Hc]; [lia|].
  rewrite Hc; simpl. rewrite (drop_S _ chain) by done.
  destruct chain as [|b next]; simpl.
  - apply IH. lia.
  - unfold iter_rest; simpl. rewrite (proj2 (Nat.leb_gt _ _)) by lia. done.
Qed.

Lemma hash_iterate_rest h st :
  length (hs_buckets h) = hs_size h →
  match hash_iterate h st with
  | (None, st') => iter_rest h st = []
  | (Some b, st') => iter_rest h st = b :: iter_rest h st'
  end.
Proof.
  intros Hl. unfold hash_iterate.
  destruct (hs_size h <=? it_i st)%nat eqn:Hi; [unfold iter_rest; by rewrite Hi|].
  assert (Hr : iter_rest h st = match it_p st with
    | _ :: next => next ++ concat (drop (S (it_i st)) (hs_buckets h))
    | [] => concat (drop (it_i st) (hs_buckets h)) end) by (unfold iter_rest; by rewrite Hi).
  assert (it_i st < hs_size h)%nat by by apply Nat.leb_gt.
  destruct (it_p st) as [|b0 [|b next]]; rewrite Hr.
  - by apply iter_scan_rest; [|lia].
  - by apply iter_scan_rest; [|lia].
  - unfold iter_rest; simpl. by rewrite Hi.
Qed.

Lemma iterate_all_rest fuel h st :
  length (hs_buckets h) = hs_size h → (length (iter_rest h st) < fuel)%nat →
  iterate_all fuel h st = iter_rest h st.
Proof.
  intros Hl. revert st; induction fuel as [|fuel IH]; intros st Hf; [lia|]. simpl.
  pose proof (hash_iterate_rest h st Hl) as Hr.
  destruct (hash_iterate h st) as [[b|] st']; [|done].
  rewrite Hr in Hf |- *. simpl in Hf. f_equal. apply IH. lia.
Qed.

(** The [hash_foreach] loop ends and sees every entry once, chain by chain. *)
Lemma hash_foreach_concat h : hash_wf h → hash_foreach h = concat (hs_buckets h).
Proof.
  intros [Hs Hl _]. unfold hash_foreach.
  assert (Hr : iter_rest h iter_start = concat (hs_buckets h)).
  { unfold iter_rest; simpl. rewrite (proj2 (Nat.leb_gt _ _)) by done. by rewrite drop_0. }
  rewrite iterate_all_rest; [done|done|]. rewrite Hr. unfold hash_count. lia.
Qed.

Lemma elem_of_concat_buckets h b : hash_wf h → b ∈ concat (hs_buckets h) ↔ b ∈ bucket h (bucket_number h (hb_key b)).
Proof.
  intros Hwf. rewrite list_elem_of_In, in_concat. setoid_rewrite <- list_elem_of_In. split.
  - intros (chain & Hc & Hb). apply list_elem_of_lookup in Hc as [i Hi].
    assert (Hbi : b ∈ bucket h i) by (unfold bucket; by rewrite Hi).
    by rewrite (proj2 (wf_entries h Hwf i b Hbi)).
  - unfold bucket. destruct (_ !! _) as [chain|] eqn:E; simpl; [|by intros ?%elem_of_nil].
    intros. exists chain. split; [|done]. by eapply list_elem_of_lookup_2.
Qed.

(** A key is seen by the loop iff it is in the table. *)
Lemma elem_of_stack h key v :
  hash_wf h →
  v ∈ hash_stack h key ↔ ∃ b, b ∈ hash_foreach h ∧ hb_key b = key ∧ hb_value b = v.
Proof.
  intros Hwf. rewrite hash_foreach_concat by done.
  unfold hash_stack, chain_stack. rewrite list_elem_of_fmap. split.
  - intros (b & -> & [Hk Hb]%list_elem_of_filter).
    assert (He := wf_entries h Hwf _ _ Hb).
    rewrite (key_matches_wf _ _ _ _ He), bool_decide_eq_true in Hk. subst key.
    exists b. split; [|done]. by apply elem_of_concat_buckets.
  - intros (b & Hb & <- & <-). apply elem_of_concat_buckets in Hb; [|done].
    exists b. split; [done|]. apply list_elem_of_filter. split; [|done].
    rewrite (key_matches_wf _ _ _ _ (wf_entries h Hwf _ _ Hb)). by apply bool_decide_eq_true.
Qed.

Lemma hash_get_Some_foreach h key v :
  hash_wf h → hash_get h key = Some v →
  ∃ b, b ∈ hash_foreach h ∧ hb_key b = key ∧ hb_value b = v.
Proof.
  intros Hwf. rewrite hash_get_stack. intros H. apply elem_of_stack; [done|].
  destruct (hash_stack h key); simplify_eq/=. by left.
Qed.

Lemma hash_get_None_foreach h key :
  hash_wf h → hash_get h key = None ↔ ∀ b, b ∈ hash_foreach h → hb_key b ≠ key.
Proof.
  intros Hwf. rewrite hash_get_stack. split.
  - intros H b Hb <-. assert (Hv : hb_value b ∈ hash_stack h (hb_key b)) by (apply elem_of_stack; eauto).
    destruct (hash_stack h (hb_key b)); [by apply elem_of_nil in Hv|done].
  - intros H. destruct (hash_stack h key) as [|v l] eqn:E; [done|exfalso].
    assert (Hv : v ∈ hash_stack h key) by (rewrite E; by left).
    apply elem_of_stack in Hv as (b & Hb & Hk & _); [|done]. by apply (H b).
Qed.
End iteration.

(** * Sets of strings *)
Lemma hashset_add_wf h key : hash_wf h → hash_wf (hashset_add h key).
Proof. apply hash_set_wf. Qed.

Lemma hashset_get_add h key key' :
  hash_wf h → hash_get (hashset_add h key) key' = if decide (key = key') then HASH_PRESENT else hash_get h key'.
Proof. apply hash_get_set. Qed.

Lemma foldl_hashset_add h keys :
  hash_wf h →
  hash_wf (foldl hashset_add h keys) ∧
  ∀ key, hash_get (foldl hashset_add h keys) key = HASH_PRESENT ↔ key ∈ keys ∨ hash_get h key = HASH_PRESENT.
Proof.
  revert h; induction keys as [|k keys IH]; intros h Hwf; simpl; [set_solver|].
  destruct (IH (hashset_add h k)) as [H1 H2]; [by apply hashset_add_wf|]. split; [done|].
  intros key. rewrite H2, hashset_get_add, elem_of_cons by done. case_decide; naive_solver.
Qed.

Lemma hashset_of_wf sz keys : (0 < sz)%nat → hash_wf (hashset_of sz keys).
Proof. intros. by apply foldl_hashset_add, hash_new_wf. Qed.

Lemma hashset_of_get sz keys key :
  (0 < sz)%nat → hash_get (hashset_of sz keys) key = HASH_PRESENT ↔ key ∈ keys.
Proof.
  intros. unfold hashset_of. rewrite (proj2 (foldl_hashset_add _ keys (hash_new_wf sz false H))).
  rewrite hash_get_stack, hash_stack_new. naive_solver.
Qed.

Lemma hashset_get_foreach (h : hashset) key :
  hash_wf h → hash_get h key = HASH_PRESENT ↔ key ∈ hb_key <$> hash_foreach h.
Proof.
  intros Hwf. rewrite list_elem_of_fmap. split.
  - intros (b & Hb & <- & _)%hash_get_Some_foreach; eauto.
  - intros (b & -> & Hb). destruct (hash_get h (hb_key b)) as [[]|] eqn:E; [done|].
    by destruct (proj1 (hash_get_None_foreach h _ Hwf) E b Hb).
Qed.

#[export] Hint Resolve hash_new_wf hash_set_wf hash_del_wf hashset_add_wf hashset_of_wf
  hash_models_new hash_models_del hash_models_put hash_models_alter hm_wf : hash_db.

(** * The bindings a loop sees *)
Definition hash_bindings {V} (h : hash V) : list (bytes * V) :=
  (λ b, (hb_key b, hb_value b)) <$> hash_foreach h.

Lemma filter_concat {A} (P : A → Prop) `{∀ x, Decision (P x)} (ls : list (list A)) :
  filter P (concat ls) = concat (filter P <$> ls).
Proof. induction ls as [|l ls IH]; simpl; [done|]. by rewrite filter_app, IH. Qed.

Lemma concat_all_nil {A} (ls : list (list A)) : (∀ l, l ∈ ls → l = []) → concat ls = [].
Proof.
  induction ls as [|l ls IH]; intros H; [done|]. simpl. rewrite (H l) by by left.
  apply IH. intros. apply H. by right.
Qed.

Lemma foreach_filter_key {V} (h : hash V) key :
  hash_wf h → hb_value <$> filter (λ b, hb_key b = key) (hash_foreach h) = hash_stack h key.
Proof.
  intros Hwf. rewrite hash_foreach_concat, filter_concat by done.
  set (bn := bucket_number h key).
  assert (Hbn : (bn < length (hs_buckets h))%nat)
    by (rewrite (wf_length h Hwf); by apply bucket_number_lt, Hwf).
  destruct (lookup_lt_is_Some_2 _ _ Hbn) as [chain Hc].
  assert (Hother : ∀ i c, hs_buckets h !! i = Some c → i ≠ bn → filter (λ b, hb_key b = key) c = []).
  { intros i c Hi Hne.
    destruct (filter _ c) as [|b l] eqn:E; [done|].
    assert (Hb : b ∈ filter (λ b, hb_key b = key) c) by (rewrite E; by left).
    apply list_elem_of_filter in Hb as [<- Hb].
    destruct Hne. symmetry. apply (wf_entries h Hwf i b). unfold bucket. by rewrite Hi. }
  rewrite <- (take_drop_middle _ _ _ Hc), fmap_app, fmap_cons, concat_app, concat_cons.
  rewrite (concat_all_nil (_ <$> take _ _)), (concat_all_nil (_ <$> drop _ _)), app_nil_r, app_nil_l.
  - unfold hash_stack, chain_stack, bucket. fold bn. rewrite Hc; simpl. f_equal.
    assert (He : ∀ b, b ∈ chain → entry_wf h bn b).
    { intros b Hb. apply (wf_entries h Hwf). unfold bucket. by rewrite Hc. }
    clear Hc. induction chain as [|b chain IH]; [done|]. rewrite !filter_cons.
    rewrite (key_matches_wf h bn) by (apply He; by left). rewrite IH by (intros; apply He; by right).
    by case_bool_decide; repeat case_decide.
  - intros l (c & -> & Hin)%list_elem_of_fmap. apply list_elem_of_lookup in Hin as [i Hi].
    rewrite lookup_drop in Hi. eapply Hother; [done|lia].
  - intros l (c & -> & Hin)%list_elem_of_fmap. apply list_elem_of_lookup in Hin as [i Hi].
    apply lookup_take_Some in Hi as [Hi ?]. eapply Hother; [done|lia].
Qed.

Lemma NoDup_keys {V} (l : list (hashbucket V)) :
  (∀ key, (length (filter (λ b, hb_key b = key) l) ≤ 1)%nat) → NoDup (hb_key <$> l).
Proof.
  induction l as [|b l IH]; intros H; simpl; constructor.
  - intros (b' & Hk & Hb)%list_elem_of_fmap. specialize (H (hb_key b)).
    rewrite filter_cons, decide_True in H by done. simpl in H.
    assert (Hin : b' ∈ filter (λ b0, hb_key b0 = hb_key b) l) by (by apply list_elem_of_filter).
    destruct (filter _ l); [by apply elem_of_nil in Hin|simpl in H; lia].
  - apply IH. intros key. specialize (H key). rewrite filter_cons in H. case_decide; simpl in H; lia.
Qed.

Lemma hash_models_bindings {V} (h : hash V) m :
  hash_models h m → hash_bindings h ≡ₚ map_to_list m.
Proof.
  intros [Hwf Hs]. unfold hash_bindings.
  assert (Hnd : NoDup (hb_key <$> hash_foreach h)).
  { apply NoDup_keys. intros key. rewrite <- (length_fmap hb_value), foreach_filter_key, Hs by done.
    destruct (m !! key); simpl; lia. }
  apply NoDup_Permutation.
  - apply (NoDup_fmap_1 fst). rewrite <- list_fmap_compose. done.
  - apply NoDup_map_to_list.
  - intros [k v]. rewrite list_elem_of_fmap, elem_of_map_to_list.
    assert (Hv : v ∈ option_list (m !! k) ↔ m !! k = Some v).
    { destruct (m !! k); simpl; set_solver. }
    rewrite <- Hv, <- Hs, elem_of_stack by done. naive_solver.
Qed.

(** * Properties *)

(** The operations the namespace tables go through. *)
Inductive map_op (V : Type) := Put (key : bytes) (v : V) | Del (key : bytes).
Arguments Put {V}.
Arguments Del {V}.

Definition hash_step {V} (h : hash V) (op : map_op V) : hash V :=
  match op with Put k v => hash_put h k v | Del k => hash_del h k end.
Definition map_step {V} (m : gmap bytes V) (op : map_op V) : gmap bytes V :=
  match op with Put k v => <[k:=v]> m | Del k => delete k m end.

Lemma hash_models_steps {V} (h : hash V) m ops :
  hash_models h m → hash_models (foldl hash_step h ops) (foldl map_step m ops).
Proof.
  revert h m; induction ops as [|[k v|k] ops IH]; intros h m Hm; simpl; [done| |];
    apply IH; auto with hash_db.
Qed.

(** C25. A table of any non-zero size that is filled by [hash_del]/[hash_set]
    pairs and emptied by [hash_del] refines a finite map: after any sequence
    of such operations every lookup returns the map's binding, and a
    [hash_foreach] loop ends and visits each binding exactly once. *)
Theorem hash_refines_map (V : Type) (n : nat) (ff : bool) (ops : list (map_op V)) :
  let h := foldl hash_step (hash_new (S n) ff) ops in
  let m := foldl map_step ∅ ops in
  (∀ key, hash_get h key = m !! key) ∧ hash_bindings h ≡ₚ map_to_list m.
Proof.
  intros h m. assert (Hm : hash_models h m).
  { apply hash_models_steps. apply hash_models_new. lia. }
  split; [intros; by apply hash_models_get|by apply hash_models_bindings].
Qed.

(** [hash_set] never replaces: it pushes a value above the earlier ones of
    its key and leaves every other key alone, [hash_get] reads the newest, and
    [hash_del] removes only the newest, so that the value it shadowed comes
    back. *)
Theorem hash_set_del_stack (V : Type) (h : hash V) (key key' : bytes) (v : V) :
  hash_wf h →
  hash_get (hash_set h key v) key = Some v ∧
  hash_stack (hash_set h key v) key = v :: hash_stack h key ∧
  hash_get (hash_del (hash_set h key v) key) key = hash_get h key ∧
  (key ≠ key' → hash_get (hash_set h key v) key' = hash_get h key' ∧
                hash_get (hash_del h key) key' = hash_get h key').
Proof.
  intros Hwf. rewrite !hash_get_stack, !hash_stack_del, !hash_stack_set by auto with hash_db.
  rewrite !decide_True by done. split_and!; [done..|].
  intros Hne. by rewrite !decide_False by done.
Qed.

Lemma hash_set_del_stack_witness :
  let h := hash_set (hash_new 7 false) (lit "k") 1%nat in
  hash_get (hash_del (hash_set h (lit "k") 2%nat) (lit "k")) (lit "k") = Some 1%nat.
Proof.
  intros h. destruct (hash_set_del_stack nat h (lit "k") (lit "k") 2%nat) as (_ & _ & H & _).
  - apply hash_set_wf, hash_new_wf. lia.
  - rewrite H. reflexivity.
Defined.
