(* ===== verification/Base64.v ===== *)
(** [util/base64.c]: base64 encoding and decoding, used for the credentials of
    HTTP basic authentication, the contents of Secrets and the cache key. *)

From S2P Require Import Prelude CString.

Local Open Scope Z_scope.

(** * Definitions *)

(** The size macros of [base64.h]. *)
Definition base64_encode_len (n : Z) : Z := 4 * ((n + 2) / 3).
Definition base64_decode_len (n : Z) : Z := 3 * ((n + 3) / 4).

Definition b64table : bytes :=
  lit "ABCDEFGHIJKLMNOPQRSTUVWXYZabcdefghijklmnopqrstuvwxyz0123456789+/".
Definition b64char (d : Z) : ascii := default NUL (b64table !! Z.to_nat d).

Definition b64untable (c : Z) : Z :=
  if (65 <=? c) && (c <=? 90) then c - 65
  else if (97 <=? c) && (c <=? 122) then (c - 97) + 26
  else if (48 <=? c) && (c <=? 57) then (c - 48) + 52
  else if c =? 43 then 62
  else if c =? 47 then 63
  else if c =? 61 then 0
  else -1.

(** The [switch (todo)] of the encoder, whose cases fall through: the four
    sextets of a group of [todo] input bytes. *)
Definition enc_d0 (i0 : Z) : Z := Z.shiftr (Z.land i0 0xFC) 2.
Definition enc_d1 (todo i0 i1 : Z) : Z :=
  let d1 := if 2 <=? todo then Z.lor 0 (Z.shiftr (Z.land i1 0xF0) 4) else 0 in
  Z.lor d1 (Z.shiftl (Z.land i0 0x03) 4).
Definition enc_d2 (todo i1 i2 : Z) : Z :=
  let d2 := if 3 <=? todo then Z.lor 0 (Z.shiftr (Z.land i2 0xC0) 6) else 0 in
  if 2 <=? todo then Z.lor d2 (Z.shiftl (Z.land i1 0x0F) 2) else d2.
Definition enc_d3 (todo i2 : Z) : Z := if 3 <=? todo then Z.lor 0 (Z.land i2 0x3F) else 0.

Definition eq_sign : ascii := "="%char.

Fixpoint base64_encode (inbuf : bytes) : bytes :=
  match inbuf with
  | [] => []
  | [a] =>
      [b64char (enc_d0 (u8 a)); b64char (enc_d1 1 (u8 a) 0); eq_sign; eq_sign]
  | [a; b] =>
      [b64char (enc_d0 (u8 a)); b64char (enc_d1 2 (u8 a) (u8 b));
       b64char (enc_d2 2 (u8 b) 0); eq_sign]
  | a :: b :: c :: inbuf =>
      [b64char (enc_d0 (u8 a)); b64char (enc_d1 3 (u8 a) (u8 b));
       b64char (enc_d2 3 (u8 b) (u8 c)); b64char (enc_d3 3 (u8 c))] ++ base64_encode inbuf
  end.

(** The three bytes decoded from a group of four characters. *)
Definition dec_d0 (p0 p1 : Z) : Z :=
  Z.lor (Z.shiftr (Z.land (b64untable p1) 0x30) 4) (Z.shiftl (b64untable p0) 2).
Definition dec_d1 (p1 p2 : Z) : Z :=
  Z.lor (Z.shiftr (Z.land (b64untable p2) 0x3C) 2) (Z.shiftl (Z.land (b64untable p1) 0x0F) 4).
Definition dec_d2 (p2 p3 : Z) : Z :=
  Z.lor (Z.land (b64untable p3) 0x3F) (Z.shiftl (Z.land (b64untable p2) 0x03) 6).

(** [base64_decode]: the bytes written to [outbuf], whose number is the result
    of the function; [None] for the result -1.  Fewer than four characters at
    the end are ignored. *)
Fixpoint base64_decode (p : bytes) : option bytes :=
  match p with
  | c0 :: c1 :: c2 :: c3 :: rest =>
      let p0 := u8 c0 in let p1 := u8 c1 in let p2 := u8 c2 in let p3 := u8 c3 in
      let padding := Nat.add (if p3 =? 61 then 1 else 0) (if p2 =? 61 then 1 else 0) in
      if (p1 =? 61) || (p0 =? 61) then None
      else if negb (padding =? 0)%nat && negb (bool_decide (rest = [])) then None
      else if b64untable p3 =? -1 then None
      else if b64untable p2 =? -1 then None
      else if b64untable p1 =? -1 then None
      else if b64untable p0 =? -1 then None
      else
        let d := [of_u8 (dec_d0 p0 p1); of_u8 (dec_d1 p1 p2); of_u8 (dec_d2 p2 p3)] in
        if negb (padding =? 0)%nat then Some (take (3 - padding) d)
        else match base64_decode rest with
             | Some out => Some (d ++ out)
             | None => None
             end
  | _ => Some []
  end.

(** * Sextets *)

(** The masks and shifts of both directions as arithmetic. *)
Lemma enc_byte_parts x : 0 ≤ x < 256 →
  Z.shiftr (Z.land x 0xFC) 2 = x / 4 ∧ Z.shiftl (Z.land x 0x03) 4 = (x mod 4) * 2 ^ 4 ∧
  Z.shiftr (Z.land x 0xF0) 4 = x / 16 ∧ Z.shiftl (Z.land x 0x0F) 2 = (x mod 16) * 2 ^ 2 ∧
  Z.shiftr (Z.land x 0xC0) 6 = x / 64 ∧ Z.land x 0x3F = x mod 64.
Proof.
  intros Hx. pose proof (forall_range 256 (λ x,
    (Z.shiftr (Z.land x 0xFC) 2 =? x / 4) && ((Z.shiftl (Z.land x 0x03) 4 =? (x mod 4) * 2 ^ 4) &&
    ((Z.shiftr (Z.land x 0xF0) 4 =? x / 16) && ((Z.shiftl (Z.land x 0x0F) 2 =? (x mod 16) * 2 ^ 2) &&
    ((Z.shiftr (Z.land x 0xC0) 6 =? x / 64) && (Z.land x 0x3F =? x mod 64))))))
    ltac:(vm_compute; reflexivity) x Hx) as H.
  rewrite !andb_true_iff, !Z.eqb_eq in H. exact H.
Qed.

Lemma dec_sextet_parts d : 0 ≤ d < 64 →
  Z.shiftr (Z.land d 0x30) 4 = d / 16 ∧ Z.shiftl d 2 = d * 2 ^ 2 ∧
  Z.shiftr (Z.land d 0x3C) 2 = d / 4 ∧ Z.shiftl (Z.land d 0x0F) 4 = (d mod 16) * 2 ^ 4 ∧
  Z.land d 0x3F = d ∧ Z.shiftl (Z.land d 0x03) 6 = (d mod 4) * 2 ^ 6.
Proof.
  intros Hx. pose proof (forall_range 64 (λ d,
    (Z.shiftr (Z.land d 0x30) 4 =? d / 16) && ((Z.shiftl d 2 =? d * 2 ^ 2) &&
    ((Z.shiftr (Z.land d 0x3C) 2 =? d / 4) && ((Z.shiftl (Z.land d 0x0F) 4 =? (d mod 16) * 2 ^ 4) &&
    ((Z.land d 0x3F =? d) && (Z.shiftl (Z.land d 0x03) 6 =? (d mod 4) * 2 ^ 6))))))
    ltac:(vm_compute; reflexivity) d Hx) as H.
  rewrite !andb_true_iff, !Z.eqb_eq in H. exact H.
Qed.

Lemma b64char_untable d : 0 ≤ d < 64 →
  b64untable (u8 (b64char d)) = d ∧ u8 (b64char d) ≠ 61.
Proof.
  intros Hx. pose proof (forall_range 64 (λ d,
    (b64untable (u8 (b64char d)) =? d) && negb (u8 (b64char d) =? 61))
    ltac:(vm_compute; reflexivity) d Hx) as H.
  rewrite andb_true_iff, negb_true_iff, Z.eqb_eq, Z.eqb_neq in H. exact H.
Qed.

(** The sextets in arithmetic form. *)
Lemma enc_d0_spec i0 : 0 ≤ i0 < 256 → enc_d0 i0 = i0 / 4.
Proof. intros H. apply (enc_byte_parts i0 H). Qed.

Lemma enc_d1_spec todo i0 i1 : 0 ≤ i0 < 256 → 0 ≤ i1 < 256 → 2 ≤ todo ∨ i1 = 0 →
  enc_d1 todo i0 i1 = i1 / 16 + (i0 mod 4) * 2 ^ 4.
Proof.
  intros H0 H1 Ht. unfold enc_d1. destruct (enc_byte_parts i0 H0) as (_ & -> & _).
  destruct (enc_byte_parts i1 H1) as (_ & _ & -> & _). rewrite Z.lor_0_l.
  destruct (Z.leb_spec 2 todo) as [Hle|Hgt].
  - apply lor_add; [lia|]. split; [apply Z.div_pos; lia|apply Z.div_lt_upper_bound; lia].
  - destruct Ht as [?| ->]; [lia|]. rewrite Z.lor_0_l. rewrite Z.div_0_l by lia. lia.
Qed.

Lemma enc_d2_spec todo i1 i2 : 0 ≤ i1 < 256 → 0 ≤ i2 < 256 → 2 ≤ todo → 3 ≤ todo ∨ i2 = 0 →
  enc_d2 todo i1 i2 = i2 / 64 + (i1 mod 16) * 2 ^ 2.
Proof.
  intros H1 H2 Hle Ht. unfold enc_d2. destruct (enc_byte_parts i1 H1) as (_ & _ & _ & -> & _).
  destruct (enc_byte_parts i2 H2) as (_ & _ & _ & _ & -> & _). rewrite Z.lor_0_l.
  rewrite (proj2 (Z.leb_le 2 todo)) by done. destruct (Z.leb_spec 3 todo) as [Hle3|Hgt].
  - apply lor_add; [lia|]. split; [apply Z.div_pos; lia|apply Z.div_lt_upper_bound; lia].
  - destruct Ht as [?| ->]; [lia|]. rewrite Z.lor_0_l. rewrite Z.div_0_l by lia. lia.
Qed.

Lemma enc_d3_spec todo i2 : 0 ≤ i2 < 256 → 3 ≤ todo → enc_d3 todo i2 = i2 mod 64.
Proof.
  intros H2 Ht. unfold enc_d3. rewrite (proj2 (Z.leb_le 3 todo)), Z.lor_0_l by done.
  apply (enc_byte_parts i2 H2).
Qed.

Ltac sextet := Z.div_mod_to_equations; lia.

(** Decoding of sextets. *)
Lemma dec_d0_spec d0 d1 : 0 ≤ d0 < 64 → 0 ≤ d1 < 64 →
  dec_d0 (u8 (b64char d0)) (u8 (b64char d1)) = d1 / 16 + d0 * 2 ^ 2.
Proof.
  intros H0 H1. unfold dec_d0. rewrite (proj1 (b64char_untable d0 H0)), (proj1 (b64char_untable d1 H1)).
  destruct (dec_sextet_parts d1 H1) as (-> & _). destruct (dec_sextet_parts d0 H0) as (_ & -> & _).
  apply lor_add; [lia|sextet].
Qed.

Lemma dec_d1_spec d1 p2 d2 : 0 ≤ d1 < 64 → 0 ≤ d2 < 64 → b64untable p2 = d2 →
  dec_d1 (u8 (b64char d1)) p2 = d2 / 4 + (d1 mod 16) * 2 ^ 4.
Proof.
  intros H1 H2 Hp. unfold dec_d1. rewrite Hp, (proj1 (b64char_untable d1 H1)).
  destruct (dec_sextet_parts d2 H2) as (_ & _ & -> & _).
  destruct (dec_sextet_parts d1 H1) as (_ & _ & _ & -> & _). apply lor_add; [lia|sextet].
Qed.

Lemma dec_d2_spec p2 d2 p3 d3 : 0 ≤ d2 < 64 → 0 ≤ d3 < 64 → b64untable p2 = d2 → b64untable p3 = d3 →
  dec_d2 p2 p3 = d3 + (d2 mod 4) * 2 ^ 6.
Proof.
  intros H2 H3 Hp2 Hp3. unfold dec_d2. rewrite Hp2, Hp3.
  destruct (dec_sextet_parts d3 H3) as (_ & _ & _ & _ & -> & _).
  destruct (dec_sextet_parts d2 H2) as (_ & _ & _ & _ & _ & ->). apply lor_add; lia.
Qed.

(** * One group *)

(** The guards of the decoder on a group of encoded characters. *)
Lemma decode_group d0 d1 d2 d3 rest :
  0 ≤ d0 < 64 → 0 ≤ d1 < 64 → 0 ≤ d2 < 64 → 0 ≤ d3 < 64 →
  base64_decode (b64char d0 :: b64char d1 :: b64char d2 :: b64char d3 :: rest) =
    ([of_u8 (d1 / 16 + d0 * 4); of_u8 (d2 / 4 + (d1 mod 16) * 16); of_u8 (d3 + (d2 mod 4) * 64)] ++.)
      <$> base64_decode rest.
Proof.
  intros H0 H1 H2 H3. cbn [base64_decode].
  destruct (b64char_untable d0 H0) as [U0 N0], (b64char_untable d1 H1) as [U1 N1].
  destruct (b64char_untable d2 H2) as [U2 N2], (b64char_untable d3 H3) as [U3 N3].
  apply Z.eqb_neq in N0, N1, N2, N3. rewrite N0, N1, N2, N3, U0, U1, U2, U3. cbn [orb andb negb Nat.add Nat.eqb].
  rewrite !(proj2 (Z.eqb_neq _ (-1))) by lia.
  rewrite (dec_d0_spec d0 d1), (dec_d1_spec d1 _ d2), (dec_d2_spec _ d2 _ d3) by done.
  by destruct (base64_decode rest).
Qed.

(** A last group with one or two padding characters. *)
Lemma decode_pad1 d0 d1 d2 :
  0 ≤ d0 < 64 → 0 ≤ d1 < 64 → 0 ≤ d2 < 64 →
  base64_decode [b64char d0; b64char d1; b64char d2; eq_sign] =
    Some [of_u8 (d1 / 16 + d0 * 4); of_u8 (d2 / 4 + (d1 mod 16) * 16)].
Proof.
  intros H0 H1 H2. cbn [base64_decode].
  destruct (b64char_untable d0 H0) as [U0 N0], (b64char_untable d1 H1) as [U1 N1].
  destruct (b64char_untable d2 H2) as [U2 N2].
  apply Z.eqb_neq in N0, N1, N2. change (u8 eq_sign) with 61. change (b64untable 61) with 0.
  rewrite N0, N1, N2, U0, U1, U2. change (61 =? 61) with true.
  cbn [orb andb negb Nat.add Nat.eqb]. rewrite !(proj2 (Z.eqb_neq _ (-1))) by lia.
  rewrite bool_decide_eq_true_2 by done. cbn [negb take Nat.sub].
  by rewrite (dec_d0_spec d0 d1), (dec_d1_spec d1 _ d2) by done.
Qed.

Lemma decode_pad2 d0 d1 :
  0 ≤ d0 < 64 → 0 ≤ d1 < 64 →
  base64_decode [b64char d0; b64char d1; eq_sign; eq_sign] = Some [of_u8 (d1 / 16 + d0 * 4)].
Proof.
  intros H0 H1. cbn [base64_decode].
  destruct (b64char_untable d0 H0) as [U0 N0], (b64char_untable d1 H1) as [U1 N1].
  apply Z.eqb_neq in N0, N1. change (u8 eq_sign) with 61. change (b64untable 61) with 0.
  rewrite N0, N1, U0, U1. change (61 =? 61) with true.
  cbn [orb andb negb Nat.add Nat.eqb]. rewrite !(proj2 (Z.eqb_neq _ (-1))) by lia.
  rewrite bool_decide_eq_true_2 by done. cbn [negb take Nat.sub].
  by rewrite (dec_d0_spec d0 d1) by done.
Qed.

(** A byte from its quotient and remainder. *)
Lemma of_u8_parts c z : z = u8 c → of_u8 z = c.
Proof. intros ->. apply of_u8_u8. Qed.

(** The length of the output, as the buffers of the callers are sized. *)
Lemma length_base64_encode_groups l : Z.of_nat (length (base64_encode l)) = base64_encode_len (Z.of_nat (length l)).
Proof.
  unfold base64_encode_len. induction l as [l IH] using (induction_ltof1 _ (@length ascii)). unfold ltof in IH.
  destruct l as [|a [|b [|c l]]]; [done..|]. cbn [base64_encode]. rewrite length_app, Nat2Z.inj_add, IH by (simpl; lia).
  cbn [length]. rewrite !Nat2Z.inj_succ. sextet.
Qed.

Lemma length_base64_decode p out : base64_decode p = Some out → (4 * length out ≤ 3 * length p)%nat.
Proof.
  revert out; induction p as [p IH] using (induction_ltof1 _ (@length ascii)). unfold ltof in IH. intros out.
  destruct p as [|c0 [|c1 [|c2 [|c3 rest]]]]; cbn [base64_decode]; try (intros; simplify_eq; simpl; lia).
  repeat match goal with |- (if ?b then None else _) = _ → _ => destruct b; [discriminate|] end.
  destruct (negb (_ =? 0)%nat).
  - intros; simplify_eq. rewrite length_take. simpl. lia.
  - destruct (base64_decode rest) as [o|] eqn:E; [|discriminate]. intros; simplify_eq.
    apply IH in E; [|simpl; lia]. simpl in *. lia.
Qed.

Lemma base64_decode_encode (l : bytes) : base64_decode (base64_encode l) = Some l.
Proof.
  induction l as [l IH] using (induction_ltof1 _ (@length ascii)). unfold ltof in IH.
  destruct l as [|a [|b [|c l]]]; [done| | |]; cbn [base64_encode app].
  all: pose proof (u8_range a); try pose proof (u8_range b); try pose proof (u8_range c).
  all: rewrite enc_d0_spec by done.
  all: rewrite enc_d1_spec by (done || lia); rewrite ?enc_d2_spec, ?enc_d3_spec by (done || lia).
  - rewrite decode_pad2 by sextet. do 2 f_equal. apply of_u8_parts. sextet.
  - rewrite decode_pad1 by sextet.
    do 2 f_equal; [|f_equal]; apply of_u8_parts; sextet.
  - rewrite decode_group by sextet. rewrite IH by (simpl; lia). simpl.
    do 2 f_equal; [|f_equal; [|f_equal]]; apply of_u8_parts; sextet.
Qed.

(** * Properties *)

(** Decoding what was encoded returns the original bytes, for every input,
    so that distinct inputs have distinct encodings. *)
Theorem base64_roundtrip (l : bytes) :
  base64_decode (base64_encode l) = Some l ∧ (∀ l', base64_encode l' = base64_encode l → l' = l).
Proof.
  split; [apply base64_decode_encode|]. intros l' H.
  apply (f_equal base64_decode) in H. rewrite !base64_decode_encode in H. by injection H.
Qed.

(** The encoder fills exactly [base64_encode_len] characters, and the
    decoder never writes more than [base64_decode_len] bytes, whatever its
    input: the buffers the callers allocate with these macros are large
    enough. *)
Theorem base64_bounds (l : bytes) :
  Z.of_nat (length (base64_encode l)) = base64_encode_len (Z.of_nat (length l)) ∧
  (∀ out, base64_decode l = Some out →
     0 ≤ Z.of_nat (length out) ≤ base64_decode_len (Z.of_nat (length l))).
Proof.
  split; [apply length_base64_encode_groups|]. intros out H.
  apply length_base64_decode in H. unfold base64_decode_len. sextet.
Qed.
