(* ===== verification/Strmatch.v ===== *)
(** [contrib/netbsd/strmatch.c]: the wildcard match of query-parameter and
    cookie names against the patterns of the cache annotations.

    The function walks two character pointers and reads one character past the
    end pointers in places, so both buffers are modelled with their NUL
    terminator: reading at the terminator gives NUL, reading beyond it is an
    [OutOfBounds] fault.  The pattern's end pointer is its terminator; the
    string's end pointer is an index into a longer buffer ("name=value"). *)

From S2P Require Import Prelude CString.

(** * Definitions *)

(** The character at a pointer [i] characters into a NUL-terminated buffer. *)
Definition read (buf : bytes) (i : nat) : cres ascii :=
  match drop i buf with
  | c :: _ => Ok c
  | [] => if (i =? length buf)%nat then Ok NUL else Fault OutOfBounds
  end.

Definition bracket_neg (c : ascii) : bool :=
  bool_decide (c = "!"%char) || bool_decide (c = "^"%char).

(** The loop of [strrangematch] up to the closing bracket: [None] for the NULL
    result, otherwise the flag [ok] and the position after the bracket.  The
    comparisons are those of the signed type [char]. *)
Fixpoint range_loop (fuel : nat) (p : bytes) (pi : nat) (test : ascii) (ok : bool)
    : cres (option (bool * nat)) :=
  match fuel with
  | O => Fault Diverges
  | S fuel =>
      c ← read p pi; let c := tolower c in let pi := S pi in
      if bool_decide (c = "]"%char) then Ok (Some (ok, pi)) else
      '(c, pi) ← (if bool_decide (c = "\"%char)
                  then (c' ← read p pi; Ok (tolower c', S pi)) else Ok (c, pi));
      if (pi =? length p)%nat then Ok None else
      d ← read p pi;
      if bool_decide (d = "-"%char) then
        c2 ← read p (S pi); let c2 := tolower c2 in
        let pi := if negb (pi =? length p)%nat && negb (bool_decide (c2 = "]"%char))
                  then S (S pi) else pi in
        '(c2, pi) ← (if bool_decide (c2 = "\"%char)
                     then (c' ← read p pi; Ok (tolower c', S pi)) else Ok (c2, pi));
        if (pi =? length p)%nat then Ok None else
        range_loop fuel p pi test
          (ok || (bool_decide (s8 c ≤ s8 test)%Z && bool_decide (s8 test ≤ s8 c2)%Z))
      else range_loop fuel p pi test (ok || bool_decide (c = test))
  end.

Definition strrangematch (p : bytes) (pi : nat) (test : ascii) : cres (option nat) :=
  c ← read p pi;
  let negate := bracket_neg c in
  let pi := if negate then S pi else pi in
  r ← range_loop (length p + 3) p pi test false;
  Ok match r with
     | None => None
     | Some (ok, pi) => if eqb ok negate then None else Some pi
     end.

(** [while (str < strend) { if (strmatch (...)) return 1; str++; }]: whether
    it returned, and where [str] is otherwise. *)
Fixpoint star_loop (f : nat → cres bool) (n si : nat) : cres (bool * nat) :=
  match n with
  | O => Ok (false, si)
  | S n => b ← f si; if b : bool then Ok (true, si) else star_loop f n (S si)
  end.

Definition is_star (c : ascii) : bool := bool_decide (tolower c = "*"%char).

(** The loop that skips the stars after a star; it stops at the terminator. *)
Definition skip_stars (p : bytes) (pi : nat) : nat :=
  pi + length (take_while is_star (drop pi p)).

Fixpoint strmatch_loop (fuel : nat) (s : bytes) (si se : nat) (p : bytes) (pi : nat) : cres bool :=
  match fuel with
  | O => Fault Diverges
  | S fuel =>
      if (pi =? length p)%nat then Ok (si =? se)%nat else
      c ← read p pi; let c := tolower c in let pi := S pi in
      let bracket si pi :=
        if (si =? se)%nat then Ok false else
        ch ← read s si;
        r ← strrangematch p pi (tolower ch);
        match r with
        | None => Ok false
        | Some pi => strmatch_loop fuel s (S si) se p pi
        end in
      let literal c pi :=
        ch ← read s si;
        if negb (bool_decide (c = tolower ch)) then Ok false
        else strmatch_loop fuel s (S si) se p pi in
      if bool_decide (c = "?"%char) then
        if (si =? se)%nat then Ok false else strmatch_loop fuel s (S si) se p pi
      else if bool_decide (c = "*"%char) then
        if (pi =? length p)%nat then Ok true else
        let pi := skip_stars p pi in
        if (pi =? length p)%nat then Ok true else
        '(found, si) ← star_loop (λ si, strmatch_loop fuel s si se p pi) (se - si) si;
        if found : bool then Ok true else bracket si pi
      else if bool_decide (c = "["%char) then bracket si pi
      else if bool_decide (c = "\"%char) then
        c ← read p pi; let c := tolower c in let pi := S pi in
        if (pi =? length p)%nat then literal "\"%char (pi - 1)%nat else literal c pi
      else literal c pi
  end.

(** [strmatch (s, s + se, p, p + strlen (p))] *)
Definition strmatch (s : bytes) (se : nat) (p : bytes) : cres bool :=
  strmatch_loop (length p + 3) s 0 se p 0.

(** * The reference: a name matches a glob *)
Definition literal_char (c : ascii) : Prop :=
  c ∉ ["?"; "*"; "["; "\"; "="; NUL]%char.

Inductive glob : bytes → bytes → Prop :=
  | glob_nil : glob [] []
  | glob_any c p n : glob p n → glob ("?"%char :: p) (c :: n)
  | glob_star p a n : glob p n → glob ("*"%char :: p) (a ++ n)
  | glob_lit c d p n : literal_char c → tolower c = tolower d → glob p n → glob (c :: p) (d :: n).

(** The patterns of the documentation: literals, [?] and [*]. *)
Definition plain_char (c : ascii) : Prop := c ∉ ["["; "\"; "="; NUL]%char.
Definition plain (p : bytes) : Prop := Forall plain_char p.
#[global] Instance plain_char_dec c : Decision (plain_char c).
Proof. unfold plain_char. apply _. Defined.

(** What follows a name in its buffer: the terminator or '='. *)
Definition after_name (tail : bytes) : Prop := tail = [] ∨ head tail = Some "="%char.

(** * Lemmas *)
Lemma read_app pre c rest : read (pre ++ c :: rest) (length pre) = Ok c.
Proof. unfold read. by rewrite drop_app_length. Qed.

Lemma tolower_special c d :
  d ∈ ["?"; "*"; "["; "\"; "="; "]"; "-"; NUL]%char → tolower c = d ↔ c = d.
Proof.
  intros Hd. assert (H : forallb (λ c, forallb (λ d,
    eqb (bool_decide (tolower c = d)) (bool_decide (c = d))) ["?"; "*"; "["; "\"; "="; "]"; "-"; NUL]%char)
    all_bytes = true) by (vm_compute; reflexivity).
  pose proof (forall_bytes _ H c) as Hc. cbv beta in Hc.
  rewrite forallb_forall in Hc. specialize (Hc d ltac:(by apply list_elem_of_In)).
  apply eqb_prop in Hc.
  split; intros Hx; eapply bool_decide_eq_true; [rewrite <- Hc|rewrite Hc]; by apply bool_decide_eq_true.
Qed.

Ltac special_char H :=
  apply (λ Hd, proj1 (tolower_special _ _ Hd)) in H; [|set_solver].

Lemma glob_inv_char c p n :
  c ≠ "?"%char → c ≠ "*"%char → glob (c :: p) n →
  ∃ d n', n = d :: n' ∧ literal_char c ∧ tolower c = tolower d ∧ glob p n'.
Proof. intros H1 H2 Hg. inversion Hg; subst; try done. eauto 10. Qed.

Lemma literal_not_wild : ¬ literal_char "?"%char ∧ ¬ literal_char "*"%char.
Proof. unfold literal_char. set_solver. Qed.

Lemma glob_inv_any p n : glob ("?"%char :: p) n → ∃ d n', n = d :: n' ∧ glob p n'.
Proof. inversion 1; subst; [eauto|]. by destruct literal_not_wild. Qed.

Lemma glob_inv_star p n : glob ("*"%char :: p) n → ∃ a n', n = a ++ n' ∧ glob p n'.
Proof. inversion 1; subst; [eauto|]. by destruct literal_not_wild. Qed.

Lemma glob_stars_all st n : Forall (.= "*"%char) st → glob ("*"%char :: st) n.
Proof.
  intros Hs. rewrite <- (app_nil_r n). apply glob_star.
  induction Hs as [|c st -> _ IH]; [constructor|]. by apply (glob_star st [] []).
Qed.

Lemma glob_stars st q n :
  Forall (.= "*"%char) st →
  glob ("*"%char :: st ++ q) n ↔ ∃ a n', n = a ++ n' ∧ glob q n'.
Proof.
  intros Hs. revert n; induction Hs as [|c st -> _ IH]; intros n; simpl.
  - split.
    + apply glob_inv_star.
    + intros (a & n' & -> & ?). by constructor.
  - split.
    + intros (a & n1 & -> & (a' & n' & -> & ?)%IH)%glob_inv_star.
      exists (a ++ a'), n'. by rewrite <- app_assoc.
    + intros (a & n' & -> & Hg). rewrite <- (app_nil_l (a ++ n')). apply glob_star, IH. eauto.
Qed.

Lemma take_drop_stars q :
  plain q → ∃ st q', q = st ++ q' ∧ Forall (.= "*"%char) st ∧ length st = length (take_while is_star q)
    ∧ head q' ≠ Some "*"%char.
Proof.
  intros _. exists (take_while is_star q), (drop_while is_star q). split_and!.
  - by rewrite take_drop_while.
  - eapply Forall_impl; [apply take_while_Forall|]. intros c Hc%bool_decide_eq_true.
    by special_char Hc.
  - done.
  - destruct (drop_while is_star q) as [|c q'] eqn:E; [done|]. apply drop_while_head in E.
    intros [= ->]. by vm_compute in E.
Qed.

(** The inner loop tries every non-empty suffix of the name. *)
Lemma star_loop_spec (f : nat → cres bool) (Q : bytes → Prop) (pre name : bytes) :
  (∀ a n, name = a ++ n → ∃ b, f (length pre + length a) = Ok b ∧ (b = true ↔ Q n)) →
  ∃ b si, star_loop f (length name) (length pre) = Ok (b, si) ∧
    (b = true → ∃ a n, name = a ++ n ∧ Q n) ∧
    (b = false → si = length pre + length name ∧ ∀ a n, name = a ++ n → n ≠ [] → ¬ Q n).
Proof.
  revert pre; induction name as [|c name IH]; intros pre Hf; simpl.
  - exists false, (length pre). split_and!; [done|done|]. intros _. split; [lia|].
    intros a n H Hn. symmetry in H. by apply app_nil in H as [-> ->].
  - destruct (Hf [] (c :: name)) as (b & Hb & HQ); [done|]. rewrite Nat.add_0_r in Hb.
    rewrite Hb; simpl. destruct b.
    + exists true, (length pre). split_and!; [done| |done]. intros _. exists [], (c :: name). split; [done|]. by apply HQ.
    + destruct (IH (pre ++ [c])) as (b & si & Hl & Ht & Hfa).
      { intros a n ->. destruct (Hf (c :: a) n) as (b & Hb' & HQ'); [done|].
        exists b. rewrite length_app. simpl in *. by rewrite <- Nat.add_assoc. }
      rewrite length_app, Nat.add_1_r in Hl. exists b, si. split_and!; [done| |].
      * intros ->. destruct Ht as (a & n & -> & ?); [done|]. by exists (c :: a), n.
      * intros ->. destruct Hfa as [-> Hno]; [done|]. split; [rewrite length_app; simpl; lia|].
        intros [|x a] n H Hn; simplify_eq/=; [|by eapply Hno].
        intros HQn. by apply HQ in HQn.
Qed.

Lemma glob_nonstar_nil c q : c ≠ "*"%char → ¬ glob (c :: q) [].
Proof. intros Hc Hg. inversion Hg; subst. done. Qed.

(** The invariant of the main loop: at the suffix [q] of the pattern and the
    suffix [name] of the name, the loop decides [glob q name]. *)
Section main_loop.
Context (tail : bytes) (Htail : after_name tail).

Definition decides (fuel : nat) (pp q pre name : bytes) : Prop :=
  ∃ b, strmatch_loop fuel (pre ++ name ++ tail) (length pre) (length pre + length name)
         (pp ++ q) (length pp) = Ok b ∧ (b = true ↔ glob q name).

Context (fuel : nat)
  (IH : ∀ pp q pre name, plain q → (length q < fuel)%nat → decides fuel pp q pre name).

(** A step that consumes one character of the pattern and one of the name. *)
Lemma decides_step pp c q pre d n :
  plain q → (length q < fuel)%nat →
  ∃ b, strmatch_loop fuel (pre ++ (d :: n) ++ tail) (S (length pre)) (length pre + length (d :: n))
         (pp ++ c :: q) (S (length pp)) = Ok b ∧ (b = true ↔ glob q n).
Proof using IH.
  intros Hp Hf. destruct (IH (pp ++ [c]) q (pre ++ [d]) n Hp Hf) as (b & Hb & HQ).
  exists b. split; [|done]. rewrite <- Hb.
  f_equal; [by rewrite <- app_assoc|rewrite length_app; simpl; lia..|by rewrite <- app_assoc|rewrite length_app; simpl; lia].
Qed.

Lemma decides_any pp q pre name :
  plain q → (length q < fuel)%nat → decides (S fuel) pp ("?"%char :: q) pre name.
Proof using IH.
  intros Hp Hf. unfold decides. cbn [strmatch_loop].
  rewrite (proj2 (Nat.eqb_neq _ _)) by (rewrite length_app; simpl; lia).
  rewrite read_app. cbn [mbind cres_bind]. rewrite bool_decide_eq_true_2 by reflexivity.
  destruct name as [|d n].
  - rewrite Nat.add_0_r, Nat.eqb_refl. eexists; split; [done|]. split; [done|]. inversion 1.
  - rewrite (proj2 (Nat.eqb_neq _ _)) by (simpl; lia).
    destruct (decides_step pp "?"%char q pre d n Hp Hf) as (b & -> & HQ). exists b. split; [done|]. rewrite HQ.
    split; [by constructor|]. intros Hg. apply glob_inv_any in Hg as (? & ? & ? & ?). by simplify_eq.
Qed.

(** After the stars, every non-empty suffix of the name is tried. *)
Lemma decides_star_loop pp st c q pre name :
  plain (c :: q) → (S (length q) < fuel)%nat → c ≠ "*"%char → Forall (.= "*"%char) st →
  ∃ b si, star_loop (λ si, strmatch_loop fuel (pre ++ name ++ tail) si (length pre + length name)
            (pp ++ "*"%char :: st ++ c :: q) (length (pp ++ "*"%char :: st))) (length name) (length pre)
          = Ok (b, si) ∧ (b = true ↔ glob ("*"%char :: st ++ c :: q) name) ∧
          (b = false → si = (length pre + length name)%nat).
Proof using IH.
  intros Hp Hf Hc Hst.
  destruct (star_loop_spec (λ si, strmatch_loop fuel (pre ++ name ++ tail) si (length pre + length name)
    (pp ++ "*"%char :: st ++ c :: q) (length (pp ++ "*"%char :: st))) (glob (c :: q)) pre name)
    as (b & si & Hl & Hbt & Hbf).
  { intros a n ->. destruct (IH (pp ++ "*"%char :: st) (c :: q) (pre ++ a) n Hp Hf) as (b & Hb & HQ).
    exists b. rewrite <- Hb. split; [|done].
    f_equal; [by rewrite <- !app_assoc|by rewrite length_app|rewrite !length_app; lia|by rewrite <- app_assoc]. }
  exists b, si. split_and!; [done| |by intros Hb; destruct (Hbf Hb)].
  rewrite glob_stars by done. split; [apply Hbt|].
  intros (a & n & -> & Hg). destruct b; [done|exfalso]. destruct (Hbf eq_refl) as [_ Hno].
  destruct n; [by eapply glob_nonstar_nil|by eapply Hno].
Qed.

Lemma decides_star pp q pre name :
  plain q → (length q < fuel)%nat → decides (S fuel) pp ("*"%char :: q) pre name.
Proof using IH.
  intros Hp Hf. unfold decides. cbn [strmatch_loop].
  rewrite (proj2 (Nat.eqb_neq _ _)) by (rewrite length_app; simpl; lia).
  rewrite read_app. cbn [mbind cres_bind].
  rewrite bool_decide_eq_false_2, bool_decide_eq_true_2 by (reflexivity || discriminate).
  destruct (take_drop_stars q Hp) as (st & q' & -> & Hst & Hlen & Hh).
  match goal with |- context [if ?b then Ok true else _] => destruct b eqn:E1 end.
  { apply Nat.eqb_eq in E1. rewrite length_app in E1. simpl in E1.
    assert (st ++ q' = []) as -> by (apply nil_length_inv; lia).
    eexists. split; [done|]. split; [intros _|done]. by apply (glob_stars_all []). }
  assert (Hskip : skip_stars (pp ++ "*"%char :: st ++ q') (S (length pp)) = length (pp ++ "*"%char :: st)).
  { unfold skip_stars. replace (S (length pp)) with (length (pp ++ ["*"%char])) by (rewrite length_app; simpl; lia).
    replace (pp ++ "*"%char :: st ++ q') with ((pp ++ ["*"%char]) ++ st ++ q') by (by rewrite <- app_assoc).
    rewrite drop_app_length, <- Hlen. rewrite !length_app; simpl; rewrite ?length_app; simpl; lia. }
  rewrite Hskip. destruct q' as [|c' q'].
  { rewrite app_nil_r, Nat.eqb_refl. eexists. split; [done|]. split; [intros _|done]. by apply glob_stars_all. }
  rewrite (proj2 (Nat.eqb_neq _ _)) by (rewrite !length_app; simpl; rewrite length_app; simpl; lia).
  replace (length pre + length name - length pre)%nat with (length name) by lia.
  destruct (decides_star_loop pp st c' q' pre name) as (b & si & -> & HQ & Hsi);
    [by apply Forall_app in Hp as [_ ?]|rewrite length_app in Hf; simpl in *; lia|by intros ->; apply Hh|done|].
  cbn [mbind cres_bind]. destruct b; [by exists true|].
  rewrite (Hsi eq_refl), Nat.eqb_refl. by exists false.
Qed.

Lemma decides_lit pp c q pre name :
  plain_char c → plain q → (length q < fuel)%nat → c ≠ "?"%char → c ≠ "*"%char →
  decides (S fuel) pp (c :: q) pre name.
Proof using IH Htail.
  intros Hc Hp Hf Hq Hs. unfold decides. cbn [strmatch_loop].
  rewrite (proj2 (Nat.eqb_neq _ _)) by (rewrite length_app; simpl; lia).
  rewrite read_app. cbn [mbind cres_bind].
  assert (Hne : ∀ d, d ∈ ["?"; "*"; "["; "\"; "="; NUL]%char → tolower c ≠ d).
  { intros d Hd He. unfold plain_char in Hc. special_char He. set_solver. }
  rewrite !(bool_decide_eq_false_2 (tolower c = _)) by (apply Hne; set_solver).
  assert (Hlit : literal_char c) by (unfold literal_char, plain_char in *; set_solver).
  destruct name as [|d n].
  - assert (∃ ch, read (pre ++ [] ++ tail) (length pre) = Ok ch ∧ tolower c ≠ tolower ch) as (ch & Hr & Hch).
    { destruct Htail as [->|Hh].
      - exists NUL. unfold read. rewrite !app_nil_r, drop_ge, Nat.eqb_refl by lia. split; [done|]. apply Hne. set_solver.
      - destruct tail as [|e tl]; [done|]. simplify_eq/=. exists "="%char. rewrite read_app.
        split; [done|]. apply Hne. set_solver. }
    simpl app in *. rewrite Hr. simpl. rewrite bool_decide_eq_false_2 by done. simpl.
    exists false. split; [done|]. split; [done|]. intros Hg. by apply glob_nonstar_nil in Hg.
  - simpl app. rewrite read_app. cbn [mbind cres_bind]. case_bool_decide as Heq; cbn [negb].
    + destruct (decides_step pp c q pre d n Hp Hf) as (b & Hb & HQ). exists b. split; [done|].
      rewrite HQ. split; [by constructor|].
      intros Hg. apply glob_inv_char in Hg as (d' & n' & ? & _ & _ & ?); [by simplify_eq|done..].
    + exists false. split; [done|]. split; [done|].
      intros Hg. apply glob_inv_char in Hg as (d' & n' & ? & _ & ? & ?); [by simplify_eq|done..].
Qed.
End main_loop.

Lemma strmatch_loop_glob tail fuel pp q pre name :
  plain q → after_name tail → (length q < fuel)%nat → decides tail fuel pp q pre name.
Proof.
  intros Hp Ht. revert pp q pre name Hp; induction fuel as [|fuel IH]; intros pp q pre name Hp Hf; [lia|].
  destruct q as [|c q].
  { unfold decides. cbn [strmatch_loop]. rewrite app_nil_r, Nat.eqb_refl. eexists. split; [done|].
    rewrite Nat.eqb_eq. destruct name; simpl; split; try done; try lia; [constructor|]. inversion 1. }
  apply Forall_cons in Hp as [Hc Hp]. simpl in Hf.
  destruct (decide (c = "?"%char)) as [->|]; [apply decides_any; auto; lia|].
  destruct (decide (c = "*"%char)) as [->|]; [apply decides_star; auto; lia|].
  apply decides_lit; auto; lia.
Qed.

Lemma strmatch_plain (p name tail : bytes) :
  plain p → after_name tail →
  ∃ b, strmatch (name ++ tail) (length name) p = Ok b ∧ (b = true ↔ glob p name).
Proof.
  intros Hp Ht. apply (strmatch_loop_glob tail (length p + 3) [] p [] name Hp Ht). lia.
Qed.

(** * Properties *)

(** C29. On a pattern of literals, [?] and [*] (the documented syntax), with
    the name followed by its terminator or by "=value", [strmatch] reads
    inside its buffers, returns, and decides exactly the case-insensitive glob
    match of the pattern with the whole name. *)
Theorem strmatch_correct (p name tail : bytes) :
  plain p → after_name tail →
  ∃ b, strmatch (name ++ tail) (length name) p = Ok b ∧ (b = true ↔ glob p name).
Proof. apply strmatch_plain. Qed.

Lemma strmatch_correct_witness :
  ∃ b, strmatch (lit "utm_source" ++ lit "=x") (length (lit "utm_source")) (lit "UTM_*") = Ok b ∧
    (b = true ↔ glob (lit "UTM_*") (lit "utm_source")).
Proof.
  apply (strmatch_correct (lit "UTM_*") (lit "utm_source") (lit "=x")).
  - apply (bool_decide_unpack (Forall plain_char (lit "UTM_*"))). vm_compute. exact I.
  - right. reflexivity.
Defined.

(** A backslash before the last character of the pattern is matched literally
    and the character after it keeps its special meaning; an opening bracket
    at the end makes the match read past the terminator of the pattern. *)
Example strmatch_escape_last :
  strmatch (lit "*") 1 (lit "\*") = Ok false ∧ strmatch (lit "\abc") 4 (lit "\*") = Ok true.
Proof. split; vm_compute; reflexivity. Qed.
Example strmatch_open_bracket : strmatch (lit "a") 1 (lit "[") = Fault OutOfBounds.
Proof. vm_compute. reflexivity. Qed.
