(* ===== verification/Env.v ===== *)
(** The code outside the repository that the program calls, as interfaces: the
    JSON parser (json-c), POSIX regular expressions and address parsing, the
    digests of libcrypto, and OpenSSL contexts.  Each is a class of operations;
    the documented behaviour a theorem relies on is a separate class of laws.

    The instances at the end are small concrete implementations, for the
    theorems that show the hypotheses can hold; they are local, so nothing is
    proved about them by accident. *)

From S2P Require Import Prelude CString.

(** * json-c *)
Inductive json_type := json_type_null | json_type_boolean | json_type_double
  | json_type_int | json_type_object | json_type_array | json_type_string.

(** A [json_object] stands for the pointer, so that JSON [null] (a NULL
    pointer) is one of its values. *)
Class JsonC := {
  json_object : Type;
  json_object_is_type : json_object → json_type → bool;
  (* json_object_object_get_ex: the member, if the object has it *)
  json_object_object_get_ex : json_object → bytes → option json_object;
  (* NULL for a NULL object *)
  json_object_get_string : json_object → option bytes;
  json_object_get_int : json_object → Z;
  (* array_length and array_get_idx; [None] when the value is not an array *)
  json_object_array : json_object → option (list json_object);
  (* the members in order; [None] when the value is not an object *)
  json_object_object_foreachC : json_object → option (list (bytes * json_object));
  json_tokener_parse : bytes → option json_object;
}.

(** * POSIX *)
Class Posix := {
  regex_t : Type;
  (* regcomp (_, _, REG_EXTENDED) *)
  regcomp : bytes → option regex_t;
  (* regexec with one match: its start and end *)
  regexec : regex_t → bytes → option (nat * nat);
  (* inet_pton: the address bytes in network order *)
  inet_pton4 : bytes → option bytes;
  inet_pton6 : bytes → option bytes;
}.

Class PosixLaws `{Posix} := {
  regexec_bounds re s so eo : regexec re s = Some (so, eo) → so ≤ eo ≤ length s;
  inet_pton4_length s a : inet_pton4 s = Some a → length a = 4;
  inet_pton6_length s a : inet_pton6 s = Some a → length a = 16;
}.

(** * Digests of libcrypto *)
Class Digests := {
  SHA1 : bytes → bytes;
  MD5 : bytes → bytes;
}.

Class DigestLaws `{Digests} := {
  SHA1_length m : length (SHA1 m) = 20;
  MD5_length m : length (MD5 m) = 16;
}.

(** * OpenSSL *)
Class OpenSSL := {
  ssl_ctx : Type;
  x509 : Type;
  evp_pkey : Type;
  TSSslServerContextCreate : option ssl_ctx;
  (* a certificate and what is left of the memory BIO *)
  PEM_read_bio_X509 : bytes → option (x509 * bytes);
  PEM_read_bio_PrivateKey : bytes → option evp_pkey;
  (* [None] when the call does not return 1 *)
  SSL_CTX_use_certificate : ssl_ctx → x509 → option ssl_ctx;
  SSL_CTX_add_extra_chain_cert : ssl_ctx → x509 → option ssl_ctx;
  SSL_CTX_use_PrivateKey : ssl_ctx → evp_pkey → option ssl_ctx;
}.

Class OpenSSLLaws `{OpenSSL} := {
  PEM_read_bio_X509_consumes b crt rest :
    PEM_read_bio_X509 b = Some (crt, rest) → length rest < length b;
}.

(** * Concrete instances *)
Inductive json :=
  | JNull | JBool (b : bool) | JInt (z : Z) | JString (s : bytes)
  | JArray (l : list json) | JObject (l : list (bytes * json)).

Definition json_is (j : json) (t : json_type) : bool :=
  match j, t with
  | JNull, json_type_null | JBool _, json_type_boolean | JInt _, json_type_int
  | JString _, json_type_string | JArray _, json_type_array | JObject _, json_type_object => true
  | _, _ => false
  end.

Fixpoint assoc (l : list (bytes * json)) (k : bytes) : option json :=
  match l with
  | [] => None
  | (k', v) :: l => if bool_decide (k' = k) then Some v else assoc l k
  end.

Definition json_tree_with (parse : bytes → option json) : JsonC := {|
  json_object := json;
  json_object_is_type := json_is;
  json_object_object_get_ex j k := match j with JObject l => assoc l k | _ => None end;
  json_object_get_string j :=
    match j with
    | JString s => Some s
    | JInt z => Some (fmt_d z)
    | JBool b => Some (if b then lit "true" else lit "false")
    | JNull => None
    | _ => Some []
    end;
  json_object_get_int j := match j with JInt z => z | _ => 0%Z end;
  json_object_array j := match j with JArray l => Some l | _ => None end;
  json_object_object_foreachC j := match j with JObject l => Some l | _ => None end;
  json_tokener_parse := parse;
|}.

#[local] Instance json_tree : JsonC := json_tree_with (λ _, None).

(** Regular expressions without special characters: "^" and a literal. *)
Definition parse_v4 (s : bytes) : option bytes :=
  match split (lit ".") s with
  | [a; b; c; d] => Some [of_u8 (atoi a); of_u8 (atoi b); of_u8 (atoi c); of_u8 (atoi d)]
  | _ => None
  end.

#[local] Instance posix_literal : Posix := {|
  regex_t := bytes;
  regcomp p := match p with "^"%char :: p => Some p | _ => None end;
  regexec re s := if bool_decide (take (length re) s = re) then Some (0, length re) else None;
  inet_pton4 := parse_v4;
  inet_pton6 _ := None;
|}.

#[local] Instance posix_literal_laws : PosixLaws.
Proof.
  split; simpl.
  - intros re s so eo. case_bool_decide as H; [|done]. intros; simplify_eq.
    split; [lia|]. rewrite <- H at 1. rewrite length_take. lia.
  - intros s a. unfold parse_v4. destruct (split _ s) as [|? [|? [|? [|? [|]]]]]; naive_solver.
  - done.
Qed.

(** Digests that pad or truncate their input. *)
#[local] Instance digests_pad : Digests := {|
  SHA1 m := take 20 (m ++ replicate 20 NUL);
  MD5 m := take 16 (m ++ replicate 16 NUL);
|}.

#[local] Instance digests_pad_laws : DigestLaws.
Proof.
  split; intros m; unfold SHA1, MD5, digests_pad; rewrite length_take, length_app, length_replicate; lia.
Qed.

(** Contexts that list what was loaded into them; a certificate is one byte. *)
#[local] Instance openssl_list : OpenSSL := {|
  ssl_ctx := bytes;
  x509 := ascii;
  evp_pkey := ascii;
  TSSslServerContextCreate := Some [];
  PEM_read_bio_X509 b := match b with [] => None | c :: b => Some (c, b) end;
  PEM_read_bio_PrivateKey b := match b with [] => None | c :: _ => Some c end;
  SSL_CTX_use_certificate ctx crt := Some (ctx ++ [crt]);
  SSL_CTX_add_extra_chain_cert ctx crt := Some (ctx ++ [crt]);
  SSL_CTX_use_PrivateKey ctx k := Some (ctx ++ [k]);
|}.

#[local] Instance openssl_list_laws : OpenSSLLaws.
Proof. split. intros [|c b] crt rest; simpl; intros; simplify_eq. lia. Qed.
