(* ===== verification/Api.v ===== *)
(** The Kubernetes objects of [api/api.h] and their construction from JSON:
    [api/ingress.c], [api/service.c], [api/endpoints.c], [api/secret.c] and
    [api/configmap.c].

    A [char *] that can be NULL is an [option bytes]; arrays with a length
    field are lists; [calloc] starts every optional field at NULL and every
    number at 0.  [goto error] (and its [*_free]) is the result [None];
    dereferencing NULL is a fault. *)

From S2P Require Import Prelude CString Hash Base64 Env.

Local Open Scope Z_scope.

(** * Data *)
Record endpoints_port := EndpointsPort {
  et_name : bytes;
  et_port : Z;
  et_protocol : bytes;
}.

Record endpoints_address := EndpointsAddress {
  ea_ip : option bytes;
  ea_nodename : option bytes;
}.

Record endpoints_subset := EndpointsSubset {
  es_addrs : list endpoints_address;
  es_ports : hash endpoints_port;
}.

Record endpoints := Endpoints {
  ep_name : bytes;
  ep_namespace : bytes;
  ep_subsets : list endpoints_subset;
}.

Inductive service_proto := SV_P_TCP | SV_P_UDP.

Record service_port := ServicePort {
  sp_name : bytes;
  sp_port : Z;
  sp_target_port : Z;
  sp_protocol : service_proto;
}.

Record service := Service {
  sv_name : bytes;
  sv_namespace : bytes;
  sv_type : option bytes;
  sv_cluster_ip : option bytes;
  sv_session_affinity : option bytes;
  sv_external_name : option bytes;
  sv_selector : option (hash bytes);
  sv_ports : option (hash service_port);
}.

Record ingress_tls := IngressTls {
  it_secret_name : option bytes;
  it_hosts : list bytes;
}.

Record ingress_path := IngressPath {
  ip_path : option bytes;
  ip_service_name : option bytes;
  ip_service_port : option bytes;
}.

Record ingress_rule := IngressRule {
  ir_host : option bytes;
  ir_paths : list ingress_path;
}.

Record ingress := Ingress {
  in_name : bytes;
  in_namespace : bytes;
  in_tls : list ingress_tls;
  in_rules : list ingress_rule;
  in_annotations : hash bytes;
}.

Record secret := Secret {
  se_name : bytes;
  se_namespace : bytes;
  se_type : bytes;
  se_data : hash bytes;
}.

Record configmap := ConfigMap {
  cm_name : bytes;
  cm_namespace : bytes;
  cm_data : hash bytes;
}.

#[global] Instance service_proto_eq_dec : EqDecision service_proto.
Proof. solve_decision. Defined.

Definition SV_TYPE_EXTERNALNAME : bytes := lit "ExternalName".

(** * Parsers *)
Section parsers.
Context `{J : JsonC}.
Implicit Types (obj : json_object).

(** [json_object_object_get_ex (obj, key, &tmp) && json_object_is_type (tmp, t)] *)
Definition get_typed obj (key : string) (t : json_type) : option json_object :=
  match json_object_object_get_ex obj (lit key) with
  | Some v => if json_object_is_type v t then Some v else None
  | None => None
  end.

(** [strdup (json_object_get_string (v))] *)
Definition dup_string (v : json_object) : cres bytes := deref (json_object_get_string v).

(** A string member that is copied when present and of type string. *)
Definition opt_typed_string obj (key : string) : cres (option bytes) :=
  match get_typed obj key json_type_string with
  | Some v => Some <$> dup_string v
  | None => Ok None
  end.

(** A member copied when present, whatever its type. *)
Definition opt_any_string obj (key : string) : cres (option bytes) :=
  match json_object_object_get_ex obj (lit key) with
  | Some v => Some <$> dup_string v
  | None => Ok None
  end.

(** Running [f] over an array, in order. *)
Fixpoint mapC {A B} (f : A → cres B) (l : list A) : cres (list B) :=
  match l with
  | [] => Ok []
  | a :: l => b ← f a; bs ← mapC f l; Ok (b :: bs)
  end.

(** [json_object_object_foreachC (obj, iter) hash_set (h, iter.key, strdup (...))] *)
Definition set_members (h : hash bytes) obj : cres (hash bytes) :=
  ms ← deref (json_object_object_foreachC obj);
  foldC (λ h '(k, v), s ← dup_string v; Ok (hash_set h k s)) ms h.

(** The same loop of Secrets and ConfigMaps, which skips other types. *)
Definition set_string_members (h : hash bytes) obj : cres (hash bytes) :=
  ms ← deref (json_object_object_foreachC obj);
  foldC (λ h '(k, v), if json_object_is_type v json_type_string
                      then (s ← dup_string v; Ok (hash_set h k s)) else Ok h) ms h.

(** The metadata every resource starts with: namespace and name. *)
Definition make_metadata obj : cres (option (json_object * bytes * bytes)) :=
  match get_typed obj "metadata" json_type_object with
  | None => Ok None
  | Some metadata =>
      match get_typed metadata "namespace" json_type_string with
      | None => Ok None
      | Some ns =>
          sns ← dup_string ns;
          match get_typed metadata "name" json_type_string with
          | None => Ok None
          | Some nm => snm ← dup_string nm; Ok (Some (metadata, sns, snm))
          end
      end
  end.

(** ** Ingresses *)
Definition ingress_path_make obj : cres ingress_path :=
  path ← opt_typed_string obj "path";
  match json_object_object_get_ex obj (lit "backend") with
  | None => Ok (IngressPath path None None)
  | Some backend =>
      sname ← opt_typed_string backend "serviceName";
      sport ← opt_any_string backend "servicePort";
      Ok (IngressPath path sname sport)
  end.

Definition ingress_rule_make obj : cres ingress_rule :=
  host ← opt_typed_string obj "host";
  match json_object_object_get_ex obj (lit "http") with
  | None => Ok (IngressRule host [])
  | Some http =>
      match json_object_object_get_ex http (lit "paths") with
      | None => Ok (IngressRule host [])
      | Some paths =>
          if negb (json_object_is_type paths json_type_array) then Ok (IngressRule host []) else
          ps ← deref (json_object_array paths);
          ps ← mapC ingress_path_make ps;
          Ok (IngressRule host ps)
      end
  end.

Definition ingress_tls_make obj : cres ingress_tls :=
  sname ← opt_typed_string obj "secretName";
  match json_object_object_get_ex obj (lit "hosts") with
  | None => Ok (IngressTls sname [])
  | Some hosts =>
      hs ← deref (json_object_array hosts);
      hs ← mapC dup_string hs;
      Ok (IngressTls sname hs)
  end.

Definition ingress_make obj : cres (option ingress) :=
  md ← make_metadata obj;
  match md with
  | None => Ok None
  | Some (metadata, ns, nm) =>
      ann ← (match json_object_object_get_ex metadata (lit "annotations") with
             | Some tmp => set_members (hash_new 127 true) tmp
             | None => Ok (hash_new 127 true)
             end);
      match get_typed obj "spec" json_type_object with
      | None => Ok (Some (Ingress nm ns [] [] ann))
      | Some spec =>
          tls ← (match get_typed spec "tls" json_type_array with
                 | Some tls => l ← deref (json_object_array tls); mapC ingress_tls_make l
                 | None => Ok []
                 end);
          rules ← (match get_typed spec "rules" json_type_array with
                   | Some rules => l ← deref (json_object_array rules); mapC ingress_rule_make l
                   | None => Ok []
                   end);
          Ok (Some (Ingress nm ns tls rules ann))
      end
  end.

(** ** Services *)
Definition service_port_make (jport : json_object) : cres service_port :=
  nm ← (match get_typed jport "name" json_type_string with
        | Some v => dup_string v
        | None => Ok (lit "")
        end);
  proto ← (match get_typed jport "protocol" json_type_string with
           | Some v =>
               s ← dup_string v;
               Ok (if streq s (lit "TCP") then SV_P_TCP
                   else if streq s (lit "UDP") then SV_P_UDP else SV_P_TCP)
           | None => Ok SV_P_TCP
           end);
  let port := match get_typed jport "port" json_type_int with
              | Some v => json_object_get_int v
              | None => 0
              end in
  let target := match get_typed jport "targetPort" json_type_int with
                | Some v => json_object_get_int v
                | None => port
                end in
  Ok (ServicePort nm port target proto).

Definition service_make obj : cres (option service) :=
  md ← make_metadata obj;
  match md with
  | None => Ok None
  | Some (_, ns, nm) =>
      match get_typed obj "spec" json_type_object with
      | None => Ok (Some (Service nm ns None None None None None None))
      | Some spec =>
          type ← opt_any_string spec "type";
          cip ← opt_any_string spec "clusterIP";
          aff ← opt_any_string spec "sessionAffinity";
          ext ← opt_any_string spec "externalName";
          sel ← (match json_object_object_get_ex spec (lit "selector") with
                 | Some tmp => set_members (hash_new 127 true) tmp
                 | None => Ok (hash_new 127 true)
                 end);
          ports ← (match get_typed spec "ports" json_type_array with
                   | Some ports =>
                       l ← deref (json_object_array ports);
                       foldC (λ h jport, p ← service_port_make jport; Ok (hash_set h (sp_name p) p))
                             l (hash_new 127 true)
                   | None => Ok (hash_new 127 true)
                   end);
          Ok (Some (Service nm ns type cip aff ext (Some sel) (Some ports)))
      end
  end.

(** ** Endpoints *)
Definition endpoints_port_make (port : json_object) : cres endpoints_port :=
  nm ← (match get_typed port "name" json_type_string with
        | Some v => dup_string v
        | None => Ok (lit "")
        end);
  proto ← (match get_typed port "protocol" json_type_string with
           | Some v => dup_string v
           | None => Ok (lit "TCP")
           end);
  Ok (EndpointsPort nm (match get_typed port "port" json_type_int with
                        | Some v => json_object_get_int v
                        | None => 0
                        end) proto).

Definition endpoints_address_make (address : json_object) : cres endpoints_address :=
  ip ← opt_typed_string address "ip";
  node ← opt_typed_string address "nodeName";
  Ok (EndpointsAddress ip node).

Definition endpoints_subset_make (subset : json_object) : cres endpoints_subset :=
  ports ← (match get_typed subset "ports" json_type_array with
           | Some ports =>
               l ← deref (json_object_array ports);
               foldC (λ h jport, p ← endpoints_port_make jport; Ok (hash_set h (et_name p) p))
                     l (hash_new 7 true)
           | None => Ok (hash_new 7 true)
           end);
  addrs ← (match get_typed subset "addresses" json_type_array with
           | Some addrs => l ← deref (json_object_array addrs); mapC endpoints_address_make l
           | None => Ok []
           end);
  Ok (EndpointsSubset addrs ports).

Definition endpoints_make obj : cres (option endpoints) :=
  md ← make_metadata obj;
  match md with
  | None => Ok None
  | Some (_, ns, nm) =>
      match get_typed obj "subsets" json_type_array with
      | None => Ok (Some (Endpoints nm ns []))
      | Some subsets =>
          l ← deref (json_object_array subsets);
          ss ← mapC endpoints_subset_make l;
          Ok (Some (Endpoints nm ns ss))
      end
  end.

(** ** Secrets and ConfigMaps *)
Definition secret_make obj : cres (option secret) :=
  md ← make_metadata obj;
  match md with
  | None => Ok None
  | Some (_, ns, nm) =>
      match get_typed obj "type" json_type_string with
      | None => Ok None
      | Some t =>
          type ← dup_string t;
          let empty := hash_new 127 true in
          match json_object_object_get_ex obj (lit "data") with
          | None => Ok (Some (Secret nm ns type empty))
          | Some data =>
              if negb (json_object_is_type data json_type_object)
              then Ok (Some (Secret nm ns type empty)) else
              d ← set_string_members empty data;
              Ok (Some (Secret nm ns type d))
          end
      end
  end.

Definition configmap_make obj : cres (option configmap) :=
  md ← make_metadata obj;
  match md with
  | None => Ok None
  | Some (_, ns, nm) =>
      let empty := hash_new 127 true in
      match json_object_object_get_ex obj (lit "data") with
      | None => Ok (Some (ConfigMap nm ns empty))
      | Some data =>
          if negb (json_object_is_type data json_type_object)
          then Ok (Some (ConfigMap nm ns empty)) else
          d ← set_string_members empty data;
          Ok (Some (ConfigMap nm ns d))
      end
  end.
End parsers.

(** * Operations on the objects *)

(** [service_find_port]: the first TCP/UDP port, in table order, whose name or
    number is the one given. *)
Definition service_find_port (svc : service) (name : bytes) (proto : service_proto)
    : cres (option service_port) :=
  let n := atoi name in
  ports ← deref (sv_ports svc);
  Ok (list_find (λ p, sp_protocol p = proto ∧ (name = sp_name p ∨ (n ≠ 0 ∧ n = sp_port p)))
        (hb_value <$> hash_foreach ports) ≫= λ '(_, p), Some p).

(** The comparison of two pointers to strings of [endpoints_equal]. *)
Definition ptr_streq (a b : option bytes) : bool :=
  match a, b with
  | None, None => true
  | Some a, Some b => streq a b
  | _, _ => false
  end.

Definition address_equal (a b : endpoints_address) : bool :=
  ptr_streq (ea_ip a) (ea_ip b) && ptr_streq (ea_nodename a) (ea_nodename b).

Definition port_entry_equal (a b : hashbucket endpoints_port) : bool :=
  streq (hb_key a) (hb_key b) && streq (et_name (hb_value a)) (et_name (hb_value b)) &&
  streq (et_protocol (hb_value a)) (et_protocol (hb_value b)) &&
  bool_decide (et_port (hb_value a) = et_port (hb_value b)).

(** Two lists of the same length whose elements are pairwise equal: the array
    loops, and the two iterators advanced in step. *)
Fixpoint all2 {A} (eqb : A → A → bool) (l k : list A) : bool :=
  match l, k with
  | [], [] => true
  | a :: l, b :: k => eqb a b && all2 eqb l k
  | _, _ => false
  end.

Definition subset_equal (a b : endpoints_subset) : bool :=
  all2 address_equal (es_addrs a) (es_addrs b) &&
  all2 port_entry_equal (hash_foreach (es_ports a)) (hash_foreach (es_ports b)).

Definition endpoints_equal (a b : endpoints) : bool :=
  streq (ep_name a) (ep_name b) && streq (ep_namespace a) (ep_namespace b) &&
  all2 subset_equal (ep_subsets a) (ep_subsets b).

(** [secret_make_ssl_ctx].  A buffer whose base64 is invalid is passed to
    [BIO_new_mem_buf] with the length -1, which makes it read the
    uninitialised allocation as a C string. *)
Section ssl.
Context `{SSL : OpenSSL}.

Definition decode_buffer (b64 : bytes) : cres bytes :=
  match base64_decode b64 with
  | Some b => Ok b
  | None => Fault Uninitialised
  end.

Fixpoint add_chain (fuel : nat) (ctx : ssl_ctx) (bio : bytes) : cres (option ssl_ctx) :=
  match fuel with
  | O => Fault Diverges
  | S fuel =>
      match PEM_read_bio_X509 bio with
      | None => Ok (Some ctx)
      | Some (cert, bio) =>
          match SSL_CTX_add_extra_chain_cert ctx cert with
          | None => Ok None
          | Some ctx => add_chain fuel ctx bio
          end
      end
  end.

Definition secret_make_ssl_ctx (s : secret) : cres (option ssl_ctx) :=
  match hash_get (se_data s) (lit "tls.crt") with
  | None => Ok None
  | Some certb64 =>
      match hash_get (se_data s) (lit "tls.key") with
      | None => Ok None
      | Some keyb64 =>
          match TSSslServerContextCreate with
          | None => Ok None
          | Some ctx =>
              bio ← decode_buffer certb64;
              match PEM_read_bio_X509 bio with
              | None => Ok None
              | Some (cert, bio) =>
                  match SSL_CTX_use_certificate ctx cert with
                  | None => Ok None
                  | Some ctx =>
                      r ← add_chain (S (length bio)) ctx bio;
                      match r with
                      | None => Ok None
                      | Some ctx =>
                          kbio ← decode_buffer keyb64;
                          match PEM_read_bio_PrivateKey kbio with
                          | None => Ok None
                          | Some key => Ok (SSL_CTX_use_PrivateKey ctx key)
                          end
                      end
                  end
              end
          end
      end
  end.
End ssl.

(** * Annotations ([api.h]) *)
Definition A_INGRESS (s : string) : bytes := lit "ingress.kubernetes.io/" ++ lit s.
Definition IN_SECURE_BACKENDS := A_INGRESS "secure-backends".
Definition IN_SSL_REDIRECT := A_INGRESS "ssl-redirect".
Definition IN_FORCE_SSL_REDIRECT := A_INGRESS "force-ssl-redirect".
Definition IN_SSL_PASSTHROUGH := A_INGRESS "ssl-passthrough".
Definition IN_TLS_MINIMUM_VERSION := A_INGRESS "tls-minimum-version".
Definition IN_TLS_VERSION_1_0_VALUE : Z := 0x0100.
Definition IN_TLS_VERSION_1_1_VALUE : Z := 0x0101.
Definition IN_TLS_VERSION_1_2_VALUE : Z := 0x0102.
Definition IN_APP_ROOT := A_INGRESS "app-root".
Definition IN_REWRITE_TARGET := A_INGRESS "rewrite-target".
Definition IN_AUTH_TYPE := A_INGRESS "auth-type".
Definition IN_AUTH_REALM := A_INGRESS "auth-realm".
Definition IN_AUTH_SECRET := A_INGRESS "auth-secret".
Definition IN_AUTH_SATISFY := A_INGRESS "auth-satisfy".
Definition IN_WHITELIST_SOURCE_RANGE := A_INGRESS "whitelist-source-range".
Definition IN_CACHE_ENABLE := A_INGRESS "cache-enable".
Definition IN_CACHE_GENERATION := A_INGRESS "cache-generation".
Definition IN_CACHE_IGNORE_PARAMS := A_INGRESS "cache-ignore-query-params".
Definition IN_CACHE_WHITELIST_PARAMS := A_INGRESS "cache-whitelist-query-params".
Definition IN_CACHE_IGNORE_COOKIES := A_INGRESS "cache-ignore-cookies".
Definition IN_CACHE_WHITELIST_COOKIES := A_INGRESS "cache-whitelist-cookies".
Definition IN_HSTS_INCLUDE_SUBDOMAINS := A_INGRESS "hsts-include-subdomains".
Definition IN_HSTS_MAX_AGE := A_INGRESS "hsts-max-age".
Definition IN_FOLLOW_REDIRECTS := A_INGRESS "follow-redirects".
Definition IN_PRESERVE_HOST := A_INGRESS "preserve-host".
Definition IN_READ_RESPONSE_TIMEOUT := A_INGRESS "read-response-timeout".
Definition IN_CLASS : bytes := lit "kubernetes.io/ingress.class".
Definition IN_ENABLE_CORS := A_INGRESS "enable-cors".
Definition IN_CORS_ORIGINS := A_INGRESS "cors-origins".
Definition IN_CORS_MAX_AGE := A_INGRESS "cors-max-age".
Definition IN_CORS_CREDENTIALS := A_INGRESS "cors-credentials".
Definition IN_CORS_HEADERS := A_INGRESS "cors-headers".
Definition IN_CORS_METHODS := A_INGRESS "cors-methods".
Definition IN_COMPRESS_ENABLE := A_INGRESS "compress-enable".
Definition IN_COMPRESS_TYPES := A_INGRESS "compress-types".
Definition IN_SERVER_PUSH := A_INGRESS "server-push".
Definition IN_HTTP2_ENABLE := A_INGRESS "http2-enable".
Definition IN_DEBUG_LOG : bytes := lit "ingress.torchbox.com/debug-log".

(** * Lemmas *)
Lemma all2_Forall2 {A} (eqb : A → A → bool) l k :
  all2 eqb l k = true ↔ Forall2 (λ a b, eqb a b = true) l k.
Proof.
  revert k; induction l as [|a l IH]; intros [|b k]; simpl; split; try done; try (by inversion 1).
  - rewrite andb_true_iff, IH. intros [??]. by constructor.
  - rewrite Forall2_cons, andb_true_iff, IH. done.
Qed.

Lemma ptr_streq_true a b : ptr_streq a b = true ↔ a = b.
Proof. destruct a, b; simpl; rewrite ?streq_true; naive_solver. Qed.

Lemma all2_eq {A} (eqb : A → A → bool) l k :
  (∀ a b, eqb a b = true ↔ a = b) → all2 eqb l k = true ↔ l = k.
Proof.
  intros Heq. rewrite all2_Forall2. split.
  - induction 1 as [|a b l k Hab _ IH]; [done|]. f_equal; [by apply Heq|done].
  - intros ->. apply Forall_Forall2_diag, Forall_forall. intros; by apply Heq.
Qed.

Lemma address_equal_true a b : address_equal a b = true ↔ a = b.
Proof.
  unfold address_equal. rewrite andb_true_iff, !ptr_streq_true.
  destruct a, b; simpl. naive_solver.
Qed.

(** Entries of a table that records key lengths truthfully are compared
    completely. *)
Lemma port_entry_equal_true (a b : hashbucket endpoints_port) :
  hb_keylen a = length (hb_key a) → hb_keylen b = length (hb_key b) →
  port_entry_equal a b = true ↔ a = b.
Proof.
  intros Ha Hb. unfold port_entry_equal. rewrite !andb_true_iff, !streq_true, bool_decide_eq_true.
  destruct a as [ka la [na pa ta]], b as [kb lb [nb pb tb]]; simpl in *. naive_solver.
Qed.

(** What [endpoints_equal] compares: the two objects with each port table
    replaced by the sequence of its entries. *)
Definition subset_view (s : endpoints_subset) := (es_addrs s, hash_foreach (es_ports s)).
Definition endpoints_view (e : endpoints) := (ep_name e, ep_namespace e, subset_view <$> ep_subsets e).
Definition endpoints_wf (e : endpoints) : Prop := Forall (λ s, hash_wf (es_ports s)) (ep_subsets e).

Lemma all2_eq_in {A} (eqb : A → A → bool) (P : A → Prop) l k :
  (∀ a b, P a → P b → eqb a b = true ↔ a = b) → Forall P l → Forall P k →
  all2 eqb l k = true ↔ l = k.
Proof.
  intros Heq Hl. revert k; induction Hl as [|a l Ha _ IH]; intros k Hk; destruct Hk as [|b k Hb Hk]; simpl;
    [done..|]. rewrite andb_true_iff, IH, Heq by done. naive_solver.
Qed.

Lemma hash_foreach_keylen {V} (h : hash V) :
  hash_wf h → Forall (λ b, hb_keylen b = length (hb_key b)) (hash_foreach h).
Proof.
  intros Hwf. apply Forall_forall. intros b Hb. rewrite hash_foreach_concat in Hb by done.
  apply elem_of_concat_buckets in Hb; [|done]. apply (wf_entries h Hwf _ _ Hb).
Qed.

Lemma subset_equal_true a b :
  hash_wf (es_ports a) → hash_wf (es_ports b) →
  subset_equal a b = true ↔ subset_view a = subset_view b.
Proof.
  intros Ha Hb. unfold subset_equal, subset_view. rewrite andb_true_iff.
  rewrite (all2_eq address_equal) by apply address_equal_true.
  rewrite (all2_eq_in port_entry_equal (λ b, hb_keylen b = length (hb_key b)));
    [|apply port_entry_equal_true|by apply hash_foreach_keylen..].
  split; [by intros [-> ->]|by injection 1].
Qed.

(** ** Canonical endpoints *)

(** The entries of a bucket are those of the whole table with its number. *)
Lemma concat_filter_index {A} (f : A → nat) (ls : list (list A)) off i c :
  (∀ j k x, ls !! j = Some k → x ∈ k → f x = (off + j)%nat) → ls !! i = Some c →
  filter (λ x, f x = (off + i)%nat) (concat ls) = c.
Proof.
  revert off i; induction ls as [|k ls IH]; intros off i Hf Hi; [done|]. simpl. rewrite filter_app.
  assert (Hk : ∀ x, x ∈ k → f x = (off + 0)%nat) by (intros x; by apply (Hf 0%nat k)).
  assert (Hls : ∀ j k x, ls !! j = Some k → x ∈ k → f x = (S off + j)%nat).
  { intros j k' x Hj Hx. rewrite (Hf (S j) k' x) by done. lia. }
  destruct i as [|i]; simpl in Hi.
  - simplify_eq. replace (filter _ (concat ls)) with (@nil A).
    + rewrite app_nil_r. clear Hf IH. induction c as [|x c IHc]; [done|].
      rewrite filter_cons_True by (apply Hk; by left). f_equal. apply IHc. intros; apply Hk; by right.
    + symmetry. destruct (filter _ (concat ls)) as [|x l] eqn:E; [done|].
      assert (Hx : x ∈ filter (λ x, f x = (off + 0)%nat) (concat ls)) by (rewrite E; by left).
      apply list_elem_of_filter in Hx as [Hfx Hx]. rewrite list_elem_of_In, in_concat in Hx.
      destruct Hx as (k' & Hk' & Hxk). apply list_elem_of_In in Hk', Hxk.
      apply list_elem_of_lookup in Hk' as [j Hj]. specialize (Hls _ _ _ Hj Hxk). lia.
  - replace (filter _ k) with (@nil A).
    + simpl. rewrite <- (IH (S off) i Hls Hi). apply list_filter_iff. intros. lia.
    + symmetry. destruct (filter _ k) as [|x l] eqn:E; [done|].
      assert (Hx : x ∈ filter (λ x, f x = (off + S i)%nat) k) by (rewrite E; by left).
      apply list_elem_of_filter in Hx as [Hfx Hx]. specialize (Hk x Hx). lia.
Qed.

Lemma hash_foreach_inj {V} (h k : hash V) :
  hash_wf h → hash_wf k → hs_size h = hs_size k → hs_free_fn h = hs_free_fn k →
  hash_foreach h = hash_foreach k → h = k.
Proof.
  intros Hh Hk Hs Hf He. rewrite !hash_foreach_concat in He by done.
  assert (Hb : hs_buckets h = hs_buckets k); [|destruct h, k; simpl in *; by subst].
  assert (Hidx : ∀ g : hash V, hash_wf g → ∀ i c, hs_buckets g !! i = Some c →
    filter (λ b, bucket_number g (hb_key b) = (0 + i)%nat) (concat (hs_buckets g)) = c).
  { intros g Hg i c Hc. apply (concat_filter_index (λ b, bucket_number g (hb_key b))); [|done].
    intros j l x Hj Hx. apply (wf_entries g Hg j x). unfold bucket. by rewrite Hj. }
  apply list_eq_same_length with (hs_size h); [by rewrite (wf_length k Hk)|by rewrite (wf_length h Hh)|].
  intros i x y _ Hx Hy. rewrite <- (Hidx h Hh i x Hx), <- (Hidx k Hk i y Hy), <- He.
  apply list_filter_iff. intros b. unfold bucket_number. by rewrite Hs.
Qed.

(** Endpoints as [endpoints_make] builds them. *)
Definition subset_canon (s : endpoints_subset) : Prop :=
  hash_wf (es_ports s) ∧ hs_size (es_ports s) = 7%nat ∧ hs_free_fn (es_ports s) = true.
Definition endpoints_canon (e : endpoints) : Prop := Forall subset_canon (ep_subsets e).

Lemma subset_view_inj a b : subset_canon a → subset_canon b → subset_view a = subset_view b → a = b.
Proof.
  intros (Ha & Has & Haf) (Hb & Hbs & Hbf) Heq. apply pair_eq in Heq as [Had Hp].
  apply hash_foreach_inj in Hp; [|done|done|congruence..]. destruct a, b; simpl in *; by subst.
Qed.

Lemma endpoints_equal_eq a b :
  endpoints_canon a → endpoints_canon b → endpoints_equal a b = true ↔ a = b.
Proof.
  intros Ha Hb. unfold endpoints_equal. rewrite !andb_true_iff, !streq_true.
  rewrite (all2_eq_in subset_equal subset_canon).
  - destruct a, b; simpl. split; [by intros [[-> ->] ->]|by injection 1].
  - intros x y Hx Hy. rewrite subset_equal_true by (apply Hx || apply Hy).
    split; [by apply subset_view_inj|by intros ->].
  - done.
  - done.
Qed.

Lemma mapC_Forall {A B} (f : A → cres B) (Q : B → Prop) l r :
  (∀ a b, f a = Ok b → Q b) → mapC f l = Ok r → Forall Q r.
Proof.
  intros Hf. revert r; induction l as [|a l IH]; intros r; simpl; [intros H; apply (inj Ok) in H as <-; constructor|].
  destruct (f a) as [b|] eqn:E; [|done]. cbn [mbind cres_bind].
  destruct (mapC f l) as [bs|]; [|done]. cbn [mbind cres_bind]. intros H. apply (inj Ok) in H as <-.
  constructor; [by eapply Hf|by apply IH].
Qed.

Lemma endpoints_subset_make_canon `{JsonC} obj s : endpoints_subset_make obj = Ok s → subset_canon s.
Proof.
  unfold endpoints_subset_make. intros Hs.
  match type of Hs with mbind _ ?m = _ => destruct m as [ports|] eqn:Ep; [|done] end. cbn [mbind cres_bind] in Hs.
  match type of Hs with mbind _ ?m = _ => destruct m as [addrs|] eqn:Ea; [|done] end. cbn [mbind cres_bind] in Hs.
  apply (inj Ok) in Hs as <-. unfold subset_canon. cbn [es_ports]. clear Ea.
  assert (Hnew : hash_wf (hash_new (V:=endpoints_port) 7 true) ∧ hs_size (hash_new (V:=endpoints_port) 7 true) = 7%nat ∧
    hs_free_fn (hash_new (V:=endpoints_port) 7 true) = true) by (split; [apply hash_new_wf; lia|done]).
  destruct (get_typed obj "ports" json_type_array) as [o|]; [|by apply (inj Ok) in Ep as <-].
  destruct (json_object_array o) as [l|]; [|done]. cbn [deref mbind cres_bind] in Ep. revert Ep.
  apply (foldC_post (λ h, hash_wf h ∧ hs_size h = 7%nat ∧ hs_free_fn h = true)); [done|].
  intros h j h' _ (Hw & Hsz & Hf) Hj. destruct (endpoints_port_make j); [|done]. cbn [mbind cres_bind] in Hj.
  apply (inj Ok) in Hj as <-. split; [by apply hash_set_wf|done].
Qed.

Lemma endpoints_make_canon `{JsonC} obj e : endpoints_make obj = Ok (Some e) → endpoints_canon e.
Proof.
  unfold endpoints_make. destruct (make_metadata obj) as [[[[md ns] nm]|]|]; [|done..]. cbn [mbind cres_bind].
  destruct (get_typed obj "subsets" json_type_array) as [o|].
  - destruct (json_object_array o) as [l|]; [|done]. cbn [deref mbind cres_bind].
    destruct (mapC endpoints_subset_make l) as [ss|] eqn:Em; [|done]. cbn [mbind cres_bind].
    intros He. apply (inj Ok), (inj Some) in He as <-. eapply mapC_Forall; [apply endpoints_subset_make_canon|done].
  - intros He. apply (inj Ok), (inj Some) in He as <-. constructor.
Qed.

(** ** Termination of the certificate loop *)
Lemma add_chain_total `{OpenSSLLaws} fuel ctx bio :
  (length bio < fuel)%nat → ∃ r, add_chain fuel ctx bio = Ok r.
Proof.
  revert ctx bio; induction fuel as [|fuel IH]; intros ctx bio Hf; [lia|]. simpl.
  destruct (PEM_read_bio_X509 bio) as [[cert rest]|] eqn:E; [|by eauto].
  destruct (SSL_CTX_add_extra_chain_cert ctx cert); [|by eauto].
  apply IH. apply PEM_read_bio_X509_consumes in E. lia.
Qed.

(** A key pair in a secret is valid base64. *)
Definition tls_ok (s : secret) : Prop :=
  ∀ crt key, hash_get (se_data s) (lit "tls.crt") = Some crt → hash_get (se_data s) (lit "tls.key") = Some key →
    is_Some (base64_decode crt) ∧ is_Some (base64_decode key).

Lemma secret_make_ssl_ctx_total `{OpenSSLLaws} s : tls_ok s → ∃ c, secret_make_ssl_ctx s = Ok c.
Proof.
  intros Hs. unfold secret_make_ssl_ctx, decode_buffer.
  destruct (hash_get _ (lit "tls.crt")) as [crt|] eqn:Ec; [|by eauto].
  destruct (hash_get _ (lit "tls.key")) as [key|] eqn:Ek; [|by eauto].
  destruct (Hs _ _ Ec Ek) as [[c ->] [k ->]]. destruct TSSslServerContextCreate; [|by eauto]. cbn [mbind cres_bind].
  destruct (PEM_read_bio_X509 c) as [[cert bio]|]; [|by eauto]. destruct (SSL_CTX_use_certificate _ _) as [ctx|]; [|by eauto].
  destruct (add_chain_total (S (length bio)) ctx bio ltac:(lia)) as [r ->]. cbn [mbind cres_bind].
  destruct r; [|by eauto]. destruct (PEM_read_bio_PrivateKey k); eauto.
Qed.

(** * Properties *)

(** [endpoints_equal] returns true exactly when the two objects have the
    same name, namespace and, subset by subset, the same addresses and the
    same port entries in the same order; the watcher drops an update only
    then. *)
Theorem endpoints_equal_spec (a b : endpoints) :
  endpoints_wf a → endpoints_wf b →
  endpoints_equal a b = true ↔ endpoints_view a = endpoints_view b.
Proof.
  intros Ha Hb. unfold endpoints_equal, endpoints_view.
  rewrite !andb_true_iff, !streq_true.
  enough (all2 subset_equal (ep_subsets a) (ep_subsets b) = true ↔
          subset_view <$> ep_subsets a = subset_view <$> ep_subsets b) as ->.
  { split; [by intros [[-> ->] ->]|by injection 1]. }
  unfold endpoints_wf in *. revert Hb. generalize (ep_subsets b) as k.
  induction Ha as [|s l Hs _ IH]; intros k Hk; destruct Hk as [|t k Ht Hk]; simpl; [done..|].
  rewrite andb_true_iff, IH, subset_equal_true by done.
  symmetry. apply cons_eq.
Qed.

Definition example_endpoints : endpoints :=
  Endpoints (lit "web") (lit "prod")
    [EndpointsSubset [EndpointsAddress (Some (lit "10.0.0.1")) None]
       (hash_set (hash_new 7 true) (lit "http") (EndpointsPort (lit "http") 80 (lit "TCP")))].

Lemma endpoints_equal_spec_witness :
  endpoints_equal example_endpoints example_endpoints = true.
Proof.
  apply endpoints_equal_spec; [| |reflexivity];
    (constructor; [apply hash_set_wf, hash_new_wf; lia|constructor]).
Defined.
