(* ===== verification/Namespace.v ===== *)
(** [api/namespace.c]: a namespace holds four tables of objects, keyed by the
    objects' names.  Its abstraction is four finite maps. *)

From S2P Require Import Prelude CString Hash Base64 Env Api.

(** * Data and operations *)
Record namespace := Namespace {
  ns_name : bytes;
  ns_ingresses : hash ingress;
  ns_secrets : hash secret;
  ns_services : hash service;
  ns_endpointses : hash endpoints;
}.

Definition namespace_make (name : bytes) : namespace :=
  Namespace name (hash_new 127 true) (hash_new 127 true) (hash_new 127 true) (hash_new 127 true).

(** [namespace_free]: what each table hands to its free function. *)
Definition namespace_free (ns : namespace)
    : list ingress * list secret * list service * list endpoints :=
  (hash_free (ns_ingresses ns), hash_free (ns_secrets ns),
   hash_free (ns_services ns), hash_free (ns_endpointses ns)).

Definition set_ingresses (ns : namespace) h :=
  Namespace (ns_name ns) h (ns_secrets ns) (ns_services ns) (ns_endpointses ns).
Definition set_secrets (ns : namespace) h :=
  Namespace (ns_name ns) (ns_ingresses ns) h (ns_services ns) (ns_endpointses ns).
Definition set_services (ns : namespace) h :=
  Namespace (ns_name ns) (ns_ingresses ns) (ns_secrets ns) h (ns_endpointses ns).
Definition set_endpointses (ns : namespace) h :=
  Namespace (ns_name ns) (ns_ingresses ns) (ns_secrets ns) (ns_services ns) h.

Definition namespace_put_ingress (ns : namespace) (ing : ingress) : namespace :=
  set_ingresses ns (hash_set (hash_del (ns_ingresses ns) (in_name ing)) (in_name ing) ing).
Definition namespace_get_ingress (ns : namespace) (name : bytes) : option ingress :=
  hash_get (ns_ingresses ns) name.
Definition namespace_del_ingress (ns : namespace) (name : bytes) : namespace :=
  set_ingresses ns (hash_del (ns_ingresses ns) name).

Definition namespace_put_secret (ns : namespace) (sec : secret) : namespace :=
  set_secrets ns (hash_set (hash_del (ns_secrets ns) (se_name sec)) (se_name sec) sec).
Definition namespace_get_secret (ns : namespace) (name : bytes) : option secret :=
  hash_get (ns_secrets ns) name.
Definition namespace_del_secret (ns : namespace) (name : bytes) : namespace :=
  set_secrets ns (hash_del (ns_secrets ns) name).

Definition namespace_put_service (ns : namespace) (svc : service) : namespace :=
  set_services ns (hash_set (hash_del (ns_services ns) (sv_name svc)) (sv_name svc) svc).
Definition namespace_get_service (ns : namespace) (name : bytes) : option service :=
  hash_get (ns_services ns) name.
Definition namespace_del_service (ns : namespace) (name : bytes) : namespace :=
  set_services ns (hash_del (ns_services ns) name).

Definition namespace_put_endpoints (ns : namespace) (eps : endpoints) : namespace :=
  set_endpointses ns (hash_set (hash_del (ns_endpointses ns) (ep_name eps)) (ep_name eps) eps).
Definition namespace_get_endpoints (ns : namespace) (name : bytes) : option endpoints :=
  hash_get (ns_endpointses ns) name.
Definition namespace_del_endpoints (ns : namespace) (name : bytes) : namespace :=
  set_endpointses ns (hash_del (ns_endpointses ns) name).

(** * Abstraction *)
Record ns_view := NsView {
  nv_ingresses : gmap bytes ingress;
  nv_secrets : gmap bytes secret;
  nv_services : gmap bytes service;
  nv_endpointses : gmap bytes endpoints;
}.

Definition ns_empty : ns_view := NsView ∅ ∅ ∅ ∅.

Record ns_models (ns : namespace) (v : ns_view) : Prop := {
  nm_ingresses : hash_models (ns_ingresses ns) (nv_ingresses v);
  nm_secrets : hash_models (ns_secrets ns) (nv_secrets v);
  nm_services : hash_models (ns_services ns) (nv_services v);
  nm_endpointses : hash_models (ns_endpointses ns) (nv_endpointses v);
}.

(** A change to one object, as the API server reports it. *)
Inductive ns_event :=
  | PutIngress (ing : ingress) | DelIngress (name : bytes)
  | PutSecret (sec : secret) | DelSecret (name : bytes)
  | PutService (svc : service) | DelService (name : bytes)
  | PutEndpoints (eps : endpoints) | DelEndpoints (name : bytes).

Definition ns_apply (ns : namespace) (e : ns_event) : namespace :=
  match e with
  | PutIngress i => namespace_put_ingress ns i
  | DelIngress n => namespace_del_ingress ns n
  | PutSecret s => namespace_put_secret ns s
  | DelSecret n => namespace_del_secret ns n
  | PutService s => namespace_put_service ns s
  | DelService n => namespace_del_service ns n
  | PutEndpoints e => namespace_put_endpoints ns e
  | DelEndpoints n => namespace_del_endpoints ns n
  end.

Definition view_apply (v : ns_view) (e : ns_event) : ns_view :=
  let 'NsView i s v e' := v in
  match e with
  | PutIngress x => NsView (<[in_name x := x]> i) s v e'
  | DelIngress n => NsView (delete n i) s v e'
  | PutSecret x => NsView i (<[se_name x := x]> s) v e'
  | DelSecret n => NsView i (delete n s) v e'
  | PutService x => NsView i s (<[sv_name x := x]> v) e'
  | DelService n => NsView i s (delete n v) e'
  | PutEndpoints x => NsView i s v (<[ep_name x := x]> e')
  | DelEndpoints n => NsView i s v (delete n e')
  end.

(** * Lemmas *)
Lemma ns_models_make name : ns_models (namespace_make name) ns_empty.
Proof. split; apply hash_models_new; lia. Qed.

Lemma ns_models_apply ns v e : ns_models ns v → ns_models (ns_apply ns e) (view_apply v e).
Proof.
  intros []. destruct v, e; split; simpl in *; try done;
    (by apply hash_models_del) || (by apply (hash_models_put _ _ _ _)).
Qed.

#[export] Hint Resolve ns_models_make ns_models_apply : hash_db.

(** A put is a put of its own table: the other three are not touched. *)
Lemma ns_name_apply ns e : ns_name (ns_apply ns e) = ns_name ns.
Proof. by destruct e. Qed.
