(* ===== verification/Cluster.v ===== *)
(** [api/cluster.c]: the cluster state the watcher fills and the remap builder
    reads, with the configuration taken from the ConfigMap (default
    certificates and the domain access list). *)

From S2P Require Import Prelude CString Hash Base64 Env Api Namespace.

Local Open Scope Z_scope.

(** * Data *)
Record cluster_cert := ClusterCert {
  cr_domain : bytes;
  cr_namespace : bytes;
  cr_name : bytes;
}.

Record cluster_domain := ClusterDomain {
  da_domain : bytes;
  da_namespaces : hashset;
}.

Record cluster_config := ClusterConfig {
  cc_tls_minimum_version : Z;
  cc_hsts_max_age : Z;
  cc_hsts_subdomains : bool;
  cc_http2 : bool;
  cc_healthcheck : bytes;
  cc_domains : list cluster_domain;
  cc_certs : list cluster_cert;
}.

Record cluster := Cluster {
  cs_namespaces : hash namespace;
  cs_config : cluster_config;
}.

(** * Operations *)
Definition truefalse (str : bytes) : bool := streq str (lit "true").

Definition cluster_config_new : cluster_config := {|
  cc_tls_minimum_version := IN_TLS_VERSION_1_0_VALUE;
  cc_hsts_max_age := 0;
  cc_hsts_subdomains := false;
  cc_http2 := true;
  cc_healthcheck := lit "/__trafficserver_alive";
  cc_domains := [];
  cc_certs := [];
|}.

Definition cluster_make : cluster := Cluster (hash_new 127 true) cluster_config_new.

(** The namespace of a name, created on first use. *)
Definition cluster_get_namespace (cs : cluster) (name : bytes) : cluster * namespace :=
  match hash_get (cs_namespaces cs) name with
  | Some ns => (cs, ns)
  | None =>
      let ns := namespace_make name in
      (Cluster (hash_set (cs_namespaces cs) name ns) (cs_config cs), ns)
  end.

(** A change of the namespace [cluster_get_namespace] returned, through the
    pointer. *)
Definition cluster_update_namespace (cs : cluster) (name : bytes) (f : namespace → namespace) : cluster :=
  let '(cs, _) := cluster_get_namespace cs name in
  Cluster (hash_alter (cs_namespaces cs) name f) (cs_config cs).

(** One entry of tls-certificates: the domains before the colon, one
    certificate each. *)
Definition cert_entry (p : bytes) : list cluster_cert :=
  match cut ":"%char p with
  | None => []
  | Some (p, certns) =>
      match cut "/"%char certns with
      | None => []
      | Some (certns, certname) =>
          (λ dom, ClusterCert dom certns certname) <$> strsep_all (lit ",") p
      end
  end.

Definition set_certs (cc : cluster_config) l : cluster_config :=
  {| cc_tls_minimum_version := cc_tls_minimum_version cc; cc_hsts_max_age := cc_hsts_max_age cc;
     cc_hsts_subdomains := cc_hsts_subdomains cc; cc_http2 := cc_http2 cc;
     cc_healthcheck := cc_healthcheck cc; cc_domains := cc_domains cc; cc_certs := l |}.

(** The delimiters of tls-certificates: space, tab and comma. *)
Definition cert_delims : bytes := [" "; "009"; ","]%char.

Definition cluster_config_add_certs (cc : cluster_config) (certs : bytes) : cluster_config :=
  foldl (λ cc p, set_certs cc (cc_certs cc ++ cert_entry p)) cc (strsep_all cert_delims certs).

(** One entry of domain-access-list: the domain and the set of namespaces. *)
Definition domain_entry (q : bytes) : option cluster_domain :=
  match cut ":"%char q with
  | None => None
  | Some (q, nslist) => Some (ClusterDomain q (hashset_of 13 (strsep_all (lit ",") nslist)))
  end.

Definition domain_delims : bytes := [" "; "009"; "010"; "013"]%char.

Definition domain_list (s : bytes) : list cluster_domain :=
  foldl (λ l q, match domain_entry q with Some d => l ++ [d] | None => l end)
        [] (strsep_all domain_delims s).

Definition tls_minimum (s : bytes) (old : Z) : Z :=
  if streq s (lit "1.0") then IN_TLS_VERSION_1_0_VALUE
  else if streq s (lit "1.1") then IN_TLS_VERSION_1_1_VALUE
  else if streq s (lit "1.2") then IN_TLS_VERSION_1_2_VALUE
  else old.

(** The configuration a ConfigMap describes.  The healthcheck path is tested
    in the new configuration, where it is still the default, not in the
    ConfigMap. *)
Definition config_of (data : hash bytes) : cluster_config :=
  let cc := cluster_config_new in
  let get (k : string) := hash_get data (lit k) in
  let age := match get "hsts-max-age" with Some s => atoi s | None => cc_hsts_max_age cc end in
  let sub := match get "hsts-include-subdomains" with Some s => truefalse s | None => cc_hsts_subdomains cc end in
  let h2 := match get "http2-enable" with Some s => truefalse s | None => cc_http2 cc end in
  let tls := match get "tls-minimum-version" with
             | Some s => tls_minimum s (cc_tls_minimum_version cc)
             | None => cc_tls_minimum_version cc end in
  let cc := match get "tls-certificates" with Some s => cluster_config_add_certs cc s | None => cc end in
  let hc := match get "healthcheck-path" with
            | Some s => if negb (bool_decide (head (cc_healthcheck cc) = Some "/"%char))
                        then cc_healthcheck cc else s
            | None => cc_healthcheck cc end in
  let doms := match get "domain-access-list" with Some s => domain_list s | None => cc_domains cc end in
  {| cc_tls_minimum_version := tls; cc_hsts_max_age := age; cc_hsts_subdomains := sub;
     cc_http2 := h2; cc_healthcheck := hc; cc_domains := doms; cc_certs := cc_certs cc |}.

Definition cluster_set_configmap (cs : cluster) (cm : option configmap) : cluster :=
  match cm with
  | None => Cluster (cs_namespaces cs) cluster_config_new
  | Some cm => Cluster (cs_namespaces cs) (config_of (cm_data cm))
  end.

Definition domain_match (pat str : bytes) : bool :=
  if streq pat (lit "*") then true
  else if (length str <? 3)%nat || (length pat <? 3)%nat then false
  else match pat with
  | "*"%char :: "."%char :: pat2 =>
      match cut "."%char str with
      | None => false
      | Some (_, dc1) => streq pat2 dc1
      end
  | "*"%char :: pat1 =>
      if streq pat1 str then true
      else match cut "."%char str with
           | None => false
           | Some (_, dc1) => streq pat1 dc1
           end
  | _ => streq pat str
  end.

Definition cluster_get_cert_for_hostname (cs : cluster) (host : bytes) : option cluster_cert :=
  snd <$> list_find (λ crt, domain_match (cr_domain crt) host = true) (cc_certs (cs_config cs)).

Definition domain_allows (cd : cluster_domain) (dom ns : bytes) : bool :=
  (streq (da_domain cd) (lit "*") || domain_match (da_domain cd) dom) &&
  (bool_decide (hash_get (da_namespaces cd) (lit "*") = HASH_PRESENT) ||
   bool_decide (hash_get (da_namespaces cd) ns = HASH_PRESENT)).

Definition cluster_domain_for_ns (cs : cluster) (dom ns : bytes) : bool :=
  match cc_domains (cs_config cs) with
  | [] => true
  | l => existsb (λ cd, domain_allows cd dom ns) l
  end.

(** * Lemmas: namespaces *)
Record cluster_models (cs : cluster) (m : gmap bytes ns_view) : Prop := {
  cl_wf : ∃ hm, hash_models (cs_namespaces cs) hm ∧ map_Forall2 (λ name ns v, ns_models ns v ∧ ns_name ns = name) hm m;
}.

Lemma cluster_models_make : cluster_models cluster_make ∅.
Proof.
  split. exists ∅. split; [apply hash_models_new; lia|]. apply map_Forall2_empty.
Qed.

(** What [cluster_get_namespace] does to the abstraction. *)
Definition view_touch (m : gmap bytes ns_view) (name : bytes) : gmap bytes ns_view :=
  match m !! name with Some _ => m | None => <[name := ns_empty]> m end.

Lemma cluster_get_namespace_models cs m name :
  cluster_models cs m →
  cluster_models (cluster_get_namespace cs name).1 (view_touch m name) ∧
  ns_models (cluster_get_namespace cs name).2 (default ns_empty (m !! name)).
Proof.
  intros [(hm & Hh & Hm)]. unfold cluster_get_namespace, view_touch.
  rewrite (hash_models_get _ _ _ Hh). pose proof (Hm name) as Hn.
  destruct (hm !! name) as [ns|] eqn:E; inversion Hn; simpl.
  - split; [|naive_solver]. split. by exists hm.
  - split; [|apply ns_models_make]. split. exists (<[name := namespace_make name]> hm).
    split; [by apply hash_models_set|]. apply map_Forall2_insert_2; [split; [apply ns_models_make|done]|done].
Qed.

Lemma cluster_update_models cs m name f g :
  cluster_models cs m → (∀ ns v, ns_models ns v → ns_models (f ns) (g v)) → (∀ ns, ns_name (f ns) = ns_name ns) →
  cluster_models (cluster_update_namespace cs name f) (alter g name (view_touch m name)).
Proof.
  intros Hc Hf Hn. unfold cluster_update_namespace.
  destruct (cluster_get_namespace_models cs m name Hc) as [[(hm & Hh & Hm)] _].
  destruct (cluster_get_namespace cs name) as [cs' ns]; simpl in *.
  split. exists (alter f name hm). split; [by apply hash_models_alter|].
  intros k. rewrite !lookup_alter. case_decide as Hk; [subst k|apply Hm].
  destruct (Hm name) as [x y [H1 H2]|]; simpl; constructor. rewrite Hn. auto.
Qed.

Lemma cluster_update_config cs name f :
  cs_config (cluster_update_namespace cs name f) = cs_config cs.
Proof.
  unfold cluster_update_namespace, cluster_get_namespace.
  by destruct (hash_get (cs_namespaces cs) name).
Qed.

(** The watcher's changes, one object at a time. *)
Definition cluster_apply (cs : cluster) (ev : bytes * ns_event) : cluster :=
  cluster_update_namespace cs ev.1 (λ ns, ns_apply ns ev.2).
Definition views_apply (m : gmap bytes ns_view) (ev : bytes * ns_event) : gmap bytes ns_view :=
  <[ev.1 := view_apply (default ns_empty (m !! ev.1)) ev.2]> m.

Lemma alter_touch g m name :
  alter g name (view_touch m name) = <[name := g (default ns_empty (m !! name))]> m.
Proof.
  unfold view_touch. apply map_eq. intros k.
  destruct (decide (k = name)) as [->|Hk].
  - rewrite lookup_alter_eq, lookup_insert_eq. destruct (m !! name) eqn:E; simpl; [by rewrite E|].
    by rewrite lookup_insert_eq.
  - rewrite lookup_alter_ne, lookup_insert_ne by done.
    destruct (m !! name); [done|]. by rewrite lookup_insert_ne.
Qed.

Lemma cluster_models_apply cs m ev :
  cluster_models cs m → cluster_models (cluster_apply cs ev) (views_apply m ev).
Proof.
  intros H. unfold views_apply. rewrite <- (alter_touch (λ v, view_apply v ev.2)).
  apply cluster_update_models; [done| |intros; apply ns_name_apply]. intros. by apply ns_models_apply.
Qed.

Lemma cluster_models_applies cs m evs :
  cluster_models cs m → cluster_models (foldl cluster_apply cs evs) (foldl views_apply m evs).
Proof.
  revert cs m; induction evs as [|ev evs IH]; intros cs m H; simpl; [done|].
  by apply IH, cluster_models_apply.
Qed.

#[export] Hint Resolve cluster_models_make cluster_models_apply : hash_db.

(** * Lemmas: domains *)

(** [c] is the first component of [str] and [rest] what follows its dot. *)
Definition under_domain (str rest : bytes) : Prop :=
  ∃ first, "."%char ∉ first ∧ str = first ++ "."%char :: rest.

(** The host names a pattern covers. *)
Inductive domain_matches : bytes → bytes → Prop :=
  | DmAny str : domain_matches (lit "*") str
  | DmExact str :
      (3 ≤ length str)%nat → head str ≠ Some "*"%char → domain_matches str str
  | DmSub d str :
      (3 ≤ length str)%nat → d ≠ [] → under_domain str d →
      domain_matches ("*"%char :: "."%char :: d) str
  | DmBoth d str :
      (3 ≤ length str)%nat → (2 ≤ length d)%nat → head d ≠ Some "."%char →
      (str = d ∨ under_domain str d) → domain_matches ("*"%char :: d) str.

Lemma cut_under_domain str d :
  under_domain str d ↔ ∃ a, cut "."%char str = Some (a, d).
Proof.
  unfold under_domain. split.
  - intros (a & Ha & ->). exists a. by apply cut_app.
  - intros (a & H). apply cut_Some in H as [-> Ha]. by exists a.
Qed.

(** The test both wildcard forms share. *)
Lemma cut_test str d :
  match cut "."%char str with None => false | Some (_, dc1) => streq d dc1 end = true
  ↔ under_domain str d.
Proof.
  rewrite cut_under_domain. destruct (cut _ str) as [[a b]|]; [rewrite streq_true|]; naive_solver.
Qed.

(** The three forms of a pattern. *)
Lemma pattern_cases (pat : bytes) :
  head pat ≠ Some "*"%char ∨ (∃ d, pat = "*"%char :: "."%char :: d) ∨
  (∃ d, pat = "*"%char :: d ∧ head d ≠ Some "."%char).
Proof.
  destruct pat as [|a pat]; [by left|]. destruct (decide (a = "*"%char)) as [->|]; [|left; naive_solver].
  right. destruct pat as [|b d]; [right; by exists []|].
  destruct (decide (b = "."%char)) as [->|]; [left; by exists d|].
  right. exists (b :: d). naive_solver.
Qed.

Lemma domain_match_short pat str :
  pat ≠ lit "*" → (length str < 3)%nat ∨ (length pat < 3)%nat → domain_match pat str = false.
Proof.
  intros Hp H. unfold domain_match. rewrite (proj2 (streq_false _ _)) by done.
  destruct H as [H|H]; apply Nat.ltb_lt in H; rewrite H; [done|by rewrite orb_true_r].
Qed.

Lemma domain_match_long pat str :
  (3 ≤ length str)%nat → (3 ≤ length pat)%nat →
  domain_match pat str =
  match pat with
  | "*"%char :: "."%char :: pat2 =>
      match cut "."%char str with None => false | Some (_, dc1) => streq pat2 dc1 end
  | "*"%char :: pat1 =>
      if streq pat1 str then true
      else match cut "."%char str with None => false | Some (_, dc1) => streq pat1 dc1 end
  | _ => streq pat str
  end.
Proof.
  intros Hs Hp. unfold domain_match. rewrite (proj2 (streq_false _ _)).
  - by rewrite !(proj2 (Nat.ltb_ge _ _)) by lia.
  - intros ->. simpl in Hp. lia.
Qed.

Lemma head_not (c : ascii) (l : bytes) : head l ≠ Some c →
  match l with [] => True | x :: _ => x ≠ c end.
Proof. destruct l; naive_solver. Qed.

(** Matching on a first byte that is not the one named. *)
Lemma match_star_other {A} (pat : bytes) (f g : bytes → A) (h : A) :
  head pat ≠ Some "*"%char →
  match pat with
  | "*"%char :: "."%char :: p => f p
  | "*"%char :: p => g p
  | _ => h
  end = h.
Proof.
  destruct pat as [|c p]; [done|]. intros Hc.
  assert (Hne : c ≠ "*"%char) by naive_solver. clear Hc.
  destruct c as [[] [] [] [] [] [] [] []]; try done; destruct p as [|[[] [] [] [] [] [] [] []]]; done.
Qed.

Lemma match_star_dot {A} (p : bytes) (f g : bytes → A) (h : A) :
  head p ≠ Some "."%char →
  match "*"%char :: p with
  | "*"%char :: "."%char :: p => f p
  | "*"%char :: p => g p
  | _ => h
  end = g p.
Proof.
  destruct p as [|c p]; [done|]. intros Hc.
  assert (Hne : c ≠ "."%char) by naive_solver. clear Hc.
  by destruct c as [[] [] [] [] [] [] [] []].
Qed.

Lemma domain_match_iff (pat str : bytes) :
  domain_match pat str = true ↔ domain_matches pat str.
Proof.
  destruct (decide (pat = lit "*")) as [->|Hany].
  { split; [constructor|done]. }
  destruct (decide ((3 ≤ length str)%nat ∧ (3 ≤ length pat)%nat)) as [[Hs Hp]|Hshort].
  2:{ rewrite domain_match_short by (done || lia). split; [done|].
      inversion 1; subst; simpl in *; try done; try lia. destruct d; simpl in *; try done; lia. }
  rewrite domain_match_long by done.
  destruct (pattern_cases pat) as [Hh|[[d ->]|(d & -> & Hd)]].
  - rewrite match_star_other, streq_true by done. split; [intros ->; by constructor|].
    inversion 1; subst; done.
  - rewrite cut_test. split.
    + intros Hu. constructor; [done| |done]. intros ->. simpl in Hp. lia.
    + inversion 1; subst; done.
  - rewrite (match_star_dot d (λ p, match cut "."%char str with None => false | Some (_, e) => streq p e end)
      (λ p, if streq p str then true
            else match cut "."%char str with None => false | Some (_, e) => streq p e end) false) by done.
    split.
    + intros H. constructor; [done|simpl in Hp; lia|done|].
      destruct (streq d str) eqn:E; [apply streq_true in E; by left|right; by apply cut_test].
    + inversion 1 as [| |d' str'|d' str' ?? Hd' Hor]; subst; try done.
      destruct (streq d str) eqn:E; [done|]. apply cut_test.
      destruct Hor as [->|]; [by rewrite streq_refl in E|done].
Qed.

(** * Properties *)

(** [domain_match] decides the relation its comment describes: "*" covers
    every name; a pattern without a leading star covers itself; "*.d" covers
    exactly the names with one more component than "d"; "*d" covers both "d"
    and those; apart from "*", patterns and names of fewer than three
    characters are never matched. *)
Theorem domain_match_correct (pat str : bytes) :
  domain_match pat str = true ↔ domain_matches pat str.
Proof. apply domain_match_iff. Qed.

(** C26. The cluster state refines a map from namespaces to their objects:
    after any sequence of additions, replacements and deletions of objects,
    every lookup in a namespace (created on demand) returns the object last
    put under that name and not deleted since, and the objects of the other
    namespaces are not affected. *)
Theorem cluster_refines_objects (evs : list (bytes * ns_event)) (ns name : bytes) :
  let n := (cluster_get_namespace (foldl cluster_apply cluster_make evs) ns).2 in
  let v := default ns_empty (foldl views_apply ∅ evs !! ns) in
  namespace_get_ingress n name = nv_ingresses v !! name ∧
  namespace_get_secret n name = nv_secrets v !! name ∧
  namespace_get_service n name = nv_services v !! name ∧
  namespace_get_endpoints n name = nv_endpointses v !! name.
Proof.
  intros n v.
  assert (Hn : ns_models n v).
  { apply cluster_get_namespace_models, cluster_models_applies, cluster_models_make. }
  destruct Hn. split_and!; by apply hash_models_get.
Qed.

(** ** The ConfigMap *)
Lemma foldl_snoc_omap {A B} (f : A → option B) (l : list A) (acc : list B) :
  foldl (λ l q, match f q with Some d => l ++ [d] | None => l end) acc l = acc ++ omap f l.
Proof.
  revert acc; induction l as [|a l IH]; intros acc; simpl; [by rewrite app_nil_r|].
  rewrite IH. destruct (f a); simpl; [by rewrite <- app_assoc|done].
Qed.

Lemma domain_list_split s : domain_list s = omap domain_entry (split domain_delims s).
Proof. unfold domain_list. by rewrite foldl_snoc_omap, strsep_all_split. Qed.

Lemma add_certs_split cc s :
  cc_certs (cluster_config_add_certs cc s) = cc_certs cc ++ mjoin (cert_entry <$> split cert_delims s).
Proof.
  unfold cluster_config_add_certs. rewrite strsep_all_split. generalize (split cert_delims s) as l.
  intros l; revert cc; induction l as [|p l IH]; intros cc; simpl; [by rewrite app_nil_r|].
  by rewrite IH; simpl; rewrite <- app_assoc.
Qed.

(** An entry "d:n1,n2,..." of the list permits [ns] to use [dom]. *)
Definition entry_permits (entry dom ns : bytes) : Prop :=
  ∃ d nslist, cut ":"%char entry = Some (d, nslist) ∧ domain_matches d dom ∧
    (lit "*" ∈ split (lit ",") nslist ∨ ns ∈ split (lit ",") nslist).

Lemma domain_entry_permits q dom ns :
  (∃ cd, domain_entry q = Some cd ∧ domain_allows cd dom ns = true) ↔ entry_permits q dom ns.
Proof.
  unfold domain_entry, entry_permits, domain_allows. destruct (cut _ q) as [[d nsl]|]; [|naive_solver].
  assert (Hd : streq d (lit "*") || domain_match d dom = true ↔ domain_matches d dom).
  { rewrite orb_true_iff, streq_true, domain_match_iff. split; [|by right].
    intros [->|]; [constructor|done]. }
  assert (Hn : ∀ k, bool_decide (hash_get (hashset_of 13 (strsep_all (lit ",") nsl)) k = HASH_PRESENT) = true
                    ↔ k ∈ split (lit ",") nsl).
  { intros k. rewrite bool_decide_eq_true, hashset_of_get, strsep_all_split by lia. done. }
  split.
  - intros (cd & [= <-] & H). simpl in H. rewrite andb_true_iff, Hd, orb_true_iff, !Hn in H. naive_solver.
  - intros (d' & nsl' & [= <- <-] & H). eexists; split; [done|]. simpl.
    rewrite andb_true_iff, Hd, orb_true_iff, !Hn. naive_solver.
Qed.

Lemma cluster_domain_for_ns_omap cs l dom ns :
  cc_domains (cs_config cs) = omap domain_entry l →
  cluster_domain_for_ns cs dom ns = true ↔
    Forall (λ q, ":"%char ∉ q) l ∨ ∃ q, q ∈ l ∧ entry_permits q dom ns.
Proof.
  intros Hl. unfold cluster_domain_for_ns.
  assert (He : omap domain_entry l = [] ↔ Forall (λ q, ":"%char ∉ q) l).
  { clear. induction l as [|q l IH]; simpl; [done|]. rewrite Forall_cons, <- IH, <- cut_None.
    unfold domain_entry. destruct (cut _ q) as [[]|]; naive_solver. }
  assert (Hx : existsb (λ cd, domain_allows cd dom ns) (cc_domains (cs_config cs)) = true ↔
               ∃ q, q ∈ l ∧ entry_permits q dom ns).
  { rewrite existsb_exists, Hl. setoid_rewrite <- list_elem_of_In. setoid_rewrite list_elem_of_omap.
    setoid_rewrite <- domain_entry_permits. naive_solver. }
  destruct (cc_domains (cs_config cs)) as [|cd cds]; [naive_solver|].
  rewrite Hx, <- He, <- Hl. naive_solver.
Qed.

Lemma set_configmap_domains (cs : cluster) (cm : configmap) (dom ns : bytes) :
  cluster_domain_for_ns (cluster_set_configmap cs (Some cm)) dom ns = true ↔
  match hash_get (cm_data cm) (lit "domain-access-list") with
  | None => True
  | Some s =>
      Forall (λ q, ":"%char ∉ q) (split domain_delims s) ∨
      ∃ q, q ∈ split domain_delims s ∧ entry_permits q dom ns
  end.
Proof.
  destruct (hash_get (cm_data cm) (lit "domain-access-list")) as [s|] eqn:E.
  - apply cluster_domain_for_ns_omap.
    unfold cluster_set_configmap, config_of. cbn [cs_config cc_domains]. rewrite E. apply domain_list_split.
  - unfold cluster_domain_for_ns, cluster_set_configmap, config_of. cbn [cs_config cc_domains]. rewrite E.
    destruct (hash_get (cm_data cm) (lit "tls-certificates")) as [s|]; [|done].
    assert (Hd : ∀ cc, cc_domains (cluster_config_add_certs cc s) = cc_domains cc); [|by rewrite Hd].
    intros cc. unfold cluster_config_add_certs. generalize (strsep_all cert_delims s) as l.
    intros l; revert cc; induction l as [|p l IH]; intros cc; simpl; [done|]. by rewrite IH.
Qed.

(** The rule of docs/domainaccess.md: the first entry whose domain covers the
    host decides. *)
Definition entry_covers (entry dom : bytes) : Prop :=
  ∃ d nslist, cut ":"%char entry = Some (d, nslist) ∧ domain_matches d dom.

Fixpoint first_match_permits (l : list bytes) (dom ns : bytes) : bool :=
  match l with
  | [] => false
  | q :: l =>
      match cut ":"%char q with
      | Some (d, nslist) =>
          if domain_match d dom then bool_decide (lit "*" ∈ split (lit ",") nslist ∨ ns ∈ split (lit ",") nslist)
          else first_match_permits l dom ns
      | None => first_match_permits l dom ns
      end
  end.

Lemma first_match_permits_some l dom ns :
  first_match_permits l dom ns = true → ∃ q, q ∈ l ∧ entry_permits q dom ns.
Proof.
  induction l as [|q l IH]; simpl; [done|]. destruct (cut _ q) as [[d nsl]|] eqn:Ec; [case_match eqn:Ed|].
  1: { intros Hn%bool_decide_eq_true. exists q. split; [by left|]. exists d, nsl. by rewrite <- domain_match_iff. }
  all: intros Hl; destruct (IH Hl) as (q' & Hq' & Hp); exists q'; split; [by right|done].
Qed.

Lemma first_match_permits_only l dom ns :
  (∀ l1 q l2, l = l1 ++ q :: l2 → entry_covers q dom → Forall (λ q, ¬ entry_covers q dom) l2) →
  (∃ q, q ∈ l ∧ entry_permits q dom ns) → first_match_permits l dom ns = true.
Proof.
  induction l as [|q l IH]; intros Ho (q' & Hq' & d' & nsl' & Hc' & Hd' & Hn'); [by apply elem_of_nil in Hq'|]. simpl.
  assert (Hrest : q' ∈ l → first_match_permits l dom ns = true).
  { intros Hin. apply IH; [|exists q'; split; [done|]; by exists d', nsl'].
    intros l1 q0 l2 ->. apply (Ho (q :: l1)). done. }
  apply elem_of_cons in Hq' as [->|Hq'].
  - rewrite Hc'. apply domain_match_iff in Hd'. rewrite Hd'. by apply bool_decide_eq_true.
  - destruct (cut _ q) as [[d nsl]|] eqn:Ec; [case_match eqn:Ed|]; [|by apply Hrest..].
    apply domain_match_iff in Ed. specialize (Ho [] q l eq_refl ltac:(by exists d, nsl)).
    rewrite Forall_forall in Ho. destruct (Ho q' Hq'). by exists d', nsl'.
Qed.

(** C27. With a ConfigMap in force, a namespace may use a host name exactly
    when the ConfigMap has no domain-access-list, or the list has no entry
    with a colon, or some entry's domain covers the host and its namespaces
    include "*" or this namespace, whatever the order of the entries.  This is
    not the rule of docs/domainaccess.md, where the first entry that covers the
    host decides: whatever that rule permits the code permits, and the two agree
    on a list with an entry in which at most one entry covers the host, but a
    later entry gives back what an earlier one withheld
    ([domain_access_later_entry]). *)
Theorem domain_access_decision (cs : cluster) (cm : configmap) (dom ns : bytes) :
  (cluster_domain_for_ns (cluster_set_configmap cs (Some cm)) dom ns = true ↔
   match hash_get (cm_data cm) (lit "domain-access-list") with
   | None => True
   | Some s =>
       Forall (λ q, ":"%char ∉ q) (split domain_delims s) ∨
       ∃ q, q ∈ split domain_delims s ∧ entry_permits q dom ns
   end) ∧
  (∀ s, hash_get (cm_data cm) (lit "domain-access-list") = Some s →
     (first_match_permits (split domain_delims s) dom ns = true →
      cluster_domain_for_ns (cluster_set_configmap cs (Some cm)) dom ns = true) ∧
     (¬ Forall (λ q, ":"%char ∉ q) (split domain_delims s) →
      (∀ l1 q l2, split domain_delims s = l1 ++ q :: l2 → entry_covers q dom → Forall (λ q, ¬ entry_covers q dom) l2) →
      cluster_domain_for_ns (cluster_set_configmap cs (Some cm)) dom ns = first_match_permits (split domain_delims s) dom ns)).
Proof.
  pose proof (set_configmap_domains cs cm dom ns) as Hiff. split; [done|]. intros s Hs. rewrite Hs in Hiff. split.
  - intros Hf%first_match_permits_some. apply Hiff. by right.
  - intros Hne Ho. apply Bool.eq_iff_eq_true. rewrite Hiff. split; [|intros Hf%first_match_permits_some; by right].
    intros [|Hp]; [done|]. by apply first_match_permits_only.
Qed.

(** A namespace that the first entry for its host does not list may use the
    host if the list ends in the documented "*:*". *)
Example domain_access_later_entry :
  let list := lit "*fooapp.com:fooapp-prod *:*" in
  let cm := ConfigMap [] [] (hash_set (hash_new 127 true) (lit "domain-access-list") list) in
  cluster_domain_for_ns (cluster_set_configmap cluster_make (Some cm)) (lit "www.fooapp.com") (lit "other") = true ∧
  first_match_permits (split domain_delims list) (lit "www.fooapp.com") (lit "other") = false.
Proof. vm_compute. done. Qed.

Lemma domain_access_decision_witness :
  let cm := ConfigMap [] [] (hash_set (hash_new 127 true) (lit "domain-access-list") (lit "*fooapp.com:fooapp-prod")) in
  cluster_domain_for_ns (cluster_set_configmap cluster_make (Some cm)) (lit "www.fooapp.com") (lit "fooapp-prod") = true.
Proof.
  intros cm. destruct (domain_access_decision cluster_make cm (lit "www.fooapp.com") (lit "fooapp-prod")) as [_ Hd].
  destruct (Hd (lit "*fooapp.com:fooapp-prod")) as [Hp _]; [vm_compute; reflexivity|].
  apply Hp. vm_compute. reflexivity.
Defined.

(** ** Printing and parsing tls-certificates *)
Definition print_cert (c : cluster_cert) : bytes :=
  cr_domain c ++ ":"%char :: cr_namespace c ++ "/"%char :: cr_name c.

(** Certificates whose text has no delimiter of the syntax in it. *)
Definition plain_cert (c : cluster_cert) : Prop :=
  Forall (λ x, x ∉ ":"%char :: cert_delims) (cr_domain c) ∧
  Forall (λ x, x ∉ "/"%char :: cert_delims) (cr_namespace c) ∧
  Forall (λ x, x ∉ cert_delims) (cr_name c).

#[global] Instance plain_cert_dec c : Decision (plain_cert c).
Proof. unfold plain_cert. apply _. Defined.

Fixpoint print_certs (l : list cluster_cert) : bytes :=
  match l with
  | [] => []
  | c :: l => print_cert c ++ " "%char :: print_certs l
  end.

Lemma Forall_not_elem (c : ascii) (d s : bytes) : Forall (λ x, x ∉ d) s → c ∈ d → c ∉ s.
Proof. intros H Hc Hs. rewrite Forall_forall in H. by apply (H c). Qed.

Lemma print_cert_plain c : plain_cert c → Forall (λ x, x ∉ cert_delims) (print_cert c).
Proof.
  intros (Hd & Hn & Hm). unfold print_cert.
  rewrite Forall_app, Forall_cons, Forall_app, Forall_cons.
  split_and!; [|by compute_done| |by compute_done|done];
    (eapply Forall_impl; [eassumption|]; intros x Hx ?; apply Hx; by right).
Qed.

Lemma cert_entry_print c : plain_cert c → cert_entry (print_cert c) = [c].
Proof.
  intros (Hd & Hn & Hm). unfold cert_entry, print_cert.
  rewrite cut_app by (eapply Forall_not_elem; [done|]; by left).
  rewrite cut_app by (eapply Forall_not_elem; [done|]; by left).
  rewrite strsep_all_split, split_no_delim_id; [by destruct c|].
  eapply Forall_impl; [done|]. intros x Hx Hc. apply Hx. apply list_elem_of_singleton in Hc as ->.
  by compute_done.
Qed.

(** A list of default certificates written as "domain:namespace/name "
    entries is read back by [cluster_config_add_certs] as the same list, in
    order, appended to the certificates already configured. *)
Theorem tls_certificates_roundtrip (cc : cluster_config) (l : list cluster_cert) :
  Forall plain_cert l →
  cc_certs (cluster_config_add_certs cc (print_certs l)) = cc_certs cc ++ l.
Proof.
  intros Hl. rewrite add_certs_split. f_equal.
  induction Hl as [|c l Hc _ IH]; [done|]. simpl print_certs.
  rewrite split_app_delim by (by apply print_cert_plain || by left).
  rewrite fmap_cons, cert_entry_print by done. simpl. by rewrite IH.
Qed.

Lemma tls_certificates_roundtrip_witness :
  let l := [ClusterCert (lit "*.example.com") (lit "tls") (lit "wild"); ClusterCert (lit "a.org") (lit "x") (lit "y")] in
  cc_certs (cluster_config_add_certs cluster_config_new (print_certs l)) = l.
Proof. intros l. apply (tls_certificates_roundtrip cluster_config_new l). by compute_done. Defined.

(** The documented form with several domains loses all but the last. *)
Example tls_certificates_multi :
  cc_certs (cluster_config_add_certs cluster_config_new (lit "a.com,b.com:ns/cert")) =
  [ClusterCert (lit "b.com") (lit "ns") (lit "cert")].
Proof. reflexivity. Qed.

(** A healthcheck path without a leading slash is accepted. *)
Example healthcheck_unchecked :
  let cm := ConfigMap [] [] (hash_set (hash_new 127 true) (lit "healthcheck-path") (lit "")) in
  cc_healthcheck (cs_config (cluster_set_configmap cluster_make (Some cm))) = [].
Proof. vm_compute. reflexivity. Qed.
