(* ===== verification/RemapPath.v ===== *)
(** [remap/remap_path.c]: one path of a host, with everything the annotations
    of an Ingress configure and the backends it balances over. *)

From S2P Require Import Prelude CString Hash Base64 Env Api Namespace Cluster.

Local Open Scope Z_scope.

(** * Data *)
Inductive auth_type := REMAP_AUTH_NONE | REMAP_AUTH_BASIC | REMAP_AUTH_DIGEST.
Inductive auth_satisfy := REMAP_SATISFY_ALL | REMAP_SATISFY_ANY.
Inductive family := AF_INET | AF_INET6 | AF_OTHER.

#[global] Instance auth_type_eq_dec : EqDecision auth_type.
Proof. solve_decision. Defined.
#[global] Instance auth_satisfy_eq_dec : EqDecision auth_satisfy.
Proof. solve_decision. Defined.
#[global] Instance family_eq_dec : EqDecision family.
Proof. solve_decision. Defined.

(** An entry of the IP whitelist; [ra_addr] is the address in network byte
    order, four or sixteen bytes. *)
Record remap_auth_addr := RemapAuthAddr {
  ra_family : family;
  ra_addr : bytes;
  ra_prefix_length : Z;
}.

Record remap_target := RemapTarget {
  rt_host : bytes;
  rt_port : Z;
}.

(** [rp_regex] is [None] for the zeroed expression of a default path; the
    pair [rp_addrs], [rp_naddrs] is a list. *)
Record remap_path `{Posix} := RemapPath {
  rp_regex : option regex_t;
  rp_addrs : list remap_target;
  rp_users : option (hash bytes);
  rp_cache : bool;
  rp_cache_gen : Z;
  rp_ignore_params : option hashset;
  rp_whitelist_params : option hashset;
  rp_ignore_cookies : option hashset;
  rp_whitelist_cookies : option hashset;
  rp_follow_redirects : bool;
  rp_secure_backends : bool;
  rp_no_ssl_redirect : bool;
  rp_force_ssl_redirect : bool;
  rp_preserve_host : bool;
  rp_app_root : option bytes;
  rp_rewrite_target : option bytes;
  rp_read_timeout : Z;
  rp_compress : bool;
  rp_server_push : bool;
  rp_debug_log : bool;
  rp_compress_types : hashset;
  rp_auth_type : auth_type;
  rp_auth_satisfy : auth_satisfy;
  rp_auth_realm : option bytes;
  rp_enable_cors : bool;
  rp_cors_creds : bool;
  rp_cors_origins : hashset;
  rp_cors_methods : option bytes;
  rp_cors_headers : option bytes;
  rp_cors_max_age : Z;
  rp_auth_addr_list : list remap_auth_addr;
}.

(** Assignment to a field. *)
Section setters.
Context `{P : Posix}.
Implicit Types (rp : remap_path).
Definition set_rp_addrs rp v : remap_path := RemapPath _ (rp_regex rp) v (rp_users rp) (rp_cache rp)
  (rp_cache_gen rp) (rp_ignore_params rp) (rp_whitelist_params rp) (rp_ignore_cookies rp)
  (rp_whitelist_cookies rp) (rp_follow_redirects rp) (rp_secure_backends rp) (rp_no_ssl_redirect rp)
  (rp_force_ssl_redirect rp) (rp_preserve_host rp) (rp_app_root rp) (rp_rewrite_target rp)
  (rp_read_timeout rp) (rp_compress rp) (rp_server_push rp) (rp_debug_log rp) (rp_compress_types rp)
  (rp_auth_type rp) (rp_auth_satisfy rp) (rp_auth_realm rp) (rp_enable_cors rp) (rp_cors_creds rp)
  (rp_cors_origins rp) (rp_cors_methods rp) (rp_cors_headers rp) (rp_cors_max_age rp)
  (rp_auth_addr_list rp).
Definition set_rp_users rp v : remap_path := RemapPath _ (rp_regex rp) (rp_addrs rp) v (rp_cache rp)
  (rp_cache_gen rp) (rp_ignore_params rp) (rp_whitelist_params rp) (rp_ignore_cookies rp)
  (rp_whitelist_cookies rp) (rp_follow_redirects rp) (rp_secure_backends rp) (rp_no_ssl_redirect rp)
  (rp_force_ssl_redirect rp) (rp_preserve_host rp) (rp_app_root rp) (rp_rewrite_target rp)
  (rp_read_timeout rp) (rp_compress rp) (rp_server_push rp) (rp_debug_log rp) (rp_compress_types rp)
  (rp_auth_type rp) (rp_auth_satisfy rp) (rp_auth_realm rp) (rp_enable_cors rp) (rp_cors_creds rp)
  (rp_cors_origins rp) (rp_cors_methods rp) (rp_cors_headers rp) (rp_cors_max_age rp)
  (rp_auth_addr_list rp).
Definition set_rp_cache rp v : remap_path := RemapPath _ (rp_regex rp) (rp_addrs rp) (rp_users rp) v
  (rp_cache_gen rp) (rp_ignore_params rp) (rp_whitelist_params rp) (rp_ignore_cookies rp)
  (rp_whitelist_cookies rp) (rp_follow_redirects rp) (rp_secure_backends rp) (rp_no_ssl_redirect rp)
  (rp_force_ssl_redirect rp) (rp_preserve_host rp) (rp_app_root rp) (rp_rewrite_target rp)
  (rp_read_timeout rp) (rp_compress rp) (rp_server_push rp) (rp_debug_log rp) (rp_compress_types rp)
  (rp_auth_type rp) (rp_auth_satisfy rp) (rp_auth_realm rp) (rp_enable_cors rp) (rp_cors_creds rp)
  (rp_cors_origins rp) (rp_cors_methods rp) (rp_cors_headers rp) (rp_cors_max_age rp)
  (rp_auth_addr_list rp).
Definition set_rp_cache_gen rp v : remap_path := RemapPath _ (rp_regex rp) (rp_addrs rp) (rp_users
  rp) (rp_cache rp) v (rp_ignore_params rp) (rp_whitelist_params rp) (rp_ignore_cookies rp)
  (rp_whitelist_cookies rp) (rp_follow_redirects rp) (rp_secure_backends rp) (rp_no_ssl_redirect rp)
  (rp_force_ssl_redirect rp) (rp_preserve_host rp) (rp_app_root rp) (rp_rewrite_target rp)
  (rp_read_timeout rp) (rp_compress rp) (rp_server_push rp) (rp_debug_log rp) (rp_compress_types rp)
  (rp_auth_type rp) (rp_auth_satisfy rp) (rp_auth_realm rp) (rp_enable_cors rp) (rp_cors_creds rp)
  (rp_cors_origins rp) (rp_cors_methods rp) (rp_cors_headers rp) (rp_cors_max_age rp)
  (rp_auth_addr_list rp).
Definition set_rp_ignore_params rp v : remap_path := RemapPath _ (rp_regex rp) (rp_addrs rp)
  (rp_users rp) (rp_cache rp) (rp_cache_gen rp) v (rp_whitelist_params rp) (rp_ignore_cookies rp)
  (rp_whitelist_cookies rp) (rp_follow_redirects rp) (rp_secure_backends rp) (rp_no_ssl_redirect rp)
  (rp_force_ssl_redirect rp) (rp_preserve_host rp) (rp_app_root rp) (rp_rewrite_target rp)
  (rp_read_timeout rp) (rp_compress rp) (rp_server_push rp) (rp_debug_log rp) (rp_compress_types rp)
  (rp_auth_type rp) (rp_auth_satisfy rp) (rp_auth_realm rp) (rp_enable_cors rp) (rp_cors_creds rp)
  (rp_cors_origins rp) (rp_cors_methods rp) (rp_cors_headers rp) (rp_cors_max_age rp)
  (rp_auth_addr_list rp).
Definition set_rp_whitelist_params rp v : remap_path := RemapPath _ (rp_regex rp) (rp_addrs rp)
  (rp_users rp) (rp_cache rp) (rp_cache_gen rp) (rp_ignore_params rp) v (rp_ignore_cookies rp)
  (rp_whitelist_cookies rp) (rp_follow_redirects rp) (rp_secure_backends rp) (rp_no_ssl_redirect rp)
  (rp_force_ssl_redirect rp) (rp_preserve_host rp) (rp_app_root rp) (rp_rewrite_target rp)
  (rp_read_timeout rp) (rp_compress rp) (rp_server_push rp) (rp_debug_log rp) (rp_compress_types rp)
  (rp_auth_type rp) (rp_auth_satisfy rp) (rp_auth_realm rp) (rp_enable_cors rp) (rp_cors_creds rp)
  (rp_cors_origins rp) (rp_cors_methods rp) (rp_cors_headers rp) (rp_cors_max_age rp)
  (rp_auth_addr_list rp).
Definition set_rp_ignore_cookies rp v : remap_path := RemapPath _ (rp_regex rp) (rp_addrs rp)
  (rp_users rp) (rp_cache rp) (rp_cache_gen rp) (rp_ignore_params rp) (rp_whitelist_params rp) v
  (rp_whitelist_cookies rp) (rp_follow_redirects rp) (rp_secure_backends rp) (rp_no_ssl_redirect rp)
  (rp_force_ssl_redirect rp) (rp_preserve_host rp) (rp_app_root rp) (rp_rewrite_target rp)
  (rp_read_timeout rp) (rp_compress rp) (rp_server_push rp) (rp_debug_log rp) (rp_compress_types rp)
  (rp_auth_type rp) (rp_auth_satisfy rp) (rp_auth_realm rp) (rp_enable_cors rp) (rp_cors_creds rp)
  (rp_cors_origins rp) (rp_cors_methods rp) (rp_cors_headers rp) (rp_cors_max_age rp)
  (rp_auth_addr_list rp).
Definition set_rp_whitelist_cookies rp v : remap_path := RemapPath _ (rp_regex rp) (rp_addrs rp)
  (rp_users rp) (rp_cache rp) (rp_cache_gen rp) (rp_ignore_params rp) (rp_whitelist_params rp)
  (rp_ignore_cookies rp) v (rp_follow_redirects rp) (rp_secure_backends rp) (rp_no_ssl_redirect rp)
  (rp_force_ssl_redirect rp) (rp_preserve_host rp) (rp_app_root rp) (rp_rewrite_target rp)
  (rp_read_timeout rp) (rp_compress rp) (rp_server_push rp) (rp_debug_log rp) (rp_compress_types rp)
  (rp_auth_type rp) (rp_auth_satisfy rp) (rp_auth_realm rp) (rp_enable_cors rp) (rp_cors_creds rp)
  (rp_cors_origins rp) (rp_cors_methods rp) (rp_cors_headers rp) (rp_cors_max_age rp)
  (rp_auth_addr_list rp).
Definition set_rp_follow_redirects rp v : remap_path := RemapPath _ (rp_regex rp) (rp_addrs rp)
  (rp_users rp) (rp_cache rp) (rp_cache_gen rp) (rp_ignore_params rp) (rp_whitelist_params rp)
  (rp_ignore_cookies rp) (rp_whitelist_cookies rp) v (rp_secure_backends rp) (rp_no_ssl_redirect rp)
  (rp_force_ssl_redirect rp) (rp_preserve_host rp) (rp_app_root rp) (rp_rewrite_target rp)
  (rp_read_timeout rp) (rp_compress rp) (rp_server_push rp) (rp_debug_log rp) (rp_compress_types rp)
  (rp_auth_type rp) (rp_auth_satisfy rp) (rp_auth_realm rp) (rp_enable_cors rp) (rp_cors_creds rp)
  (rp_cors_origins rp) (rp_cors_methods rp) (rp_cors_headers rp) (rp_cors_max_age rp)
  (rp_auth_addr_list rp).
Definition set_rp_secure_backends rp v : remap_path := RemapPath _ (rp_regex rp) (rp_addrs rp)
  (rp_users rp) (rp_cache rp) (rp_cache_gen rp) (rp_ignore_params rp) (rp_whitelist_params rp)
  (rp_ignore_cookies rp) (rp_whitelist_cookies rp) (rp_follow_redirects rp) v (rp_no_ssl_redirect
  rp) (rp_force_ssl_redirect rp) (rp_preserve_host rp) (rp_app_root rp) (rp_rewrite_target rp)
  (rp_read_timeout rp) (rp_compress rp) (rp_server_push rp) (rp_debug_log rp) (rp_compress_types rp)
  (rp_auth_type rp) (rp_auth_satisfy rp) (rp_auth_realm rp) (rp_enable_cors rp) (rp_cors_creds rp)
  (rp_cors_origins rp) (rp_cors_methods rp) (rp_cors_headers rp) (rp_cors_max_age rp)
  (rp_auth_addr_list rp).
Definition set_rp_no_ssl_redirect rp v : remap_path := RemapPath _ (rp_regex rp) (rp_addrs rp)
  (rp_users rp) (rp_cache rp) (rp_cache_gen rp) (rp_ignore_params rp) (rp_whitelist_params rp)
  (rp_ignore_cookies rp) (rp_whitelist_cookies rp) (rp_follow_redirects rp) (rp_secure_backends rp)
  v (rp_force_ssl_redirect rp) (rp_preserve_host rp) (rp_app_root rp) (rp_rewrite_target rp)
  (rp_read_timeout rp) (rp_compress rp) (rp_server_push rp) (rp_debug_log rp) (rp_compress_types rp)
  (rp_auth_type rp) (rp_auth_satisfy rp) (rp_auth_realm rp) (rp_enable_cors rp) (rp_cors_creds rp)
  (rp_cors_origins rp) (rp_cors_methods rp) (rp_cors_headers rp) (rp_cors_max_age rp)
  (rp_auth_addr_list rp).
Definition set_rp_force_ssl_redirect rp v : remap_path := RemapPath _ (rp_regex rp) (rp_addrs rp)
  (rp_users rp) (rp_cache rp) (rp_cache_gen rp) (rp_ignore_params rp) (rp_whitelist_params rp)
  (rp_ignore_cookies rp) (rp_whitelist_cookies rp) (rp_follow_redirects rp) (rp_secure_backends rp)
  (rp_no_ssl_redirect rp) v (rp_preserve_host rp) (rp_app_root rp) (rp_rewrite_target rp)
  (rp_read_timeout rp) (rp_compress rp) (rp_server_push rp) (rp_debug_log rp) (rp_compress_types rp)
  (rp_auth_type rp) (rp_auth_satisfy rp) (rp_auth_realm rp) (rp_enable_cors rp) (rp_cors_creds rp)
  (rp_cors_origins rp) (rp_cors_methods rp) (rp_cors_headers rp) (rp_cors_max_age rp)
  (rp_auth_addr_list rp).
Definition set_rp_preserve_host rp v : remap_path := RemapPath _ (rp_regex rp) (rp_addrs rp)
  (rp_users rp) (rp_cache rp) (rp_cache_gen rp) (rp_ignore_params rp) (rp_whitelist_params rp)
  (rp_ignore_cookies rp) (rp_whitelist_cookies rp) (rp_follow_redirects rp) (rp_secure_backends rp)
  (rp_no_ssl_redirect rp) (rp_force_ssl_redirect rp) v (rp_app_root rp) (rp_rewrite_target rp)
  (rp_read_timeout rp) (rp_compress rp) (rp_server_push rp) (rp_debug_log rp) (rp_compress_types rp)
  (rp_auth_type rp) (rp_auth_satisfy rp) (rp_auth_realm rp) (rp_enable_cors rp) (rp_cors_creds rp)
  (rp_cors_origins rp) (rp_cors_methods rp) (rp_cors_headers rp) (rp_cors_max_age rp)
  (rp_auth_addr_list rp).
Definition set_rp_app_root rp v : remap_path := RemapPath _ (rp_regex rp) (rp_addrs rp) (rp_users
  rp) (rp_cache rp) (rp_cache_gen rp) (rp_ignore_params rp) (rp_whitelist_params rp)
  (rp_ignore_cookies rp) (rp_whitelist_cookies rp) (rp_follow_redirects rp) (rp_secure_backends rp)
  (rp_no_ssl_redirect rp) (rp_force_ssl_redirect rp) (rp_preserve_host rp) v (rp_rewrite_target rp)
  (rp_read_timeout rp) (rp_compress rp) (rp_server_push rp) (rp_debug_log rp) (rp_compress_types rp)
  (rp_auth_type rp) (rp_auth_satisfy rp) (rp_auth_realm rp) (rp_enable_cors rp) (rp_cors_creds rp)
  (rp_cors_origins rp) (rp_cors_methods rp) (rp_cors_headers rp) (rp_cors_max_age rp)
  (rp_auth_addr_list rp).
Definition set_rp_rewrite_target rp v : remap_path := RemapPath _ (rp_regex rp) (rp_addrs rp)
  (rp_users rp) (rp_cache rp) (rp_cache_gen rp) (rp_ignore_params rp) (rp_whitelist_params rp)
  (rp_ignore_cookies rp) (rp_whitelist_cookies rp) (rp_follow_redirects rp) (rp_secure_backends rp)
  (rp_no_ssl_redirect rp) (rp_force_ssl_redirect rp) (rp_preserve_host rp) (rp_app_root rp) v
  (rp_read_timeout rp) (rp_compress rp) (rp_server_push rp) (rp_debug_log rp) (rp_compress_types rp)
  (rp_auth_type rp) (rp_auth_satisfy rp) (rp_auth_realm rp) (rp_enable_cors rp) (rp_cors_creds rp)
  (rp_cors_origins rp) (rp_cors_methods rp) (rp_cors_headers rp) (rp_cors_max_age rp)
  (rp_auth_addr_list rp).
Definition set_rp_read_timeout rp v : remap_path := RemapPath _ (rp_regex rp) (rp_addrs rp)
  (rp_users rp) (rp_cache rp) (rp_cache_gen rp) (rp_ignore_params rp) (rp_whitelist_params rp)
  (rp_ignore_cookies rp) (rp_whitelist_cookies rp) (rp_follow_redirects rp) (rp_secure_backends rp)
  (rp_no_ssl_redirect rp) (rp_force_ssl_redirect rp) (rp_preserve_host rp) (rp_app_root rp)
  (rp_rewrite_target rp) v (rp_compress rp) (rp_server_push rp) (rp_debug_log rp) (rp_compress_types
  rp) (rp_auth_type rp) (rp_auth_satisfy rp) (rp_auth_realm rp) (rp_enable_cors rp) (rp_cors_creds
  rp) (rp_cors_origins rp) (rp_cors_methods rp) (rp_cors_headers rp) (rp_cors_max_age rp)
  (rp_auth_addr_list rp).
Definition set_rp_compress rp v : remap_path := RemapPath _ (rp_regex rp) (rp_addrs rp) (rp_users
  rp) (rp_cache rp) (rp_cache_gen rp) (rp_ignore_params rp) (rp_whitelist_params rp)
  (rp_ignore_cookies rp) (rp_whitelist_cookies rp) (rp_follow_redirects rp) (rp_secure_backends rp)
  (rp_no_ssl_redirect rp) (rp_force_ssl_redirect rp) (rp_preserve_host rp) (rp_app_root rp)
  (rp_rewrite_target rp) (rp_read_timeout rp) v (rp_server_push rp) (rp_debug_log rp)
  (rp_compress_types rp) (rp_auth_type rp) (rp_auth_satisfy rp) (rp_auth_realm rp) (rp_enable_cors
  rp) (rp_cors_creds rp) (rp_cors_origins rp) (rp_cors_methods rp) (rp_cors_headers rp)
  (rp_cors_max_age rp) (rp_auth_addr_list rp).
Definition set_rp_server_push rp v : remap_path := RemapPath _ (rp_regex rp) (rp_addrs rp) (rp_users
  rp) (rp_cache rp) (rp_cache_gen rp) (rp_ignore_params rp) (rp_whitelist_params rp)
  (rp_ignore_cookies rp) (rp_whitelist_cookies rp) (rp_follow_redirects rp) (rp_secure_backends rp)
  (rp_no_ssl_redirect rp) (rp_force_ssl_redirect rp) (rp_preserve_host rp) (rp_app_root rp)
  (rp_rewrite_target rp) (rp_read_timeout rp) (rp_compress rp) v (rp_debug_log rp)
  (rp_compress_types rp) (rp_auth_type rp) (rp_auth_satisfy rp) (rp_auth_realm rp) (rp_enable_cors
  rp) (rp_cors_creds rp) (rp_cors_origins rp) (rp_cors_methods rp) (rp_cors_headers rp)
  (rp_cors_max_age rp) (rp_auth_addr_list rp).
Definition set_rp_debug_log rp v : remap_path := RemapPath _ (rp_regex rp) (rp_addrs rp) (rp_users
  rp) (rp_cache rp) (rp_cache_gen rp) (rp_ignore_params rp) (rp_whitelist_params rp)
  (rp_ignore_cookies rp) (rp_whitelist_cookies rp) (rp_follow_redirects rp) (rp_secure_backends rp)
  (rp_no_ssl_redirect rp) (rp_force_ssl_redirect rp) (rp_preserve_host rp) (rp_app_root rp)
  (rp_rewrite_target rp) (rp_read_timeout rp) (rp_compress rp) (rp_server_push rp) v
  (rp_compress_types rp) (rp_auth_type rp) (rp_auth_satisfy rp) (rp_auth_realm rp) (rp_enable_cors
  rp) (rp_cors_creds rp) (rp_cors_origins rp) (rp_cors_methods rp) (rp_cors_headers rp)
  (rp_cors_max_age rp) (rp_auth_addr_list rp).
Definition set_rp_compress_types rp v : remap_path := RemapPath _ (rp_regex rp) (rp_addrs rp)
  (rp_users rp) (rp_cache rp) (rp_cache_gen rp) (rp_ignore_params rp) (rp_whitelist_params rp)
  (rp_ignore_cookies rp) (rp_whitelist_cookies rp) (rp_follow_redirects rp) (rp_secure_backends rp)
  (rp_no_ssl_redirect rp) (rp_force_ssl_redirect rp) (rp_preserve_host rp) (rp_app_root rp)
  (rp_rewrite_target rp) (rp_read_timeout rp) (rp_compress rp) (rp_server_push rp) (rp_debug_log rp)
  v (rp_auth_type rp) (rp_auth_satisfy rp) (rp_auth_realm rp) (rp_enable_cors rp) (rp_cors_creds rp)
  (rp_cors_origins rp) (rp_cors_methods rp) (rp_cors_headers rp) (rp_cors_max_age rp)
  (rp_auth_addr_list rp).
Definition set_rp_auth_type rp v : remap_path := RemapPath _ (rp_regex rp) (rp_addrs rp) (rp_users
  rp) (rp_cache rp) (rp_cache_gen rp) (rp_ignore_params rp) (rp_whitelist_params rp)
  (rp_ignore_cookies rp) (rp_whitelist_cookies rp) (rp_follow_redirects rp) (rp_secure_backends rp)
  (rp_no_ssl_redirect rp) (rp_force_ssl_redirect rp) (rp_preserve_host rp) (rp_app_root rp)
  (rp_rewrite_target rp) (rp_read_timeout rp) (rp_compress rp) (rp_server_push rp) (rp_debug_log rp)
  (rp_compress_types rp) v (rp_auth_satisfy rp) (rp_auth_realm rp) (rp_enable_cors rp)
  (rp_cors_creds rp) (rp_cors_origins rp) (rp_cors_methods rp) (rp_cors_headers rp) (rp_cors_max_age
  rp) (rp_auth_addr_list rp).
Definition set_rp_auth_satisfy rp v : remap_path := RemapPath _ (rp_regex rp) (rp_addrs rp)
  (rp_users rp) (rp_cache rp) (rp_cache_gen rp) (rp_ignore_params rp) (rp_whitelist_params rp)
  (rp_ignore_cookies rp) (rp_whitelist_cookies rp) (rp_follow_redirects rp) (rp_secure_backends rp)
  (rp_no_ssl_redirect rp) (rp_force_ssl_redirect rp) (rp_preserve_host rp) (rp_app_root rp)
  (rp_rewrite_target rp) (rp_read_timeout rp) (rp_compress rp) (rp_server_push rp) (rp_debug_log rp)
  (rp_compress_types rp) (rp_auth_type rp) v (rp_auth_realm rp) (rp_enable_cors rp) (rp_cors_creds
  rp) (rp_cors_origins rp) (rp_cors_methods rp) (rp_cors_headers rp) (rp_cors_max_age rp)
  (rp_auth_addr_list rp).
Definition set_rp_auth_realm rp v : remap_path := RemapPath _ (rp_regex rp) (rp_addrs rp) (rp_users
  rp) (rp_cache rp) (rp_cache_gen rp) (rp_ignore_params rp) (rp_whitelist_params rp)
  (rp_ignore_cookies rp) (rp_whitelist_cookies rp) (rp_follow_redirects rp) (rp_secure_backends rp)
  (rp_no_ssl_redirect rp) (rp_force_ssl_redirect rp) (rp_preserve_host rp) (rp_app_root rp)
  (rp_rewrite_target rp) (rp_read_timeout rp) (rp_compress rp) (rp_server_push rp) (rp_debug_log rp)
  (rp_compress_types rp) (rp_auth_type rp) (rp_auth_satisfy rp) v (rp_enable_cors rp) (rp_cors_creds
  rp) (rp_cors_origins rp) (rp_cors_methods rp) (rp_cors_headers rp) (rp_cors_max_age rp)
  (rp_auth_addr_list rp).
Definition set_rp_enable_cors rp v : remap_path := RemapPath _ (rp_regex rp) (rp_addrs rp) (rp_users
  rp) (rp_cache rp) (rp_cache_gen rp) (rp_ignore_params rp) (rp_whitelist_params rp)
  (rp_ignore_cookies rp) (rp_whitelist_cookies rp) (rp_follow_redirects rp) (rp_secure_backends rp)
  (rp_no_ssl_redirect rp) (rp_force_ssl_redirect rp) (rp_preserve_host rp) (rp_app_root rp)
  (rp_rewrite_target rp) (rp_read_timeout rp) (rp_compress rp) (rp_server_push rp) (rp_debug_log rp)
  (rp_compress_types rp) (rp_auth_type rp) (rp_auth_satisfy rp) (rp_auth_realm rp) v (rp_cors_creds
  rp) (rp_cors_origins rp) (rp_cors_methods rp) (rp_cors_headers rp) (rp_cors_max_age rp)
  (rp_auth_addr_list rp).
Definition set_rp_cors_creds rp v : remap_path := RemapPath _ (rp_regex rp) (rp_addrs rp) (rp_users
  rp) (rp_cache rp) (rp_cache_gen rp) (rp_ignore_params rp) (rp_whitelist_params rp)
  (rp_ignore_cookies rp) (rp_whitelist_cookies rp) (rp_follow_redirects rp) (rp_secure_backends rp)
  (rp_no_ssl_redirect rp) (rp_force_ssl_redirect rp) (rp_preserve_host rp) (rp_app_root rp)
  (rp_rewrite_target rp) (rp_read_timeout rp) (rp_compress rp) (rp_server_push rp) (rp_debug_log rp)
  (rp_compress_types rp) (rp_auth_type rp) (rp_auth_satisfy rp) (rp_auth_realm rp) (rp_enable_cors
  rp) v (rp_cors_origins rp) (rp_cors_methods rp) (rp_cors_headers rp) (rp_cors_max_age rp)
  (rp_auth_addr_list rp).
Definition set_rp_cors_origins rp v : remap_path := RemapPath _ (rp_regex rp) (rp_addrs rp)
  (rp_users rp) (rp_cache rp) (rp_cache_gen rp) (rp_ignore_params rp) (rp_whitelist_params rp)
  (rp_ignore_cookies rp) (rp_whitelist_cookies rp) (rp_follow_redirects rp) (rp_secure_backends rp)
  (rp_no_ssl_redirect rp) (rp_force_ssl_redirect rp) (rp_preserve_host rp) (rp_app_root rp)
  (rp_rewrite_target rp) (rp_read_timeout rp) (rp_compress rp) (rp_server_push rp) (rp_debug_log rp)
  (rp_compress_types rp) (rp_auth_type rp) (rp_auth_satisfy rp) (rp_auth_realm rp) (rp_enable_cors
  rp) (rp_cors_creds rp) v (rp_cors_methods rp) (rp_cors_headers rp) (rp_cors_max_age rp)
  (rp_auth_addr_list rp).
Definition set_rp_cors_methods rp v : remap_path := RemapPath _ (rp_regex rp) (rp_addrs rp)
  (rp_users rp) (rp_cache rp) (rp_cache_gen rp) (rp_ignore_params rp) (rp_whitelist_params rp)
  (rp_ignore_cookies rp) (rp_whitelist_cookies rp) (rp_follow_redirects rp) (rp_secure_backends rp)
  (rp_no_ssl_redirect rp) (rp_force_ssl_redirect rp) (rp_preserve_host rp) (rp_app_root rp)
  (rp_rewrite_target rp) (rp_read_timeout rp) (rp_compress rp) (rp_server_push rp) (rp_debug_log rp)
  (rp_compress_types rp) (rp_auth_type rp) (rp_auth_satisfy rp) (rp_auth_realm rp) (rp_enable_cors
  rp) (rp_cors_creds rp) (rp_cors_origins rp) v (rp_cors_headers rp) (rp_cors_max_age rp)
  (rp_auth_addr_list rp).
Definition set_rp_cors_headers rp v : remap_path := RemapPath _ (rp_regex rp) (rp_addrs rp)
  (rp_users rp) (rp_cache rp) (rp_cache_gen rp) (rp_ignore_params rp) (rp_whitelist_params rp)
  (rp_ignore_cookies rp) (rp_whitelist_cookies rp) (rp_follow_redirects rp) (rp_secure_backends rp)
  (rp_no_ssl_redirect rp) (rp_force_ssl_redirect rp) (rp_preserve_host rp) (rp_app_root rp)
  (rp_rewrite_target rp) (rp_read_timeout rp) (rp_compress rp) (rp_server_push rp) (rp_debug_log rp)
  (rp_compress_types rp) (rp_auth_type rp) (rp_auth_satisfy rp) (rp_auth_realm rp) (rp_enable_cors
  rp) (rp_cors_creds rp) (rp_cors_origins rp) (rp_cors_methods rp) v (rp_cors_max_age rp)
  (rp_auth_addr_list rp).
Definition set_rp_cors_max_age rp v : remap_path := RemapPath _ (rp_regex rp) (rp_addrs rp)
  (rp_users rp) (rp_cache rp) (rp_cache_gen rp) (rp_ignore_params rp) (rp_whitelist_params rp)
  (rp_ignore_cookies rp) (rp_whitelist_cookies rp) (rp_follow_redirects rp) (rp_secure_backends rp)
  (rp_no_ssl_redirect rp) (rp_force_ssl_redirect rp) (rp_preserve_host rp) (rp_app_root rp)
  (rp_rewrite_target rp) (rp_read_timeout rp) (rp_compress rp) (rp_server_push rp) (rp_debug_log rp)
  (rp_compress_types rp) (rp_auth_type rp) (rp_auth_satisfy rp) (rp_auth_realm rp) (rp_enable_cors
  rp) (rp_cors_creds rp) (rp_cors_origins rp) (rp_cors_methods rp) (rp_cors_headers rp) v
  (rp_auth_addr_list rp).
Definition set_rp_auth_addr_list rp v : remap_path := RemapPath _ (rp_regex rp) (rp_addrs rp)
  (rp_users rp) (rp_cache rp) (rp_cache_gen rp) (rp_ignore_params rp) (rp_whitelist_params rp)
  (rp_ignore_cookies rp) (rp_whitelist_cookies rp) (rp_follow_redirects rp) (rp_secure_backends rp)
  (rp_no_ssl_redirect rp) (rp_force_ssl_redirect rp) (rp_preserve_host rp) (rp_app_root rp)
  (rp_rewrite_target rp) (rp_read_timeout rp) (rp_compress rp) (rp_server_push rp) (rp_debug_log rp)
  (rp_compress_types rp) (rp_auth_type rp) (rp_auth_satisfy rp) (rp_auth_realm rp) (rp_enable_cors
  rp) (rp_cors_creds rp) (rp_cors_origins rp) (rp_cors_methods rp) (rp_cors_headers rp)
  (rp_cors_max_age rp) v.
End setters.

(** * Operations *)
Section ops.
Context `{P : Posix}.
Implicit Types (rp : remap_path).

(** The types compressed unless compress-types says otherwise. *)
Definition default_compress_types : list bytes := [
  lit "application/atom+xml"; lit "application/javascript"; lit "aplication/x-javascript";
  lit "application/json"; lit "application/rss+xml"; lit "application/vnd.ms-fontobject";
  lit "application/x-font-ttf"; lit "application/x-web-app-manifest+json"; lit "application/xml";
  lit "font/opentype"; lit "image/svg+xml"; lit "image/x-icon"; lit "text/css"; lit "text/plain";
  lit "text/x-component"].

Definition path_defaults (re : option regex_t) : remap_path := {|
  rp_regex := re; rp_addrs := []; rp_users := None;
  rp_cache := true; rp_cache_gen := 0; rp_ignore_params := None; rp_whitelist_params := None;
  rp_ignore_cookies := Some (hash_new 127 false); rp_whitelist_cookies := None;
  rp_follow_redirects := false; rp_secure_backends := false;
  rp_no_ssl_redirect := false; rp_force_ssl_redirect := false;
  rp_preserve_host := true; rp_app_root := None; rp_rewrite_target := None; rp_read_timeout := 0;
  rp_compress := true; rp_server_push := true; rp_debug_log := false;
  rp_compress_types := hashset_of 127 default_compress_types;
  rp_auth_type := REMAP_AUTH_NONE; rp_auth_satisfy := REMAP_SATISFY_ALL; rp_auth_realm := None;
  rp_enable_cors := false; rp_cors_creds := false;
  rp_cors_origins := hashset_of 127 [lit "*"]; rp_cors_methods := None; rp_cors_headers := None;
  rp_cors_max_age := 0; rp_auth_addr_list := [];
|}.

(** [None] is the NULL returned for a path without a leading slash or a
    regular expression that does not compile.  The slash becomes "^". *)
Definition remap_path_new (path : option bytes) : option remap_path :=
  match path with
  | None => Some (path_defaults None)
  | Some ("/"%char :: rest) =>
      match regcomp ("^"%char :: rest) with
      | Some re => Some (path_defaults (Some re))
      | None => None
      end
  | Some _ => None
  end.

Definition remap_path_add_address rp (host : bytes) (port : Z) : remap_path :=
  set_rp_addrs rp (rp_addrs rp ++ [RemapTarget host port]).

(** One entry of whitelist-source-range; [None] when it is dropped. *)
Definition parse_address (saddr : bytes) : option remap_auth_addr :=
  let '(addr, p) := match cut "/"%char saddr with
                    | Some (a, p) => (a, Some p)
                    | None => (saddr, None)
                    end in
  match inet_pton6 addr with
  | Some a => Some (RemapAuthAddr AF_INET6 a (match p with Some p => atoi p | None => 128 end))
  | None =>
      match inet_pton4 addr with
      | Some a => Some (RemapAuthAddr AF_INET a (match p with Some p => atoi p | None => 32 end))
      | None => None
      end
  end.

(** The list is built by prepending. *)
Definition remap_path_get_addresses (str : bytes) : list remap_auth_addr :=
  foldl (λ l saddr, match parse_address saddr with Some e => e :: l | None => l end)
        [] (strtok_all (lit ",") str).

Definition crlf : bytes := ["013"; "010"]%char.

(** The loop that strips trailing CR and LF from a password.  [strchr] also
    finds the terminating NUL, so on an empty string the test reads the byte
    before the password (the NUL written over the colon), which is found, and
    the loop does not end. *)
Fixpoint strip_crlf (fuel : nat) (password : bytes) : cres bytes :=
  match fuel with
  | O => Fault Diverges
  | S fuel =>
      match last password with
      | None => Fault Diverges
      | Some c => if bool_decide (c ∈ crlf)
                  then strip_crlf fuel (removelast password) else Ok password
      end
  end.

Definition add_user (users : hash bytes) (entry : bytes) : cres (hash bytes) :=
  match cut ":"%char entry with
  | None => Ok users
  | Some (user, password) =>
      let password := match cut ":"%char password with Some (p, _) => p | None => password end in
      password ← strip_crlf (S (length password)) password;
      Ok (hash_set users user password)
  end.

Definition remap_path_add_users rp (users : hash bytes) (s : secret) : cres remap_path :=
  match hash_get (se_data s) (lit "auth") with
  | None => Ok (set_rp_users rp (Some users))
  | Some authdata =>
      match base64_decode authdata with
      | None => Ok (set_rp_users rp (Some users))
      | Some buf =>
          users ← foldC add_user (strsep_all crlf (c_str buf)) users;
          Ok (set_rp_users rp (Some users))
      end
  end.

Definition blanks : bytes := [" "; "009"]%char.
Definition spaces : bytes := [" "; "009"; "013"; "010"]%char.

(** One annotation. *)
Definition annotate_one (ns : namespace) rp (key value : bytes) : cres remap_path :=
  let words := hashset_of 127 (strtok_all blanks value) in
  if streq key IN_CACHE_ENABLE then Ok (set_rp_cache rp (truefalse value))
  else if streq key IN_CACHE_GENERATION then Ok (set_rp_cache_gen rp (atoi value))
  else if streq key IN_CACHE_IGNORE_PARAMS then Ok (set_rp_ignore_params rp (Some words))
  else if streq key IN_CACHE_WHITELIST_PARAMS then Ok (set_rp_whitelist_params rp (Some words))
  else if streq key IN_CACHE_IGNORE_COOKIES then Ok (set_rp_ignore_cookies rp (Some words))
  else if streq key IN_CACHE_WHITELIST_COOKIES then Ok (set_rp_whitelist_cookies rp (Some words))
  else if streq key IN_COMPRESS_TYPES then Ok (set_rp_compress_types rp words)
  else if streq key IN_COMPRESS_ENABLE then Ok (set_rp_compress rp (truefalse value))
  else if streq key IN_FOLLOW_REDIRECTS then Ok (set_rp_follow_redirects rp (truefalse value))
  else if streq key IN_SERVER_PUSH then Ok (set_rp_server_push rp (truefalse value))
  else if streq key IN_SECURE_BACKENDS then Ok (set_rp_secure_backends rp (truefalse value))
  else if streq key IN_DEBUG_LOG then Ok (set_rp_debug_log rp (truefalse value))
  else if streq key IN_SSL_REDIRECT then Ok (set_rp_no_ssl_redirect rp (negb (truefalse value)))
  else if streq key IN_FORCE_SSL_REDIRECT then Ok (set_rp_force_ssl_redirect rp (truefalse value))
  else if streq key IN_PRESERVE_HOST then Ok (set_rp_preserve_host rp (truefalse value))
  else if streq key IN_APP_ROOT then Ok (set_rp_app_root rp (Some value))
  else if streq key IN_REWRITE_TARGET && bool_decide (head value = Some "/"%char)
  then Ok (set_rp_rewrite_target rp (Some (tail value)))
  else if streq key IN_READ_RESPONSE_TIMEOUT then Ok (set_rp_read_timeout rp (atoi value))
  else if streq key IN_ENABLE_CORS then Ok (set_rp_enable_cors rp (truefalse value))
  else if streq key IN_CORS_ORIGINS
  then Ok (set_rp_enable_cors (set_rp_cors_origins rp (hashset_of 1 (strtok_all spaces value))) true)
  else if streq key IN_CORS_MAX_AGE then Ok (set_rp_cors_max_age rp (atoi value))
  else if streq key IN_CORS_HEADERS then Ok (set_rp_cors_headers rp (Some value))
  else if streq key IN_CORS_METHODS then Ok (set_rp_cors_methods rp (Some value))
  else if streq key IN_CORS_CREDENTIALS then Ok (set_rp_cors_creds rp (truefalse value))
  else if streq key IN_AUTH_TYPE
  then Ok (if streq value (lit "basic") then set_rp_auth_type rp REMAP_AUTH_BASIC
           else if streq value (lit "digest") then set_rp_auth_type rp REMAP_AUTH_DIGEST
           else rp)
  else if streq key IN_AUTH_REALM then Ok (set_rp_auth_realm rp (Some value))
  else if streq key IN_AUTH_SECRET
  then match namespace_get_secret ns value with
       | Some se => remap_path_add_users rp (hash_new 127 true) se
       | None => Ok rp
       end
  else if streq key IN_AUTH_SATISFY
  then Ok (set_rp_auth_satisfy rp (if streq value (lit "any") then REMAP_SATISFY_ANY else REMAP_SATISFY_ALL))
  else if streq key IN_WHITELIST_SOURCE_RANGE
  then Ok (set_rp_auth_addr_list rp (remap_path_get_addresses value))
  else Ok rp.

Definition remap_path_annotate (ns : namespace) rp (annotations : hash bytes) : cres remap_path :=
  foldC (λ rp b, annotate_one ns rp (take (hb_keylen b) (hb_key b)) (hb_value b))
        (hash_foreach annotations) rp.

(** [rand] returns [r], between 0 and [RAND_MAX]. *)
Definition RAND_MAX : Z := 2147483647.

Definition pick_index (naddrs r : Z) : Z := r / (RAND_MAX / naddrs + 1).

Definition remap_path_pick_target rp (r : Z) : cres remap_target :=
  if bool_decide (rp_addrs rp = []) then Fault DivZero
  else match rp_addrs rp !! Z.to_nat (pick_index (Z.of_nat (length (rp_addrs rp))) r) with
       | Some t => Ok t
       | None => Fault OutOfBounds
       end.
End ops.

(** * Lemmas *)

(** ** Choice of a backend *)
Lemma pick_index_range n r : 0 < n → 0 ≤ r ≤ RAND_MAX → 0 ≤ pick_index n r < n.
Proof.
  intros Hn Hr. unfold pick_index. set (q := RAND_MAX / n).
  assert (Hq : 0 ≤ q) by (apply Z.div_pos; lia).
  assert (Hm : RAND_MAX < n * (q + 1)).
  { pose proof (Z.mul_succ_div_gt RAND_MAX n Hn). unfold q. lia. }
  split; [apply Z.div_pos; lia|]. apply Z.div_lt_upper_bound; lia.
Qed.

Lemma pick_index_onto n i : n * n ≤ RAND_MAX → 0 ≤ i < n → ∃ r, 0 ≤ r ≤ RAND_MAX ∧ pick_index n r = i.
Proof.
  intros Hn Hi. exists (i * (RAND_MAX / n + 1)). unfold pick_index. set (q := RAND_MAX / n).
  assert (Hq : n * q ≤ RAND_MAX) by (apply Z.mul_div_le; lia).
  assert (Hnq : n ≤ q) by (apply Z.div_le_lower_bound; lia).
  split; [nia|]. apply Z.div_mul. lia.
Qed.

Section lemmas.
Context `{P : Posix}.
Implicit Types (rp : remap_path).

(** ** Annotations *)

(** A field that only the annotation [K] writes: its value after the loop. *)
Lemma foldC_field {A} (π : remap_path → A) (K : bytes) (g : A → bytes → A) f l rp rp' :
  (∀ rp k v rp', f rp k v = Ok rp' → π rp' = if decide (k = K) then g (π rp) v else π rp) →
  NoDup (l.*1) →
  foldC (λ rp '(k, v), f rp k v) l rp = Ok rp' →
  π rp' = match list_to_map (M:=gmap bytes bytes) l !! K with Some v => g (π rp) v | None => π rp end.
Proof.
  intros Hf. revert rp; induction l as [|[k v] l IH]; intros rp Hnd; simpl.
  { intros [= ->]. by rewrite lookup_empty. }
  apply NoDup_cons in Hnd as [Hk Hnd].
  destruct (f rp k v) as [rp1|] eqn:E; simpl; [|done]. intros Hl.
  rewrite (IH rp1 Hnd Hl). apply Hf in E. rewrite E, lookup_insert.
  case_decide as Hkk; [|done]. subst k. by rewrite not_elem_of_list_to_map_1.
Qed.

Lemma annotate_bindings ns rp ann m :
  hash_models ann m →
  remap_path_annotate ns rp ann = foldC (λ rp '(k, v), annotate_one ns rp k v) (hash_bindings ann) rp.
Proof.
  intros [Hwf _]. unfold remap_path_annotate, hash_bindings.
  pose proof (hash_foreach_keylen ann Hwf) as Hl. revert rp.
  induction Hl as [|b l Hb _ IH]; intros rp; simpl; [done|].
  rewrite Hb, firstn_all. by destruct (annotate_one ns rp (hb_key b) (hb_value b)); simpl.
Qed.

Lemma annotate_field {A} (π : remap_path → A) (K : bytes) (g : A → bytes → A) ns rp rp' ann m :
  (∀ rp k v rp', annotate_one ns rp k v = Ok rp' →
     π rp' = if decide (k = K) then g (π rp) v else π rp) →
  hash_models ann m → remap_path_annotate ns rp ann = Ok rp' →
  π rp' = match m !! K with Some v => g (π rp) v | None => π rp end.
Proof.
  intros Hf Hm. rewrite (annotate_bindings ns rp ann m Hm). intros Ha.
  pose proof (hash_models_bindings ann m Hm) as Hb.
  assert (Hnd : NoDup ((hash_bindings ann).*1)) by (rewrite Hb; apply NoDup_fst_map_to_list).
  rewrite (foldC_field π K g _ _ _ _ Hf Hnd Ha).
  rewrite (list_to_map_proper (hash_bindings ann) (map_to_list m)) by done.
  by rewrite list_to_map_to_list.
Qed.

(** [remap_path_add_users] only writes [rp_users]. *)
Lemma add_users_only rp us se rp' :
  remap_path_add_users rp us se = Ok rp' → ∃ u, rp' = set_rp_users rp u.
Proof.
  unfold remap_path_add_users.
  destruct (hash_get _ _); [|intros; simplify_eq; eauto].
  destruct (base64_decode _); [|intros; simplify_eq; eauto].
  destruct (foldC _ _ _); simpl; [|done]. intros; simplify_eq; eauto.
Qed.
End lemmas.

(** Decide an equation between two annotation names. *)
Ltac decide_key :=
  repeat match goal with
  | |- context [decide (?a = ?a)] => rewrite (decide_True (P := a = a)) by reflexivity
  | H : ?a ≠ ?b |- context [decide (?a = ?b)] => rewrite (decide_False (P := a = b)) by exact H
  | |- context [decide (?a = ?b)] => rewrite (decide_False (P := a = b)) by (vm_compute; discriminate)
  end.

(** The effect of one annotation on one field, by cases on its name. *)
Ltac annotate_cases :=
  let H := fresh in
  intros ? key value ? H; unfold annotate_one in H; cbv zeta in H;
  repeat match type of H with
  | (if streq key ?K then _ else _) = Ok _ =>
      destruct (streq key K) eqn:?; [str_tests; subst key|]
  | (if streq key ?K && ?b then _ else _) = Ok _ =>
      destruct (streq key K) eqn:?; [str_tests; subst key; destruct b; cbn [andb] in H|cbn [andb] in H]
  | (if streq ?a ?b then _ else _) = Ok _ =>
      replace (streq a b) with false in H by (vm_compute; reflexivity)
  end;
  str_tests; decide_key;
  try (apply (inj Ok) in H; subst; repeat match goal with |- context [if ?b then _ else _] => destruct b end; reflexivity);
  try (case_match; [apply add_users_only in H as [? ->]|apply (inj Ok) in H; subst]; reflexivity).

(** The part of a path's configuration that decides who may use it. *)
Record access_policy := AccessPolicy {
  ap_type : auth_type;
  ap_satisfy : auth_satisfy;
  ap_realm : option bytes;
  ap_addrs : list remap_auth_addr;
  ap_no_redirect : bool;
  ap_force_redirect : bool;
}.

Definition path_policy `{Posix} (rp : remap_path) : access_policy :=
  AccessPolicy (rp_auth_type rp) (rp_auth_satisfy rp) (rp_auth_realm rp)
    (rp_auth_addr_list rp) (rp_no_ssl_redirect rp) (rp_force_ssl_redirect rp).

(** The policy a set of annotations asks for, from the one in force. *)
Definition annotated_policy `{Posix} (m : gmap bytes bytes) (old : access_policy) : access_policy := {|
  ap_type :=
    match m !! IN_AUTH_TYPE with
    | Some v => if streq v (lit "basic") then REMAP_AUTH_BASIC
                else if streq v (lit "digest") then REMAP_AUTH_DIGEST else ap_type old
    | None => ap_type old
    end;
  ap_satisfy :=
    match m !! IN_AUTH_SATISFY with
    | Some v => if streq v (lit "any") then REMAP_SATISFY_ANY else REMAP_SATISFY_ALL
    | None => ap_satisfy old
    end;
  ap_realm := match m !! IN_AUTH_REALM with Some v => Some v | None => ap_realm old end;
  ap_addrs := match m !! IN_WHITELIST_SOURCE_RANGE with
              | Some v => remap_path_get_addresses v | None => ap_addrs old end;
  ap_no_redirect := match m !! IN_SSL_REDIRECT with
                    | Some v => negb (truefalse v) | None => ap_no_redirect old end;
  ap_force_redirect := match m !! IN_FORCE_SSL_REDIRECT with
                       | Some v => truefalse v | None => ap_force_redirect old end;
|}.

Lemma annotate_policy_eq `{Posix} (ns : namespace) (rp rp' : remap_path) (ann : hash bytes) (m : gmap bytes bytes) :
  hash_models ann m → remap_path_annotate ns rp ann = Ok rp' →
  path_policy rp' = annotated_policy m (path_policy rp).
Proof.
  intros Hm Ha. unfold path_policy, annotated_policy; cbn [ap_type ap_satisfy ap_realm ap_addrs ap_no_redirect ap_force_redirect].
  f_equal.
  - apply (annotate_field rp_auth_type IN_AUTH_TYPE (λ t v,
      if streq v (lit "basic") then REMAP_AUTH_BASIC
      else if streq v (lit "digest") then REMAP_AUTH_DIGEST else t) ns _ _ ann m); [|done..]. annotate_cases.
  - apply (annotate_field rp_auth_satisfy IN_AUTH_SATISFY (λ _ v,
      if streq v (lit "any") then REMAP_SATISFY_ANY else REMAP_SATISFY_ALL) ns _ _ ann m); [|done..]. annotate_cases.
  - apply (annotate_field rp_auth_realm IN_AUTH_REALM (λ _ v, Some v) ns _ _ ann m); [|done..]. annotate_cases.
  - apply (annotate_field rp_auth_addr_list IN_WHITELIST_SOURCE_RANGE
      (λ _ v, remap_path_get_addresses v) ns _ _ ann m); [|done..]. annotate_cases.
  - apply (annotate_field rp_no_ssl_redirect IN_SSL_REDIRECT (λ _ v, negb (truefalse v)) ns _ _ ann m); [|done..].
    annotate_cases.
  - apply (annotate_field rp_force_ssl_redirect IN_FORCE_SSL_REDIRECT (λ _ v, truefalse v) ns _ _ ann m); [|done..].
    annotate_cases.
Qed.

(** * Properties *)

(** C28. Whatever the order in which the table yields the annotations, the
    authentication type, the satisfy rule, the realm, the address whitelist
    and the two TLS-redirect switches of a path after [remap_path_annotate]
    are those of the corresponding annotations, and are unchanged where the
    annotation is absent. *)
Theorem annotate_policy `{Posix} (ns : namespace) (rp rp' : remap_path) (ann : hash bytes) (m : gmap bytes bytes) :
  hash_models ann m → remap_path_annotate ns rp ann = Ok rp' →
  path_policy rp' = annotated_policy m (path_policy rp).
Proof. apply annotate_policy_eq. Qed.

Lemma annotate_policy_witness :
  let ann := hash_put (hash_put (hash_new 127 true) IN_AUTH_TYPE (lit "basic")) IN_SSL_REDIRECT (lit "false") in
  match remap_path_annotate (P:=posix_literal) (namespace_make (lit "ns")) (path_defaults None) ann with
  | Ok rp' => ap_type (path_policy rp') = REMAP_AUTH_BASIC ∧ ap_no_redirect (path_policy rp') = true
  | Fault _ => False
  end.
Proof.
  intros ann.
  assert (Hm : hash_models ann (<[IN_SSL_REDIRECT := lit "false"]> (<[IN_AUTH_TYPE := lit "basic"]> ∅))).
  { apply hash_models_put, hash_models_put, hash_models_new. lia. }
  assert (Hok : okb (remap_path_annotate (P:=posix_literal) (namespace_make (lit "ns")) (path_defaults None) ann) = true)
    by (vm_compute; reflexivity).
  destruct (remap_path_annotate _ _ _) as [rp'|] eqn:E; [|discriminate].
  rewrite (annotate_policy _ _ _ _ _ Hm E). split; vm_compute; reflexivity.
Defined.

Lemma pick_target_ok `{Posix} (rp : remap_path) r :
  rp_addrs rp ≠ [] → 0 ≤ r ≤ RAND_MAX → ∃ t, remap_path_pick_target rp r = Ok t ∧ t ∈ rp_addrs rp.
Proof.
  intros Hne Hr. unfold remap_path_pick_target. rewrite bool_decide_eq_false_2 by done.
  set (n := Z.of_nat (length (rp_addrs rp))).
  assert (Hn : 0 < n). { unfold n. destruct (rp_addrs rp); [done|simpl; lia]. }
  pose proof (pick_index_range n r Hn Hr).
  destruct (lookup_lt_is_Some_2 (rp_addrs rp) (Z.to_nat (pick_index n r))) as [t Ht]; [lia|].
  exists t. rewrite Ht. split; [done|]. by eapply list_elem_of_lookup_2.
Qed.

(** C36. [remap_path_pick_target] always returns one of the path's backends,
    for every value [rand] can return, and every backend can be returned (for
    up to 46340 of them). *)
Theorem pick_target_total `{Posix} (rp : remap_path) :
  rp_addrs rp ≠ [] →
  (∀ r, 0 ≤ r ≤ RAND_MAX → ∃ t, remap_path_pick_target rp r = Ok t ∧ t ∈ rp_addrs rp) ∧
  (Z.of_nat (length (rp_addrs rp)) ≤ 46340 →
   ∀ t, t ∈ rp_addrs rp → ∃ r, 0 ≤ r ≤ RAND_MAX ∧ remap_path_pick_target rp r = Ok t).
Proof.
  intros Hne. split; [intros r; by apply pick_target_ok|].
  intros Hle t [i Hi]%list_elem_of_lookup. pose proof (lookup_lt_Some _ _ _ Hi).
  destruct (pick_index_onto (Z.of_nat (length (rp_addrs rp))) (Z.of_nat i)) as (r & Hr & Hp);
    [unfold RAND_MAX; nia|lia|].
  exists r. split; [done|]. unfold remap_path_pick_target. rewrite bool_decide_eq_false_2 by done.
  by rewrite Hp, Nat2Z.id, Hi.
Qed.

Lemma pick_target_total_witness :
  let rp := remap_path_add_address (P:=posix_literal) (path_defaults None) (lit "10.0.0.1") 80 in
  ∃ t, remap_path_pick_target rp 12345 = Ok t ∧ t ∈ rp_addrs rp.
Proof.
  intros rp. destruct (pick_target_total rp) as [H _]; [done|]. apply H. unfold RAND_MAX. lia.
Defined.

(** ** The user database *)
Fixpoint print_users (l : list (bytes * bytes)) : bytes :=
  match l with
  | [] => []
  | (u, p) :: l => (u ++ ":"%char :: p) ++ "010"%char :: print_users l
  end.

(** A user and a non-empty password without the characters of the syntax. *)
Definition plain_user (e : bytes * bytes) : Prop :=
  Forall (λ x, x ∉ NUL :: ":"%char :: crlf) e.1 ∧ Forall (λ x, x ∉ NUL :: ":"%char :: crlf) e.2 ∧ e.2 ≠ [].

#[global] Instance plain_user_dec e : Decision (plain_user e).
Proof. unfold plain_user. apply _. Defined.

Lemma plain_not_in (c : ascii) (s : bytes) :
  Forall (λ x, x ∉ NUL :: ":"%char :: crlf) s → c ∈ NUL :: ":"%char :: crlf → c ∉ s.
Proof. intros H Hc Hs. rewrite Forall_forall in H. by apply (H c). Qed.

Lemma strip_crlf_plain fuel s : s ≠ [] → Forall (λ x, x ∉ crlf) s → strip_crlf (S fuel) s = Ok s.
Proof.
  intros Hne Hs. simpl. destruct (last s) as [c|] eqn:E; [|by apply last_None in E].
  apply last_Some_elem_of in E. rewrite Forall_forall in Hs.
  by rewrite bool_decide_eq_false_2 by (by apply Hs).
Qed.

Lemma add_user_plain users e :
  plain_user e → add_user users (e.1 ++ ":"%char :: e.2) = Ok (hash_set users e.1 e.2).
Proof.
  intros (Hu & Hp & Hne). unfold add_user.
  rewrite cut_app by (apply (plain_not_in _ _ Hu); right; by left).
  rewrite (proj2 (cut_None _ _)) by (apply (plain_not_in _ _ Hp); right; by left).
  rewrite strip_crlf_plain; [done..|]. eapply Forall_impl; [done|]. intros x Hx ?. apply Hx. by do 2 right.
Qed.

(** The password of an entry of an auth secret, as [add_user] finds it. *)
Definition entry_password (entry : bytes) : option bytes :=
  match cut ":"%char entry with
  | None => None
  | Some (_, password) => Some (match cut ":"%char password with Some (p, _) => p | None => password end)
  end.

(** No user of an auth secret has an empty password. *)
Definition passwords_ok (se : secret) : Prop :=
  ∀ authdata buf, hash_get (se_data se) (lit "auth") = Some authdata → base64_decode authdata = Some buf →
    Forall (λ e, entry_password e ≠ Some []) (strsep_all crlf (c_str buf)).

Lemma cut_part c s a b x : cut c s = Some (a, b) → x ∈ b → x ∈ s.
Proof. intros [-> _]%cut_Some. set_solver. Qed.
Lemma cut_front c s a b x : cut c s = Some (a, b) → x ∈ a → x ∈ s.
Proof. intros [-> _]%cut_Some. set_solver. Qed.

(** The password of an entry that was cut out at the line ends has none. *)
Lemma entry_password_plain e p : Forall (λ c, c ∉ crlf) e → entry_password e = Some p → Forall (λ c, c ∉ crlf) p.
Proof.
  intros He. unfold entry_password. destruct (cut _ e) as [[user pw]|] eqn:Ec; [|done].
  intros [= <-]. apply Forall_forall. intros x Hx. rewrite Forall_forall in He. apply He, (cut_part _ _ _ _ _ Ec).
  destruct (cut _ pw) as [[q r]|] eqn:Eq; [by apply (cut_front _ _ _ _ _ Eq)|done].
Qed.

Lemma strsep_lines_plain s e : e ∈ strsep_all crlf s → Forall (λ c, c ∉ crlf) e.
Proof. rewrite strsep_all_split. intros He. apply Forall_forall. intros c Hc Hd. by apply (split_no_delim _ _ _ _ He Hd). Qed.

Lemma add_user_total users e :
  Forall (λ c, c ∉ crlf) e → entry_password e ≠ Some [] → ∃ users', add_user users e = Ok users'.
Proof.
  intros He Hp. pose proof (λ p, entry_password_plain e p He) as Hc. unfold add_user, entry_password in *.
  destruct (cut _ e) as [[user pw]|]; [|by eauto]. specialize (Hc _ eq_refl).
  rewrite strip_crlf_plain by (done || congruence). eauto.
Qed.

Lemma add_users_total `{Posix} (rp : remap_path) users se : passwords_ok se → ∃ rp', remap_path_add_users rp users se = Ok rp'.
Proof.
  intros Hp. unfold remap_path_add_users. destruct (hash_get _ _) as [data|] eqn:Ed; [|by eauto].
  destruct (base64_decode data) as [buf|] eqn:Eb; [|by eauto]. specialize (Hp _ _ Ed Eb). rewrite Forall_forall in Hp.
  destruct (foldC_total add_user (strsep_all crlf (c_str buf)) users) as [users' ->]; [|by eauto].
  intros h e He. apply add_user_total; [by eapply strsep_lines_plain|by apply Hp].
Qed.

(** Only the auth-secret annotation can keep the others from being applied. *)
Lemma annotate_total `{Posix} ns (rp : remap_path) (ann : hash bytes) :
  (∀ b se, b ∈ hash_foreach ann → take (hb_keylen b) (hb_key b) = IN_AUTH_SECRET →
     namespace_get_secret ns (hb_value b) = Some se → passwords_ok se) →
  ∃ rp', remap_path_annotate ns rp ann = Ok rp'.
Proof.
  intros Hp. apply foldC_total. intros rp1 b Hb. specialize (Hp b). unfold annotate_one.
  repeat (case_match; [by eauto|]).
  case_match eqn:Ek; [|by repeat (case_match; [by eauto|]); eauto]. apply streq_true in Ek.
  case_match eqn:Es; [|by eauto]. by eapply add_users_total, Hp.
Qed.

Lemma print_users_no_nul l : Forall plain_user l → no_nul (print_users l).
Proof.
  induction 1 as [|[u p] l (Hu & Hp & _) _ IH]; simpl in *; unfold no_nul in *; [apply not_elem_of_nil|].
  rewrite !elem_of_app, !elem_of_cons. intros [[?|[?|?]]|[?|?]]; try done.
  - eapply (plain_not_in NUL u); [done|by left|done].
  - eapply (plain_not_in NUL p); [done|by left|done].
Qed.

Lemma add_users_plain l users :
  Forall plain_user l →
  foldC add_user (split crlf (print_users l)) users = Ok (foldl (λ h e, hash_set h e.1 e.2) users l).
Proof.
  intros Hl. revert users; induction Hl as [|[u p] l He _ IH]; intros users; [done|]. simpl print_users.
  rewrite split_app_delim.
  - cbn [foldC]. change (u ++ ":"%char :: p) with ((u, p).1 ++ ":"%char :: (u, p).2).
    rewrite add_user_plain by done. simpl. apply IH.
  - destruct He as (Hu & Hp & _); simpl in *. apply Forall_app; split; [|constructor; [by compute_done|]];
      (eapply Forall_impl; [eassumption|]; intros x Hx ?; apply Hx; by do 2 right).
  - by compute_done.
Qed.

Lemma foldl_hash_set_get {V} (l : list (bytes * V)) h k v :
  hash_wf h → NoDup l.*1 →
  hash_get (foldl (λ h e, hash_set h e.1 e.2) h l) k = Some v ↔
    (k, v) ∈ l ∨ (k ∉ l.*1 ∧ hash_get h k = Some v).
Proof.
  revert h; induction l as [|[k' v'] l IH]; intros h Hh Hnd; simpl; [set_solver|].
  apply NoDup_cons in Hnd as [Hk' Hnd].
  rewrite IH, hash_get_set by (done || by apply hash_set_wf).
  assert (Hin : ∀ v0, (k, v0) ∈ l → k ∈ l.*1).
  { intros v0 H0. apply list_elem_of_fmap. by exists (k, v0). }
  case_decide as Hk; subst; rewrite ?elem_of_cons; [|naive_solver].
  split; [intros [H|[_ [= <-]]]; [left; by right|left; by left]|].
  intros [[[= <-]|H]|[H _]]; [right; done|by left|by destruct H; left].
Qed.

(** The user database of an auth-secret: a list of distinct users with
    non-empty passwords, written as "user:password" lines and encoded in
    base64 as Kubernetes stores it, is loaded by [remap_path_add_users] as
    exactly those users and passwords. *)
Theorem auth_secret_roundtrip `{Posix} (rp : remap_path) (s : secret) (l : list (bytes * bytes)) :
  Forall plain_user l → NoDup l.*1 →
  hash_get (se_data s) (lit "auth") = Some (base64_encode (print_users l)) →
  ∃ users, remap_path_add_users rp (hash_new 127 true) s = Ok (set_rp_users rp (Some users)) ∧
    ∀ u p, hash_get users u = Some p ↔ (u, p) ∈ l.
Proof.
  intros Hl Hnd Hs. unfold remap_path_add_users. rewrite Hs, base64_decode_encode.
  rewrite c_str_id by (by apply print_users_no_nul). rewrite strsep_all_split, add_users_plain by done. simpl.
  eexists; split; [done|]. intros u p. rewrite foldl_hash_set_get; [|apply hash_new_wf; lia|done].
  rewrite hash_get_stack, hash_stack_new. naive_solver.
Qed.

Definition example_users : list (bytes * bytes) :=
  [(lit "alice", lit "$1$abc$xyz"); (lit "bob", lit "{PLAIN}hunter2")].
Definition example_secret : secret :=
  Secret (lit "users") (lit "ns") (lit "Opaque")
    (hash_set (hash_new 127 true) (lit "auth") (base64_encode (print_users example_users))).

Lemma auth_secret_roundtrip_witness :
  ∃ users, remap_path_add_users (P:=posix_literal) (path_defaults None) (hash_new 127 true) example_secret
             = Ok (set_rp_users (path_defaults None) (Some users)) ∧
    hash_get users (lit "bob") = Some (lit "{PLAIN}hunter2").
Proof.
  destruct (auth_secret_roundtrip (H:=posix_literal) (path_defaults None) example_secret example_users) as (users & H1 & H2).
  - by compute_done.
  - by compute_done.
  - vm_compute. reflexivity.
  - exists users. split; [exact H1|]. apply H2. by compute_done.
Defined.

(** A user without a password makes the loop over the password endless. *)
Example empty_password_diverges (users : hash bytes) :
  add_user users (lit "alice:") = Fault Diverges.
Proof. reflexivity. Qed.
