(* ===== verification/RemapHost.v ===== *)
(** [remap/remap_host.c]: one host name, its TLS context and its paths.  The
    first path is the default one; the others are tried in the order in which
    they were added. *)

From S2P Require Import Prelude CString Hash Base64 Env Api Namespace Cluster RemapPath.

Local Open Scope Z_scope.

(** * Data *)
Record remap_host `{Posix} `{OpenSSL} := RemapHost {
  rh_paths : list remap_path;
  rh_ctx : option ssl_ctx;
  rh_hsts_subdomains : bool;
  rh_http2 : bool;
  rh_tls_passthrough : bool;
  rh_hsts_max_age : Z;
  rh_tls_version : Z;
}.

(** * Operations *)
Section ops.
Context `{P : Posix} `{SSL : OpenSSL}.
Implicit Types (rh : remap_host) (cs : cluster).

Definition set_rh_paths rh l : remap_host :=
  RemapHost _ _ l (rh_ctx rh) (rh_hsts_subdomains rh) (rh_http2 rh) (rh_tls_passthrough rh)
    (rh_hsts_max_age rh) (rh_tls_version rh).
Definition set_rh_ctx rh c : remap_host :=
  RemapHost _ _ (rh_paths rh) c (rh_hsts_subdomains rh) (rh_http2 rh) (rh_tls_passthrough rh)
    (rh_hsts_max_age rh) (rh_tls_version rh).

(** The new path is returned by its index in [rh_paths]. *)
Definition remap_host_new_path rh (path : option bytes) : option (remap_host * nat) :=
  match remap_path_new path with
  | None => None
  | Some rp => Some (set_rh_paths rh (rh_paths rh ++ [rp]), length (rh_paths rh))
  end.

Definition host_zero : remap_host := RemapHost _ _ [] None false false false 0 0.

Definition remap_host_new : remap_host :=
  match remap_host_new_path host_zero None with
  | Some (rh, _) => rh
  | None => host_zero
  end.

(** The loop over the paths after the default one. *)
Fixpoint find_loop (paths : list remap_path) (path : bytes) : cres (option (remap_path * nat)) :=
  match paths with
  | [] => Ok None
  | rp :: paths =>
      match rp_regex rp with
      | None => Fault Uninitialised
      | Some re =>
          match regexec re path with
          | Some (so, eo) => Ok (Some (rp, (eo - so)%nat))
          | None => find_loop paths path
          end
      end
  end.

Definition remap_host_get_default_path rh : cres remap_path :=
  match rh_paths rh with rp :: _ => Ok rp | [] => Fault OutOfBounds end.

(** The path for a request, and the length of what it matched. *)
Definition remap_host_find_path rh (path : option bytes) : cres (remap_path * nat) :=
  match path with
  | None => rp ← remap_host_get_default_path rh; Ok (rp, 0%nat)
  | Some path =>
      r ← find_loop (drop 1 (rh_paths rh)) path;
      match r with
      | Some found => Ok found
      | None => rp ← remap_host_get_default_path rh; Ok (rp, 0%nat)
      end
  end.

Definition remap_host_annotate rh cs (annotations : hash bytes) : remap_host :=
  let cc := cs_config cs in
  let get k := hash_get annotations k in
  RemapHost _ _ (rh_paths rh) (rh_ctx rh)
    (match get IN_HSTS_INCLUDE_SUBDOMAINS with Some s => truefalse s | None => cc_hsts_subdomains cc end)
    (match get IN_HTTP2_ENABLE with Some s => truefalse s | None => cc_http2 cc end)
    (match get IN_SSL_PASSTHROUGH with Some s => truefalse s | None => rh_tls_passthrough rh end)
    (match get IN_HSTS_MAX_AGE with Some s => atoi s | None => cc_hsts_max_age cc end)
    (match get IN_TLS_MINIMUM_VERSION with
     | Some s => tls_minimum s (rh_tls_version rh)
     | None => cc_tls_minimum_version cc
     end).

Definition remap_host_attach_default_tls rh cs (host : bytes) : cres (cluster * remap_host) :=
  match cluster_get_cert_for_hostname cs host with
  | None => Ok (cs, rh)
  | Some crt =>
      let '(cs, ns) := cluster_get_namespace cs (cr_namespace crt) in
      match namespace_get_secret ns (cr_name crt) with
      | None => Ok (cs, rh)
      | Some srt => ctx ← secret_make_ssl_ctx srt; Ok (cs, set_rh_ctx rh ctx)
      end
  end.

(** * Invariant: a default path without an expression, then paths with one *)
Definition host_wf rh : Prop :=
  ∃ rp0 rps, rh_paths rh = rp0 :: rps ∧ rp_regex rp0 = None ∧ Forall (λ rp, is_Some (rp_regex rp)) rps.

(** [rp] matches the request path. *)
Definition path_matches (rp : remap_path) (path : bytes) : Prop :=
  ∃ re m, rp_regex rp = Some re ∧ regexec re path = Some m.
End ops.

(** * Lemmas *)
Section lemmas.
Context `{PL : PosixLaws} `{SSL : OpenSSL}.
Implicit Types (rh : remap_host) (cs : cluster).

Lemma remap_path_new_regex path rp :
  remap_path_new path = Some rp → (path = None ∧ rp_regex rp = None) ∨ (is_Some path ∧ is_Some (rp_regex rp)).
Proof.
  unfold remap_path_new. destruct path as [[|c s]|]; [done| |].
  - destruct (decide (c = "/"%char)) as [->|Hc].
    + destruct (regcomp _); [|done]. intros; simplify_eq. right; eauto.
    + destruct c as [[] [] [] [] [] [] [] []]; done.
  - intros; simplify_eq. by left.
Qed.

Lemma remap_host_new_wf : host_wf remap_host_new.
Proof. exists (path_defaults None), []. done. Qed.

Lemma remap_host_new_path_wf rh path rh' i :
  host_wf rh → remap_host_new_path rh (Some path) = Some (rh', i) →
  host_wf rh' ∧ (∃ rp, remap_path_new (Some path) = Some rp ∧ rh_paths rh' = rh_paths rh ++ [rp]) ∧
  i = length (rh_paths rh).
Proof.
  intros (rp0 & rps & Hp & H0 & Hr). unfold remap_host_new_path.
  destruct (remap_path_new (Some path)) as [rp|] eqn:E; [|done]. intros Heq; simplify_eq.
  split; [|by eauto]. exists rp0, (rps ++ [rp]). split; [simpl; by rewrite Hp|]. split; [done|].
  apply Forall_app. split; [done|]. constructor; [|done].
  apply remap_path_new_regex in E as [[? _]|[_ ?]]; done.
Qed.

(** What the loop returns: the first path that matches. *)
Lemma find_loop_spec paths path :
  Forall (λ rp, is_Some (rp_regex rp)) paths →
  (∃ r, find_loop paths path = Ok r ∧
   match r with
   | None => Forall (λ rp, ¬ path_matches rp path) paths
   | Some (rp, n) =>
       (n ≤ length path)%nat ∧ path_matches rp path ∧
       ∃ l k, paths = l ++ rp :: k ∧ Forall (λ rp, ¬ path_matches rp path) l
   end).
Proof.
  induction 1 as [|rp paths [re Hre] _ IH]; simpl; [by exists None|]. rewrite Hre.
  destruct (regexec re path) as [[so eo]|] eqn:E.
  - eexists; split; [done|]. simpl. apply regexec_bounds in E as Hb. split; [lia|].
    split; [exists re; eauto|]. by exists [], paths.
  - destruct IH as (r & -> & Hr). exists r. split; [done|].
    assert (Hn : ¬ path_matches rp path) by (intros (re' & m & ? & ?); congruence).
    destruct r as [[rp' n]|]; [|by constructor].
    destruct Hr as (Hle & Hm & l & k & -> & Hl). split; [done|]. split; [done|].
    exists (rp :: l), k. split; [done|]. by constructor.
Qed.

Lemma find_path_total rh path :
  host_wf rh →
  ∃ rp n, remap_host_find_path rh path = Ok (rp, n) ∧ rp ∈ rh_paths rh ∧ (n ≤ length (default [] path))%nat.
Proof.
  intros (rp0 & rps & Hp & _ & Hr). unfold remap_host_find_path, remap_host_get_default_path.
  rewrite Hp. destruct path as [path|]; simpl; [|exists rp0, 0%nat; split_and!; [done|by left|done]].
  destruct (find_loop_spec rps path Hr) as (r & Hf & Hspec). rewrite drop_0, Hf; simpl.
  destruct r as [[rp n]|]; simpl; [|exists rp0, 0%nat; split_and!; [done|by left|lia]].
  destruct Hspec as (Hn & _ & l & k & -> & _). exists rp, n. split_and!; [done|set_solver|done].
Qed.

(** * Properties *)

(** Path selection on a well-formed host always returns: the first
    configured path, in order of configuration, whose expression matches the
    request path, with a matched prefix no longer than the request path; and
    the host's default path, with an empty prefix, when none matches or the
    request has no path. *)
Theorem find_path_first_match rh path :
  host_wf rh →
  ∃ rp n, remap_host_find_path rh path = Ok (rp, n) ∧
    (n ≤ length (default [] path))%nat ∧
    ((∃ p l k, path = Some p ∧ tail (rh_paths rh) = l ++ rp :: k ∧ path_matches rp p ∧
               Forall (λ rp, ¬ path_matches rp p) l) ∨
     (n = 0%nat ∧ head (rh_paths rh) = Some rp ∧
      ∀ p, path = Some p → Forall (λ rp, ¬ path_matches rp p) (tail (rh_paths rh)))).
Proof.
  intros (rp0 & rps & Hp & _ & Hr). unfold remap_host_find_path, remap_host_get_default_path.
  rewrite Hp. destruct path as [path|]; simpl.
  - destruct (find_loop_spec rps path Hr) as (r & Hf & Hspec).
    rewrite drop_0, Hf; simpl. destruct r as [[rp n]|]; simpl.
    + destruct Hspec as (Hn & Hm & l & k & -> & Hl). exists rp, n. split; [done|]. split; [done|].
      left. by exists path, l, k.
    + exists rp0, 0%nat. split; [done|]. split; [lia|]. right. split; [done|]. split; [done|].
      intros p [= <-]. done.
  - exists rp0, 0%nat. split; [done|]. split; [lia|]. right. done.
Qed.
End lemmas.

Lemma find_path_first_match_witness :
  let rh := match remap_host_new_path (P:=posix_literal) (SSL:=openssl_list) remap_host_new (Some (lit "/app")) with
            | Some (rh, _) => rh | None => remap_host_new end in
  ∃ rp n, remap_host_find_path rh (Some (lit "app/x")) = Ok (rp, n) ∧ (n ≤ 5)%nat.
Proof.
  intros rh.
  destruct (find_path_first_match (H:=posix_literal) (PL:=posix_literal_laws) rh (Some (lit "app/x")))
    as (rp & n & H1 & H2 & _).
  - exists (path_defaults None), [path_defaults (P:=posix_literal) (Some (lit "app" : @regex_t posix_literal))]. split; [reflexivity|].
    split; [reflexivity|]. constructor; [by eexists|constructor].
  - exists rp, n. split; [exact H1|exact H2].
Defined.
