(* ===== verification/CryptB64.v ===== *)
(** The text encoding the crypt functions share ([to64] of [crypt/crypt_md5.c],
    [b64_from_24bit] of [crypt/crypt_sha256.c] and [crypt_sha512.c]): six bits
    to a character, least significant first. *)

From S2P Require Import Prelude CString.

Local Open Scope Z_scope.

(** * Sextets as characters *)
Definition itoa64 : bytes := lit "./0123456789ABCDEFGHIJKLMNOPQRSTUVWXYZabcdefghijklmnopqrstuvwxyz".

Fixpoint to64 (v : Z) (n : nat) : bytes :=
  match n with
  | O => []
  | S n => default NUL (itoa64 !! Z.to_nat (Z.land v 0x3f)) :: to64 (Z.shiftr v 6) n
  end.

(** * Lemmas *)
Lemma itoa64_lookup i : 0 ≤ i < 64 → ∃ c, itoa64 !! Z.to_nat i = Some c ∧ c ≠ NUL.
Proof.
  intros Hi. destruct (lookup_lt_is_Some_2 itoa64 (Z.to_nat i)) as [c Hc]; [change (length itoa64) with 64%nat; lia|].
  exists c. split; [done|]. intros ->. apply list_elem_of_lookup_2 in Hc. revert Hc. by compute_done.
Qed.

Lemma itoa64_inj i j c : itoa64 !! i = Some c → itoa64 !! j = Some c → i = j.
Proof. apply NoDup_lookup. by compute_done. Qed.

Lemma land_63 v : 0 ≤ v → Z.land v 0x3f = v mod 64 ∧ Z.shiftr v 6 = v / 64.
Proof. intros. split; [by apply (Z.land_ones v 6)|by rewrite Z.shiftr_div_pow2]. Qed.

Lemma to64_length v n : length (to64 v n) = n.
Proof. revert v; induction n as [|n IH]; intros v; simpl; [done|]. by rewrite IH. Qed.

Lemma to64_no_nul v n : 0 ≤ v → NUL ∉ to64 v n.
Proof.
  revert v; induction n as [|n IH]; intros v Hv; cbn [to64]; [apply not_elem_of_nil|].
  destruct (land_63 v Hv) as [-> ->].
  destruct (itoa64_lookup (v mod 64)) as (c & -> & Hc); [apply Z.mod_pos_bound; lia|]. simpl.
  rewrite elem_of_cons. intros [?|?]; [by subst|]. eapply IH; [|done]. apply Z.div_pos; lia.
Qed.

Lemma to64_inj v w n : 0 ≤ v < 64 ^ Z.of_nat n → 0 ≤ w < 64 ^ Z.of_nat n → to64 v n = to64 w n → v = w.
Proof.
  revert v w; induction n as [|n IH]; intros v w Hv Hw; [simpl in *; lia|]. cbn [to64].
  rewrite Nat2Z.inj_succ, Z.pow_succ_r in Hv, Hw by lia.
  destruct (land_63 v) as [-> ->]; [lia|]. destruct (land_63 w) as [-> ->]; [lia|].
  pose proof (Z.mod_pos_bound v 64 eq_refl). pose proof (Z.mod_pos_bound w 64 eq_refl).
  destruct (itoa64_lookup (v mod 64)) as (c & Hc & _); [lia|].
  destruct (itoa64_lookup (w mod 64)) as (d & Hd & _); [lia|].
  rewrite Hc, Hd. simpl. intros [= <- Ht].
  assert (Hm := itoa64_inj _ _ _ Hc Hd).
  apply IH in Ht; [|split; [apply Z.div_pos; lia|apply Z.div_lt_upper_bound; lia]..].
  pose proof (Z.div_mod v 64). pose proof (Z.div_mod w 64). lia.
Qed.

(** Three bytes as a 24-bit number. *)
Lemma group_value a b c :
  Z.lor (Z.lor (Z.shiftl (u8 a) 16) (Z.shiftl (u8 b) 8)) (u8 c) = u8 a * 65536 + u8 b * 256 + u8 c.
Proof.
  pose proof (u8_range a). pose proof (u8_range b). pose proof (u8_range c).
  rewrite !Z.shiftl_mul_pow2 by lia.
  rewrite (lor_add_swap (u8 b * 2 ^ 8) (u8 a) 16) by lia.
  replace (u8 b * 2 ^ 8 + u8 a * 2 ^ 16) with ((u8 b + u8 a * 2 ^ 8) * 2 ^ 8) by lia.
  rewrite lor_add_swap by lia. lia.
Qed.

Lemma group_inj a b c a' b' c' :
  to64 (Z.lor (Z.lor (Z.shiftl (u8 a) 16) (Z.shiftl (u8 b) 8)) (u8 c)) 4 =
  to64 (Z.lor (Z.lor (Z.shiftl (u8 a') 16) (Z.shiftl (u8 b') 8)) (u8 c')) 4 →
  a = a' ∧ b = b' ∧ c = c'.
Proof.
  rewrite !group_value.
  pose proof (u8_range a). pose proof (u8_range b). pose proof (u8_range c).
  pose proof (u8_range a'). pose proof (u8_range b'). pose proof (u8_range c').
  intros Ht. apply to64_inj in Ht; [|lia..].
  split_and!; apply (inj u8); lia.
Qed.
