(* ===== verification/Des.v ===== *)
(** [crypt/crypt_des.c]: the DES password hash, traditional and extended.

    The code does not follow the text of the standard: permutations are tables
    that map four bits at a time, both halves of a block are kept expanded to
    48 bits, and substitution, permutation and expansion are one table lookup.
    The tables are computed at the start of every call, in two static arrays.
    [DesRef] shows that what comes out is DES.

    A [C_block] is the 64-bit number its eight bytes form on a little-endian
    host, so that [b32.i0] is its low and [b32.i1] its high half; an [int32_t]
    is the 32-bit pattern of its value. *)

From S2P Require Import Prelude CString CryptB64.

Local Open Scope Z_scope.

(** * Blocks *)
Definition blk_b (x : Z) (i : nat) : Z := Z.land (Z.shiftr x (8 * Z.of_nat i)) 0xff.
Definition blk_bytes (x : Z) (from n : nat) : list Z := blk_b x <$> seq from n.
Definition blk_i0 (x : Z) : Z := Z.land x 0xffffffff.
Definition blk_i1 (x : Z) : Z := Z.land (Z.shiftr x 32) 0xffffffff.
Definition STORE (d0 d1 : Z) : Z := Z.lor d0 (Z.shiftl d1 32).

(** The conversion to [int32_t]. *)
Definition to32 (x : Z) : Z := Z.land x 0xffffffff.

(** A block from its bytes. *)
Fixpoint of_bytes (b : list Z) : Z :=
  match b with [] => 0 | t :: b => Z.lor t (Z.shiftl (of_bytes b) 8) end.

Definition TO_SIX_BIT (src : Z) : Z :=
  let byte n := Z.land (Z.shiftr src n) 0xff in
  let cvt := of_bytes [byte 0; byte 6; byte 12; byte 18] in
  Z.shiftl (Z.land cvt 0x3f3f3f3f) 2.

(** * The tables of the standard *)
Definition IP : list nat := [
  58; 50; 42; 34; 26; 18; 10;  2;
  60; 52; 44; 36; 28; 20; 12;  4;
  62; 54; 46; 38; 30; 22; 14;  6;
  64; 56; 48; 40; 32; 24; 16;  8;
  57; 49; 41; 33; 25; 17;  9;  1;
  59; 51; 43; 35; 27; 19; 11;  3;
  61; 53; 45; 37; 29; 21; 13;  5;
  63; 55; 47; 39; 31; 23; 15;  7 ]%nat.

Definition ExpandTr : list nat := [
  32;  1;  2;  3;  4;  5;
   4;  5;  6;  7;  8;  9;
   8;  9; 10; 11; 12; 13;
  12; 13; 14; 15; 16; 17;
  16; 17; 18; 19; 20; 21;
  20; 21; 22; 23; 24; 25;
  24; 25; 26; 27; 28; 29;
  28; 29; 30; 31; 32;  1 ]%nat.

Definition PC1 : list nat := [
  57; 49; 41; 33; 25; 17;  9;
   1; 58; 50; 42; 34; 26; 18;
  10;  2; 59; 51; 43; 35; 27;
  19; 11;  3; 60; 52; 44; 36;
  63; 55; 47; 39; 31; 23; 15;
   7; 62; 54; 46; 38; 30; 22;
  14;  6; 61; 53; 45; 37; 29;
  21; 13;  5; 28; 20; 12;  4 ]%nat.

Definition Rotates : list nat := [1; 1; 2; 2; 2; 2; 2; 2; 1; 2; 2; 2; 2; 2; 2; 1]%nat.

(** Padded at the left of each row so that it can be inverted. *)
Definition PC2 : list nat := [
   9; 18;    14; 17; 11; 24;  1;  5;
  22; 25;     3; 28; 15;  6; 21; 10;
  35; 38;    23; 19; 12;  4; 26;  8;
  43; 54;    16;  7; 27; 20; 13;  2;
   0;  0;    41; 52; 31; 37; 47; 55;
   0;  0;    30; 40; 51; 45; 33; 48;
   0;  0;    44; 49; 39; 56; 34; 53;
   0;  0;    46; 42; 50; 36; 29; 32 ]%nat.

Definition S_boxes : list (list nat) := [
  [ 14;  4; 13;  1;  2; 15; 11;  8;  3; 10;  6; 12;  5;  9;  0;  7;
     0; 15;  7;  4; 14;  2; 13;  1; 10;  6; 12; 11;  9;  5;  3;  8;
     4;  1; 14;  8; 13;  6;  2; 11; 15; 12;  9;  7;  3; 10;  5;  0;
    15; 12;  8;  2;  4;  9;  1;  7;  5; 11;  3; 14; 10;  0;  6; 13 ];
  [ 15;  1;  8; 14;  6; 11;  3;  4;  9;  7;  2; 13; 12;  0;  5; 10;
     3; 13;  4;  7; 15;  2;  8; 14; 12;  0;  1; 10;  6;  9; 11;  5;
     0; 14;  7; 11; 10;  4; 13;  1;  5;  8; 12;  6;  9;  3;  2; 15;
    13;  8; 10;  1;  3; 15;  4;  2; 11;  6;  7; 12;  0;  5; 14;  9 ];
  [ 10;  0;  9; 14;  6;  3; 15;  5;  1; 13; 12;  7; 11;  4;  2;  8;
    13;  7;  0;  9;  3;  4;  6; 10;  2;  8;  5; 14; 12; 11; 15;  1;
    13;  6;  4;  9;  8; 15;  3;  0; 11;  1;  2; 12;  5; 10; 14;  7;
     1; 10; 13;  0;  6;  9;  8;  7;  4; 15; 14;  3; 11;  5;  2; 12 ];
  [  7; 13; 14;  3;  0;  6;  9; 10;  1;  2;  8;  5; 11; 12;  4; 15;
    13;  8; 11;  5;  6; 15;  0;  3;  4;  7;  2; 12;  1; 10; 14;  9;
    10;  6;  9;  0; 12; 11;  7; 13; 15;  1;  3; 14;  5;  2;  8;  4;
     3; 15;  0;  6; 10;  1; 13;  8;  9;  4;  5; 11; 12;  7;  2; 14 ];
  [  2; 12;  4;  1;  7; 10; 11;  6;  8;  5;  3; 15; 13;  0; 14;  9;
    14; 11;  2; 12;  4;  7; 13;  1;  5;  0; 15; 10;  3;  9;  8;  6;
     4;  2;  1; 11; 10; 13;  7;  8; 15;  9; 12;  5;  6;  3;  0; 14;
    11;  8; 12;  7;  1; 14;  2; 13;  6; 15;  0;  9; 10;  4;  5;  3 ];
  [ 12;  1; 10; 15;  9;  2;  6;  8;  0; 13;  3;  4; 14;  7;  5; 11;
    10; 15;  4;  2;  7; 12;  9;  5;  6;  1; 13; 14;  0; 11;  3;  8;
     9; 14; 15;  5;  2;  8; 12;  3;  7;  0;  4; 10;  1; 13; 11;  6;
     4;  3;  2; 12;  9;  5; 15; 10; 11; 14;  1;  7;  6;  0;  8; 13 ];
  [  4; 11;  2; 14; 15;  0;  8; 13;  3; 12;  9;  7;  5; 10;  6;  1;
    13;  0; 11;  7;  4;  9;  1; 10; 14;  3;  5; 12;  2; 15;  8;  6;
     1;  4; 11; 13; 12;  3;  7; 14; 10; 15;  6;  8;  0;  5;  9;  2;
     6; 11; 13;  8;  1;  4; 10;  7;  9;  5;  0; 15; 14;  2;  3; 12 ];
  [ 13;  2;  8;  4;  6; 15; 11;  1; 10;  9;  3; 14;  5;  0; 12;  7;
     1; 15; 13;  8; 10;  3;  7;  4; 12;  5;  6; 11;  0; 14;  9;  2;
     7; 11;  4;  1;  9; 12; 14;  2;  0;  6; 10; 13; 15;  3;  5;  8;
     2;  1; 14;  7;  4; 10;  8; 13; 15; 12;  9;  0;  3;  5;  6; 11 ] ]%nat.

Definition P32Tr : list nat := [
  16;  7; 20; 21;
  29; 12; 28; 17;
   1; 15; 23; 26;
   5; 18; 31; 10;
   2;  8; 24; 14;
  32; 27;  3;  9;
  19; 13; 30;  6;
  22; 11;  4; 25 ]%nat.

Definition CIFP : list nat := [
   1;  2;  3;  4; 17; 18; 19; 20;
   5;  6;  7;  8; 21; 22; 23; 24;
   9; 10; 11; 12; 25; 26; 27; 28;
  13; 14; 15; 16; 29; 30; 31; 32;
  33; 34; 35; 36; 49; 50; 51; 52;
  37; 38; 39; 40; 53; 54; 55; 56;
  41; 42; 43; 44; 57; 58; 59; 60;
  45; 46; 47; 48; 61; 62; 63; 64 ]%nat.

(** * Tables computed at run time *)

(** Two-dimensional tables are stored row after row. *)
Record des_state := DesState {
  PC1ROT : list Z;        (* [16][16] *)
  PC2ROT : list (list Z); (* [2][16][16] *)
  IE3264 : list Z;        (* [8][16] *)
  SPE : list Z;           (* [2][8][64] *)
  CF6464 : list Z;        (* [16][16] *)
  KS : list Z;            (* [16] *)
}.

Definition bzero_state : des_state := {|
  PC1ROT := replicate 256 0; PC2ROT := [replicate 256 0; replicate 256 0]; IE3264 := replicate 128 0;
  SPE := replicate 1024 0; CF6464 := replicate 256 0; KS := replicate 16 0;
|}.

(** The static arrays of [init_des], shared by all calls. *)
Record statics := Statics { perm : list nat; tmp32 : list Z }.

(** One output bit [k] of a permutation that comes from input bit [l]. *)
Definition init_perm_bit (tab : list Z) (k l : nat) : cres (list Z) :=
  let i := Nat.shiftr l 2 in
  let mask := Nat.shiftl 1 (Nat.land l 3) in
  foldC (λ tab j,
    if (Nat.land j mask =? 0)%nat then Ok tab
    else x ← arr_get tab (16 * i + j);
         arr_set tab (16 * i + j)
           (Z.lor x (Z.shiftl (Z.shiftl 1 (Z.of_nat (Nat.land k 7))) (8 * Z.of_nat (Nat.shiftr k 3)))))
    (seq 0 16) tab.

Definition init_perm (tab : list Z) (p : list nat) (chars_out : nat) : cres (list Z) :=
  foldC (λ tab k,
    pk ← arr_get p k;
    match pk with O => Ok tab | S l => init_perm_bit tab k l end)
    (seq 0 (chars_out * 8)) tab.

(** Bit numbers from most to least significant first within a byte. *)
Definition bit_reverse (k : nat) : nat :=
  match k with O => O | S k => S (Nat.lor k 7 - Nat.land k 7) end.

Definition clear {A} (z : A) (n : nat) (l : list A) : cres (list A) :=
  foldC (λ l i, arr_set l i z) (seq 0 n) l.

Definition fill_pc1rot (p : list nat) : cres (list nat) :=
  p ← clear 0%nat 64 p;
  foldC (λ p i,
    k ← arr_get PC2 i;
    if (k =? 0)%nat then Ok p
    else
      r ← arr_get Rotates 0;
      let k := (k + r - 1)%nat in
      let k := if (k mod 28 <? r)%nat then (k - 28)%nat else k in
      k ← arr_get PC1 k;
      arr_set p i (bit_reverse k))
    (seq 0 64) p.

Definition fill_pc2rot (j : nat) (p : list nat) : cres (list nat) :=
  p ← clear 0%nat 64 p;
  pc2inv ← foldC (λ pc2inv i,
    k ← arr_get PC2 i;
    match k with O => Ok pc2inv | S k => arr_set pc2inv k (S i) end)
    (seq 0 64) (replicate 64 0%nat);
  foldC (λ p i,
    k ← arr_get PC2 i;
    if (k =? 0)%nat then Ok p
    else
      let k := (k + j)%nat in
      let k := if (k mod 28 <=? j)%nat then (k - 28)%nat else k in
      v ← arr_get pc2inv k;
      arr_set p i v)
    (seq 0 64) p.

Definition fill_ie3264 (p : list nat) : cres (list nat) :=
  foldC (λ p i,
    foldC (λ p j,
      k ← (if (j <? 2)%nat then Ok 0%nat
           else e ← arr_get ExpandTr (i * 6 + j - 2); arr_get IP (e - 1));
      let k := if (32 <? k)%nat then (k - 32)%nat else if (0 <? k)%nat then (k - 1)%nat else k in
      arr_set p (i * 8 + j) (bit_reverse k))
      (seq 0 8) p)
    (seq 0 8) p.

Definition fill_cf6464 (p : list nat) : cres (list nat) :=
  foldC (λ p i,
    c ← arr_get CIFP i;
    k ← arr_get IP (c - 1);
    arr_set p (bit_reverse k - 1) (S i))
    (seq 0 64) p.

Definition fill_spe (p : list nat) : cres (list nat) :=
  foldC (λ p i, e ← arr_get ExpandTr i; k ← arr_get P32Tr (e - 1); arr_set p i k) (seq 0 48) p.

(** The bits [from], ..., [from + 23] of the permuted word, in six-bit groups. *)
Definition spe_word (p : list nat) (t : list Z) (from : nat) : cres Z :=
  k ← foldC (λ k i,
        q ← arr_get p (i + from);
        b ← arr_get t (q - 1);
        Ok (Z.lor (Z.shiftl k 1) b))
        (reverse (seq 0 24)) 0;
  Ok (TO_SIX_BIT k).

Definition init_spe_entry (p : list nat) (tableno j : nat) (st : list Z * list Z) : cres (list Z * list Z) :=
  let '(t, spe) := st in
  let bit (k : Z) n m := Z.shiftl (Z.land (Z.shiftr k n) 1) m in
  let jz := Z.of_nat j in
  let k := Z.lor (bit jz 0 5) (Z.lor (bit jz 1 3) (Z.lor (bit jz 2 2)
             (Z.lor (bit jz 3 1) (Z.lor (bit jz 4 0) (bit jz 5 4))))) in
  row ← arr_get S_boxes tableno;
  k ← arr_get row (Z.to_nat k);
  let k := Z.of_nat k in
  let k := Z.lor (bit k 3 0) (Z.lor (bit k 2 1) (Z.lor (bit k 1 2) (bit k 0 3))) in
  t ← clear 0 32 t;
  t ← foldC (λ t i, arr_set t (4 * tableno + i) (Z.land (Z.shiftr k (Z.of_nat i)) 1)) (seq 0 4) t;
  w0 ← spe_word p t 0;
  spe ← arr_set spe (64 * tableno + j) w0;
  w1 ← spe_word p t 24;
  spe ← arr_set spe (512 + (64 * tableno + j)) w1;
  Ok (t, spe).

Definition init_spe (p : list nat) (t spe : list Z) : cres (list Z * list Z) :=
  foldC (λ st tableno, foldC (λ st j, init_spe_entry p tableno j st) (seq 0 64) st) (seq 0 8) (t, spe).

(** ** The phases of [init_des]

    Between any two of them another thread may run: the arrays are static. *)
Inductive init_step :=
  | FillPc1rot | PermPc1rot | FillPc2rot (j : nat) | PermPc2rot (j : nat)
  | FillIe3264 | PermIe3264 | FillCf6464 | PermCf6464 | FillSpe | InitSpe.

Definition init_steps : list init_step :=
  [FillPc1rot; PermPc1rot; FillPc2rot 0; PermPc2rot 0; FillPc2rot 1; PermPc2rot 1;
   FillIe3264; PermIe3264; FillCf6464; PermCf6464; FillSpe; InitSpe].

Definition fill_perm (f : list nat → cres (list nat)) (x : des_state * statics) : cres (des_state * statics) :=
  p ← f (perm x.2); Ok (x.1, {| perm := p; tmp32 := tmp32 x.2 |}).

Definition run_init_step (x : des_state * statics) (s : init_step) : cres (des_state * statics) :=
  let '(st, sh) := x in
  match s with
  | FillPc1rot => fill_perm fill_pc1rot x
  | PermPc1rot =>
      t ← init_perm (PC1ROT st) (perm sh) 8;
      Ok ({| PC1ROT := t; PC2ROT := PC2ROT st; IE3264 := IE3264 st; SPE := SPE st; CF6464 := CF6464 st; KS := KS st |}, sh)
  | FillPc2rot j => fill_perm (fill_pc2rot j) x
  | PermPc2rot j =>
      t ← arr_get (PC2ROT st) j;
      t ← init_perm t (perm sh) 8;
      ts ← arr_set (PC2ROT st) j t;
      Ok ({| PC1ROT := PC1ROT st; PC2ROT := ts; IE3264 := IE3264 st; SPE := SPE st; CF6464 := CF6464 st; KS := KS st |}, sh)
  | FillIe3264 => fill_perm fill_ie3264 x
  | PermIe3264 =>
      t ← init_perm (IE3264 st) (perm sh) 8;
      Ok ({| PC1ROT := PC1ROT st; PC2ROT := PC2ROT st; IE3264 := t; SPE := SPE st; CF6464 := CF6464 st; KS := KS st |}, sh)
  | FillCf6464 => fill_perm fill_cf6464 x
  | PermCf6464 =>
      t ← init_perm (CF6464 st) (perm sh) 8;
      Ok ({| PC1ROT := PC1ROT st; PC2ROT := PC2ROT st; IE3264 := IE3264 st; SPE := SPE st; CF6464 := t; KS := KS st |}, sh)
  | FillSpe => fill_perm fill_spe x
  | InitSpe =>
      r ← init_spe (perm sh) (tmp32 sh) (SPE st);
      Ok ({| PC1ROT := PC1ROT st; PC2ROT := PC2ROT st; IE3264 := IE3264 st; SPE := r.2; CF6464 := CF6464 st; KS := KS st |},
          {| perm := perm sh; tmp32 := r.1 |})
  end.

Definition init_des (st : des_state) (sh : statics) : cres (des_state * statics) :=
  foldC run_init_step init_steps (st, sh).

(** * The cipher *)

(** Two table entries per input byte: four bits each. *)
Fixpoint permute_loop (cp : list Z) (p : list Z) (off : nat) (d : Z) : cres Z :=
  match cp with
  | [] => Ok d
  | t :: cp =>
      a ← arr_get p (off + Z.to_nat (Z.land t 0xf));
      b ← arr_get p (off + 16 + Z.to_nat (Z.shiftr t 4));
      permute_loop cp p (off + 32) (Z.lor (Z.lor d a) b)
  end.
Definition permute (cp : list Z) (p : list Z) : cres Z := permute_loop cp p 0 0.

Definition set_KS (st : des_state) (ks : list Z) : des_state :=
  {| PC1ROT := PC1ROT st; PC2ROT := PC2ROT st; IE3264 := IE3264 st; SPE := SPE st; CF6464 := CF6464 st; KS := ks |}.

(** [STORE(K&~0x03030303L, K0&~0x03030303L, K1, *help)] *)
Definition store_key (k : Z) : Z := STORE (Z.land (blk_i0 k) (Z.lnot 0x03030303)) (blk_i1 k).

Definition des_setkey (st : des_state) (key : Z) : cres des_state :=
  k ← permute (blk_bytes key 0 8) (PC1ROT st);
  ks ← arr_set (KS st) 0 (store_key k);
  r ← foldC (λ r i,
        let '(k, ks) := r in
        ro ← arr_get Rotates i;
        ptabp ← arr_get (PC2ROT st) (ro - 1);
        k ← permute (blk_bytes k 0 8) ptabp;
        ks ← arr_set ks i (store_key k);
        Ok (k, ks))
      (seq 1 15) (k, ks);
  Ok (set_KS st r.2).

(** [SPTAB(state->SPE[t][i], k)]: the word [k] bytes into a row of 64 words. *)
Definition SPTAB (st : des_state) (t i : nat) (k : Z) : cres Z :=
  if negb (k mod 4 =? 0) then Fault Misaligned
  else arr_get (SPE st) (512 * t + 64 * i + Z.to_nat (k / 4)).

Definition DOXOR (st : des_state) (b : Z) (xy : Z * Z) (i : nat) : cres (Z * Z) :=
  let k := blk_b b i in
  a ← SPTAB st 0 i k;
  c ← SPTAB st 1 i k;
  Ok (Z.lxor xy.1 a, Z.lxor xy.2 c).

(** One round: [p] is combined with the function of [q] and the round key. *)
Definition CRUNCH (st : des_state) (salt : Z) (kp : Z) (p q : Z * Z) : cres (Z * Z) :=
  let k := Z.land (Z.lxor q.1 q.2) salt in
  let b := STORE (Z.lxor (Z.lxor k q.1) (blk_i0 kp)) (Z.lxor (Z.lxor k q.2) (blk_i1 kp)) in
  foldC (DOXOR st b) (seq 0 8) p.

(** [*kp] *)
Definition ks_at (st : des_state) (kp : Z) : cres Z :=
  if kp <? 0 then Fault OutOfBounds else arr_get (KS st) (Z.to_nat kp).

Fixpoint crunch_loop (loop_count : nat) (st : des_state) (salt kp ks_inc : Z) (l r : Z * Z) : cres (Z * Z * (Z * Z)) :=
  match loop_count with
  | O => Ok (l, r)
  | S n =>
      k ← ks_at st kp;
      l ← CRUNCH st salt k l r;
      k ← ks_at st (kp + ks_inc);
      r ← CRUNCH st salt k r l;
      crunch_loop n st salt (kp + 2 * ks_inc) ks_inc l r
  end.

Definition xor2 (a b : Z * Z) : Z * Z := (Z.lxor a.1 b.1, Z.lxor a.2 b.2).

(** Sixteen rounds, then the halves are swapped. *)
Fixpoint cipher_loop (num_iter : nat) (st : des_state) (salt kp ks_inc : Z) (l r : Z * Z) : cres (Z * Z * (Z * Z)) :=
  match num_iter with
  | O => Ok (l, r)
  | S n =>
      lr ← crunch_loop 8 st salt kp ks_inc l r;
      let '(l, r) := lr in
      let l := xor2 l r in
      let r := xor2 r l in
      let l := xor2 l r in
      cipher_loop n st salt kp ks_inc l r
  end.

(** The even- and the odd-numbered bits of the input. *)
Definition split_bits (b : Z) : Z :=
  let l0 := blk_i0 b in
  let l1 := blk_i1 b in
  let even := to32 (Z.lor (Z.shiftl (Z.land l0 0x55555555) 1) (Z.land l1 0x55555555)) in
  let odd := Z.lor (Z.land l0 0xaaaaaaaa) (Z.land (Z.shiftr l1 1) 0x55555555) in
  STORE even odd.

(** The 48-bit halves back to 32 bits each. *)
Definition compress32 (w0 w1 : Z) : Z :=
  Z.lor (Z.land (Z.shiftr w0 3) 0x0f0f0f0f) (Z.land (to32 (Z.shiftl w1 1)) 0xf0f0f0f0).

Definition des_cipher (st : des_state) (in_ : Z) (salt : Z) (num_iter : Z) : cres Z :=
  let salt := TO_SIX_BIT salt in
  let b := split_bits in_ in
  l ← permute (blk_bytes b 0 4) (IE3264 st);
  r ← permute (blk_bytes b 4 4) (IE3264 st);
  let '(kp, ks_inc) := if 0 <=? num_iter then (0, 1) else (15, -1) in
  lr ← cipher_loop (Z.abs_nat num_iter) st salt kp ks_inc (blk_i0 l, blk_i1 l) (blk_i0 r, blk_i1 r);
  let '(l, r) := lr in
  let b := STORE (compress32 l.1 l.2) (compress32 r.1 r.2) in
  permute (blk_bytes b 0 8) (CF6464 st).

(** * The password hash *)
Definition ascii_to_bin (ch : ascii) : Z :=
  let sch := s8 ch in
  let retval := if 97 <=? sch then sch - (97 - 38) else if 65 <=? sch then sch - (65 - 12) else sch - 46 in
  Z.land retval 0x3f.

Definition ascii_is_unsafe (ch : ascii) : bool :=
  bool_decide (ch = NUL) || bool_decide (ch = "010"%char) || bool_decide (ch = ":"%char).

(** The next eight characters of the password, and what is left of it. *)
Fixpoint key_chars (n : nat) (key : bytes) : list Z * bytes :=
  match n with
  | O => ([], key)
  | S n =>
      let t := 2 * u8 (default NUL (head key)) in
      let '(b, key) := key_chars n (if t =? 0 then key else tail key) in
      (Z.land t 0xff :: b, key)
  end.

(** [while ( *key )]: the rest of a long password. *)
Fixpoint key_rest (fuel : nat) (st : des_state) (keyblock : Z) (key : bytes) : cres des_state :=
  match fuel with
  | O => Fault Diverges
  | S fuel =>
      if bool_decide (default NUL (head key) = NUL) then Ok st
      else
        keyblock ← des_cipher st keyblock 0 1;
        let '(t, key) := key_chars 8 key in
        let keyblock := Z.lxor keyblock (of_bytes t) in
        st ← des_setkey st keyblock;
        key_rest fuel st keyblock key
  end.

(** [n] characters of the setting as a number, the last one first; [None] for
    the result -1. *)
Fixpoint setting_number (strict : bool) (setting : bytes) (n : nat) (acc : Z) : cres (option Z) :=
  match n with
  | O => Ok (Some acc)
  | S i =>
      ch ← char_at setting i;
      let value := ascii_to_bin ch in
      if strict && negb (bool_decide (itoa64 !! Z.to_nat value = Some ch)) then Ok None
      else setting_number strict setting i (Z.lor (Z.shiftl acc 6) value)
  end.

Definition des_itoa (i : Z) : ascii := default NUL (itoa64 !! Z.to_nat i).

(** The 64 bits as eleven characters. *)
Definition des_text (b : Z) : bytes :=
  let group i := [des_itoa (Z.land (Z.shiftr i 18) 0x3f); des_itoa (Z.land (Z.shiftr i 12) 0x3f);
                  des_itoa (Z.land (Z.shiftr i 6) 0x3f); des_itoa (Z.land i 0x3f)] in
  let byte3 a c d := Z.lor (Z.shiftl (Z.lor (Z.shiftl a 8) c) 8) d in
  let last := Z.shiftl (Z.lor (Z.shiftl (blk_b b 6) 8) (blk_b b 7)) 2 in
  group (byte3 (blk_b b 0) (blk_b b 1) (blk_b b 2)) ++
  group (byte3 (blk_b b 3) (blk_b b 4) (blk_b b 5)) ++
  [des_itoa (Z.land (Z.shiftr last 12) 0x3f); des_itoa (Z.land (Z.shiftr last 6) 0x3f); des_itoa (Z.land last 0x3f)].

Definition DES_BUFSZ : Z := 1 + 4 + 4 + 11 + 1.

(** The salt, the encryption of the zero block and its text. *)
Definition des_finish (st : des_state) (done setting : bytes) (salt_size : nat) (num_iter : Z) : cres (option bytes) :=
  salt ← setting_number (2 <? salt_size)%nat setting salt_size 0;
  match salt with
  | None => Ok None
  | Some salt =>
      rsltblock ← des_cipher st 0 salt num_iter;
      Ok (Some (done ++ take salt_size setting ++ des_text rsltblock))
  end.

(** From the setting of the key on; [None] for the result -1. *)
Definition crypt_des_body (st : des_state) (keyblock : Z) (key setting : bytes) : cres (option bytes) :=
  st ← des_setkey st keyblock;
  c ← char_at setting 0;
  if bool_decide (c = "_"%char) then
    st ← key_rest (S (length key)) st keyblock key;
    let setting := drop 1 setting in
    num_iter ← setting_number true setting 4 0;
    match num_iter with
    | None => Ok None
    | Some num_iter =>
        if num_iter =? 0 then Ok None
        else des_finish st ("_"%char :: take 4 setting) (drop 4 setting) 4 num_iter
    end
  else if ascii_is_unsafe c then Ok None
  else
    c1 ← char_at setting 1;
    if ascii_is_unsafe c1 then Ok None
    else des_finish st [] setting 2 25.

Definition crypt_des (sh : statics) (key setting : bytes) (buflen : Z) : cres (option bytes * statics) :=
  if buflen <? DES_BUFSZ then Ok (None, sh)
  else
    let '(t, key) := key_chars 8 key in
    x ← init_des bzero_state sh;
    let '(st, sh) := x in
    out ← crypt_des_body st (of_bytes t) key setting;
    Ok (out, sh).

(** The static arrays before the first call. *)
Definition statics0 : statics := {| perm := replicate 64 0%nat; tmp32 := replicate 32 0 |}.
