(* ===== verification/DesRef.v ===== *)
(** DES as the standard describes it, and the proof that [crypt/crypt_des.c]
    ([Des]) computes it.

    The reference works on lists of bits, numbered from 1 as in the standard:
    initial permutation, sixteen rounds of expansion, key mixing, substitution
    and permutation, final permutation, and a key schedule of rotations; the
    salt swaps bits of the expansion.  Everything but the substitution selects
    bits of its input, so the two descriptions of it are compared as tables
    ([select_select]). *)

From S2P Require Import Prelude CString CryptB64 Des.

Local Open Scope Z_scope.

(** * Reference *)

(** The bits a table selects; 0 selects none. *)
Definition pick (x : list bool) (k : nat) : bool :=
  match k with O => false | S i => default false (x !! i) end.
Definition select (tab : list nat) (x : list bool) : list bool := pick x <$> tab.

Definition xorl : list bool → list bool → list bool := zip_with xorb.

(** The inverse of a permutation. *)
Definition index_of (tab : list nat) (k : nat) : nat :=
  match list_find (k =.) tab with Some (i, _) => S i | None => O end.
Definition FP : list nat := index_of IP <$> seq 1 64.

(** The standard's second choice: [PC2] without the two entries of padding at
    the start of each row. *)
Fixpoint unpad (rows : nat) (tab : list nat) : list nat :=
  match rows with O => [] | S n => take 6 (drop 2 tab) ++ unpad n (drop 8 tab) end.
Definition PC2_std : list nat := unpad 8 PC2.

Definition rotate_left (r : nat) (x : list bool) : list bool :=
  let half y := drop r y ++ take r y in half (take 28 x) ++ half (drop 28 x).

Fixpoint schedule_from (rotates : list nat) (cd : list bool) : list (list bool) :=
  match rotates with
  | [] => []
  | r :: rotates => let cd := rotate_left r cd in select PC2_std cd :: schedule_from rotates cd
  end.
Definition schedule (key : list bool) : list (list bool) := schedule_from Rotates (select PC1 key).

(** The number whose binary digits these are, the most significant first. *)
Definition msb_value (x : list bool) : nat := foldl (λ n b, (2 * n + Nat.b2n b)%nat) O x.
Definition msb_bits (n : nat) (v : Z) : list bool := (λ i, Z.testbit v (Z.of_nat i)) <$> reverse (seq 0 n).

(** The first and last of six bits choose the row, the others the column. *)
Definition sbox (i : nat) (g : list bool) : list bool :=
  let row := msb_value (pick g <$> [1; 6]%nat) in
  let col := msb_value (pick g <$> [2; 3; 4; 5]%nat) in
  msb_bits 4 (Z.of_nat (default O (default [] (S_boxes !! i) !! (16 * row + col)%nat))).

(** Bits [i] and [24 + i] change places where the salt has bit [i]. *)
Definition mux (s : list bool) (a b : list bool) : list bool :=
  zip_with (λ s ab, if s : bool then ab.1 else ab.2) s (zip a b).
Definition lsb_bits (n : nat) (v : Z) : list bool := (λ i, Z.testbit v (Z.of_nat i)) <$> seq 0 n.
Definition salted (salt : Z) (e : list bool) : list bool :=
  let s := lsb_bits 24 salt in
  mux s (drop 24 e) (take 24 e) ++ mux s (take 24 e) (drop 24 e).

Definition sixth (x : list bool) (i : nat) : list bool := take 6 (drop (6 * i) x).
Definition substitute (x : list bool) : list bool := concat ((λ i, sbox i (sixth x i)) <$> seq 0 8).

Definition feistel (salt : Z) (key r : list bool) : list bool :=
  select P32Tr (substitute (xorl (salted salt (select ExpandTr r)) key)).

Definition des_round (salt : Z) (lr : list bool * list bool) (key : list bool) : list bool * list bool :=
  (lr.2, xorl lr.1 (feistel salt key lr.2)).

Definition des (salt : Z) (keys : list (list bool)) (block : list bool) : list bool :=
  let x := select IP block in
  let lr := foldl (des_round salt) (take 32 x, drop 32 x) keys in
  select FP (lr.2 ++ lr.1).

(** ** The password hash *)

(** Seven bits of each character and a parity bit of zero, eight characters. *)
Definition char_bits (c : ascii) : list bool := msb_bits 7 (u8 c) ++ [false].
Definition des_key (chars : bytes) : list bool :=
  concat (char_bits <$> take 8 (chars ++ replicate 8 NUL)).

(** Eight characters at a time: the key is encrypted under itself and combined
    with the next eight. *)
Fixpoint fold_key (fuel : nat) (k : list bool) (rest : bytes) : list bool :=
  match fuel, rest with
  | S fuel, _ :: _ => fold_key fuel (xorl (des 0 (schedule k) k) (des_key (take 8 rest))) (drop 8 rest)
  | _, _ => k
  end.
Definition long_key (key : bytes) : list bool := fold_key (length key) (des_key (take 8 key)) (drop 8 key).

(** Six bits to a character, filled up with zeros at the end. *)
Definition sextets (x : list bool) : bytes :=
  (λ i, des_itoa (Z.of_nat (msb_value (take 6 (drop (6 * i) (x ++ [false; false])))))) <$> seq 0 11.

Definition des_hash (key : list bool) (salt : Z) (n : nat) : list bool :=
  Nat.iter n (des salt (schedule key)) (replicate 64 false).

(** * Selections *)
Definition compose (t1 t2 : list nat) : list nat :=
  (λ k, match k with O => O | S i => default O (t2 !! i) end) <$> t1.

Lemma select_length t x : length (select t x) = length t.
Proof. apply length_fmap. Qed.

Lemma select_select t1 t2 x : select t1 (select t2 x) = select (compose t1 t2) x.
Proof.
  unfold select, compose. rewrite <- list_fmap_compose. apply list_fmap_ext. intros _ [|i] _; [done|].
  cbn. rewrite list_lookup_fmap. by destruct (t2 !! i).
Qed.

Lemma select_app t1 t2 x : select (t1 ++ t2) x = select t1 x ++ select t2 x.
Proof. apply fmap_app. Qed.

Lemma take_select n t x : take n (select t x) = select (take n t) x.
Proof. unfold select. by rewrite fmap_take. Qed.
Lemma drop_select n t x : drop n (select t x) = select (drop n t) x.
Proof. unfold select. by rewrite fmap_drop. Qed.

(** A table that only reaches the first [n] bits. *)
Definition below (n : nat) (t : list nat) : Prop := Forall (λ k, (k ≤ n)%nat) t.
#[global] Instance below_dec n t : Decision (below n t).
Proof. unfold below. apply _. Defined.

Lemma select_l t x y : below (length x) t → select t (x ++ y) = select t x.
Proof.
  intros Hb. apply list_fmap_ext. intros i [|k] Hk; [done|]. cbn.
  rewrite lookup_app_l; [done|]. eapply Forall_lookup_1 in Hb; [|done]. cbn in Hb. lia.
Qed.

Definition shift (n : nat) (t : list nat) : list nat := (λ k, match k with O => O | S k => S (n + k) end) <$> t.

Lemma select_shift n t x y : length x = n → select (shift n t) (x ++ y) = select t y.
Proof.
  intros <-. unfold select, shift. rewrite <- list_fmap_compose. apply list_fmap_ext.
  intros _ [|k] _; [done|]. cbn. rewrite lookup_app_r by lia. do 2 f_equal. lia.
Qed.

(** Two selections side by side are one of the two inputs side by side. *)
Lemma select_both t1 t2 x y :
  below (length x) t1 → select t1 x ++ select t2 y = select (t1 ++ shift (length x) t2) (x ++ y).
Proof. intros Hb. by rewrite select_app, select_l, select_shift. Qed.

Lemma select_seq x : select (seq 1 (length x)) x = x.
Proof.
  apply list_eq. intros i. unfold select. rewrite list_lookup_fmap.
  destruct (decide (i < length x)%nat) as [Hi|Hi].
  - rewrite lookup_seq_lt by lia. cbn. destruct (lookup_lt_is_Some_2 x i Hi) as [b Hb]. by rewrite Hb.
  - by rewrite lookup_seq_ge, lookup_ge_None_2 by lia.
Qed.

Lemma select_zip_with (f : bool → bool → bool) t x y :
  f false false = false → length x = length y →
  select t (zip_with f x y) = zip_with f (select t x) (select t y).
Proof.
  intros Hf Hl. unfold select. rewrite zip_with_fmap_l, zip_with_fmap_r.
  induction t as [|k t IH]; [done|]. cbn. f_equal; [|done].
  destruct k as [|k]; [done|]. cbn. rewrite lookup_zip_with.
  destruct (x !! k) as [a|] eqn:Hx; cbn.
  - assert (is_Some (y !! k)) as [b Hb] by (apply lookup_lt_is_Some; rewrite <- Hl; by eapply lookup_lt_Some).
    by rewrite Hb.
  - rewrite lookup_ge_None in Hx. by rewrite (lookup_ge_None_2 y) by lia.
Qed.

Lemma xorl_length x y : length x = length y → length (xorl x y) = length x.
Proof. intros. unfold xorl. rewrite length_zip_with. lia. Qed.

Lemma xorl_app a b c d : length a = length c → xorl (a ++ b) (c ++ d) = xorl a c ++ xorl b d.
Proof. apply zip_with_app. Qed.

Lemma xorl_assoc a b c : xorl a (xorl b c) = xorl (xorl a b) c.
Proof.
  revert b c; induction a as [|x a IH]; intros [|y b] [|z c]; try done. unfold xorl in *. cbn.
  by rewrite xorb_assoc, IH.
Qed.

(** * The bits of words *)
Lemma lsb_bits_length n v : length (lsb_bits n v) = n.
Proof. unfold lsb_bits. by rewrite length_fmap, length_seq. Qed.

Lemma lsb_bits_lookup n v i : (i < n)%nat → lsb_bits n v !! i = Some (Z.testbit v (Z.of_nat i)).
Proof. intros Hi. unfold lsb_bits. by rewrite list_lookup_fmap, lookup_seq_lt by done. Qed.

Lemma pick_lsb n v i : (i < n)%nat → pick (lsb_bits n v) (S i) = Z.testbit v (Z.of_nat i).
Proof. intros Hi. cbn. by rewrite lsb_bits_lookup. Qed.

(** A list of [n] bits given position by position. *)
Lemma lsb_bits_eq n v x :
  length x = n → (∀ i, (i < n)%nat → Z.testbit v (Z.of_nat i) = pick x (S i)) → lsb_bits n v = x.
Proof.
  intros Hl H. apply list_eq. intros i. destruct (decide (i < n)%nat) as [Hi|Hi].
  - rewrite lsb_bits_lookup, H by done. cbn. by destruct (lookup_lt_is_Some_2 x i) as [b ->]; [lia|].
  - by rewrite !lookup_ge_None_2 by (rewrite ?lsb_bits_length; lia).
Qed.

Lemma lsb_bits_lxor n a b : lsb_bits n (Z.lxor a b) = xorl (lsb_bits n a) (lsb_bits n b).
Proof.
  apply lsb_bits_eq; [rewrite xorl_length; by rewrite ?lsb_bits_length|]. intros i Hi. cbn. unfold xorl.
  rewrite lookup_zip_with, !lsb_bits_lookup by done. cbn. apply Z.lxor_spec.
Qed.

Lemma lsb_bits_land n a b : lsb_bits n (Z.land a b) = zip_with andb (lsb_bits n a) (lsb_bits n b).
Proof.
  apply lsb_bits_eq; [by rewrite length_zip_with, !lsb_bits_length, Nat.min_id|]. intros i Hi. cbn.
  rewrite lookup_zip_with, !lsb_bits_lookup by done. cbn. apply Z.land_spec.
Qed.

(** A word of [w] bits. *)
Definition word (w x : Z) : Prop := ∀ n, w ≤ n → Z.testbit x n = false.

Lemma word_lxor w a b : word w a → word w b → word w (Z.lxor a b).
Proof. intros Ha Hb n Hn. by rewrite Z.lxor_spec, Ha, Hb. Qed.
Lemma word_lor w a b : word w a → word w b → word w (Z.lor a b).
Proof. intros Ha Hb n Hn. by rewrite Z.lor_spec, Ha, Hb. Qed.
Lemma word_land_l w a b : word w a → word w (Z.land a b).
Proof. intros Ha n Hn. by rewrite Z.land_spec, Ha. Qed.
Lemma word_land_r w a b : word w b → word w (Z.land a b).
Proof. intros Hb n Hn. by rewrite Z.land_spec, Hb, andb_false_r. Qed.
Lemma bits_word_range w a : 0 ≤ w → 0 ≤ a < 2 ^ w → word w a.
Proof. intros Hw Ha n Hn. rewrite <- (Z.mod_small a (2 ^ w)) by done. by apply Z.mod_pow2_bits_high. Qed.

Create HintDb des.
#[local] Hint Resolve word_lxor word_lor word_land_l word_land_r : des.

(** * Permutation tables *)

(** Bit [k] of the entry for value [j] of the [i]th group of four bits. *)
Definition entry_bit (p : list nat) (i j : nat) (k : nat) : bool :=
  match p !! k with
  | Some (S l) => (l / 4 =? i)%nat && Nat.testbit j (l mod 4)
  | _ => false
  end.

(** The first [n] output bits are in the table, which has [m] groups. *)
Record perm_table_upto (n : nat) (p : list nat) (m : nat) (tab : list Z) : Prop := {
  pt_length : length tab = (16 * m)%nat;
  pt_entry i j : (i < m)%nat → (j < 16)%nat → ∃ x, tab !! (16 * i + j)%nat = Some x ∧
    ∀ k, Z.testbit x (Z.of_nat k) = ((k <? n)%nat && entry_bit p i j k);
}.
Abbreviation perm_table := (perm_table_upto 64).

Lemma byte_bit k n :
  Z.testbit (Z.shiftl (Z.shiftl 1 (Z.of_nat (Nat.land k 7))) (8 * Z.of_nat (Nat.shiftr k 3))) (Z.of_nat n) =
  (n =? k)%nat.
Proof.
  rewrite Z.shiftl_shiftl by lia. change 7%nat with (Nat.ones 3). rewrite Nat.land_ones, Nat.shiftr_div_pow2.
  replace (_ + _) with (Z.of_nat k) by (change (2 ^ 3)%nat with 8%nat; pose proof (Nat.div_mod_eq k 8); lia).
  rewrite Z.shiftl_1_l. destruct (Nat.eqb_spec n k) as [->|]; [by apply Z.pow2_bits_true; lia|].
  apply Z.pow2_bits_false. lia.
Qed.

Lemma mask_test j l : ((Nat.land j (Nat.shiftl 1 l) =? 0) = negb (Nat.testbit j l))%nat.
Proof.
  apply Bool.eq_iff_eq_true. rewrite Nat.eqb_eq, negb_true_iff. split.
  - intros H. assert (Nat.testbit (Nat.land j (Nat.shiftl 1 l)) l = false) as Hl by by rewrite H, Nat.bits_0.
    rewrite Nat.land_spec, Nat.shiftl_spec_high', Nat.sub_diag in Hl by lia. by rewrite andb_true_r in Hl.
  - intros H. apply Nat.bits_inj. intros i. rewrite Nat.bits_0, Nat.land_spec.
    destruct (decide (i = l)) as [->|Hi]; [by rewrite H|].
    rewrite Nat.shiftl_1_l, Nat.pow2_bits_false by done. apply andb_false_r.
Qed.

(** The loop over the sixteen values of a group. *)
Lemma init_perm_bit_ok tab k l m n :
  length tab = (16 * m)%nat → (l < 4 * m)%nat → (n ≤ 16)%nat →
  ∃ tab', foldC (λ tab j,
    if (Nat.land j (Nat.shiftl 1 (Nat.land l 3)) =? 0)%nat then Ok tab
    else x ← arr_get tab (16 * Nat.shiftr l 2 + j);
         arr_set tab (16 * Nat.shiftr l 2 + j)
           (Z.lor x (Z.shiftl (Z.shiftl 1 (Z.of_nat (Nat.land k 7))) (8 * Z.of_nat (Nat.shiftr k 3)))))
    (seq 0 n) tab = Ok tab' ∧ length tab' = (16 * m)%nat ∧
    ∀ i j x, (j < 16)%nat → tab !! (16 * i + j)%nat = Some x → ∃ x', tab' !! (16 * i + j)%nat = Some x' ∧
      ∀ b, Z.testbit x' (Z.of_nat b) =
           (Z.testbit x (Z.of_nat b) || ((b =? k) && (l / 4 =? i) && (j <? n) && Nat.testbit j (l mod 4)))%nat.
Proof.
  intros Hl Hlm. change (Nat.land l 3) with (Nat.land l (Nat.ones 2)). rewrite Nat.land_ones, Nat.shiftr_div_pow2. change (2 ^ 2)%nat with 4%nat.
  assert (Hd : (l / 4 < m)%nat) by (apply Nat.Div0.div_lt_upper_bound; lia).
  induction n as [|n IH]; intros Hn.
  { exists tab. split; [done|]. split; [done|]. intros i j x Hj Hx. exists x. split; [done|]. intros b.
    change (j <? 0)%nat with false. by rewrite ?andb_false_r, ?andb_false_l, ?orb_false_r. }
  destruct IH as (t & Ht & Htl & IH); [lia|]. rewrite seq_S, foldC_app, Ht. cbn [foldC mbind cres_bind Nat.add].
  rewrite mask_test. destruct (Nat.testbit n (l mod 4)) eqn:Hb; cbn [negb].
  - destruct (lookup_lt_is_Some_2 t (16 * (l / 4) + n)%nat) as [y Hy]; [lia|]. rewrite (arr_get_ok _ _ _ Hy). cbn [mbind cres_bind].
    rewrite arr_set_ok by lia. eexists. split; [done|]. split; [by rewrite length_insert|].
    intros i j x Hj Hx. destruct (IH i j x Hj Hx) as (x' & Hx' & Hbits).
    destruct (decide (i = l / 4 ∧ j = n)%nat) as [[-> ->]|Hne].
    + eexists. rewrite list_lookup_insert_eq by lia. split; [done|]. intros b. simplify_eq.
      rewrite Z.lor_spec, byte_bit, Hbits, Nat.eqb_refl, Hb, Nat.ltb_irrefl, (proj2 (Nat.ltb_lt n (S n))) by lia.
      by rewrite ?andb_true_r, ?andb_false_r, ?andb_false_l, ?orb_false_r.
    + exists x'. rewrite list_lookup_insert_ne by lia. split; [done|]. intros b. rewrite Hbits. f_equal.
      destruct (Nat.eqb_spec (l / 4) i) as [Hi|]; [|by rewrite !andb_false_r].
      assert (j ≠ n) by naive_solver. replace (j <? S n)%nat with (j <? n)%nat; [done|].
      apply Bool.eq_iff_eq_true. rewrite !Nat.ltb_lt. lia.
  - exists t. split; [done|]. split; [done|]. intros i j x Hj Hx. destruct (IH i j x Hj Hx) as (x' & Hx' & Hbits).
    exists x'. split; [done|]. intros b. rewrite Hbits. f_equal.
    destruct (decide (j = n)) as [->|Hne]; [by rewrite Hb, !andb_false_r|].
    replace (j <? S n)%nat with (j <? n)%nat; [done|]. apply Bool.eq_iff_eq_true. rewrite !Nat.ltb_lt. lia.
Qed.

(** A permutation that only reads bits of the input, as a table. *)
Lemma init_perm_ok p m n :
  length p = 64%nat → below (4 * m) p → (n ≤ 64)%nat →
  ∃ tab, foldC (λ tab k, pk ← arr_get p k; match pk with O => Ok tab | S l => init_perm_bit tab k l end)
    (seq 0 n) (replicate (16 * m) 0) = Ok tab ∧ perm_table_upto n p m tab.
Proof.
  intros Hp Hb. induction n as [|n IH]; intros Hn.
  { eexists. split; [done|]. split; [apply length_replicate|]. intros i j Hi Hj. exists 0.
    rewrite lookup_replicate_2 by lia. split; [done|]. intros k. by rewrite Z.bits_0. }
  destruct IH as (t & Ht & Htl & IH); [lia|]. rewrite seq_S, foldC_app, Ht. cbn [foldC mbind cres_bind Nat.add].
  destruct (lookup_lt_is_Some_2 p n) as [pk Hpk]; [lia|]. rewrite (arr_get_ok _ _ _ Hpk). cbn [mbind cres_bind].
  assert (Hlt : ∀ k, k ≠ n → ((k <? S n) = (k <? n))%nat) by (intros k Hk; apply Bool.eq_iff_eq_true; rewrite !Nat.ltb_lt; lia).
  destruct pk as [|l].
  - exists t. split; [done|]. split; [done|]. intros i j Hi Hj. destruct (IH i j Hi Hj) as (x & Hx & Hbits).
    exists x. split; [done|]. intros k. rewrite Hbits. destruct (decide (k = n)) as [->|Hk]; [|by rewrite Hlt].
    unfold entry_bit. by rewrite Hpk, !andb_false_r.
  - assert (Hl : (l < 4 * m)%nat) by (eapply Forall_lookup_1 in Hb; [|done]; cbn in Hb; lia).
    destruct (init_perm_bit_ok t n l m 16 Htl Hl) as (t' & Ht' & Htl' & H); [done|].
    unfold init_perm_bit. rewrite Ht'. exists t'. split; [done|]. split; [done|]. intros i j Hi Hj.
    destruct (IH i j Hi Hj) as (x & Hx & Hbits). destruct (H i j x Hj Hx) as (x' & Hx' & Hbits').
    exists x'. split; [done|]. intros k. rewrite Hbits', Hbits, (proj2 (Nat.ltb_lt j 16)), andb_true_r by done.
    destruct (Nat.eqb_spec k n) as [->|Hk]; [|by rewrite Hlt, orb_false_r].
    unfold entry_bit. by rewrite Hpk, Nat.ltb_irrefl, (proj2 (Nat.ltb_lt n (S n))) by lia.
Qed.

Lemma init_perm_spec p m :
  length p = 64%nat → below (4 * m) p →
  ∃ tab, init_perm (replicate (16 * m) 0) p 8 = Ok tab ∧ perm_table p m tab.
Proof. intros Hp Hb. by apply init_perm_ok. Qed.

(** ** Applying a table *)
Lemma nibble_bit v i : 0 ≤ v < 16 → (i < 4)%nat → Nat.testbit (Z.to_nat v) i = Z.testbit v (Z.of_nat i).
Proof.
  intros Hv Hi. assert (H := forall_range 16 (λ v, forallb (λ i, eqb (Nat.testbit (Z.to_nat v) i) (Z.testbit v (Z.of_nat i))) (seq 0 4)) eq_refl v Hv).
  rewrite forallb_forall in H. apply eqb_prop, H, list_elem_of_In, elem_of_seq. lia.
Qed.

Lemma blk_b_bit x i n : 0 ≤ n < 8 → Z.testbit (blk_b x i) n = Z.testbit x (8 * Z.of_nat i + n).
Proof.
  intros Hn. unfold blk_b. change 0xff with (Z.ones 8). rewrite Z.land_spec, Z.shiftr_spec, Z.ones_spec_low by lia.
  rewrite andb_true_r. f_equal. lia.
Qed.

Lemma blk_b_range x i : 0 ≤ blk_b x i < 256.
Proof. unfold blk_b. change 0xff with (Z.ones 8). rewrite Z.land_ones by lia. by apply Z.mod_pos_bound. Qed.

Lemma low_nibble t i : 0 ≤ t → (i < 4)%nat → Nat.testbit (Z.to_nat (Z.land t 0xf)) i = Z.testbit t (Z.of_nat i).
Proof.
  intros Ht Hi. change 0xf with (Z.ones 4). rewrite nibble_bit; [|rewrite Z.land_ones by lia; by apply Z.mod_pos_bound|done].
  rewrite Z.land_spec, Z.ones_spec_low by lia. apply andb_true_r.
Qed.

Lemma high_range t : 0 ≤ t < 256 → 0 ≤ Z.shiftr t 4 < 16.
Proof.
  intros Ht. rewrite Z.shiftr_div_pow2 by lia. split; [by apply Z.div_pos; lia|]. apply Z.div_lt_upper_bound; lia.
Qed.

Lemma high_nibble t i : 0 ≤ t < 256 → (i < 4)%nat → Nat.testbit (Z.to_nat (Z.shiftr t 4)) i = Z.testbit t (4 + Z.of_nat i).
Proof.
  intros Ht Hi. rewrite nibble_bit by (apply high_range || idtac; done).
  rewrite Z.shiftr_spec by lia. f_equal. lia.
Qed.

(** The bits that come from the bytes [a], ..., [a + c - 1] of the input. *)
Definition perm_bits (p : list nat) (z : Z) (from a c k : nat) : bool :=
  match p !! k with
  | Some (S l) => (8 * a <=? l)%nat && (l <? 8 * (a + c))%nat && Z.testbit z (Z.of_nat (8 * from + l))
  | _ => false
  end.

(** The two table entries of a byte hold its eight bits. *)
Lemma byte_entries p z from a k :
  (entry_bit p (2 * a) (Z.to_nat (Z.land (blk_b z (from + a)) 0xf)) k ||
   entry_bit p (2 * a + 1) (Z.to_nat (Z.shiftr (blk_b z (from + a)) 4)) k) = perm_bits p z from a 1 k.
Proof.
  unfold entry_bit, perm_bits. destruct (p !! k) as [[|l]|]; [done| |done].
  pose proof (blk_b_range z (from + a)) as Hr. assert (Hm : (l mod 4 < 4)%nat) by by apply Nat.mod_upper_bound.
  rewrite low_nibble, high_nibble by (done || lia). rewrite !blk_b_bit by lia. pose proof (Nat.div_mod_eq l 4) as Hl.
  destruct (Nat.eqb_spec (l / 4) (2 * a)) as [H1|H1].
  { rewrite (proj2 (Nat.eqb_neq _ _)), (proj2 (Nat.leb_le _ _)), (proj2 (Nat.ltb_lt _ _)) by lia.
    rewrite orb_false_r. cbn [andb]. f_equal. lia. }
  destruct (Nat.eqb_spec (l / 4) (2 * a + 1)) as [H2|H2].
  { rewrite (proj2 (Nat.leb_le _ _)), (proj2 (Nat.ltb_lt _ _)) by lia. cbn [andb orb]. f_equal. lia. }
  destruct (Nat.leb_spec (8 * a) l) as [H3|H3]; [|done].
  destruct (Nat.ltb_spec l (8 * (a + 1))) as [H4|H4]; [|done]. exfalso.
  assert (2 * a ≤ l / 4)%nat by (apply Nat.div_le_lower_bound; lia).
  assert (l / 4 < 2 * (a + 1))%nat by (apply Nat.Div0.div_lt_upper_bound; lia). lia.
Qed.

Lemma perm_bits_cons p z from a c k :
  (perm_bits p z from a 1 k || perm_bits p z from (S a) c k) = perm_bits p z from a (S c) k.
Proof.
  unfold perm_bits. destruct (p !! k) as [[|l]|]; [done| |done].
  destruct (Z.testbit z _); [|by rewrite !andb_false_r]. rewrite !andb_true_r.
  apply Bool.eq_iff_eq_true. rewrite orb_true_iff, !andb_true_iff, !Nat.leb_le, !Nat.ltb_lt. lia.
Qed.

Lemma permute_loop_spec p m tab z from a c d :
  perm_table p m tab → (2 * (a + c) ≤ m)%nat → length p = 64%nat →
  ∃ d', permute_loop (blk_bytes z (from + a) c) tab (32 * a) d = Ok d' ∧
    ∀ k, Z.testbit d' (Z.of_nat k) = (Z.testbit d (Z.of_nat k) || perm_bits p z from a c k).
Proof.
  intros [Hl Ht] Hm Hp. revert a d Hm; induction c as [|c IH]; intros a d Hm.
  { exists d. split; [done|]. intros k. unfold perm_bits. destruct (p !! k) as [[|l]|]; rewrite ?orb_false_r; [done| |done].
    destruct (Nat.leb_spec (8 * a) l) as [H1|H1]; [|by rewrite orb_false_r].
    by rewrite (proj2 (Nat.ltb_ge _ _)), andb_false_r, orb_false_r by lia. }
  unfold blk_bytes. cbn [seq fmap list_fmap permute_loop].
  set (t := blk_b z (from + a)). pose proof (blk_b_range z (from + a)) as Hr. fold t in Hr.
  assert (Hlo : (Z.to_nat (Z.land t 0xf) < 16)%nat).
  { change 0xf with (Z.ones 4). rewrite Z.land_ones by lia. pose proof (Z.mod_pos_bound t (2 ^ 4)). lia. }
  assert (Hhi : (Z.to_nat (Z.shiftr t 4) < 16)%nat).
  { pose proof (high_range t Hr). lia. }
  destruct (Ht (2 * a)%nat _ ltac:(lia) Hlo) as (x & Hx & Hxb), (Ht (2 * a + 1)%nat _ ltac:(lia) Hhi) as (y & Hy & Hyb).
  replace (16 * (2 * a))%nat with (32 * a)%nat in Hx by lia.
  replace (16 * (2 * a + 1))%nat with (32 * a + 16)%nat in Hy by lia.
  rewrite (arr_get_ok _ _ _ Hx). cbn [mbind cres_bind]. rewrite (arr_get_ok _ _ _ Hy). cbn [mbind cres_bind].
  replace (32 * a + 32)%nat with (32 * S a)%nat by lia. replace (S (from + a)) with (from + S a)%nat by lia.
  destruct (IH (S a) (Z.lor (Z.lor d x) y) ltac:(lia)) as (d' & Hd & Hbits).
  exists d'. split; [exact Hd|]. intros k. rewrite Hbits, !Z.lor_spec, Hxb, Hyb, <- perm_bits_cons, <- byte_entries. fold t.
  destruct (Nat.ltb_spec k 64) as [Hk|Hk]; cbn [andb]; [by rewrite !orb_assoc|].
  unfold entry_bit. by rewrite !(lookup_ge_None_2 p) by lia; rewrite !orb_false_r.
Qed.

Lemma permute_spec p m tab z from n :
  perm_table p m tab → (2 * n ≤ m)%nat → length p = 64%nat → below (8 * n) p →
  ∃ d, permute (blk_bytes z from n) tab = Ok d ∧ word 64 d ∧
    lsb_bits 64 d = select p (lsb_bits (8 * n) (Z.shiftr z (8 * Z.of_nat from))).
Proof.
  intros Ht Hm Hp Hb. destruct (permute_loop_spec p m tab z from 0 n 0 Ht ltac:(lia) Hp) as (d & Hd & Hbits).
  rewrite Nat.add_0_r in Hd. exists d. split; [exact Hd|]. split.
  - intros k Hk. rewrite <- (Z2Nat.id k) by lia. rewrite Hbits, Z.bits_0. unfold perm_bits.
    by rewrite lookup_ge_None_2 by lia.
  - apply lsb_bits_eq; [by rewrite select_length|]. intros k Hk. rewrite Hbits, Z.bits_0. unfold perm_bits, select. cbn [orb pick].
    rewrite list_lookup_fmap. destruct (lookup_lt_is_Some_2 p k) as [[|l] Hl]; [lia|by rewrite Hl|].
    assert (S l ≤ 8 * n)%nat by (eapply Forall_lookup_1 in Hb; [|done]; done).
    rewrite Hl. cbn [fmap option_fmap option_map default from_option]. rewrite pick_lsb by lia.
    rewrite (proj2 (Nat.leb_le _ _)), (proj2 (Nat.ltb_lt _ _)), Z.shiftr_spec by lia. cbn [andb]. unfold id. f_equal. lia.
Qed.

(** * What [init_des] computes *)

(** Two zero bits before each group of six. *)
Fixpoint pad (rows : nat) (tab : list nat) : list nat :=
  match rows with O => [] | S n => 0%nat :: 0%nat :: take 6 tab ++ pad n (drop 6 tab) end.

(** Four bits as the output of the [i]th substitution. *)
Definition place (i : nat) (s : list bool) : list bool :=
  replicate (4 * i) false ++ s ++ replicate (28 - 4 * i) false.

(** The contents of [perm] in each phase. *)
Definition from_ok {A} (d : A) (r : cres A) : A := match r with Ok a => a | Fault _ => d end.
Definition filled (f : list nat → cres (list nat)) : list nat := from_ok [] (f (replicate 64 0%nat)).
Definition perm_pc1 : list nat := filled fill_pc1rot.
Definition perm_pc2 (j : nat) : list nat := filled (fill_pc2rot j).
Definition perm_ie : list nat := filled fill_ie3264.
Definition perm_cf : list nat := filled fill_cf6464.

(** A pair of words holds the expansion of the permuted output of a
    substitution. *)
Definition spe_ok (spe : list Z) : Prop :=
  ∀ i j, (i < 8)%nat → (j < 64)%nat → ∃ a b,
    spe !! (64 * i + j)%nat = Some a ∧ spe !! (512 + (64 * i + j))%nat = Some b ∧ word 32 a ∧ word 32 b ∧
    lsb_bits 32 a ++ lsb_bits 32 b =
      select (pad 8 ExpandTr) (select P32Tr (place i (sbox i (lsb_bits 6 (Z.of_nat j))))).

Record tables_ok (st : des_state) : Prop := {
  t_pc1 : perm_table perm_pc1 16 (PC1ROT st);
  t_pc2 j : (j < 2)%nat → ∃ t, PC2ROT st !! j = Some t ∧ perm_table (perm_pc2 j) 16 t;
  t_ie : perm_table perm_ie 8 (IE3264 st);
  t_cf : perm_table perm_cf 16 (CF6464 st);
  t_spe : spe_ok (SPE st);
  t_ks : length (KS st) = 16%nat;
}.

Definition statics_ok (sh : statics) : Prop := length (perm sh) = 64%nat ∧ length (tmp32 sh) = 32%nat.

(** Whatever the arrays held, each phase leaves the same contents. *)
Lemma clear_ok {A} (z : A) n l : (n ≤ length l)%nat → clear z n l = Ok (replicate n z ++ drop n l).
Proof.
  unfold clear. induction n as [|n IH]; intros Hn; [by rewrite drop_0|].
  rewrite seq_S, foldC_app, IH by lia. cbn [foldC mbind cres_bind Nat.add].
  rewrite arr_set_ok by (rewrite length_app, length_replicate, length_drop; lia). cbn [mbind cres_bind]. f_equal.
  rewrite insert_app_r_alt by (rewrite length_replicate; lia). rewrite length_replicate, Nat.sub_diag, replicate_S_end, <- app_assoc. f_equal.
  destruct (lookup_lt_is_Some_2 l n Hn) as [x Hx]. by rewrite (drop_S _ _ _ Hx).
Qed.

Lemma clear_all {A} (z : A) n l : length l = n → clear z n l = Ok (replicate n z).
Proof. intros <-. by rewrite clear_ok, drop_all, app_nil_r. Qed.

Lemma fill_pc1rot_any p : length p = 64%nat → fill_pc1rot p = Ok perm_pc1.
Proof. intros H. unfold fill_pc1rot. rewrite (clear_all _ _ _ H). vm_compute. reflexivity. Qed.
Lemma fill_pc2rot_any j p : (j < 2)%nat → length p = 64%nat → fill_pc2rot j p = Ok (perm_pc2 j).
Proof.
  intros Hj H. unfold fill_pc2rot. rewrite (clear_all _ _ _ H).
  destruct j as [|[|j]]; [vm_compute; reflexivity..|lia].
Qed.
Lemma fill_ie3264_any : fill_ie3264 (perm_pc2 1) = Ok perm_ie.
Proof. vm_compute. reflexivity. Qed.
Lemma fill_cf6464_any : fill_cf6464 perm_ie = Ok perm_cf.
Proof. vm_compute. reflexivity. Qed.

(** The last phase leaves the rest of the array as it was. *)
Definition perm_spe : list nat := from_ok [] (fill_spe perm_cf).
Lemma fill_spe_any : fill_spe perm_cf = Ok perm_spe.
Proof. vm_compute. reflexivity. Qed.

Lemma pc1_shape : length perm_pc1 = 64%nat ∧ below 64 perm_pc1.
Proof. by split; [|apply (bool_decide_unpack _); vm_compute]. Qed.
Lemma pc2_shape j : (j < 2)%nat → length (perm_pc2 j) = 64%nat ∧ below 64 (perm_pc2 j).
Proof. intros Hj. destruct j as [|[|j]]; [by split; [|apply (bool_decide_unpack _); vm_compute]..|lia]. Qed.
Lemma ie_shape : length perm_ie = 64%nat ∧ below 32 perm_ie.
Proof. by split; [|apply (bool_decide_unpack _); vm_compute]. Qed.
Lemma cf_shape : length perm_cf = 64%nat ∧ below 64 perm_cf.
Proof. by split; [|apply (bool_decide_unpack _); vm_compute]. Qed.

(** ** The combined substitution table *)
Definition spe_table : list Z * list Z :=
  from_ok ([], []) (init_spe perm_spe (replicate 32 0) (replicate 1024 0)).

Lemma init_spe_entry_any p i j t spe :
  length t = 32%nat → init_spe_entry p i j (t, spe) = init_spe_entry p i j (replicate 32 0, spe).
Proof.
  intros H. unfold init_spe_entry. destruct (arr_get S_boxes i) as [row|]; [|done]. cbn [mbind cres_bind].
  destruct (arr_get row _) as [k|]; [|done]. cbn [mbind cres_bind].
  by rewrite (clear_all _ _ _ H), clear_all by done.
Qed.

Lemma init_spe_first p t spe : length t = 32%nat → init_spe p t spe = init_spe p (replicate 32 0) spe.
Proof.
  intros H. unfold init_spe. change (seq 0 8) with (0%nat :: seq 1 7). cbn [foldC].
  change (seq 0 64) with (0%nat :: seq 1 63). cbn [foldC]. by rewrite (init_spe_entry_any _ _ _ t).
Qed.

Lemma init_spe_any t : length t = 32%nat → init_spe perm_spe t (replicate 1024 0) = Ok spe_table.
Proof.
  intros H. rewrite init_spe_first by done. vm_compute. reflexivity.
Qed.

Definition spe_entry_ok (spe : list Z) (i j : nat) : bool :=
  match spe !! (64 * i + j)%nat, spe !! (512 + (64 * i + j))%nat with
  | Some a, Some b =>
      (0 <=? a) && (a <? 2 ^ 32) && (0 <=? b) && (b <? 2 ^ 32) &&
      bool_decide (lsb_bits 32 a ++ lsb_bits 32 b =
        select (pad 8 ExpandTr) (select P32Tr (place i (sbox i (lsb_bits 6 (Z.of_nat j))))))
  | _, _ => false
  end.

Lemma spe_ok_check spe : forallb (λ i, forallb (spe_entry_ok spe i) (seq 0 64)) (seq 0 8) = true → spe_ok spe.
Proof.
  intros H i j Hi Hj. rewrite forallb_forall in H. specialize (H i ltac:(apply list_elem_of_In, elem_of_seq; lia)).
  rewrite forallb_forall in H. specialize (H j ltac:(apply list_elem_of_In, elem_of_seq; lia)). unfold spe_entry_ok in H.
  destruct (spe !! _) as [a|], (spe !! _) as [b|]; try done.
  rewrite !andb_true_iff, bool_decide_eq_true, !Z.leb_le, !Z.ltb_lt in H. destruct H as [[[[H1 H2] H3] H4] H5].
  exists a, b. split_and!; [done..|by apply bits_word_range|by apply bits_word_range|done].
Qed.

Lemma spe_table_ok : spe_ok spe_table.2.
Proof. apply spe_ok_check. vm_compute. reflexivity. Qed.

Lemma fill_step f st p t p' : f p = Ok p' → fill_perm f (st, Statics p t) = Ok (st, Statics p' t).
Proof. intros H. unfold fill_perm. cbn. by rewrite H. Qed.

Lemma pc2_step a ts i sp c k p t j tab tab' :
  ts !! j = Some tab → init_perm tab p 8 = Ok tab' →
  run_init_step (DesState a ts i sp c k, Statics p t) (PermPc2rot j) = Ok (DesState a (<[j := tab']> ts) i sp c k, Statics p t).
Proof.
  intros Hj Ht. cbn [run_init_step perm PC2ROT]. rewrite (arr_get_ok _ _ _ Hj). cbn [mbind cres_bind]. rewrite Ht.
  cbn [mbind cres_bind]. by rewrite arr_set_ok by by eapply lookup_lt_Some.
Qed.

(** A call computes the same tables whatever earlier calls left behind. *)
Lemma init_des_ok :
  ∃ st sh', tables_ok st ∧ statics_ok sh' ∧ ∀ sh, statics_ok sh → init_des bzero_state sh = Ok (st, sh').
Proof.
  destruct pc1_shape as [Hl1 Hb1], (pc2_shape 0) as [Hl20 Hb20], (pc2_shape 1) as [Hl21 Hb21],
    ie_shape as [Hli Hbi], cf_shape as [Hlc Hbc]; [lia..|].
  destruct (init_perm_spec perm_pc1 16 Hl1 Hb1) as (t1 & H1 & Ht1).
  destruct (init_perm_spec (perm_pc2 0) 16 Hl20 Hb20) as (t20 & H20 & Ht20).
  destruct (init_perm_spec (perm_pc2 1) 16 Hl21 Hb21) as (t21 & H21 & Ht21).
  destruct (init_perm_spec perm_ie 8 Hli Hbi) as (ti & Hi & Hti).
  destruct (init_perm_spec perm_cf 16 Hlc Hbc) as (tc & Hc & Htc).
  change (16 * 16)%nat with 256%nat in H1, H20, H21, Hc. change (16 * 8)%nat with 128%nat in Hi.
  exists (DesState t1 [t20; t21] ti spe_table.2 tc (replicate 16 0)), (Statics perm_spe spe_table.1).
  split; [split; [done| |done..|exact spe_table_ok|done]|split; [by split; vm_compute|]].
  { intros [|[|j]] Hj; [eauto..|lia]. }
  intros [p t] [Hp Ht]. cbn [perm tmp32] in Hp, Ht.
  unfold init_des, init_steps, bzero_state.
  erewrite foldC_step by (apply fill_step, fill_pc1rot_any; done).
  erewrite foldC_step by (cbn [run_init_step perm PC1ROT]; erewrite H1; reflexivity).
  erewrite foldC_step by (apply fill_step, fill_pc2rot_any; [lia|done]).
  erewrite foldC_step by (eapply pc2_step; [reflexivity|exact H20]).
  erewrite foldC_step by (apply fill_step, fill_pc2rot_any; [lia|done]).
  erewrite foldC_step by (eapply pc2_step; [reflexivity|exact H21]).
  erewrite foldC_step by (apply fill_step, fill_ie3264_any).
  erewrite foldC_step by (cbn [run_init_step perm IE3264]; erewrite Hi; reflexivity).
  erewrite foldC_step by (apply fill_step, fill_cf6464_any).
  erewrite foldC_step by (cbn [run_init_step perm CF6464]; erewrite Hc; reflexivity).
  erewrite foldC_step by (apply fill_step, fill_spe_any).
  erewrite foldC_step by (cbn [run_init_step perm tmp32 SPE]; erewrite init_spe_any by done; reflexivity).
  reflexivity.
Qed.

(** * Words of a block *)
Lemma word_to32 x : word 32 (Z.land x 0xffffffff).
Proof. apply word_land_r, bits_word_range; lia. Qed.

Lemma land_ffffffff_bit x n : 0 ≤ n < 32 → Z.testbit (Z.land x 0xffffffff) n = Z.testbit x n.
Proof.
  intros Hn. change 0xffffffff with (Z.ones 32). by rewrite Z.land_spec, Z.ones_spec_low, andb_true_r.
Qed.

Lemma STORE_bit a b n : word 32 a → 0 ≤ n → Z.testbit (STORE a b) n = if n <? 32 then Z.testbit a n else Z.testbit b (n - 32).
Proof.
  intros Ha Hn. unfold STORE. rewrite Z.lor_spec, Z.shiftl_spec by lia. destruct (Z.ltb_spec n 32).
  - by rewrite (Z.testbit_neg_r b), orb_false_r by lia.
  - by rewrite Ha.
Qed.

Lemma STORE_bits a b : word 32 a → lsb_bits 64 (STORE a b) = lsb_bits 32 a ++ lsb_bits 32 b.
Proof.
  intros Ha. apply lsb_bits_eq; [by rewrite length_app, !lsb_bits_length|]. intros i Hi. rewrite STORE_bit by (done || lia). cbn [pick].
  destruct (Z.ltb_spec (Z.of_nat i) 32).
  - by rewrite lookup_app_l, lsb_bits_lookup by (rewrite ?lsb_bits_length; lia).
  - rewrite lookup_app_r, lsb_bits_length, lsb_bits_lookup by (rewrite ?lsb_bits_length; lia). cbn. f_equal. lia.
Qed.

Lemma word_STORE a b : word 32 a → word 32 b → word 64 (STORE a b).
Proof.
  intros Ha Hb n Hn. rewrite STORE_bit, (proj2 (Z.ltb_ge _ _)) by (done || lia). apply Hb. lia.
Qed.

Lemma i0_bits x : lsb_bits 32 (blk_i0 x) = take 32 (lsb_bits 64 x).
Proof.
  apply lsb_bits_eq; [by rewrite length_take, lsb_bits_length|]. intros i Hi. unfold blk_i0.
  cbn [pick]. by rewrite land_ffffffff_bit, lookup_take_lt, lsb_bits_lookup by lia.
Qed.
Lemma i1_bits x : lsb_bits 32 (blk_i1 x) = drop 32 (lsb_bits 64 x).
Proof.
  apply lsb_bits_eq; [by rewrite length_drop, lsb_bits_length|]. intros i Hi. unfold blk_i1. cbn [pick].
  rewrite land_ffffffff_bit, Z.shiftr_spec, lookup_drop, lsb_bits_lookup by lia. cbn. f_equal. lia.
Qed.

(** ** Masks and shifts as selections *)
Definition split_tab : list nat :=
  ((λ n, if Nat.odd n then n else 33 + n)%nat <$> seq 0 32) ++ ((λ n, if Nat.odd n then 1 + n else 34 + n)%nat <$> seq 0 32).
Definition compress_tab : list nat := (λ n, if n mod 8 <? 4 then 4 + n else 32 + n)%nat <$> seq 0 32.
Definition mask_tab : list nat := (λ n, if (n <? 32) && (n mod 8 <? 2) then 0 else 1 + n)%nat <$> seq 0 64.

(** One position at a time: every mask and every table entry is a constant. *)
Ltac bit_here :=
  repeat first [rewrite Z.lor_spec | rewrite Z.land_spec | rewrite Z.shiftr_spec by done | rewrite Z.shiftl_spec by done];
  cbn; rewrite ?andb_false_r, ?andb_true_r, ?orb_false_r; reflexivity.
Ltac each_bit :=
  apply lsb_bits_eq; [reflexivity|];
  let i := fresh "i" in let Hi := fresh "Hi" in
  intros i Hi; repeat (first [exfalso; clear -Hi; lia | destruct i as [|i]; [clear Hi; bit_here|]]).

Lemma compress32_bits w0 w1 : lsb_bits 32 (compress32 w0 w1) = select compress_tab (lsb_bits 32 w0 ++ lsb_bits 32 w1).
Proof. unfold compress32, to32. each_bit. Qed.

Lemma split_bits_bits b : lsb_bits 64 (split_bits b) = select split_tab (lsb_bits 64 b).
Proof. unfold split_bits, STORE, to32, blk_i0, blk_i1. each_bit. Qed.

Lemma six_bit_bits src : lsb_bits 32 (TO_SIX_BIT src) = select (pad 4 (seq 1 24)) (lsb_bits 24 src).
Proof. unfold TO_SIX_BIT, of_bytes. each_bit. Qed.

Lemma store_key_bits k : lsb_bits 64 (store_key k) = select mask_tab (lsb_bits 64 k).
Proof. unfold store_key, STORE, blk_i0, blk_i1. each_bit. Qed.

(** * Rounds *)
Abbreviation PAD24 := (pad 4 (seq 1 24)).
Abbreviation PAD48 := (pad 8 (seq 1 48)).
Abbreviation EXPAND := (pad 8 ExpandTr).

Definition word_bits (w : Z * Z) : list bool := lsb_bits 32 w.1 ++ lsb_bits 32 w.2.

Lemma word_bits_length w : length (word_bits w) = 64%nat.
Proof. unfold word_bits. by rewrite length_app, !lsb_bits_length. Qed.

Lemma word_bits_xor a b : word_bits (xor2 a b) = xorl (word_bits a) (word_bits b).
Proof. unfold word_bits, xor2. cbn [fst snd]. rewrite !lsb_bits_lxor, xorl_app; [done|]. by rewrite !lsb_bits_length. Qed.

(** The expanded form of half a block, as the code keeps it. *)
Record holds (w : Z * Z) (h : list bool) : Prop := {
  h_word0 : word 32 w.1;
  h_word1 : word 32 w.2;
  h_length : length h = 32%nat;
  h_bits : word_bits w = select EXPAND h;
}.

Lemma word_bits_split w t x :
  word_bits w = select t x → lsb_bits 32 w.1 = select (take 32 t) x ∧ lsb_bits 32 w.2 = select (drop 32 t) x.
Proof.
  intros H. rewrite <- take_select, <- drop_select, <- H. unfold word_bits.
  by rewrite take_app_length', drop_app_length' by (symmetry; apply lsb_bits_length).
Qed.

(** The two words of half a block, and of a key, are its two times 24 bits. *)
Lemma holds_words w h :
  holds w h →
  lsb_bits 32 w.1 = select PAD24 (take 24 (select ExpandTr h)) ∧ lsb_bits 32 w.2 = select PAD24 (drop 24 (select ExpandTr h)).
Proof.
  intros [_ _ _ Hb]. apply word_bits_split in Hb as [H0 H1].
  rewrite H0, H1, take_select, drop_select, !select_select. by split; f_equal; vm_compute.
Qed.

Lemma key_words k key :
  length key = 48%nat → lsb_bits 64 k = select PAD48 key →
  lsb_bits 32 (blk_i0 k) = select PAD24 (take 24 key) ∧ lsb_bits 32 (blk_i1 k) = select PAD24 (drop 24 key).
Proof.
  intros Hl Hk. rewrite i0_bits, i1_bits, Hk, take_select, drop_select.
  rewrite <- (select_seq key) at 2 4. rewrite Hl, take_select, drop_select, !select_select. by split; f_equal; vm_compute.
Qed.

(** ** The salt *)
Lemma mux_length s a b : length a = length s → length b = length s → length (mux s a b) = length s.
Proof. intros. unfold mux. rewrite length_zip_with, length_zip_with. lia. Qed.

Lemma mux_xor s a b :
  length a = length s → length b = length s →
  xorl (zip_with andb (xorl a b) s) a = mux s b a ∧ xorl (zip_with andb (xorl a b) s) b = mux s a b.
Proof.
  revert a b; induction s as [|x s IH]; intros [|y a] [|z b] Ha Hb; try done.
  cbn in Ha, Hb. destruct (IH a b) as [H1 H2]; [lia..|]. unfold xorl, mux in *. cbn. rewrite H1, H2.
  split; f_equal; by destruct x, y, z.
Qed.

Lemma salted_length salt e : length e = 48%nat → length (salted salt e) = 48%nat.
Proof.
  intros He. unfold salted. rewrite length_app, !mux_length; rewrite ?lsb_bits_length, ?length_take, ?length_drop; lia.
Qed.

(** What the substitutions read: the salted expansion combined with the key. *)
Lemma crunch_input salt k key q hq :
  holds q hq → length key = 48%nat → lsb_bits 64 k = select PAD48 key → word 64 k →
  let m := Z.land (Z.lxor q.1 q.2) (TO_SIX_BIT salt) in
  lsb_bits 64 (STORE (Z.lxor (Z.lxor m q.1) (blk_i0 k)) (Z.lxor (Z.lxor m q.2) (blk_i1 k))) =
  select PAD48 (xorl (salted salt (select ExpandTr hq)) key).
Proof.
  intros Hq Hl Hk Hw m. destruct (holds_words q hq Hq) as [Hq0 Hq1], (key_words k key Hl Hk) as [Hk0 Hk1].
  rewrite STORE_bits; [|unfold m, blk_i0; apply word_lxor; [|apply word_to32]; apply word_lxor;
    [apply word_land_l, word_lxor|]; apply Hq].
  rewrite !lsb_bits_lxor. unfold m. rewrite lsb_bits_land, lsb_bits_lxor, six_bit_bits, Hq0, Hq1, Hk0, Hk1. fold xorl.
  set (e := select ExpandTr hq). set (s := lsb_bits 24 salt).
  assert (He : length e = 48%nat) by apply select_length.
  assert (Hs : length s = 24%nat) by apply lsb_bits_length.
  assert (He0 : length (take 24 e) = length s) by (rewrite length_take; lia).
  assert (He1 : length (drop 24 e) = length s) by (rewrite length_drop; lia).
  assert (Hk24 : length (take 24 key) = 24%nat) by (rewrite length_take; lia).
  assert (Hk24' : length (drop 24 key) = 24%nat) by (rewrite length_drop; lia).
  destruct (mux_xor s (take 24 e) (drop 24 e) He0 He1) as [Hm1 Hm2].
  assert (Hx : length (xorl (take 24 e) (drop 24 e)) = length s) by (rewrite xorl_length; congruence).
  assert (Ha : length (zip_with andb (xorl (take 24 e) (drop 24 e)) s) = length s) by (rewrite length_zip_with; lia).
  unfold xorl in *. rewrite <- !select_zip_with; try done; try congruence; rewrite ?Hm1, ?Hm2; try (rewrite mux_length; congruence).
  rewrite select_both, <- zip_with_app; cycle 1.
  { rewrite mux_length; congruence. }
  { rewrite length_zip_with, mux_length, Hs, Hk24 by congruence. by apply (bool_decide_unpack _); vm_compute. }
  rewrite (take_drop 24 key). fold (salted salt e). f_equal.
  rewrite length_zip_with, mux_length, Hs, Hk24 by congruence. vm_compute. reflexivity.
Qed.

(** ** Substitution *)
Lemma spe_index b x i :
  lsb_bits 64 b = select PAD48 x → length x = 48%nat → (i < 8)%nat →
  blk_b b i mod 4 = 0 ∧ (Z.to_nat (blk_b b i / 4) < 64)%nat ∧ lsb_bits 6 (Z.of_nat (Z.to_nat (blk_b b i / 4))) = sixth x i.
Proof.
  intros Hb Hx Hi. pose proof (blk_b_range b i) as Hr.
  assert (Hbit : ∀ n, 0 ≤ n < 8 → Z.testbit (blk_b b i) n = pick (select PAD48 x) (S (8 * i + Z.to_nat n))).
  { intros n Hn. rewrite <- Hb, pick_lsb, blk_b_bit by lia. f_equal. lia. }
  assert (Hd : 0 ≤ blk_b b i / 4 < 64) by (split; [apply Z.div_pos|apply Z.div_lt_upper_bound]; lia).
  split_and!.
  - change 4 with (2 ^ 2). rewrite <- Z.land_ones by lia. apply Z.bits_inj'. intros n Hn. rewrite Z.land_spec, Z.bits_0.
    destruct (decide (n < 2)); [|by rewrite Z.ones_spec_high, andb_false_r by lia].
    rewrite Hbit by lia. replace n with (Z.of_nat (Z.to_nat n)) by lia. set (m := Z.to_nat n). assert (m < 2)%nat by lia. clearbody m.
    do 8 (destruct i as [|i]; [do 2 (destruct m as [|m]; [done|]); lia|]). lia.
  - lia.
  - rewrite Z2Nat.id by lia. apply lsb_bits_eq; [unfold sixth; rewrite length_take, length_drop; lia|].
    intros t Ht. change 4 with (2 ^ 2). rewrite Z.div_pow2_bits, Hbit by lia.
    replace (Z.to_nat (Z.of_nat t + 2)) with (t + 2)%nat by lia. unfold sixth. cbn [pick].
    rewrite lookup_take_lt, lookup_drop by lia. unfold select. rewrite list_lookup_fmap.
    do 8 (destruct i as [|i]; [do 6 (destruct t as [|t]; [reflexivity|]); lia|]). lia.
Qed.

Definition placed (x : list bool) (n : nat) : list bool :=
  foldl (λ acc i, xorl acc (place i (sbox i (sixth x i)))) (replicate 32 false) (seq 0 n).

Lemma sbox_length i g : length (sbox i g) = 4%nat.
Proof. done. Qed.

Lemma place_length i s : (i < 8)%nat → length s = 4%nat → length (place i s) = 32%nat.
Proof. intros. unfold place. rewrite !length_app, !length_replicate. lia. Qed.

Lemma placed_length x n : (n ≤ 8)%nat → length (placed x n) = 32%nat.
Proof.
  induction n as [|n IH]; intros Hn; [done|]. unfold placed in *. rewrite seq_S, foldl_app. cbn [foldl Nat.add].
  by rewrite xorl_length; rewrite IH by lia; [|rewrite place_length by (done || lia)].
Qed.

(** Side by side is the sum of the outputs in their places. *)
Lemma placed_all x : placed x 8 = substitute x.
Proof.
  unfold placed, substitute. cbn [seq foldl fmap list_fmap concat].
  repeat match goal with |- context [sbox ?i (sixth ?x ?i)] =>
    let s := fresh "s" in set (s := sbox i (sixth x i)); assert (length s = 4%nat) by done; clearbody s;
    destruct s as [|? [|? [|? [|? [|]]]]]; try done end.
  unfold xorl, place. cbn [Nat.mul Nat.add Nat.sub replicate app zip_with]. by rewrite ?xorb_false_l, ?xorb_false_r, ?xorb_false_l.
Qed.

Lemma DOXOR_spec st b x p i :
  tables_ok st → lsb_bits 64 b = select PAD48 x → length x = 48%nat → (i < 8)%nat →
  ∃ w, DOXOR st b p i = Ok (xor2 p w) ∧ word 32 w.1 ∧ word 32 w.2 ∧
    word_bits w = select EXPAND (select P32Tr (place i (sbox i (sixth x i)))).
Proof.
  intros Ht Hb Hx Hi. destruct (spe_index b x i Hb Hx Hi) as (Hm & Hj & H6).
  destruct (t_spe st Ht i _ Hi Hj) as (a & c & Ha & Hc & Hwa & Hwc & Hbits).
  exists (a, c). split; [|by rewrite <- H6].
  unfold DOXOR, SPTAB. rewrite Hm. cbn [Z.eqb negb]. rewrite Nat.mul_0_r, Nat.mul_1_r, Nat.add_0_l, <- Nat.add_assoc.
  rewrite (arr_get_ok _ _ _ Ha). cbn [mbind cres_bind]. by rewrite (arr_get_ok _ _ _ Hc).
Qed.

Lemma DOXOR_loop st b x p n :
  tables_ok st → lsb_bits 64 b = select PAD48 x → length x = 48%nat → (n ≤ 8)%nat → word 32 p.1 → word 32 p.2 →
  ∃ p', foldC (DOXOR st b) (seq 0 n) p = Ok p' ∧ word 32 p'.1 ∧ word 32 p'.2 ∧
    word_bits p' = xorl (word_bits p) (select EXPAND (select P32Tr (placed x n))).
Proof.
  intros Ht Hb Hx Hn Hp0 Hp1. induction n as [|n IH].
  { exists p. split_and!; [done..|]. symmetry. change (select _ _) with (replicate 64 false).
    rewrite <- (word_bits_length p). generalize (word_bits p). intros l. induction l as [|y l IH]; [done|].
    unfold xorl in *. cbn. by rewrite IH, xorb_false_r. }
  destruct IH as (p1 & H1 & Hw0 & Hw1 & Hbits); [lia|].
  destruct (DOXOR_spec st b x p1 n Ht Hb Hx Hn) as (w & Hw & Hww0 & Hww1 & Hwb).
  exists (xor2 p1 w). rewrite seq_S, foldC_app, H1. cbn [mbind cres_bind foldC Nat.add]. rewrite Hw.
  split_and!; [done|by apply word_lxor..|]. rewrite word_bits_xor, Hbits, Hwb, <- xorl_assoc. f_equal.
  unfold placed. rewrite seq_S, foldl_app. cbn [foldl Nat.add]. fold (placed x n). unfold xorl.
  rewrite !select_zip_with; [done..| |done|]; rewrite ?select_length; [done|].
  rewrite placed_length by lia. by rewrite place_length.
Qed.

Lemma feistel_length salt key r : length (feistel salt key r) = 32%nat.
Proof. apply select_length. Qed.

(** ** One round *)
Lemma CRUNCH_spec st salt k key p q hp hq :
  tables_ok st → holds p hp → holds q hq → length key = 48%nat → lsb_bits 64 k = select PAD48 key → word 64 k →
  ∃ p', CRUNCH st (TO_SIX_BIT salt) k p q = Ok p' ∧ holds p' (xorl hp (feistel salt key hq)).
Proof.
  intros Ht Hp Hq Hl Hk Hw. pose proof (crunch_input salt k key q hq Hq Hl Hk Hw) as Hb. cbn zeta in Hb.
  set (x := xorl (salted salt (select ExpandTr hq)) key) in Hb.
  assert (Hx : length x = 48%nat).
  { unfold x. by rewrite xorl_length; rewrite salted_length by apply select_length. }
  destruct (DOXOR_loop st _ x p 8 Ht Hb Hx ltac:(lia) (h_word0 _ _ Hp) (h_word1 _ _ Hp)) as (p' & Hp' & Hw0 & Hw1 & Hbits).
  exists p'. split; [exact Hp'|]. split; [done..| |].
  - rewrite xorl_length; rewrite (h_length _ _ Hp); [done|]. by rewrite feistel_length.
  - rewrite Hbits, (h_bits _ _ Hp), placed_all. unfold xorl. rewrite select_zip_with; [done..|].
    by rewrite feistel_length, (h_length _ _ Hp).
Qed.

(** ** Sixteen rounds *)
Definition keys_at (st : des_state) (kp inc : Z) (keys : list (list bool)) : Prop :=
  ∀ i key, keys !! i = Some key → length key = 48%nat ∧
    ∃ w, ks_at st (kp + Z.of_nat i * inc) = Ok w ∧ word 64 w ∧ lsb_bits 64 w = select PAD48 key.

Lemma keys_at_cons st kp inc key keys :
  keys_at st kp inc (key :: keys) →
  (length key = 48%nat ∧ ∃ w, ks_at st kp = Ok w ∧ word 64 w ∧ lsb_bits 64 w = select PAD48 key) ∧
  keys_at st (kp + inc) inc keys.
Proof.
  intros H. split; [by destruct (H 0%nat key) as (? & w & Hw); [|split; [|exists w; by rewrite Z.mul_0_l, Z.add_0_r in Hw]]|].
  intros i k Hk. destruct (H (S i) k Hk) as (Hl & w & Hw). split; [done|]. exists w.
  by replace (kp + inc + Z.of_nat i * inc) with (kp + Z.of_nat (S i) * inc) by lia.
Qed.

Lemma crunch_loop_spec n st salt kp inc keys l r hl hr :
  tables_ok st → length keys = (2 * n)%nat → keys_at st kp inc keys → holds l hl → holds r hr →
  ∃ l' r', crunch_loop n st (TO_SIX_BIT salt) kp inc l r = Ok (l', r') ∧
    holds l' (foldl (des_round salt) (hl, hr) keys).1 ∧ holds r' (foldl (des_round salt) (hl, hr) keys).2.
Proof.
  intros Ht. revert kp keys l r hl hr; induction n as [|n IH]; intros kp keys l r hl hr Hl Hk Hhl Hhr.
  { destruct keys; [|done]. by exists l, r. }
  destruct keys as [|k1 [|k2 keys]]; [cbn in Hl; lia..|]. cbn in Hl.
  apply keys_at_cons in Hk as [(Hl1 & w1 & Hw1 & Hww1 & Hb1) Hk]. apply keys_at_cons in Hk as [(Hl2 & w2 & Hw2 & Hww2 & Hb2) Hk].
  cbn [crunch_loop]. rewrite Hw1. cbn [mbind cres_bind].
  destruct (CRUNCH_spec st salt w1 k1 l r hl hr) as (l1 & Hl1' & Hh1); [done..|]. rewrite Hl1'. cbn [mbind cres_bind].
  rewrite Hw2. cbn [mbind cres_bind].
  destruct (CRUNCH_spec st salt w2 k2 r l1 hr _ Ht Hhr Hh1) as (r1 & Hr1' & Hh2); [done..|]. rewrite Hr1'. cbn [mbind cres_bind].
  cbn [foldl]. apply IH; [lia| |done..]. by replace (kp + 2 * inc) with (kp + inc + inc) by lia.
Qed.

Lemma xor2_swap l r : xor2 (xor2 l r) (xor2 r (xor2 l r)) = r ∧ xor2 r (xor2 l r) = l.
Proof.
  destruct l as [l0 l1], r as [r0 r1]. unfold xor2. cbn [fst snd].
  assert (∀ a b, Z.lxor b (Z.lxor a b) = a) as H.
  { intros a b. by rewrite (Z.lxor_comm a b), <- Z.lxor_assoc, Z.lxor_nilpotent, Z.lxor_0_l. }
  by rewrite !H.
Qed.

Definition rounds (salt : Z) (keys : list (list bool)) (lr : list bool * list bool) : list bool * list bool :=
  prod_swap (foldl (des_round salt) lr keys).

Lemma cipher_loop_spec n st salt kp inc keys l r hl hr :
  tables_ok st → length keys = 16%nat → keys_at st kp inc keys → holds l hl → holds r hr →
  ∃ l' r', cipher_loop n st (TO_SIX_BIT salt) kp inc l r = Ok (l', r') ∧
    holds l' (Nat.iter n (rounds salt keys) (hl, hr)).1 ∧ holds r' (Nat.iter n (rounds salt keys) (hl, hr)).2.
Proof.
  intros Ht Hl Hk. revert l r hl hr; induction n as [|n IH]; intros l r hl hr Hhl Hhr; [by exists l, r|].
  cbn [cipher_loop]. destruct (crunch_loop_spec 8 st salt kp inc keys l r hl hr) as (l1 & r1 & H1 & Hl1 & Hr1); [done..|].
  rewrite H1. cbn [mbind cres_bind]. destruct (xor2_swap l1 r1) as [-> ->].
  rewrite Nat.iter_succ_r. unfold rounds at 2 4. destruct (foldl _ (hl, hr) keys) as [h1 h2]. by apply IH.
Qed.

(** * The cipher *)
Definition block_bits (z : Z) : list bool := concat ((λ i, msb_bits 8 (blk_b z i)) <$> seq 0 8).
Definition reverse_tab : list nat := bit_reverse <$> seq 1 64.

Lemma block_bits_select z : block_bits z = select reverse_tab (lsb_bits 64 z).
Proof.
  unfold block_bits, msb_bits. cbn [seq fmap list_fmap concat app reverse rev_append rev'].
  rewrite !blk_b_bit by lia. reflexivity.
Qed.

Lemma block_bits_length z : length (block_bits z) = 64%nat.
Proof. by rewrite block_bits_select, select_length. Qed.

(** The final permutation undoes the initial one. *)
Lemma IP_FP x : length x = 64%nat → select IP (select FP x) = x ∧ select FP (select IP x) = x.
Proof.
  intros Hx. rewrite !select_select. rewrite <- (select_seq x) at 2 4. rewrite Hx. by split; f_equal; vm_compute.
Qed.

Lemma rounds_length salt keys l r :
  length l = 32%nat → length r = 32%nat →
  length (rounds salt keys (l, r)).1 = 32%nat ∧ length (rounds salt keys (l, r)).2 = 32%nat.
Proof.
  unfold rounds. revert l r; induction keys as [|k keys IH]; intros l r Hl Hr; [done|]. cbn [foldl]. apply IH; [done|].
  cbn [fst snd]. by rewrite xorl_length; rewrite Hl; [|rewrite feistel_length].
Qed.

(** Between two encryptions the final permutation meets the initial one: only
    the rounds are iterated. *)
Lemma des_iter salt keys n b :
  length b = 64%nat →
  let lr := Nat.iter n (rounds salt keys) (take 32 (select IP b), drop 32 (select IP b)) in
  Nat.iter n (des salt keys) b = select FP (lr.1 ++ lr.2) ∧ length lr.1 = 32%nat ∧ length lr.2 = 32%nat.
Proof.
  intros Hb. induction n as [|n IH]; cbn zeta.
  { cbv [Nat.iter nat_rect fst snd]. rewrite take_drop, length_take, length_drop, select_length. split; [symmetry; by apply IP_FP|done]. }
  cbn zeta in IH. rewrite !Nat.iter_succ. destruct (Nat.iter n (rounds _ _) _) as [l r]. cbn [fst snd] in IH. destruct IH as (-> & Hl & Hr).
  split; [|by apply rounds_length]. unfold des.
  rewrite (proj1 (IP_FP (l ++ r) ltac:(rewrite length_app; lia))), take_app_length', drop_app_length' by done. done.
Qed.

Lemma lsb_bits_shiftr n k z : (n + k ≤ 64)%nat → lsb_bits n (Z.shiftr z (Z.of_nat k)) = take n (drop k (lsb_bits 64 z)).
Proof.
  intros Hn. apply lsb_bits_eq; [rewrite length_take, length_drop, lsb_bits_length; lia|]. intros i Hi. cbn [pick].
  rewrite Z.shiftr_spec, lookup_take_lt, lookup_drop, lsb_bits_lookup by lia. cbn. f_equal. lia.
Qed.

Lemma load_bits x : word_bits (blk_i0 x, blk_i1 x) = lsb_bits 64 x.
Proof. unfold word_bits. cbn [fst snd]. by rewrite i0_bits, i1_bits, take_drop. Qed.

(** The initial permutation and expansion of one half. *)
Lemma expand_half st z k :
  tables_ok st → k = 0%nat ∨ k = 4%nat →
  ∃ d, permute (blk_bytes (split_bits z) k 4) (IE3264 st) = Ok d ∧
    holds (blk_i0 d, blk_i1 d) (take 32 (drop (8 * k) (select IP (block_bits z)))).
Proof.
  intros Ht Hk. destruct ie_shape as [Hl Hb].
  destruct (permute_spec perm_ie 8 (IE3264 st) (split_bits z) k 4 (t_ie st Ht)) as (d & Hd & Hw & Hbits); [lia|done..|].
  exists d. split; [done|]. split; [apply word_to32..|rewrite length_take, length_drop, select_length; cbn [length IP]; lia|].
  rewrite load_bits, Hbits. replace (8 * Z.of_nat k) with (Z.of_nat (8 * k)) by lia. rewrite lsb_bits_shiftr by lia.
  rewrite split_bits_bits, block_bits_select, !drop_select, !take_select, !select_select.
  by destruct Hk as [-> | ->]; f_equal; vm_compute.
Qed.

Lemma compress32_word a b : word 32 (compress32 a b).
Proof. unfold compress32. apply word_lor; apply word_land_r, bits_word_range; lia. Qed.

(** Compression and final permutation of both halves. *)
Lemma final_perm st l r hl hr :
  tables_ok st → holds l hl → holds r hr →
  ∃ d, permute (blk_bytes (STORE (compress32 l.1 l.2) (compress32 r.1 r.2)) 0 8) (CF6464 st) = Ok d ∧ word 64 d ∧
    block_bits d = select FP (hl ++ hr).
Proof.
  intros Ht Hl Hr. destruct cf_shape as [Hlen Hb].
  destruct (permute_spec perm_cf 16 (CF6464 st) (STORE (compress32 l.1 l.2) (compress32 r.1 r.2)) 0 8 (t_cf st Ht))
    as (d & Hd & Hw & Hbits); [lia|done..|].
  exists d. split; [done|]. split; [done|]. rewrite Z.mul_0_r, Z.shiftr_0_r in Hbits.
  rewrite block_bits_select, Hbits. change (8 * 8)%nat with 64%nat. rewrite STORE_bits by apply compress32_word.
  rewrite !compress32_bits. fold (word_bits l) (word_bits r). rewrite (h_bits _ _ Hl), (h_bits _ _ Hr), !select_select.
  rewrite select_both; rewrite (h_length _ _ Hl); [|by apply (bool_decide_unpack _); vm_compute].
  rewrite !select_select. f_equal; vm_compute; reflexivity.
Qed.

(** The code's cipher is the reference, iterated. *)
Lemma des_cipher_spec st in_ salt num keys :
  tables_ok st → length keys = 16%nat →
  keys_at st (if 0 <=? num then 0 else 15) (if 0 <=? num then 1 else -1) keys →
  ∃ out, des_cipher st in_ salt num = Ok out ∧ word 64 out ∧
    block_bits out = Nat.iter (Z.abs_nat num) (des salt keys) (block_bits in_).
Proof.
  intros Ht Hl Hk. unfold des_cipher.
  destruct (expand_half st in_ 0 Ht ltac:(by left)) as (l & Hpl & Hhl). rewrite Hpl. cbn [mbind cres_bind].
  destruct (expand_half st in_ 4 Ht ltac:(by right)) as (r & Hpr & Hhr). rewrite Hpr. cbn [mbind cres_bind].
  rewrite Nat.mul_0_r, drop_0 in Hhl. change (8 * 4)%nat with 32%nat in Hhr.
  rewrite (take_ge (drop 32 _)) in Hhr by (rewrite length_drop, select_length; cbn [length IP]; lia).
  destruct (cipher_loop_spec (Z.abs_nat num) st salt _ _ keys _ _ _ _ Ht Hl Hk Hhl Hhr) as (l' & r' & Hloop & Hl' & Hr').
  replace (if 0 <=? num then (0, 1) else (15, -1)) with (if 0 <=? num then 0 else 15, if 0 <=? num then 1 else -1)
    by by destruct (0 <=? num).
  rewrite Hloop. cbn [mbind cres_bind].
  destruct (final_perm st l' r' _ _ Ht Hl' Hr') as (out & Hout & Hw & Hbits).
  exists out. split; [done|]. split; [done|]. rewrite Hbits. symmetry. apply des_iter, block_bits_length.
Qed.

(** * The key schedule *)
Definition rotate_tab (r : nat) : list nat :=
  drop r (seq 1 28) ++ take r (seq 1 28) ++ drop r (seq 29 28) ++ take r (seq 29 28).

Lemma rotate_left_select r cd : length cd = 56%nat → rotate_left r cd = select (rotate_tab r) cd.
Proof.
  intros Hl. unfold rotate_left, rotate_tab. cbv beta zeta. rewrite <- (select_seq cd) at 1 2 3 4. rewrite Hl.
  change (seq 1 56) with (seq 1 28 ++ seq 29 28). rewrite !take_select, !drop_select, take_app_length', drop_app_length' by done.
  by rewrite ?take_select, ?drop_select, !select_app, <- app_assoc.
Qed.

(** The halves of the key before round [n]. *)
Definition cd_after (cd : list bool) (n : nat) : list bool := foldl (λ cd r, rotate_left r cd) cd (take n Rotates).

Lemma rotate_left_length r cd : length cd = 56%nat → (r ≤ 28)%nat → length (rotate_left r cd) = 56%nat.
Proof.
  intros Hl Hr. unfold rotate_left. rewrite !length_app, !length_drop, !length_take, !length_drop. lia.
Qed.

Lemma cd_after_S cd n r : Rotates !! n = Some r → cd_after cd (S n) = rotate_left r (cd_after cd n).
Proof. intros Hn. unfold cd_after. by rewrite (take_S_r _ _ _ Hn), foldl_app. Qed.

Lemma Rotates_range n r : Rotates !! n = Some r → (1 ≤ r ≤ 2)%nat.
Proof.
  intros H. assert (Forall (λ r, 1 ≤ r ≤ 2)%nat Rotates) as Hf by (apply (bool_decide_unpack _); by vm_compute).
  by eapply Forall_lookup_1 in Hf.
Qed.

Lemma cd_after_length cd n : length cd = 56%nat → length (cd_after cd n) = 56%nat.
Proof.
  intros Hl. induction n as [|n IH]; [done|]. destruct (Rotates !! n) as [r|] eqn:Hr.
  - rewrite (cd_after_S _ _ _ Hr). apply rotate_left_length; [done|]. apply Rotates_range in Hr. lia.
  - unfold cd_after in *. rewrite lookup_ge_None in Hr. by rewrite take_ge in * by lia.
Qed.

Lemma schedule_from_lookup rotates cd i :
  (i < length rotates)%nat →
  schedule_from rotates cd !! i = Some (select PC2_std (foldl (λ cd r, rotate_left r cd) cd (take (S i) rotates))).
Proof.
  revert cd i; induction rotates as [|r rotates IH]; intros cd i Hi; cbn in Hi; [lia|].
  destruct i as [|i]; [done|]. cbn [schedule_from lookup list_lookup]. rewrite IH by lia. done.
Qed.

Lemma schedule_lookup key i :
  (i < 16)%nat → schedule key !! i = Some (select PC2_std (cd_after (select PC1 key) (S i))).
Proof. exact (schedule_from_lookup Rotates (select PC1 key) i). Qed.

Lemma schedule_length key : length (schedule key) = 16%nat.
Proof. done. Qed.

(** A stored round key is the choice of 48 bits the standard makes. *)
Lemma store_key_spec k cd :
  lsb_bits 64 k = select PC2 cd →
  word 64 (store_key k) ∧ lsb_bits 64 (store_key k) = select PAD48 (select PC2_std cd).
Proof.
  intros Hk. split.
  - apply word_STORE; [apply word_land_l|]; apply word_to32.
  - rewrite store_key_bits, Hk, !select_select. f_equal; vm_compute; reflexivity.
Qed.

(** The first round key ... *)
Lemma pc1_step st key :
  tables_ok st → ∃ k, permute (blk_bytes key 0 8) (PC1ROT st) = Ok k ∧
    lsb_bits 64 k = select PC2 (cd_after (select PC1 (block_bits key)) 1).
Proof.
  intros Ht. destruct pc1_shape as [Hl Hb].
  destruct (permute_spec perm_pc1 16 (PC1ROT st) key 0 8 (t_pc1 st Ht)) as (k & Hk & _ & Hbits); [lia|done..|].
  exists k. split; [done|]. rewrite Hbits, Z.mul_0_r, Z.shiftr_0_r. change (8 * 8)%nat with 64%nat.
  change (cd_after ?cd 1) with (rotate_left 1 cd). rewrite rotate_left_select by apply select_length.
  rewrite block_bits_select, !select_select. f_equal; vm_compute; reflexivity.
Qed.

(** ... and each one from the one before. *)
Lemma pc2_rotate st k cd n r :
  tables_ok st → lsb_bits 64 k = select PC2 cd → length cd = 56%nat → Rotates !! n = Some r →
  ∃ t k', PC2ROT st !! (r - 1)%nat = Some t ∧ permute (blk_bytes k 0 8) t = Ok k' ∧
    lsb_bits 64 k' = select PC2 (rotate_left r cd).
Proof.
  intros Ht Hk Hcd Hr. apply Rotates_range in Hr. destruct (t_pc2 st Ht (r - 1) ltac:(lia)) as (t & Hlt & Hpt).
  destruct (pc2_shape (r - 1) ltac:(lia)) as [Hl Hb].
  destruct (permute_spec _ 16 t k 0 8 Hpt) as (k' & Hk' & _ & Hbits); [lia|done..|].
  exists t, k'. split; [done|]. split; [done|]. rewrite Hbits, Z.mul_0_r, Z.shiftr_0_r. change (8 * 8)%nat with 64%nat.
  rewrite Hk, rotate_left_select, !select_select by done.
  destruct r as [|[|[|r]]]; [lia|f_equal; vm_compute; reflexivity..|lia].
Qed.

Lemma tables_ok_KS st ks : tables_ok st → length ks = 16%nat → tables_ok (set_KS st ks).
Proof. intros [] Hl. by split. Qed.

(** The round keys [0], ..., [n] are stored. *)
Definition stored (cd : list bool) (ks : list Z) (n : nat) : Prop :=
  length ks = 16%nat ∧ ∀ i, (i ≤ n)%nat → ∃ w, ks !! i = Some w ∧ word 64 w ∧
    lsb_bits 64 w = select PAD48 (select PC2_std (cd_after cd (S i))).

Lemma stored_S cd ks n k :
  stored cd ks n → (S n < 16)%nat → lsb_bits 64 k = select PC2 (cd_after cd (S (S n))) →
  stored cd (<[S n := store_key k]> ks) (S n).
Proof.
  intros [Hl Hs] Hn Hk. split; [by rewrite length_insert|]. intros i Hi.
  destruct (decide (i = S n)) as [->|Hne].
  - exists (store_key k). rewrite list_lookup_insert_eq by lia. split; [done|]. by apply store_key_spec.
  - rewrite list_lookup_insert_ne by done. apply Hs. lia.
Qed.

Lemma setkey_loop st cd k ks n :
  tables_ok st → length cd = 56%nat → (n ≤ 15)%nat → stored cd ks 0 → lsb_bits 64 k = select PC2 (cd_after cd 1) →
  ∃ k' ks', foldC (λ r i,
        let '(k, ks) := r in
        ro ← arr_get Rotates i;
        ptabp ← arr_get (PC2ROT st) (ro - 1);
        k ← permute (blk_bytes k 0 8) ptabp;
        ks ← arr_set ks i (store_key k);
        Ok (k, ks))
      (seq 1 n) (k, ks) = Ok (k', ks') ∧ stored cd ks' n ∧ lsb_bits 64 k' = select PC2 (cd_after cd (S n)).
Proof.
  intros Ht Hcd Hn Hs Hk. induction n as [|n IH]; [by exists k, ks|].
  destruct IH as (k1 & ks1 & H1 & Hs1 & Hk1); [lia|].
  rewrite seq_S, foldC_app, H1. cbn [mbind cres_bind foldC Nat.add].
  destruct (lookup_lt_is_Some_2 Rotates (S n)) as [r Hr]; [change (length Rotates) with 16%nat; lia|].
  destruct (pc2_rotate st k1 _ (S n) r Ht Hk1 (cd_after_length cd (S n) Hcd) Hr) as (t & k' & Hlt & Hk' & Hb').
  rewrite (arr_get_ok _ _ _ Hr). cbn [mbind cres_bind]. rewrite (arr_get_ok _ _ _ Hlt). cbn [mbind cres_bind]. rewrite Hk'. cbn [mbind cres_bind].
  rewrite arr_set_ok by (destruct Hs1 as [-> _]; lia). cbn [mbind cres_bind].
  rewrite <- (cd_after_S _ _ _ Hr) in Hb'. eexists _, _. split; [done|]. split; [|done]. apply stored_S; [done|lia|done].
Qed.

Lemma des_setkey_spec st key :
  tables_ok st → ∃ st', des_setkey st key = Ok st' ∧ tables_ok st' ∧ keys_at st' 0 1 (schedule (block_bits key)).
Proof.
  intros Ht. unfold des_setkey. destruct (pc1_step st key Ht) as (k & Hk & Hb). rewrite Hk. cbn [mbind cres_bind].
  rewrite arr_set_ok by (rewrite (t_ks st Ht); lia). cbn [mbind cres_bind]. set (cd := select PC1 (block_bits key)) in *.
  destruct (setkey_loop st cd k (<[0%nat := store_key k]> (KS st)) 15 Ht (select_length _ _) ltac:(lia)) as (k' & ks' & H & [Hl Hs] & _).
  { split; [rewrite length_insert; apply (t_ks st Ht)|]. intros i Hi. assert (i = 0)%nat as -> by lia.
    exists (store_key k). rewrite list_lookup_insert_eq by (rewrite (t_ks st Ht); lia). split; [done|]. by apply store_key_spec. }
  { done. }
  rewrite H. cbn [mbind cres_bind snd]. eexists. split; [done|]. split; [by apply tables_ok_KS|].
  intros i rk Hi. assert (i < 16)%nat as Hlt by (apply lookup_lt_Some in Hi; by rewrite schedule_length in Hi).
  rewrite schedule_lookup in Hi by done. simplify_eq. split; [apply select_length|].
  destruct (Hs i ltac:(lia)) as (w & Hw & Hww & Hbits). exists w. split; [|done].
  unfold ks_at. rewrite (proj2 (Z.ltb_ge _ _)) by lia. apply arr_get_ok. cbn [set_KS KS].
  by replace (Z.to_nat (0 + Z.of_nat i * 1)) with i by lia.
Qed.

(** * The password hash *)

(** ** The key *)
Lemma blk_b_of_bytes ts i :
  Forall (λ t, 0 ≤ t < 256) ts → blk_b (of_bytes ts) i = default 0 (ts !! i).
Proof.
  intros Hf. revert i; induction Hf as [|t ts Ht Hf IH]; intros i.
  { unfold blk_b. cbn. by rewrite Z.shiftr_0_l. }
  assert (Hbits : ∀ n, 8 ≤ n → Z.testbit t n = false) by exact (bits_word_range 8 t ltac:(lia) Ht).
  apply Z.bits_inj'. intros n Hn. destruct (decide (n < 8)) as [H8|H8].
  - rewrite blk_b_bit by lia. cbn [of_bytes]. rewrite Z.lor_spec, Z.shiftl_spec by lia. destruct i as [|i].
    + rewrite (Z.testbit_neg_r (of_bytes ts)), orb_false_r by lia. cbn. f_equal.
    + rewrite Hbits by lia. cbn [lookup list_lookup orb]. rewrite <- IH, blk_b_bit by lia. f_equal. lia.
  - rewrite (bits_word_range 8 (blk_b _ _)) by (lia || apply blk_b_range). symmetry.
    assert (0 ≤ default 0 ((t :: ts) !! i) < 256) as Hd.
    { destruct ((t :: ts) !! i) as [x|] eqn:Hx; [|done]. exact (Forall_lookup_1 _ _ _ _ (Forall_cons_2 _ _ _ Ht Hf) Hx). }
    by apply (bits_word_range 8); [|exact Hd|lia].
Qed.

Definition key_byte (c : ascii) : Z := Z.land (2 * u8 c) 0xff.

Lemma key_byte_range c : 0 ≤ key_byte c < 256.
Proof. unfold key_byte. change 0xff with (Z.ones 8). rewrite Z.land_ones by lia. by apply Z.mod_pos_bound. Qed.

Lemma key_byte_bits c : msb_bits 8 (key_byte c) = char_bits c.
Proof.
  assert (H : forallb (λ c, bool_decide (msb_bits 8 (key_byte c) = char_bits c)) all_bytes = true) by (vm_compute; reflexivity).
  pose proof (forall_bytes _ H c) as Hc. by apply bool_decide_eq_true in Hc.
Qed.

Lemma key_chars_spec n key :
  no_nul key → key_chars n key = (key_byte <$> take n (key ++ replicate n NUL), drop n key).
Proof.
  revert key; induction n as [|n IH]; intros key Hk; [by rewrite take_0, drop_0|]. cbn [key_chars].
  destruct key as [|c key].
  - cbn [head default u8]. change (2 * u8 NUL =? 0) with true. cbn [replicate app take drop tail]. rewrite IH by done.
    cbn [app]. by rewrite drop_nil.
  - apply not_elem_of_cons in Hk as [Hc Hk]. cbn [head default from_option id].
    assert (2 * u8 c =? 0 = false) as Ht.
    { apply Z.eqb_neq. intros H. apply Hc. apply (inj u8). change (u8 NUL) with 0. lia. }
    rewrite Ht. cbn [tail drop]. rewrite IH by done. cbn [app take fmap list_fmap]. f_equal. f_equal.
    rewrite replicate_S_end, app_assoc, (take_app_le _ [NUL]); [done|]. rewrite length_app, length_replicate. lia.
Qed.

Lemma key_block_bits chars :
  block_bits (of_bytes (key_byte <$> take 8 (chars ++ replicate 8 NUL))) = des_key chars.
Proof.
  unfold block_bits, des_key. set (l := take 8 (chars ++ replicate 8 NUL)).
  assert (Hl : length l = 8%nat) by (unfold l; rewrite length_take, length_app, length_replicate; lia).
  f_equal. apply list_eq. intros i. rewrite !list_lookup_fmap.
  destruct (decide (i < 8)%nat) as [Hi|Hi].
  - rewrite lookup_seq_lt by done. destruct (lookup_lt_is_Some_2 l i) as [c Hc]; [lia|].
    cbn [fmap option_fmap option_map Nat.add].
    rewrite blk_b_of_bytes by (apply Forall_fmap, Forall_true; intros; apply key_byte_range).
    rewrite list_lookup_fmap, Hc. cbn [fmap option_fmap option_map default from_option]. unfold id. by rewrite key_byte_bits.
  - by rewrite lookup_seq_ge, (lookup_ge_None_2 l) by lia.
Qed.

Lemma des_key_take chars : des_key (take 8 chars) = des_key chars.
Proof.
  unfold des_key. do 2 f_equal. destruct (decide (length chars ≤ 8)%nat); [by rewrite (take_ge chars) by lia|].
  rewrite !take_app_le by (rewrite ?length_take; lia). by rewrite take_take.
Qed.

Lemma block_bits_lxor a b : block_bits (Z.lxor a b) = xorl (block_bits a) (block_bits b).
Proof.
  rewrite !block_bits_select, lsb_bits_lxor. apply select_zip_with; [done|]. by rewrite !lsb_bits_length.
Qed.

Lemma keys_ok_cipher st key in_ salt n :
  tables_ok st → keys_at st 0 1 (schedule key) → 0 ≤ n →
  ∃ out, des_cipher st in_ salt n = Ok out ∧ word 64 out ∧
    block_bits out = Nat.iter (Z.to_nat n) (des salt (schedule key)) (block_bits in_).
Proof.
  intros Ht Hk Hn. destruct (des_cipher_spec st in_ salt n (schedule key) Ht (schedule_length key)) as (out & Ho & Hw & Hb).
  { by rewrite (proj2 (Z.leb_le 0 n) Hn). }
  exists out. by rewrite Hb, Zabs2Nat.abs_nat_nonneg.
Qed.

(** ** Long passwords *)
Lemma key_rest_spec fuel fuel' st kb key :
  (length key < fuel)%nat → (length key ≤ fuel')%nat → no_nul key →
  tables_ok st → keys_at st 0 1 (schedule (block_bits kb)) →
  ∃ st', key_rest fuel st kb key = Ok st' ∧ tables_ok st' ∧ keys_at st' 0 1 (schedule (fold_key fuel' (block_bits kb) key)).
Proof.
  revert fuel' st kb key; induction fuel as [|fuel IH]; intros fuel' st kb key Hf Hf' Hn Ht Hk; [lia|]. cbn [key_rest].
  destruct key as [|c key].
  { exists st. rewrite bool_decide_eq_true_2 by done. split; [done|]. split; [done|]. by destruct fuel'. }
  rewrite bool_decide_eq_false_2; cycle 1.
  { apply not_elem_of_cons in Hn as [Hc _]. cbn. congruence. }
  destruct fuel' as [|fuel']; [cbn in Hf'; lia|]. cbn [length] in Hf, Hf'.
  destruct (keys_ok_cipher st _ kb 0 1 Ht Hk ltac:(lia)) as (out & Ho & _ & Hb). rewrite Ho. cbn [mbind cres_bind].
  rewrite key_chars_spec by done.
  destruct (des_setkey_spec st (Z.lxor out (of_bytes (key_byte <$> take 8 ((c :: key) ++ replicate 8 NUL)))) Ht) as (st' & Hs & Ht' & Hk').
  rewrite Hs. cbn [mbind cres_bind].
  assert (Hbits : block_bits (Z.lxor out (of_bytes (key_byte <$> take 8 ((c :: key) ++ replicate 8 NUL)))) =
    xorl (des 0 (schedule (block_bits kb)) (block_bits kb)) (des_key (take 8 (c :: key)))).
  { by rewrite block_bits_lxor, Hb, key_block_bits, des_key_take. }
  cbn [fold_key]. rewrite <- Hbits. apply IH; [rewrite length_drop; cbn [length]; lia..| |done|done].
  intros Hin. apply Hn. by eapply elem_of_drop in Hin as [? []] || (rewrite <- (take_drop 8 (c :: key)); apply elem_of_app; by right).
Qed.

(** ** Numbers in the setting *)
Lemma itoa_in v : 0 ≤ v < 64 → itoa64 !! Z.to_nat v = Some (des_itoa v) ∧ ascii_to_bin (des_itoa v) = v.
Proof.
  intros Hv.
  assert (H := forall_range 64 (λ v, bool_decide (itoa64 !! Z.to_nat v = Some (des_itoa v)) && (ascii_to_bin (des_itoa v) =? v)) eq_refl v Hv).
  cbn beta in H. by rewrite andb_true_iff, bool_decide_eq_true, Z.eqb_eq in H.
Qed.

Lemma ascii_to_bin_range c : 0 ≤ ascii_to_bin c < 64.
Proof. unfold ascii_to_bin. change 0x3f with (Z.ones 6). rewrite Z.land_ones by lia. by apply Z.mod_pos_bound. Qed.

Lemma to64_lookup v n i : 0 ≤ v → (i < n)%nat → to64 v n !! i = Some (des_itoa (v / 64 ^ Z.of_nat i mod 64)).
Proof.
  revert v i; induction n as [|n IH]; intros v i Hv Hi; [lia|]. cbn [to64]. destruct (land_63 v Hv) as [-> ->].
  destruct i as [|i]; cbn [lookup list_lookup]; [by rewrite Z.pow_0_r, Z.div_1_r|].
  rewrite IH by (lia || apply Z.div_pos; lia). rewrite Z.div_div by lia. do 4 f_equal.
  rewrite Nat2Z.inj_succ, Z.pow_succ_r by lia. done.
Qed.

Lemma setting_number_to64 s v n acc :
  0 ≤ v → 0 ≤ acc → (∀ i, (i < n)%nat → s !! i = to64 v n !! i) →
  setting_number true s n acc = Ok (Some (acc * 64 ^ Z.of_nat n + v mod 64 ^ Z.of_nat n)).
Proof.
  intros Hv Hacc Hs.
  assert (Hs' : ∀ i, (i < n)%nat → s !! i = Some (des_itoa (v / 64 ^ Z.of_nat i mod 64))) by (intros; by rewrite Hs, to64_lookup).
  clear Hs. revert acc Hacc; induction n as [|n IH]; intros acc Hacc.
  { cbn [setting_number]. do 2 f_equal. change (Z.of_nat 0) with 0. rewrite Z.pow_0_r, Z.mod_1_r. lia. }
  cbn [setting_number]. unfold char_at. pose proof (Hs' n ltac:(lia)) as Hn.
  rewrite (arr_get_ok _ n _ (lookup_app_l_Some _ _ _ _ Hn)). cbn [mbind cres_bind].
  set (d := v / 64 ^ Z.of_nat n mod 64) in *. assert (Hd : 0 ≤ d < 64) by by apply Z.mod_pos_bound.
  destruct (itoa_in d Hd) as [H1 H2]. rewrite H2, H1, bool_decide_eq_true_2 by done. cbn [negb andb].
  rewrite Z.shiftl_mul_pow2, (lor_add_swap d acc 6) by lia. change (2 ^ 6) with 64. rewrite IH by (intros; apply Hs' || idtac; lia).
  do 2 f_equal. rewrite Nat2Z.inj_succ, Z.pow_succ_r by lia. rewrite (Z.mul_comm 64 (64 ^ _)), Z.rem_mul_r by lia.
  fold d. lia.
Qed.

Definition salt2 (c0 c1 : ascii) : Z := ascii_to_bin c0 + 64 * ascii_to_bin c1.

Lemma setting_number_2 c0 c1 rest :
  setting_number false (c0 :: c1 :: rest) 2 0 = Ok (Some (salt2 c0 c1)).
Proof.
  pose proof (ascii_to_bin_range c0). pose proof (ascii_to_bin_range c1).
  cbn [setting_number]. unfold char_at, arr_get. cbn [app lookup list_lookup mbind cres_bind andb].
  rewrite Z.shiftl_0_l, Z.lor_0_l, Z.shiftl_mul_pow2, lor_add_swap by lia. unfold salt2. do 2 f_equal. lia.
Qed.

(** ** The text *)
Lemma group_value6 i n x :
  length x = 6%nat → (∀ t, (t < 6)%nat → Z.testbit i (n + 5 - Z.of_nat t) = pick x (S t)) → 0 ≤ n →
  Z.land (Z.shiftr i n) 0x3f = Z.of_nat (msb_value x).
Proof.
  intros Hl Hx Hn. destruct x as [|b0 [|b1 [|b2 [|b3 [|b4 [|b5 [|]]]]]]]; try done.
  assert (Hv : ∀ t, 0 ≤ t < 6 → Z.testbit (Z.land (Z.shiftr i n) 0x3f) t = pick [b0; b1; b2; b3; b4; b5] (S (5 - Z.to_nat t))).
  { intros t Ht. change 0x3f with (Z.ones 6). rewrite Z.land_spec, Z.ones_spec_low, andb_true_r, Z.shiftr_spec, <- Hx by lia.
    f_equal. lia. }
  apply Z.bits_inj'. intros t Ht. destruct (decide (t < 6)) as [H6|H6].
  - rewrite Hv by lia. assert (t = 0 ∨ t = 1 ∨ t = 2 ∨ t = 3 ∨ t = 4 ∨ t = 5) as Hc by lia.
    destruct Hc as [->|[->|[->|[->|[-> | ->]]]]]; by destruct b0, b1, b2, b3, b4, b5.
  - change 0x3f with (Z.ones 6). rewrite Z.land_spec, Z.ones_spec_high, andb_false_r by lia.
    symmetry. apply (bits_word_range 6); [lia| |lia]. by destruct b0, b1, b2, b3, b4, b5.
Qed.

Lemma sextet_value0 i x :
  length x = 6%nat → (∀ t, (t < 6)%nat → Z.testbit i (5 - Z.of_nat t) = pick x (S t)) →
  Z.land i 0x3f = Z.of_nat (msb_value x).
Proof. intros Hl Hx. rewrite <- (Z.shiftr_0_r i). by apply group_value6. Qed.

(** The eleven characters are the 64 bits in order, six at a time. *)
Lemma des_text_sextets b : des_text b = sextets (block_bits b).
Proof.
  assert (H : ∀ i n, 8 ≤ n → Z.testbit (blk_b b i) n = false) by (intros i; apply bits_word_range, blk_b_range; lia).
  unfold des_text, sextets, block_bits, msb_bits.
  cbn [seq fmap list_fmap concat app reverse rev_append rev' take drop Nat.mul Nat.add].
  repeat f_equal; (apply group_value6 || apply sextet_value0); try done;
    intros t Ht; do 6 (destruct t as [|t];
      [repeat first [rewrite Z.lor_spec | rewrite Z.shiftl_spec by done]; cbn [pick lookup list_lookup default from_option];
       unfold id; eval_positions;
       repeat match goal with |- context [Z.testbit ?x ?n] => rewrite (Z.testbit_neg_r x n) by lia end;
       repeat match goal with |- context [Z.testbit (blk_b b ?i) ?n] => rewrite (H i n) by lia end;
       rewrite ?orb_false_r; reflexivity|]); lia.
Qed.

(** ** The two formats *)

(** The settings [crypt_des] accepts: the format, what the hash starts with,
    the salt and the number of encryptions. *)
Inductive des_setting : bytes → bool → bytes → Z → nat → Prop :=
  | traditional c0 c1 rest :
      c0 ≠ "_"%char → ascii_is_unsafe c0 = false → ascii_is_unsafe c1 = false →
      des_setting (c0 :: c1 :: rest) false [c0; c1] (salt2 c0 c1) 25
  | extended n salt rest :
      0 < n < 2 ^ 24 → 0 ≤ salt < 2 ^ 24 →
      des_setting ("_"%char :: to64 n 4 ++ to64 salt 4 ++ rest) true ("_"%char :: to64 n 4 ++ to64 salt 4) salt (Z.to_nat n).

Definition password_key (ext : bool) (key : bytes) : list bool :=
  if ext then long_key key else des_key (take 8 key).

Definition des_crypt (ext : bool) (prefix key : bytes) (salt : Z) (n : nat) : bytes :=
  prefix ++ sextets (des_hash (password_key ext key) salt n).

Lemma des_finish_spec st key done setting salt_size salt n :
  tables_ok st → keys_at st 0 1 (schedule key) → 0 ≤ n →
  setting_number (2 <? salt_size)%nat setting salt_size 0 = Ok (Some salt) →
  des_finish st done setting salt_size n =
    Ok (Some (done ++ take salt_size setting ++ sextets (des_hash key salt (Z.to_nat n)))).
Proof.
  intros Ht Hk Hn Hs. unfold des_finish. rewrite Hs. cbn [mbind cres_bind].
  destruct (keys_ok_cipher st key 0 salt n Ht Hk Hn) as (out & Ho & _ & Hb). rewrite Ho. cbn [mbind cres_bind].
  by rewrite des_text_sextets, Hb.
Qed.

Lemma setting_number_prefix s v rest :
  s = to64 v 4 ++ rest → 0 ≤ v < 2 ^ 24 → setting_number true s 4 0 = Ok (Some v).
Proof.
  intros -> Hv. rewrite (setting_number_to64 _ v) by (lia || (intros; rewrite lookup_app_l by (rewrite to64_length; lia); done)).
  do 2 f_equal. change (64 ^ Z.of_nat 4) with (2 ^ 24). rewrite Z.mod_small; lia.
Qed.

Lemma char_at_0 c s : char_at (c :: s) 0 = Ok c.
Proof. done. Qed.
Lemma char_at_1 c0 c1 s : char_at (c0 :: c1 :: s) 1 = Ok c1.
Proof. done. Qed.

Lemma crypt_des_body_spec st key setting ext prefix salt n :
  tables_ok st → no_nul key → des_setting setting ext prefix salt n →
  crypt_des_body st (of_bytes (key_chars 8 key).1) (key_chars 8 key).2 setting = Ok (Some (des_crypt ext prefix key salt n)).
Proof.
  intros Ht Hn Hs. rewrite key_chars_spec by done. cbn [fst snd]. unfold crypt_des_body, des_crypt, password_key.
  destruct (des_setkey_spec st (of_bytes (key_byte <$> take 8 (key ++ replicate 8 NUL))) Ht) as (st1 & H1 & Ht1 & Hk1).
  rewrite H1. cbn [mbind cres_bind]. rewrite key_block_bits in Hk1.
  destruct Hs as [c0 c1 rest Hc Hu0 Hu1|n salt rest Hn1 Hsalt].
  - rewrite char_at_0. cbn [mbind cres_bind]. rewrite bool_decide_eq_false_2, Hu0, char_at_1 by done.
    cbn [mbind cres_bind]. rewrite Hu1.
    rewrite (des_finish_spec st1 _ [] (c0 :: c1 :: rest) 2 (salt2 c0 c1) 25 Ht1 Hk1 ltac:(lia) (setting_number_2 c0 c1 rest)), des_key_take. done.
  - rewrite char_at_0. cbn [mbind cres_bind]. rewrite bool_decide_eq_true_2 by done.
    rewrite <- (key_block_bits key) in Hk1.
    destruct (key_rest_spec (S (length (drop 8 key))) (length key) st1
      (of_bytes (key_byte <$> take 8 (key ++ replicate 8 NUL))) (drop 8 key) ltac:(lia)
      ltac:(rewrite length_drop; lia)) as (st2 & H2 & Ht2 & Hk2); [|done|exact Hk1|].
    { intros Hin. apply Hn. rewrite <- (take_drop 8 key). apply elem_of_app. by right. }
    rewrite H2, key_block_bits in *. cbn [mbind cres_bind drop]. rewrite drop_0, (setting_number_prefix _ n (to64 salt 4 ++ rest)) by (done || lia).
    cbn [mbind cres_bind]. rewrite (proj2 (Z.eqb_neq n 0)) by lia.
    rewrite drop_app_length', take_app_length' by (by rewrite to64_length).
    rewrite (des_finish_spec st2 _ _ _ 4 salt n Ht2 Hk2 ltac:(lia) (setting_number_prefix _ salt rest eq_refl Hsalt)).
    rewrite take_app_length' by (by rewrite to64_length). unfold long_key. rewrite des_key_take.
    cbn [app]. by rewrite <- app_assoc.
Qed.

(** ** Any password

    The tables are computed whatever the static arrays hold, and every password
    gives a hash. *)
Definition keyed (st : des_state) : Prop := tables_ok st ∧ ∃ key, keys_at st 0 1 (schedule key).

Lemma key_chars_shrink n key : (length (key_chars n key).2 ≤ length key)%nat.
Proof.
  revert key; induction n as [|n IH]; intros key; cbn [key_chars]; [done|].
  destruct (2 * u8 _ =? 0).
  - specialize (IH key). by destruct (key_chars n key).
  - specialize (IH (tail key)). destruct (key_chars n (tail key)). destruct key; cbn in *; lia.
Qed.

Lemma key_chars_shrink_S n c key : c ≠ NUL → (length (key_chars (S n) (c :: key)).2 ≤ length key)%nat.
Proof.
  intros Hc. cbn [key_chars head default from_option tail]. unfold id.
  assert (2 * u8 c =? 0 = false) as ->.
  { apply Z.eqb_neq. intros H. apply Hc. apply (inj u8). change (u8 NUL) with 0. lia. }
  pose proof (key_chars_shrink n key). by destruct (key_chars n key).
Qed.

Lemma key_rest_total fuel st kb key :
  (length key < fuel)%nat → keyed st → ∃ st', key_rest fuel st kb key = Ok st' ∧ keyed st'.
Proof.
  revert st kb key; induction fuel as [|fuel IH]; intros st kb key Hf [Ht [k Hk]]; [lia|]. cbn [key_rest].
  case_bool_decide as Hh; [exists st; split; [done|]; split; [done|by exists k]|].
  destruct (keys_ok_cipher st k kb 0 1 Ht Hk ltac:(lia)) as (out & -> & _ & _). rewrite bind_ok.
  destruct key as [|c key]; [done|]. pose proof (key_chars_shrink_S 7 c key Hh) as Hl.
  destruct (key_chars 8 (c :: key)) as [t rest]. cbn [snd length] in Hl, Hf. cbv zeta.
  destruct (des_setkey_spec st (Z.lxor out (of_bytes t)) Ht) as (st' & -> & Ht' & Hk'). rewrite bind_ok.
  apply IH; [lia|]. split; [done|by eexists].
Qed.

Lemma des_finish_total st done setting salt_size salt n :
  keyed st → 0 ≤ n → setting_number (2 <? salt_size)%nat setting salt_size 0 = Ok (Some salt) →
  ∃ out, des_finish st done setting salt_size n = Ok (Some out).
Proof. intros [Ht [k Hk]] Hn Hs. rewrite (des_finish_spec st k done setting salt_size salt n) by done. by eexists. Qed.

Lemma crypt_des_body_total st kb key setting ext prefix salt n :
  tables_ok st → des_setting setting ext prefix salt n → ∃ out, crypt_des_body st kb key setting = Ok (Some out).
Proof.
  intros Ht Hs. unfold crypt_des_body. destruct (des_setkey_spec st kb Ht) as (st1 & -> & Ht1 & Hk1). rewrite bind_ok.
  assert (Hkd : keyed st1) by (split; [done|by eexists]).
  destruct Hs as [c0 c1 rest Hc Hu0 Hu1|n salt rest Hn1 Hsalt]; rewrite char_at_0, bind_ok.
  - rewrite bool_decide_eq_false_2, Hu0, char_at_1, bind_ok, Hu1 by done.
    apply (des_finish_total _ _ _ _ (salt2 c0 c1)); [done|lia|apply setting_number_2].
  - rewrite bool_decide_eq_true_2 by done.
    destruct (key_rest_total (S (length key)) st1 kb key ltac:(lia) Hkd) as (st2 & -> & Hk2). rewrite bind_ok. cbv zeta. cbn [drop].
    rewrite drop_0, (setting_number_prefix _ n (to64 salt 4 ++ rest)), bind_ok by (done || lia).
    rewrite (proj2 (Z.eqb_neq n 0)), drop_app_length' by (lia || by rewrite to64_length).
    apply (des_finish_total _ _ _ _ salt); [done|lia|by apply (setting_number_prefix _ salt rest)].
Qed.

Lemma crypt_des_total sh key setting buflen ext prefix salt n :
  statics_ok sh → des_setting setting ext prefix salt n → DES_BUFSZ ≤ buflen →
  ∃ out sh', crypt_des sh key setting buflen = Ok (Some out, sh').
Proof.
  intros Hsh Hs Hb. destruct init_des_ok as (st & sh' & Ht & _ & Hinit). unfold crypt_des.
  rewrite (proj2 (Z.ltb_ge _ _)) by lia. destruct (key_chars 8 key) as [t rest]. rewrite Hinit, bind_ok by done. cbv beta iota.
  destruct (crypt_des_body_total st (of_bytes t) rest setting ext prefix salt n Ht Hs) as [out ->]. by eexists _, _.
Qed.

(** What earlier calls left in the static arrays does not matter. *)
Lemma crypt_des_statics sh key setting buflen :
  statics_ok sh → fst <$> crypt_des sh key setting buflen = fst <$> crypt_des statics0 key setting buflen.
Proof.
  intros Hsh. assert (H0 : statics_ok statics0) by by split.
  destruct init_des_ok as (st & sh' & _ & _ & Hinit). unfold crypt_des.
  destruct (buflen <? DES_BUFSZ); [done|]. destruct (key_chars 8 key) as [t rest]. by rewrite !Hinit.
Qed.

Lemma crypt_des_spec sh key setting buflen ext prefix salt n :
  statics_ok sh → no_nul key → des_setting setting ext prefix salt n → DES_BUFSZ ≤ buflen →
  ∃ sh', statics_ok sh' ∧ crypt_des sh key setting buflen = Ok (Some (des_crypt ext prefix key salt n), sh').
Proof.
  intros Hsh Hk Hs Hb. destruct init_des_ok as (st & sh' & Ht & Hsh' & Hinit). exists sh'. split; [done|].
  unfold crypt_des. rewrite (proj2 (Z.ltb_ge _ _)) by lia.
  pose proof (crypt_des_body_spec st key setting ext prefix salt n Ht Hk Hs) as Hbody.
  destruct (key_chars 8 key) as [t rest]. cbn [fst snd] in Hbody. rewrite Hinit by done. cbn [mbind cres_bind]. by rewrite Hbody.
Qed.

(** A setting of the extended format is read from its fifth character back,
    before its length is known. *)
Lemma crypt_des_short sh key s buflen :
  statics_ok sh → (length s < 3)%nat → DES_BUFSZ ≤ buflen → crypt_des sh key ("_"%char :: s) buflen = Fault OutOfBounds.
Proof.
  intros Hsh Hs Hb. destruct init_des_ok as (st & sh' & Ht & _ & Hinit). unfold crypt_des.
  rewrite (proj2 (Z.ltb_ge _ _)) by lia. destruct (key_chars 8 key) as [t rest]. rewrite Hinit, bind_ok by done. cbv beta iota.
  unfold crypt_des_body. destruct (des_setkey_spec st (of_bytes t) Ht) as (st1 & -> & Ht1 & Hk1).
  rewrite bind_ok, char_at_0, bind_ok, bool_decide_eq_true_2 by done.
  destruct (key_rest_total (S (length rest)) st1 (of_bytes t) rest) as (st2 & -> & _); [lia|split; [done|by eexists]|].
  rewrite bind_ok. cbv zeta. cbn [drop setting_number]. rewrite drop_0.
  assert (char_at s 3 = Fault OutOfBounds) as ->; [|done].
  unfold char_at, arr_get. rewrite lookup_ge_None_2; [done|]. rewrite length_app. cbn [length]. lia.
Qed.

(** ** The text determines the bits *)
Lemma msb_value_snoc x b : msb_value (x ++ [b]) = (2 * msb_value x + Nat.b2n b)%nat.
Proof. unfold msb_value. by rewrite foldl_app. Qed.

Lemma msb_value_lt x : (msb_value x < 2 ^ length x)%nat.
Proof.
  induction x as [|b x IH] using rev_ind; [cbn; lia|]. rewrite msb_value_snoc, length_app. cbn [length].
  rewrite Nat.add_1_r, Nat.pow_succ_r'. destruct b; cbn [Nat.b2n]; lia.
Qed.

Lemma msb_value_inj x y : length x = length y → msb_value x = msb_value y → x = y.
Proof.
  revert y; induction x as [|b x IH] using rev_ind; intros y Hl Hv.
  { by destruct y. }
  destruct y as [|b' y _] using rev_ind; [rewrite length_app in Hl; cbn in Hl; lia|].
  rewrite !msb_value_snoc in Hv. rewrite !length_app in Hl. cbn [length] in Hl.
  assert (b = b' ∧ msb_value x = msb_value y) as [<- Hv'] by (destruct b, b'; cbn [Nat.b2n] in Hv; lia || (split; [done|lia])).
  by rewrite (IH y) by lia.
Qed.

Lemma sextets_length x : length (sextets x) = 11%nat.
Proof. unfold sextets. by rewrite length_fmap. Qed.

Lemma sextet_length x i : length x = 64%nat → (i < 11)%nat → length (take 6 (drop (6 * i) (x ++ [false; false]))) = 6%nat.
Proof. intros Hx Hi. rewrite length_take, length_drop, length_app, Hx. cbn [length]. lia. Qed.

Lemma sextet_range x i :
  length x = 64%nat → (i < 11)%nat → 0 ≤ Z.of_nat (msb_value (take 6 (drop (6 * i) (x ++ [false; false])))) < 64.
Proof.
  intros Hx Hi. pose proof (msb_value_lt (take 6 (drop (6 * i) (x ++ [false; false])))) as H.
  rewrite sextet_length in H by done. change (2 ^ 6)%nat with 64%nat in H. lia.
Qed.

Lemma itoa_inj v w : 0 ≤ v < 64 → 0 ≤ w < 64 → des_itoa v = des_itoa w → v = w.
Proof. intros Hv Hw H. by rewrite <- (proj2 (itoa_in v Hv)), H, (proj2 (itoa_in w Hw)). Qed.

Lemma sextets_inj x y : length x = 64%nat → length y = 64%nat → sextets x = sextets y → x = y.
Proof.
  intros Hx Hy H. apply (app_inv_tail [false; false]).
  assert (Hc : ∀ i, (i < 11)%nat → take 6 (drop (6 * i) (x ++ [false; false])) = take 6 (drop (6 * i) (y ++ [false; false]))).
  { intros i Hi. apply (f_equal (λ l, l !! i)) in H. unfold sextets in H. rewrite !list_lookup_fmap, lookup_seq_lt in H by done.
    apply (inj Some) in H. apply itoa_inj in H; [|by apply sextet_range..].
    apply msb_value_inj; [by rewrite !sextet_length|by apply Nat2Z.inj]. }
  apply list_eq. intros j. destruct (decide (j < 66)%nat) as [Hj|Hj].
  - pose proof (Nat.div_mod j 6 ltac:(lia)) as Hd. pose proof (Nat.mod_upper_bound j 6 ltac:(lia)) as Hm.
    specialize (Hc (j / 6)%nat ltac:(apply Nat.Div0.div_lt_upper_bound; lia)).
    apply (f_equal (λ l, l !! (j mod 6)%nat)) in Hc. rewrite !lookup_take_lt, !lookup_drop in Hc by lia.
    by rewrite <- Hd in Hc.
  - by rewrite !lookup_ge_None_2 by (rewrite length_app, ?Hx, ?Hy; cbn [length]; lia).
Qed.

Lemma sextets_no_nul x : length x = 64%nat → NUL ∉ sextets x.
Proof.
  intros Hx (i & Hi & Hin)%list_elem_of_fmap. apply elem_of_seq in Hin.
  destruct (itoa64_lookup _ (sextet_range x i Hx ltac:(lia))) as (c & Hc & Hne). unfold des_itoa in Hi. rewrite Hc in Hi. by subst.
Qed.

Lemma des_hash_length key salt n : length (des_hash key salt n) = 64%nat.
Proof.
  destruct (des_iter salt (schedule key) n (replicate 64 false) eq_refl) as (H & _). unfold des_hash. rewrite H. by rewrite select_length.
Qed.

(** ** Reading the setting of a stored hash *)
Definition is64 (c : ascii) : bool := bool_decide (c ∈ itoa64).
Definition from64 (s : bytes) : Z := foldr (λ c v, ascii_to_bin c + 64 * v) 0 s.

Lemma is64_itoa c : is64 c = true → default NUL (itoa64 !! Z.to_nat (ascii_to_bin c)) = c.
Proof. intros H. destruct c as [[] [] [] [] [] [] [] []]; first [discriminate H|reflexivity]. Qed.

Lemma from64_range s : 0 ≤ from64 s < 64 ^ Z.of_nat (length s).
Proof.
  induction s as [|c s IH]; cbn [from64 foldr length]; [done|]. fold (from64 s). pose proof (ascii_to_bin_range c).
  rewrite Nat2Z.inj_succ, Z.pow_succ_r by lia. lia.
Qed.

Lemma to64_from64 s : forallb is64 s = true → to64 (from64 s) (length s) = s.
Proof.
  induction s as [|c s IH]; [done|]. cbn [forallb]. intros [Hc Hs]%andb_true_iff. cbn [from64 foldr length to64]. fold (from64 s).
  pose proof (ascii_to_bin_range c). pose proof (from64_range s).
  destruct (land_63 (ascii_to_bin c + 64 * from64 s)) as [-> ->]; [lia|].
  replace ((ascii_to_bin c + 64 * from64 s) mod 64) with (ascii_to_bin c) by (rewrite Z.mul_comm, Z_mod_plus_full, Z.mod_small; lia).
  replace ((ascii_to_bin c + 64 * from64 s) / 64) with (from64 s) by (rewrite Z.mul_comm, Z_div_plus_full, Z.div_small; lia).
  by rewrite is64_itoa, IH.
Qed.

(** A hash of one of the two formats, with a salt (and a number of encryptions
    other than zero). *)
Definition des_salt_ok (h : bytes) : bool :=
  if bool_decide (head h = Some "_"%char) then
    let s := drop 1 h in
    (8 <=? length s)%nat && forallb is64 (take 8 s) && negb (from64 (take 4 s) =? 0)
  else match h with
       | c0 :: c1 :: _ => negb (ascii_is_unsafe c0) && negb (ascii_is_unsafe c1)
       | _ => false
       end.

Lemma to64_take4 s : (4 ≤ length s)%nat → forallb is64 (take 4 s) = true → s = to64 (from64 (take 4 s)) 4 ++ drop 4 s.
Proof.
  intros Hl H. apply to64_from64 in H. rewrite length_take_le in H by done. by rewrite H, take_drop.
Qed.

Lemma des_salt_setting h : des_salt_ok h = true → ∃ ext prefix salt n, des_setting h ext prefix salt n.
Proof.
  unfold des_salt_ok. case_bool_decide as Hh.
  - destruct h as [|c s]; [done|]. injection Hh as ->. cbn [drop]. rewrite drop_0, !andb_true_iff, Nat.leb_le, negb_true_iff, Z.eqb_neq.
    intros [[Hl Hs] Hn]. rewrite <- (take_drop 4 (take 8 s)), take_take, forallb_app, andb_true_iff in Hs. destruct Hs as [H1 H2].
    rewrite skipn_firstn_comm in H2. pose proof (from64_range (take 4 s)) as R1. pose proof (from64_range (take 4 (drop 4 s))) as R2.
    rewrite length_take_le in R1, R2 by (rewrite ?length_drop; lia). change (64 ^ Z.of_nat 4) with (2 ^ 24) in R1, R2.
    pose proof (to64_take4 s ltac:(lia) H1) as E1. pose proof (to64_take4 (drop 4 s) ltac:(rewrite length_drop; lia) H2) as E2.
    rewrite E2 in E1. rewrite E1. eexists _, _, _, _. apply extended; lia.
  - destruct h as [|c0 [|c1 rest]]; [done..|]. rewrite andb_true_iff, !negb_true_iff. intros [H0 H1].
    eexists _, _, _, _. apply traditional; [|done..]. by intros ->.
Qed.

(** * Properties *)

(** C32. The DES password hash is DES: for every setting of either format the
    code accepts and every password, whatever the static arrays held before,
    the hash is the setting followed by the eleven characters of the zero
    block, encrypted by textbook salted DES as often as the setting says,
    under the first eight characters of the password or, in the extended
    format, all of them. *)
Theorem crypt_des_is_des (sh : statics) (key setting : bytes) (buflen : Z) (ext : bool) (prefix : bytes) (salt : Z) (n : nat) :
  statics_ok sh → no_nul key → des_setting setting ext prefix salt n → DES_BUFSZ ≤ buflen →
  ∃ sh', statics_ok sh' ∧
    crypt_des sh key setting buflen = Ok (Some (des_crypt ext prefix key salt n), sh').
Proof.
  apply crypt_des_spec.
Qed.

Lemma crypt_des_is_des_witness :
  ∃ sh', statics_ok sh' ∧
    crypt_des statics0 (lit "averylongpassword") (lit "_a...1234") 128 =
      Ok (Some (lit "_a...1234TOuQiFgT1Ig"), sh').
Proof.
  destruct (crypt_des_is_des statics0 (lit "averylongpassword") (lit "_a...1234") 128 true (lit "_a...1234")
    (3 + 64 * 4 + 4096 * 5 + 262144 * 6) 38) as (sh' & Hsh & H).
  - by split.
  - apply (bool_decide_unpack _). by vm_compute.
  - exact (extended 38 (3 + 64 * 4 + 4096 * 5 + 262144 * 6) [] ltac:(lia) ltac:(lia)).
  - unfold DES_BUFSZ. lia.
  - exists sh'. split; [exact Hsh|]. rewrite H. vm_compute. reflexivity.
Defined.

(** * Examples *)
Module Examples.
(** Test vectors of the repository, on the reference. *)
Example des_vector :
  des_crypt false (lit "fn") (lit "test") (salt2 "f"%char "n"%char) 25 = lit "fnNT2T9mSvQWw".
Proof. vm_compute. reflexivity. Qed.

(** Only eight characters of the password count in the traditional format. *)
Example des_truncates :
  password_key false (lit "averylongpassword") = password_key false (lit "averylon").
Proof. reflexivity. Qed.

(** Two calls at once: after [n] phases of this one another thread runs
    [init_des] to its end, in the same static arrays. *)
Definition raced (n : nat) : cres des_state :=
  a ← foldC run_init_step (take n init_steps) (bzero_state, statics0);
  b ← init_des bzero_state a.2;
  a ← foldC run_init_step (drop n init_steps) (a.1, b.2);
  Ok a.1.
Definition raced_hash (n : nat) : cres (option bytes) :=
  st ← raced n; crypt_des_body st (of_bytes (key_chars 8 (lit "test")).1) [] (lit "fnNT2T9mSvQWw").

(** Between the filling of the array and its use for the final permutation:
    the password no longer matches its hash. *)
Example init_des_race : ∃ h, raced_hash 9 = Ok (Some h) ∧ h ≠ lit "fnNT2T9mSvQWw".
Proof. eexists. split; [vm_compute; reflexivity|done]. Qed.
End Examples.
