(* ===== verification/Sha2.v ===== *)
(** SHA-256 and SHA-512 ([crypt/crypt_sha256.c], [crypt/crypt_sha512.c]): the
    digest contexts, fed in pieces of any length and alignment.

    The two files differ in the width of a word, the tables and the rotation
    counts; [sha2] collects these, the operations are written once in terms of
    it and [sha256_*], [sha512_*] are its two instances.  The host is
    little-endian, as for the [SWAP] the sources define there.  A read or write
    outside a buffer is a fault.  [sha2_hash] is the reference: the padded
    message of FIPS 180-2, cut into blocks. *)

From S2P Require Import Prelude.

Local Open Scope Z_scope.

(** * Words in memory *)
Fixpoint le_load (b : bytes) : Z :=
  match b with [] => 0 | c :: b => u8 c + 256 * le_load b end.
Fixpoint le_store (n : nat) (z : Z) : bytes :=
  match n with O => [] | S n => of_u8 z :: le_store n (z / 256) end.

(** Most significant byte first. *)
Definition be_load (b : bytes) : Z := le_load (reverse b).
Definition be_store (n : nat) (z : Z) : bytes := reverse (le_store n z).

(** [memcpy (&dst[off], src, n)] *)
Definition memcpy_at (off : nat) (src : bytes) (n : nat) (dst : bytes) : cres bytes :=
  if (length src <? n)%nat || (length dst <? off + n)%nat then Fault OutOfBounds
  else Ok (take off dst ++ take n src ++ drop (off + n) dst).

(** * The two variants *)
Record sha2 := Sha2 {
  w : Z;                              (* bits of a word *)
  wbytes : nat;                       (* [sizeof] a word *)
  SWAP : Z → Z;
  K : list Z;                         (* one constant per round *)
  H_init : list Z;                    (* [H[0]] to [H[7]] *)
  S0 : Z * Z * Z; S1 : Z * Z * Z;     (* rotation counts *)
  R0 : Z * Z * Z; R1 : Z * Z * Z;     (* two rotation counts and a shift count *)
}.

Definition SWAP32 (n : Z) : Z :=
  Z.lor (Z.lor (Z.lor (wrapu 32 (Z.shiftl n 24)) (wrapu 32 (Z.shiftl (Z.land n 0xff00) 8)))
    (Z.land (Z.shiftr n 8) 0xff00)) (Z.shiftr n 24).

Definition SWAP64 (n : Z) : Z :=
  Z.lor (Z.lor (Z.lor (Z.lor (Z.lor (Z.lor (Z.lor
    (wrapu 64 (Z.shiftl n 56))
    (wrapu 64 (Z.shiftl (Z.land n 0xff00) 40)))
    (wrapu 64 (Z.shiftl (Z.land n 0xff0000) 24)))
    (wrapu 64 (Z.shiftl (Z.land n 0xff000000) 8)))
    (Z.land (Z.shiftr n 8) 0xff000000))
    (Z.land (Z.shiftr n 24) 0xff0000))
    (Z.land (Z.shiftr n 40) 0xff00))
    (Z.shiftr n 56).

Definition sha256_K : list Z :=
  [0x428a_2f98; 0x7137_4491; 0xb5c0_fbcf; 0xe9b5_dba5; 0x3956_c25b; 0x59f1_11f1; 0x923f_82a4; 0xab1c_5ed5;
   0xd807_aa98; 0x1283_5b01; 0x2431_85be; 0x550c_7dc3; 0x72be_5d74; 0x80de_b1fe; 0x9bdc_06a7; 0xc19b_f174;
   0xe49b_69c1; 0xefbe_4786; 0x0fc1_9dc6; 0x240c_a1cc; 0x2de9_2c6f; 0x4a74_84aa; 0x5cb0_a9dc; 0x76f9_88da;
   0x983e_5152; 0xa831_c66d; 0xb003_27c8; 0xbf59_7fc7; 0xc6e0_0bf3; 0xd5a7_9147; 0x06ca_6351; 0x1429_2967;
   0x27b7_0a85; 0x2e1b_2138; 0x4d2c_6dfc; 0x5338_0d13; 0x650a_7354; 0x766a_0abb; 0x81c2_c92e; 0x9272_2c85;
   0xa2bf_e8a1; 0xa81a_664b; 0xc24b_8b70; 0xc76c_51a3; 0xd192_e819; 0xd699_0624; 0xf40e_3585; 0x106a_a070;
   0x19a4_c116; 0x1e37_6c08; 0x2748_774c; 0x34b0_bcb5; 0x391c_0cb3; 0x4ed8_aa4a; 0x5b9c_ca4f; 0x682e_6ff3;
   0x748f_82ee; 0x78a5_636f; 0x84c8_7814; 0x8cc7_0208; 0x90be_fffa; 0xa450_6ceb; 0xbef9_a3f7; 0xc671_78f2].

Definition sha512_K : list Z :=
  [0x428a2f98d728ae22; 0x7137449123ef65cd; 0xb5c0fbcfec4d3b2f; 0xe9b5dba58189dbbc;
   0x3956c25bf348b538; 0x59f111f1b605d019; 0x923f82a4af194f9b; 0xab1c5ed5da6d8118;
   0xd807aa98a3030242; 0x12835b0145706fbe; 0x243185be4ee4b28c; 0x550c7dc3d5ffb4e2;
   0x72be5d74f27b896f; 0x80deb1fe3b1696b1; 0x9bdc06a725c71235; 0xc19bf174cf692694;
   0xe49b69c19ef14ad2; 0xefbe4786384f25e3; 0x0fc19dc68b8cd5b5; 0x240ca1cc77ac9c65;
   0x2de92c6f592b0275; 0x4a7484aa6ea6e483; 0x5cb0a9dcbd41fbd4; 0x76f988da831153b5;
   0x983e5152ee66dfab; 0xa831c66d2db43210; 0xb00327c898fb213f; 0xbf597fc7beef0ee4;
   0xc6e00bf33da88fc2; 0xd5a79147930aa725; 0x06ca6351e003826f; 0x142929670a0e6e70;
   0x27b70a8546d22ffc; 0x2e1b21385c26c926; 0x4d2c6dfc5ac42aed; 0x53380d139d95b3df;
   0x650a73548baf63de; 0x766a0abb3c77b2a8; 0x81c2c92e47edaee6; 0x92722c851482353b;
   0xa2bfe8a14cf10364; 0xa81a664bbc423001; 0xc24b8b70d0f89791; 0xc76c51a30654be30;
   0xd192e819d6ef5218; 0xd69906245565a910; 0xf40e35855771202a; 0x106aa07032bbd1b8;
   0x19a4c116b8d2d0c8; 0x1e376c085141ab53; 0x2748774cdf8eeb99; 0x34b0bcb5e19b48a8;
   0x391c0cb3c5c95a63; 0x4ed8aa4ae3418acb; 0x5b9cca4f7763e373; 0x682e6ff3d6b2b8a3;
   0x748f82ee5defb2fc; 0x78a5636f43172f60; 0x84c87814a1f0ab72; 0x8cc702081a6439ec;
   0x90befffa23631e28; 0xa4506cebde82bde9; 0xbef9a3f7b2c67915; 0xc67178f2e372532b;
   0xca273eceea26619c; 0xd186b8c721c0c207; 0xeada7dd6cde0eb1e; 0xf57d4f7fee6ed178;
   0x06f067aa72176fba; 0x0a637dc5a2c898a6; 0x113f9804bef90dae; 0x1b710b35131c471b;
   0x28db77f523047d84; 0x32caab7b40c72493; 0x3c9ebe0a15c9bebc; 0x431d67c49c100d4c;
   0x4cc5d4becb3e42b6; 0x597f299cfc657e2a; 0x5fcb6fab3ad6faec; 0x6c44198c4a475817].

Definition sha256 : sha2 := {|
  w := 32; wbytes := 4; SWAP := SWAP32; K := sha256_K;
  H_init := [0x6a09e667; 0xbb67ae85; 0x3c6ef372; 0xa54ff53a; 0x510e527f; 0x9b05688c; 0x1f83d9ab; 0x5be0cd19];
  S0 := (2, 13, 22); S1 := (6, 11, 25); R0 := (7, 18, 3); R1 := (17, 19, 10);
|}.

Definition sha512 : sha2 := {|
  w := 64; wbytes := 8; SWAP := SWAP64; K := sha512_K;
  H_init := [0x6a09e667f3bcc908; 0xbb67ae8584caa73b; 0x3c6ef372fe94f82b; 0xa54ff53a5f1d36f1;
             0x510e527fade682d1; 0x9b05688c2b3e6c1f; 0x1f83d9abfb41bd6b; 0x5be0cd19137e2179];
  S0 := (28, 34, 39); S1 := (14, 18, 41); R0 := (1, 8, 7); R1 := (19, 61, 6);
|}.

(** * The context and its operations *)
Section sha2.
Context (V : sha2).

(** Bytes of a block (sixteen words), of the buffer of a context and of a
    digest. *)
Definition block : nat := 16 * wbytes V.
Definition bufsize : nat := 2 * block.
Definition digest_len : nat := 8 * wbytes V.

Record ctx := Ctx {
  H : list Z;
  total : Z * Z;          (* [total[0]], [total[1]] *)
  buflen : nat;
  buffer : bytes;
}.

Definition word (z : Z) : Z := wrapu (w V) z.

Definition CYCLIC (x s : Z) : Z := Z.lor (Z.shiftr x s) (word (Z.shiftl x (w V - s))).
Definition Ch (x y z : Z) : Z := Z.lxor (Z.land x y) (Z.land (word (Z.lnot x)) z).
Definition Maj (x y z : Z) : Z := Z.lxor (Z.lxor (Z.land x y) (Z.land x z)) (Z.land y z).
Definition sigma (r : Z * Z * Z) (x : Z) : Z :=
  let '(i, j, k) := r in Z.lxor (Z.lxor (CYCLIC x i) (CYCLIC x j)) (CYCLIC x k).
Definition sigma_sh (r : Z * Z * Z) (x : Z) : Z :=
  let '(i, j, k) := r in Z.lxor (Z.lxor (CYCLIC x i) (CYCLIC x j)) (Z.shiftr x k).

(** The array [W]: sixteen words of input, then one per round. *)
Definition at_ (W : list Z) (t : nat) : Z := default 0 (W !! t).

Fixpoint load_words (n : nat) (words : bytes) : list Z :=
  match n with
  | O => []
  | S n => SWAP V (le_load (take (wbytes V) words)) :: load_words n (drop (wbytes V) words)
  end.

Definition extend (W : list Z) (t : nat) : list Z :=
  W ++ [word (sigma_sh (R1 V) (at_ W (t - 2)) + at_ W (t - 7) + sigma_sh (R0 V) (at_ W (t - 15)) + at_ W (t - 16))].

Definition expand (W : list Z) : list Z := foldl extend W (seq 16 (length (K V) - 16)).

(** The variables [a] to [h]. *)
Record vars := Vars { a : Z; b : Z; c : Z; d : Z; e : Z; f : Z; g : Z; h : Z }.

Definition load_vars (H : list Z) : vars :=
  Vars (at_ H 0) (at_ H 1) (at_ H 2) (at_ H 3) (at_ H 4) (at_ H 5) (at_ H 6) (at_ H 7).
Definition store_vars (v : vars) : list Z := [a v; b v; c v; d v; e v; f v; g v; h v].

Definition round (W : list Z) (v : vars) (t : nat) : vars :=
  let T1 := word (h v + sigma (S1 V) (e v) + Ch (e v) (f v) (g v) + at_ (K V) t + at_ W t) in
  let T2 := word (sigma (S0 V) (a v) + Maj (a v) (b v) (c v)) in
  Vars (word (T1 + T2)) (a v) (b v) (c v) (word (d v + T1)) (e v) (f v) (g v).

Definition add_vars (v s : vars) : vars :=
  Vars (word (a v + a s)) (word (b v + b s)) (word (c v + c s)) (word (d v + d s))
       (word (e v + e s)) (word (f v + f s)) (word (g v + g s)) (word (h v + h s)).

(** One pass of the loop over the blocks, on its sixteen words. *)
Definition compress (v : vars) (W : list Z) : vars :=
  add_vars (foldl (round (expand W)) v (seq 0 (length (K V)))) v.

(** [while (nwords > 0)]: [words] is what is left of the buffer. *)
Fixpoint block_loop (fuel : nat) (nwords : Z) (words : bytes) (v : vars) : cres vars :=
  match fuel with
  | O => Fault Diverges
  | S fuel =>
      if nwords =? 0 then Ok v
      else if (length words <? block)%nat then Fault OutOfBounds
      else block_loop fuel (wrapu 64 (nwords - 16)) (drop block words) (compress v (load_words 16 words))
  end.

(** [total[0] += len; if (total[0] < len) ++total[1];] *)
Definition count (t : Z * Z) (len : Z) : Z * Z :=
  let t0 := word (t.1 + len) in
  (t0, if t0 <? len then word (t.2 + 1) else t.2).

Definition process_block (buf : bytes) (len : nat) (x : ctx) : cres ctx :=
  let t := count (total x) (Z.of_nat len) in
  v ← block_loop (S (length buf)) (Z.of_nat (len / wbytes V)) buf (load_vars (H x));
  Ok (Ctx (store_vars v) t (buflen x) (buffer x)).

Definition init_ctx (x : ctx) : ctx := Ctx (H_init V) (0, 0) 0 (buffer x).

Definition fillbuf : bytes := of_u8 0x80 :: replicate (block - 1) NUL.

Definition finish_ctx (x : ctx) : cres bytes :=
  let bytes := buflen x in
  let t := count (total x) (Z.of_nat bytes) in
  let room := (block - 2 * wbytes V)%nat in
  let pad := (if (room <=? bytes)%nat then block + room - bytes else room - bytes)%nat in
  buf ← memcpy_at bytes fillbuf pad (buffer x);
  buf ← memcpy_at (bytes + pad + wbytes V) (le_store (wbytes V) (SWAP V (word (Z.shiftl t.1 3)))) (wbytes V) buf;
  buf ← memcpy_at (bytes + pad)
          (le_store (wbytes V) (SWAP V (Z.lor (word (Z.shiftl t.2 3)) (Z.shiftr t.1 (w V - 3))))) (wbytes V) buf;
  x ← process_block buf (bytes + pad + 2 * wbytes V) (Ctx (H x) t bytes buf);
  Ok (concat (List.map (λ z, le_store (wbytes V) (SWAP V z)) (H x))).

(** [sha256_process_bytes (buffer, len, ctx)] in its three parts.  [addr] is the
    address of [data], for the alignment test.  First: bytes are waiting in the
    context; the result is what is left of the input. *)
Definition fill_buffer (addr : Z) (data : bytes) (x : ctx) : cres (Z * bytes * ctx) :=
  if (buflen x =? 0)%nat then Ok (addr, data, x)
  else
    let left_over := buflen x in
    let add := (if (length data <? bufsize - left_over)%nat then length data else bufsize - left_over)%nat in
    buf ← memcpy_at left_over data add (buffer x);
    let n := (left_over + add)%nat in
    x ← (if (block <? n)%nat then
           x ← process_block buf (n - n mod block) (Ctx (H x) (total x) n buf);
           buf ← memcpy_at 0 (drop (n - n mod block) (buffer x)) (n mod block) (buffer x);
           Ok (Ctx (H x) (total x) (n mod block) buf)
         else Ok (Ctx (H x) (total x) n buf));
    Ok (addr + Z.of_nat add, drop add data, x).

Definition UNALIGNED_P (addr : Z) : bool := negb (addr mod Z.of_nat (wbytes V) =? 0).

Fixpoint unaligned_loop (fuel : nat) (data : bytes) (x : ctx) : cres (bytes * ctx) :=
  match fuel with
  | O => Fault Diverges
  | S fuel =>
      if (length data <=? block)%nat then Ok (data, x)
      else
        buf ← memcpy_at 0 data block (buffer x);
        x ← process_block buf block (Ctx (H x) (total x) (buflen x) buf);
        unaligned_loop fuel (drop block data) x
  end.

(** Second: complete blocks of the input. *)
Definition whole_blocks (addr : Z) (data : bytes) (x : ctx) : cres (bytes * ctx) :=
  if (length data <? block)%nat then Ok (data, x)
  else if UNALIGNED_P addr then unaligned_loop (S (length data)) data x
  else
    let n := (length data - length data mod block)%nat in
    x ← process_block data n x;
    Ok (drop n data, x).

(** Third: the rest is kept in the context. *)
Definition keep_rest (data : bytes) (x : ctx) : cres ctx :=
  if (length data =? 0)%nat then Ok x
  else
    let left_over := buflen x in
    buf ← memcpy_at left_over data (length data) (buffer x);
    let left_over := (left_over + length data)%nat in
    let x := Ctx (H x) (total x) (buflen x) buf in
    if (block <=? left_over)%nat then
      x ← process_block (buffer x) block x;
      let left_over := (left_over - block)%nat in
      buf ← memcpy_at 0 (drop block (buffer x)) left_over (buffer x);
      Ok (Ctx (H x) (total x) left_over buf)
    else Ok (Ctx (H x) (total x) left_over (buffer x)).

Definition process_bytes (addr : Z) (data : bytes) (x : ctx) : cres ctx :=
  '(addr, data, x) ← fill_buffer addr data x;
  '(data, x) ← whole_blocks addr data x;
  keep_rest data x.

(** * Reference definition (FIPS 180-2, section 5 and 6) *)
Definition zeros (n : nat) : nat := (block - (n + 1 + 2 * wbytes V) mod block) mod block.

Definition pad_message (m : bytes) : bytes :=
  m ++ of_u8 0x80 :: replicate (zeros (length m)) NUL ++ be_store (2 * wbytes V) (8 * Z.of_nat (length m)).

(** The sixteen words of a block. *)
Fixpoint be_words (n : nat) (m : bytes) : list Z :=
  match n with
  | O => []
  | S n => be_load (take (wbytes V) m) :: be_words n (drop (wbytes V) m)
  end.

Fixpoint absorb (nblocks : nat) (m : bytes) (v : vars) : vars :=
  match nblocks with
  | O => v
  | S k => absorb k (drop block m) (compress v (be_words 16 m))
  end.

Definition sha2_hash (m : bytes) : bytes :=
  let p := pad_message m in
  concat (List.map (be_store (wbytes V)) (store_vars (absorb (length p / block) p (load_vars (H_init V))))).
End sha2.

(** The functions of the two files. *)
Definition sha256_process_block := process_block sha256.
Definition sha256_init_ctx := init_ctx sha256.
Definition sha256_finish_ctx := finish_ctx sha256.
Definition sha256_process_bytes := process_bytes sha256.
Definition sha512_process_block := process_block sha512.
Definition sha512_init_ctx := init_ctx sha512.
Definition sha512_finish_ctx := finish_ctx sha512.
Definition sha512_process_bytes := process_bytes sha512.

Arguments block : simpl never.
Arguments bufsize : simpl never.
Arguments process_block : simpl never.
Arguments memcpy_at : simpl never.

(** * Lemmas: words in memory *)
Lemma le_load_range b : 0 ≤ le_load b < 256 ^ Z.of_nat (length b).
Proof.
  induction b as [|c b IH]; cbn [le_load length]; [lia|].
  rewrite Nat2Z.inj_succ, Z.pow_succ_r by lia. pose proof (u8_range c). lia.
Qed.

Lemma length_le_store n z : length (le_store n z) = n.
Proof. revert z; induction n as [|n IH]; intros z; simpl; [done|]. by rewrite IH. Qed.

Lemma le_store_load b : le_store (length b) (le_load b) = b.
Proof.
  induction b as [|c b IH]; cbn [le_load length le_store]; [done|]. pose proof (u8_range c).
  rewrite (Z.mul_comm 256), Z.div_add, (Z.div_small (u8 c)), Z.add_0_l, IH by lia. f_equal.
  apply (inj u8). rewrite u8_of_u8, Z.mod_add, Z.mod_small by lia. done.
Qed.

Lemma le_load_store n z : le_load (le_store n z) = z mod 256 ^ Z.of_nat n.
Proof.
  revert z; induction n as [|n IH]; intros z; cbn [le_load le_store]; [by rewrite Z.mod_1_r|].
  rewrite IH, u8_of_u8, Nat2Z.inj_succ, Z.pow_succ_r by lia.
  by rewrite Z.rem_mul_r by lia.
Qed.

Lemma length_be_store n z : length (be_store n z) = n.
Proof. unfold be_store. by rewrite length_reverse, length_le_store. Qed.

Lemma be_load_store n z : 0 ≤ z < 256 ^ Z.of_nat n → be_load (be_store n z) = z.
Proof. intros Hz. unfold be_load, be_store. by rewrite reverse_involutive, le_load_store, Z.mod_small. Qed.

Lemma le_store_app i j z : le_store (i + j) z = le_store i z ++ le_store j (z / 256 ^ Z.of_nat i).
Proof.
  revert z; induction i as [|i IH]; intros z; cbn [Nat.add le_store app].
  - by rewrite Z.div_1_r.
  - rewrite IH, Nat2Z.inj_succ, Z.pow_succ_r, Z.div_div by lia. done.
Qed.

Lemma le_store_mod n z : le_store n (z mod 256 ^ Z.of_nat n) = le_store n z.
Proof. rewrite <- le_load_store. rewrite <- (length_le_store n z) at 1. apply le_store_load. Qed.

(** Eight bits of a word, and the terms of [SWAP] that move them. *)
Definition byte_at (n i : Z) : Z := (n / 2 ^ i) mod 256.

Lemma byte_at_range n i : 0 ≤ byte_at n i < 256.
Proof. by apply Z.mod_pos_bound. Qed.

Lemma land_byte n k m : 0 ≤ k → m = Z.shiftl 0xff k → Z.land n m = byte_at n k * 2 ^ k.
Proof.
  intros Hk ->. unfold byte_at. rewrite <- Z.shiftl_mul_pow2, <- Z.shiftr_div_pow2 by done.
  change 256 with (2 ^ 8). rewrite <- Z.land_ones by lia. change 0xff with (Z.ones 8).
  apply Z.bits_inj'. intros i Hi. rewrite !Z.land_spec, !Z.shiftl_spec by done.
  destruct (decide (i < k)).
  - by rewrite !(Z.testbit_neg_r _ (i - k)), andb_false_r by lia.
  - rewrite Z.land_spec, Z.shiftr_spec by lia. by replace (i - k + k) with i by lia.
Qed.

Lemma left_byte bits n m k s j :
  0 ≤ k → 0 ≤ s → m = Z.shiftl 0xff k → j = k + s → j + 8 ≤ bits →
  wrapu bits (Z.shiftl (Z.land n m) s) = byte_at n k * 2 ^ j.
Proof.
  intros Hk Hs Hm -> Hb. rewrite (land_byte n k m), Z.shiftl_mul_pow2, <- Z.mul_assoc, <- Z.pow_add_r by done.
  pose proof (byte_at_range n k). apply wrapu_id. split; [apply Z.mul_nonneg_nonneg; lia|].
  apply Z.lt_le_trans with (2 ^ (8 + (k + s))); [|apply Z.pow_le_mono_r; lia].
  rewrite (Z.pow_add_r 2 8) by lia. apply Z.mul_lt_mono_pos_r; lia.
Qed.

Lemma right_byte n m k s j :
  0 ≤ k → 0 ≤ s → m = Z.shiftl 0xff k → j = k + s → Z.land (Z.shiftr n s) m = byte_at n j * 2 ^ k.
Proof.
  intros Hk Hs Hm ->. rewrite (land_byte _ k m) by done. unfold byte_at.
  by rewrite Z.shiftr_div_pow2, Z.div_div, <- Z.pow_add_r, (Z.add_comm s) by lia.
Qed.

Lemma top_byte bits n k : 8 ≤ bits → k = bits - 8 → wrapu bits (Z.shiftl n k) = byte_at n 0 * 2 ^ k.
Proof.
  intros Hb ->. unfold wrapu, byte_at. rewrite Z.shiftl_mul_pow2, Z.div_1_r by lia.
  replace bits with (8 + (bits - 8)) at 2 by lia.
  by rewrite Z.pow_add_r, Z.mul_mod_distr_r by lia.
Qed.

Lemma low_byte bits n k : 8 ≤ bits → 0 ≤ n < 2 ^ bits → k = bits - 8 → Z.shiftr n k = byte_at n k * 2 ^ 0.
Proof.
  intros Hb Hn ->. unfold byte_at. rewrite Z.shiftr_div_pow2, Z.mul_1_r by lia. rewrite Z.mod_small; [done|].
  split; [apply Z.div_pos; lia|]. apply Z.div_lt_upper_bound; [lia|].
  assert (2 ^ bits = 2 ^ (bits - 8) * 256) as Hp; [|lia].
  change 256 with (2 ^ 8). rewrite <- Z.pow_add_r by lia. f_equal. lia.
Qed.

(** One more byte below those that are there. *)
Lemma lor_next q x j k :
  0 ≤ j → k = j + 8 → 0 ≤ x < 256 → Z.lor (q * 2 ^ k) (x * 2 ^ j) = (q * 256 + x) * 2 ^ j.
Proof.
  intros Hj -> Hx. assert (2 ^ (j + 8) = 256 * 2 ^ j) as Hp by (rewrite Z.pow_add_r by lia; lia).
  rewrite lor_add_swap by nia. rewrite Hp. nia.
Qed.

Lemma byte_at_load b i k : k = 8 * Z.of_nat i → byte_at (le_load b) k = default 0 (u8 <$> b !! i).
Proof.
  intros ->. unfold byte_at. revert i; induction b as [|x b IH]; intros i; cbn [le_load].
  - rewrite Z.div_0_l by lia. done.
  - pose proof (u8_range x). destruct i as [|i].
    + cbn. rewrite Z.div_1_r, Z.mul_comm, Z.mod_add, Z.mod_small by lia. done.
    + cbn [lookup list_lookup]. rewrite <- IH. replace (8 * Z.of_nat (S i)) with (8 + 8 * Z.of_nat i) by lia.
      rewrite Z.pow_add_r, <- Z.div_div by lia. change (2 ^ 8) with 256.
      by rewrite (Z.mul_comm 256), Z.div_add, (Z.div_small (u8 x)), Z.add_0_l by lia.
Qed.

Lemma swap32_load b : length b = 4%nat → SWAP32 (le_load b) = be_load b.
Proof.
  intros Hb. pose proof (le_load_range b) as Hr. rewrite Hb in Hr. change (256 ^ Z.of_nat 4) with (2 ^ 32) in Hr.
  unfold SWAP32. rewrite (low_byte 32 _ 24) by (lia || done). rewrite (top_byte 32 _ 24) by (lia || reflexivity).
  rewrite (left_byte 32 _ _ 8 8 16), (right_byte _ _ 8 8 16) by (lia || reflexivity).
  rewrite !lor_next by (lia || apply byte_at_range).
  rewrite (byte_at_load b 0 0), (byte_at_load b 1 8), (byte_at_load b 2 16), (byte_at_load b 3 24) by done.
  destruct b as [|x0 [|x1 [|x2 [|x3 [|]]]]]; try done. unfold be_load. cbn. lia.
Qed.

Lemma swap64_load b : length b = 8%nat → SWAP64 (le_load b) = be_load b.
Proof.
  intros Hb. pose proof (le_load_range b) as Hr. rewrite Hb in Hr. change (256 ^ Z.of_nat 8) with (2 ^ 64) in Hr.
  unfold SWAP64. rewrite (low_byte 64 _ 56) by (lia || done). rewrite (top_byte 64 _ 56) by (lia || reflexivity).
  rewrite (left_byte 64 _ _ 8 40 48), (left_byte 64 _ _ 16 24 40), (left_byte 64 _ _ 24 8 32) by (lia || reflexivity).
  rewrite (right_byte _ _ 24 8 32), (right_byte _ _ 16 24 40), (right_byte _ _ 8 40 48) by (lia || reflexivity).
  rewrite !lor_next by (lia || apply byte_at_range).
  rewrite (byte_at_load b 0 0), (byte_at_load b 1 8), (byte_at_load b 2 16), (byte_at_load b 3 24),
    (byte_at_load b 4 32), (byte_at_load b 5 40), (byte_at_load b 6 48), (byte_at_load b 7 56) by done.
  destruct b as [|x0 [|x1 [|x2 [|x3 [|x4 [|x5 [|x6 [|x7 [|]]]]]]]]]; try done. unfold be_load. cbn. lia.
Qed.

(** What the operations need to know of a variant. *)
Record sha2_laws (V : sha2) : Prop := {
  wbytes_pos : (0 < wbytes V)%nat;
  w_bytes : w V = 8 * Z.of_nat (wbytes V);
  w_64 : w V ≤ 64;
  SWAP_load b : length b = wbytes V → SWAP V (le_load b) = be_load b;
}.

Lemma sha256_laws : sha2_laws sha256.
Proof. constructor; [simpl; lia|done|done|apply swap32_load]. Qed.
Lemma sha512_laws : sha2_laws sha512.
Proof. constructor; [simpl; lia|done|done|apply swap64_load]. Qed.

Lemma memcpy_at_ok off src n dst :
  (n ≤ length src)%nat → (off + n ≤ length dst)%nat →
  memcpy_at off src n dst = Ok (take off dst ++ take n src ++ drop (off + n) dst).
Proof. intros. unfold memcpy_at. rewrite !(proj2 (Nat.ltb_ge _ _)) by lia. done. Qed.

Lemma length_memcpy off (src dst : bytes) n :
  (n ≤ length src)%nat → (off + n ≤ length dst)%nat →
  length (take off dst ++ take n src ++ drop (off + n) dst) = length dst.
Proof. intros. rewrite !length_app, !length_take, length_drop. lia. Qed.

(** * The context and the message it stands for *)
Section proofs.
Context (V : sha2) (L : sha2_laws V).

Local Abbreviation blk := (block V).
Local Abbreviation wb := (wbytes V).

Lemma block_pos : (0 < blk)%nat.
Proof. unfold block. pose proof (wbytes_pos V L). lia. Qed.

Lemma w_pow : 2 ^ w V = 256 ^ Z.of_nat wb.
Proof. rewrite (w_bytes V L). rewrite (Z.pow_mul_r 2 8) by lia. done. Qed.

Lemma word_range z : 0 ≤ word V z < 2 ^ w V.
Proof. apply wrapu_range. rewrite (w_bytes V L). lia. Qed.

(** A word written by the program is in big-endian order. *)
Lemma swap_store z : 0 ≤ z < 2 ^ w V → le_store wb (SWAP V z) = be_store wb z.
Proof.
  intros Hz. rewrite w_pow in Hz.
  rewrite <- (be_load_store wb z Hz) at 1. unfold be_load.
  rewrite (SWAP_load V L) by by rewrite length_reverse, length_be_store.
  unfold be_load. rewrite reverse_involutive. rewrite <- (length_be_store wb z) at 1. apply le_store_load.
Qed.

Lemma load_words_be n m : (n * wb ≤ length m)%nat → load_words V n m = be_words V n m.
Proof.
  revert m; induction n as [|n IH]; intros m Hm; cbn [load_words be_words]; [done|].
  rewrite IH by (rewrite length_drop; lia). rewrite (SWAP_load V L) by (rewrite length_take; lia). done.
Qed.

Lemma be_words_app n m k : (n * wb ≤ length m)%nat → be_words V n (m ++ k) = be_words V n m.
Proof.
  revert m; induction n as [|n IH]; intros m Hm; cbn [be_words]; [done|].
  rewrite take_app_le, drop_app_le, IH by (rewrite ?length_drop; lia). done.
Qed.

Lemma absorb_app n m k v : (n * blk ≤ length m)%nat → absorb V n (m ++ k) v = absorb V n m v.
Proof.
  revert m v; induction n as [|n IH]; intros m v Hm; cbn [absorb]; [done|].
  rewrite be_words_app by (unfold block in *; lia). rewrite drop_app_le by lia.
  apply IH. rewrite length_drop. lia.
Qed.

Lemma absorb_add i j m v : absorb V (i + j) m v = absorb V j (drop (i * blk) m) (absorb V i m v).
Proof.
  revert m v; induction i as [|i IH]; intros m v; cbn [absorb Nat.add Nat.mul]; [by rewrite drop_0|].
  by rewrite IH, drop_drop.
Qed.

Lemma block_loop_absorb fuel n words v :
  (n < fuel)%nat → (n * blk ≤ length words)%nat → 16 * Z.of_nat n < 2 ^ 64 →
  block_loop V fuel (16 * Z.of_nat n) words v = Ok (absorb V n words v).
Proof.
  revert n words v; induction fuel as [|fuel IH]; intros n words v Hf Hl Hn; [lia|]. cbn [block_loop].
  destruct n as [|n]; [done|]. rewrite (proj2 (Z.eqb_neq _ _)) by lia.
  rewrite (proj2 (Nat.ltb_ge _ _)) by lia.
  replace (16 * Z.of_nat (S n) - 16) with (16 * Z.of_nat n) by lia. rewrite wrapu_id by lia.
  rewrite IH by (rewrite ?length_drop; lia). cbn [absorb].
  by rewrite load_words_be by (unfold block in *; lia).
Qed.

(** The two words that count bytes. *)
Definition split_total (t : Z) : Z * Z := (word V t, word V (t / 2 ^ w V)).

Lemma count_split t len :
  0 ≤ t → 0 ≤ len < 2 ^ w V → count V (split_total t) len = split_total (t + len).
Proof.
  intros Ht Hlen. unfold count, split_total, word, wrapu. cbn [fst snd].
  set (W := 2 ^ w V) in *. assert (0 < W) by lia.
  rewrite Z.add_mod_idemp_l by lia. pose proof (Z.div_mod t W). pose proof (Z.mod_pos_bound t W).
  assert ((t mod W + len < W ∧ (t + len) mod W = t mod W + len ∧ (t + len) / W = t / W) ∨
          (W ≤ t mod W + len ∧ (t + len) mod W = t mod W + len - W ∧ (t + len) / W = t / W + 1)) as Hc.
  { destruct (decide (t mod W + len < W)); [left|right]; (split; [lia|split]).
    - symmetry. apply Z.mod_unique with (t / W); lia.
    - symmetry. apply Z.div_unique with (t mod W + len); lia.
    - symmetry. apply Z.mod_unique with (t / W + 1); lia.
    - symmetry. apply Z.div_unique with (t mod W + len - W); lia. }
  destruct Hc as [(Hc & -> & ->)|(Hc & -> & ->)]; f_equal.
  - by rewrite (proj2 (Z.ltb_ge _ _)) by lia.
  - rewrite (proj2 (Z.ltb_lt _ _)) by lia. by rewrite Z.add_mod_idemp_l by lia.
Qed.

(** The first [n] blocks of [m] have been absorbed. *)
Record hashed (x : ctx) (n : nat) (m : bytes) : Prop := {
  hashed_le : (n * blk ≤ length m)%nat;
  hashed_H : load_vars (H x) = absorb V n m (load_vars (H_init V));
  hashed_total : total x = split_total (Z.of_nat (n * blk));
  hashed_buffer : length (buffer x) = bufsize V;
}.

(** A context stands for the message [m]: whole blocks are absorbed and at most
    one block is waiting in the buffer. *)
Definition stands_for (x : ctx) (m : bytes) : Prop :=
  ∃ n, hashed x n m ∧ buflen x = (length m - n * blk)%nat ∧ (buflen x ≤ blk)%nat ∧
       take (buflen x) (buffer x) = drop (n * blk) m.

Lemma hashed_app x n m k : hashed x n m → hashed x n (m ++ k).
Proof.
  intros [Hle HH Ht Hb]. constructor; [rewrite length_app; lia| |done|done].
  by rewrite absorb_app.
Qed.

(** Only the hash and the count matter. *)
Lemma hashed_same x y n m :
  hashed x n m → H y = H x → total y = total x → length (buffer y) = length (buffer x) → hashed y n m.
Proof. intros [Hle HH Ht Hb] EH Et Eb. constructor; by rewrite ?EH, ?Et, ?Eb. Qed.

Lemma vars_roundtrip v : load_vars (store_vars v) = v.
Proof. by destruct v. Qed.

(** [process_block] on [k] blocks. *)
Lemma process_block_eq x buf k :
  (k * blk ≤ length buf)%nat → Z.of_nat (k * blk) < 2 ^ w V →
  process_block V buf (k * blk) x =
    Ok (Ctx (store_vars (absorb V k buf (load_vars (H x)))) (count V (total x) (Z.of_nat (k * blk))) (buflen x) (buffer x)).
Proof.
  intros Hk Hw. unfold process_block. pose proof block_pos as Hpos. pose proof (wbytes_pos V L).
  assert (2 ^ w V ≤ 2 ^ 64) by (apply Z.pow_le_mono_r; [lia|apply (w_64 V L)]).
  assert (Hdiv : (k * blk / wb = 16 * k)%nat).
  { unfold block. replace (k * (16 * wb))%nat with (16 * k * wb)%nat by lia. apply Nat.div_mul. lia. }
  rewrite Hdiv. replace (Z.of_nat (16 * k)) with (16 * Z.of_nat k) by lia.
  rewrite block_loop_absorb; [done|nia|done|unfold block in *; nia].
Qed.

(** The next [k] blocks of the message. *)
Lemma process_block_hashed x n m buf k tail :
  hashed x n m → (k * blk ≤ length buf)%nat → Z.of_nat (k * blk) < 2 ^ w V →
  drop (n * blk) m = take (k * blk) buf ++ tail →
  ∃ x', process_block V buf (k * blk) x = Ok x' ∧ hashed x' (n + k) m ∧
        buflen x' = buflen x ∧ buffer x' = buffer x.
Proof.
  intros [Hle HH Ht Hb] Hk Hw Hm. rewrite process_block_eq by done.
  eexists; split; [done|]. split; [|done]. constructor; [| | |done].
  - apply (f_equal length) in Hm. rewrite length_drop, length_app, length_take in Hm. lia.
  - cbn [H]. rewrite vars_roundtrip, absorb_add, HH, Hm.
    rewrite absorb_app by (rewrite length_take; lia).
    rewrite <- (take_drop (k * blk) buf) at 1. rewrite absorb_app by (rewrite length_take; lia). done.
  - cbn [total]. rewrite Ht, count_split; [by rewrite <- Nat2Z.inj_add, <- Nat.mul_add_distr_r|apply Nat2Z.is_nonneg|split; [apply Nat2Z.is_nonneg|done]].
Qed.

Lemma init_stands_for x : length (buffer x) = bufsize V → stands_for (init_ctx V x) [].
Proof.
  intros Hb. exists 0%nat. split; [|split; [done|split; [apply Nat.le_0_l|done]]].
  constructor; [apply Nat.le_0_l|done|cbn [total init_ctx]|done].
  unfold split_total, word, wrapu. cbn [Nat.mul]. by rewrite Zdiv_0_l, Zmod_0_l.
Qed.

Lemma mod_block n : ∃ q, (n - n mod blk)%nat = (q * blk)%nat ∧ n = (q * blk + n mod blk)%nat ∧ (n mod blk < blk)%nat.
Proof.
  pose proof block_pos as Hpos. pose proof (Nat.div_mod_eq n blk). pose proof (Nat.mod_upper_bound n blk).
  exists (n / blk)%nat. lia.
Qed.

(** Input copied behind what is waiting. *)
Lemma append_buffer x n m data add :
  hashed x n m → buflen x = (length m - n * blk)%nat → take (buflen x) (buffer x) = drop (n * blk) m →
  (add ≤ length data)%nat → (buflen x + add ≤ bufsize V)%nat →
  ∃ buf, memcpy_at (buflen x) data add (buffer x) = Ok buf ∧ length buf = bufsize V ∧
    take (buflen x + add) buf = drop (n * blk) (m ++ take add data) ∧
    (length (m ++ take add data) = n * blk + (buflen x + add))%nat ∧
    ∀ k, hashed (Ctx (H x) (total x) k buf) n (m ++ take add data).
Proof.
  intros Hh Hn Hbuf Hl Hs. pose proof (hashed_buffer _ _ _ Hh) as Hlb.
  rewrite memcpy_at_ok by lia. eexists; split; [done|].
  assert (length (take (buflen x) (buffer x) ++ take add data ++ drop (buflen x + add) (buffer x)) = bufsize V) as Hl'
    by (by rewrite length_memcpy by lia).
  split; [done|]. split_and!.
  - rewrite app_assoc, take_app_length' by (rewrite length_app, !length_take; lia).
    by rewrite drop_app_le, Hbuf by apply Hh.
  - pose proof (hashed_le _ _ _ Hh). rewrite length_app, length_take. lia.
  - intros k. apply (hashed_same x); [by apply hashed_app|done|done|]. cbn [buffer]. by rewrite Hl'.
Qed.

(** Whole blocks at the front of the buffer are absorbed and what is behind
    them moves to the front. *)
Lemma flush_blocks x n m q r :
  hashed x n m → (q * blk + r ≤ bufsize V)%nat → (r ≤ blk)%nat → 2 * Z.of_nat blk < 2 ^ w V →
  take (q * blk + r) (buffer x) = drop (n * blk) m → length m = (n * blk + (q * blk + r))%nat →
  ∃ x' buf, process_block V (buffer x) (q * blk) x = Ok x' ∧
    memcpy_at 0 (drop (q * blk) (buffer x')) r (buffer x') = Ok buf ∧
    stands_for (Ctx (H x') (total x') r buf) m.
Proof.
  intros Hh Hs Hr Hw Hm Hl. pose proof (hashed_buffer _ _ _ Hh) as Hlb.
  destruct (process_block_hashed x n m (buffer x) q (take r (drop (q * blk) (buffer x))) Hh) as (x' & -> & Hx & _ & Hxb).
  { lia. } { unfold bufsize in *. nia. } { by rewrite <- Hm, take_take_drop. }
  exists x'. rewrite Hxb, memcpy_at_ok by (rewrite ?length_drop; lia). eexists; split; [done|]. split; [done|].
  exists (n + q)%nat. cbn [buflen buffer]. split_and!; [|lia|done|].
  - apply (hashed_same x'); [done|done|done|]. cbn [buffer]. rewrite Hxb.
    rewrite length_memcpy; [done|rewrite length_drop; lia|lia].
  - rewrite take_0. cbn [app]. rewrite take_app_length' by (rewrite length_take, length_drop; lia).
    rewrite Nat.mul_add_distr_r, <- drop_drop, <- Hm, skipn_firstn_comm. f_equal. lia.
Qed.

(** ** The three parts of [process_bytes] *)
Lemma fill_buffer_ok addr data x m :
  stands_for x m → 2 * Z.of_nat blk < 2 ^ w V →
  ∃ addr' k x', fill_buffer V addr data x = Ok (addr', drop k data, x') ∧ stands_for x' (m ++ take k data) ∧
    (drop k data = [] ∨ buflen x' = 0%nat).
Proof.
  intros (n & Hh & Hn & Hbl & Hbuf) Hw. unfold fill_buffer.
  destruct (buflen x =? 0)%nat eqn:E0.
  { apply Nat.eqb_eq in E0. exists addr, 0%nat, x. rewrite drop_0, take_0, app_nil_r.
    split; [done|]. split; [by exists n|by right]. }
  pose proof block_pos as Hpos. set (add := (if (length data <? bufsize V - buflen x)%nat then _ else _)).
  assert (Hadd : (add ≤ length data ∧ buflen x + add ≤ bufsize V)%nat ∧
                 (add = length data ∨ buflen x + add = bufsize V)%nat).
  { unfold add. destruct (Nat.ltb_spec (length data) (bufsize V - buflen x)); unfold bufsize in *; lia. }
  clearbody add. destruct Hadd as [[Hl Hs] Hor].
  destruct (append_buffer x n m data add) as (buf & -> & Hlb & Hpre & Hlm & Hh'); [done..|]. cbn [mbind cres_bind].
  exists (addr + Z.of_nat add), add. destruct (blk <? buflen x + add)%nat eqn:Eb.
  - apply Nat.ltb_lt in Eb. destruct (mod_block (buflen x + add)) as (q & -> & Hq & Hm).
    destruct (flush_blocks (Ctx (H x) (total x) (buflen x + add) buf) n (m ++ take add data) q
      ((buflen x + add) mod blk)) as (x' & buf' & Hx & Hb' & Hst); [done|lia|lia|done|by rewrite <- Hq|lia|].
    cbn [buffer] in Hx. rewrite Hx. cbn [mbind cres_bind]. rewrite Hb'. cbn [mbind cres_bind].
    eexists; split; [done|]. split; [done|]. destruct Hor as [->|Hor]; [by left; rewrite drop_all|right].
    cbn [buflen]. rewrite Hor. unfold bufsize. apply Nat.Div0.mod_mul.
  - apply Nat.ltb_ge in Eb. cbn [mbind cres_bind]. eexists; split; [done|].
    split; [|left; apply drop_ge; unfold bufsize in *; lia].
    exists n. split_and!; [apply Hh'| |done|done]. cbn [buflen]. lia.
Qed.

(** A context with an empty buffer has absorbed everything. *)
Lemma empty_buffer x m :
  stands_for x m → buflen x = 0%nat → ∃ n, hashed x n m ∧ length m = (n * blk)%nat.
Proof. intros (n & Hh & Hn & _) H0. exists n. split; [done|]. pose proof (hashed_le _ _ _ Hh). lia. Qed.

Lemma stands_for_whole x n m : hashed x n m → length m = (n * blk)%nat → buflen x = 0%nat → stands_for x m.
Proof.
  intros Hh Hl H0. exists n. rewrite H0, take_0. split_and!; [done|lia|lia|]. by rewrite drop_ge by lia.
Qed.

(** Whole blocks of the input, from the buffer of the caller. *)
Lemma absorb_input x m data buf k :
  stands_for x m → buflen x = 0%nat → (k * blk ≤ length data)%nat → Z.of_nat (k * blk) < 2 ^ w V →
  (k * blk ≤ length buf)%nat → take (k * blk) buf = take (k * blk) data →
  ∃ x', process_block V buf (k * blk) x = Ok x' ∧ stands_for x' (m ++ take (k * blk) data) ∧
    buflen x' = 0%nat ∧ buffer x' = buffer x.
Proof.
  intros Hx H0 Hl Hw Hb Ht. destruct (empty_buffer x m Hx H0) as (n & Hh & Hn).
  destruct (process_block_hashed x n (m ++ take (k * blk) data) buf k []) as (x' & -> & Hx' & Hl' & Hb').
  { by apply hashed_app. } { done. } { done. }
  { rewrite <- Hn, drop_app_length, app_nil_r. done. }
  exists x'. split; [done|]. split; [|by rewrite Hl', H0].
  apply stands_for_whole with (n + k)%nat; [done| |by rewrite Hl'].
  rewrite length_app, length_take, Hn. lia.
Qed.

Lemma unaligned_loop_ok fuel data x m :
  stands_for x m → buflen x = 0%nat → (length data < fuel)%nat → 2 * Z.of_nat blk < 2 ^ w V →
  ∃ k x', unaligned_loop V fuel data x = Ok (drop k data, x') ∧ stands_for x' (m ++ take k data) ∧
    buflen x' = 0%nat ∧ (length (drop k data) ≤ blk)%nat.
Proof.
  intros Hx H0 Hf Hw. pose proof block_pos as Hpos. revert data x m Hx H0 Hf.
  induction fuel as [|fuel IH]; intros data x m Hx H0 Hf; [lia|]. cbn [unaligned_loop].
  destruct (length data <=? blk)%nat eqn:E.
  { apply Nat.leb_le in E. exists 0%nat, x. rewrite drop_0, take_0, app_nil_r. done. }
  apply Nat.leb_gt in E. destruct (empty_buffer x m Hx H0) as (n & Hh & Hn).
  pose proof (hashed_buffer _ _ _ Hh) as Hlb.
  rewrite memcpy_at_ok by (rewrite ?Hlb; unfold bufsize; lia). cbn [mbind cres_bind]. rewrite take_0. cbn [app Nat.add].
  set (buf := take blk data ++ _).
  assert (length buf = length (buffer x)) as Hb by (unfold buf; rewrite length_app, length_take, length_drop, Hlb; unfold bufsize; lia).
  destruct (absorb_input (Ctx (H x) (total x) (buflen x) buf) m data buf 1) as (x' & Hp & Hx' & H0' & _).
  { apply stands_for_whole with n; [by apply (hashed_same x)|done|done]. }
  { done. } { lia. } { lia. } { rewrite Hb, Hlb; unfold bufsize; lia. }
  { unfold buf. rewrite Nat.mul_1_l, take_app_length' by (rewrite length_take; lia). done. }
  rewrite Nat.mul_1_l in Hp, Hx'. rewrite Hp. cbn [mbind cres_bind].
  destruct (IH (drop blk data) x' _ Hx' H0') as (k & x'' & -> & Hst & H0'' & Hk); [rewrite length_drop; lia|].
  exists (blk + k)%nat, x''. rewrite drop_drop in *. split; [done|]. split; [|done].
  by rewrite <- app_assoc, take_take_drop in Hst.
Qed.

Lemma whole_blocks_ok addr data x m :
  stands_for x m → data = [] ∨ buflen x = 0%nat → Z.of_nat (length data) < 2 ^ w V → 2 * Z.of_nat blk < 2 ^ w V →
  ∃ k x', whole_blocks V addr data x = Ok (drop k data, x') ∧ stands_for x' (m ++ take k data) ∧
    (drop k data = [] ∨ buflen x' = 0%nat) ∧ (length (drop k data) ≤ blk)%nat.
Proof.
  intros Hx Hor Hw Hw2. pose proof block_pos as Hpos. unfold whole_blocks. destruct (length data <? blk)%nat eqn:E.
  { apply Nat.ltb_lt in E. exists 0%nat, x. rewrite drop_0, take_0, app_nil_r. split_and!; [done..|lia]. }
  apply Nat.ltb_ge in E. destruct Hor as [->|H0]; [simpl in E; lia|]. destruct (UNALIGNED_P V addr).
  { destruct (unaligned_loop_ok (S (length data)) data x m) as (k & x' & Hk & Hs & H0' & Hl); [done|done|lia|done|].
    exists k, x'. eauto. }
  destruct (mod_block (length data)) as (q & -> & Hq & Hm).
  destruct (absorb_input x m data data q) as (x' & -> & Hx' & H0' & _); [done|done|lia|lia|lia|done|].
  cbn [mbind cres_bind]. exists (q * blk)%nat, x'. split_and!; [done..|by right|]. rewrite length_drop. lia.
Qed.

Lemma keep_rest_ok data x m :
  stands_for x m → data = [] ∨ buflen x = 0%nat → (length data ≤ blk)%nat → 2 * Z.of_nat blk < 2 ^ w V →
  ∃ x', keep_rest V data x = Ok x' ∧ stands_for x' (m ++ data).
Proof.
  intros Hx Hor Hl Hw. pose proof block_pos as Hpos. unfold keep_rest. destruct (length data =? 0)%nat eqn:E.
  { apply Nat.eqb_eq, length_zero_iff_nil in E as ->. rewrite app_nil_r. eauto. }
  destruct Hor as [->|H0]; [done|]. destruct Hx as (n & Hh & Hn & Hbl & Hbuf).
  destruct (append_buffer x n m data (length data)) as (buf & -> & Hlb & Hpre & Hlm & Hh');
    [done|done|done|done|unfold bufsize; lia|].
  cbn [mbind cres_bind buffer total H buflen]. rewrite firstn_all in Hlm, Hh', Hpre.
  destruct (blk <=? buflen x + length data)%nat eqn:Eb.
  - apply Nat.leb_le in Eb.
    destruct (flush_blocks (Ctx (H x) (total x) (buflen x) buf) n (m ++ data) 1 (buflen x + length data - blk))
      as (x' & buf' & Hp & Hb & Hst); [done|unfold bufsize; lia|lia|done| |lia|].
    { cbn [buffer]. rewrite <- Hpre. f_equal. lia. }
    rewrite Nat.mul_1_l in Hp, Hb. cbn [buffer] in Hp. rewrite Hp. cbn [mbind cres_bind]. rewrite Hb.
    cbn [mbind cres_bind]. eauto.
  - apply Nat.leb_gt in Eb. eexists; split; [done|]. exists n. cbn [buflen buffer]. split_and!; [done|lia|lia|done].
Qed.

Lemma process_bytes_ok addr data x m :
  stands_for x m → Z.of_nat (length data) < 2 ^ w V → 2 * Z.of_nat blk < 2 ^ w V →
  ∃ x', process_bytes V addr data x = Ok x' ∧ stands_for x' (m ++ data).
Proof.
  intros Hx Hw Hw2. unfold process_bytes.
  destruct (fill_buffer_ok addr data x m Hx Hw2) as (addr' & k & x1 & -> & Hx1 & Hor). cbn [mbind cres_bind].
  destruct (whole_blocks_ok addr' (drop k data) x1 _ Hx1 Hor) as (j & x2 & -> & Hx2 & Hor2 & Hl);
    [rewrite length_drop; lia|done|]. cbn [mbind cres_bind].
  destruct (keep_rest_ok _ x2 _ Hx2 Hor2 Hl Hw2) as (x3 & -> & Hx3). exists x3. split; [done|].
  by rewrite <- !app_assoc, take_drop, take_drop in Hx3.
Qed.

(** ** [finish_ctx] *)
Lemma compress_range v W : Forall (λ z, 0 ≤ z < 2 ^ w V) (store_vars (compress V v W)).
Proof. unfold compress, store_vars, add_vars. cbn. repeat constructor; apply word_range. Qed.

Lemma absorb_range k m v : (0 < k)%nat → Forall (λ z, 0 ≤ z < 2 ^ w V) (store_vars (absorb V k m v)).
Proof.
  intros Hk. replace k with (k - 1 + 1)%nat by lia. rewrite absorb_add. cbn [absorb]. apply compress_range.
Qed.

Lemma be_store_split z : be_store (2 * wb) z = be_store wb (z / 2 ^ w V) ++ be_store wb z.
Proof.
  unfold be_store. replace (2 * wb)%nat with (wb + wb)%nat by lia.
  by rewrite le_store_app, reverse_app, w_pow.
Qed.

Lemma be_store_mod z : be_store wb (z mod 2 ^ w V) = be_store wb z.
Proof. unfold be_store. by rewrite w_pow, le_store_mod. Qed.

(** The number of bits, from the two words that count bytes. *)
Lemma bits_hi t Q W :
  0 ≤ t → 0 < Q → W = Q * 8 →
  Z.lor (((t / W) mod W * 8) mod W) ((t mod W) / Q) = (8 * t / W) mod W.
Proof.
  intros Ht HQ ->. rewrite Z.mul_mod_idemp_l, Z.mul_mod_distr_r by lia.
  pose proof (Z.mod_pos_bound t (Q * 8) ltac:(lia)). pose proof (Z.div_mod t (Q * 8) ltac:(lia)) as Ht'.
  set (q := t / (Q * 8)) in *. set (r := t mod (Q * 8)) in *.
  assert (Hu : 0 ≤ r / Q < 8) by (split; [apply Z.div_pos; lia|apply Z.div_lt_upper_bound; lia]).
  pose proof (lor_add_swap (r / Q) (q mod Q) 3 ltac:(lia) Hu) as Hlor. change (2 ^ 3) with 8 in Hlor. rewrite Hlor.
  replace (8 * t / (Q * 8)) with (8 * q + r / Q).
  - apply Z.mod_unique with (q / Q); [left; pose proof (Z.mod_pos_bound q Q HQ); lia|].
    pose proof (Z.div_mod q Q ltac:(lia)). lia.
  - rewrite (Z.mul_comm Q), Z.div_mul_cancel_l, Ht' by lia.
    replace (Q * 8 * q + r) with (r + (8 * q) * Q) by lia. rewrite Z.div_add by lia. lia.
Qed.

Lemma bit_length t :
  0 ≤ t →
  be_store wb (Z.lor (word V (Z.shiftl (split_total t).2 3)) (Z.shiftr (split_total t).1 (w V - 3))) ++
  be_store wb (word V (Z.shiftl (split_total t).1 3)) = be_store (2 * wb) (8 * t).
Proof.
  intros Ht. unfold split_total, word, wrapu. cbn [fst snd].
  assert (Hw : 8 ≤ w V) by (rewrite (w_bytes V L); pose proof (wbytes_pos V L); lia).
  assert (HW : 2 ^ w V = 2 ^ (w V - 3) * 8).
  { change 8 with (2 ^ 3). rewrite <- Z.pow_add_r by lia. f_equal. lia. }
  assert (0 < 2 ^ (w V - 3)) by (apply Z.pow_pos_nonneg; lia).
  rewrite !Z.shiftl_mul_pow2, Z.shiftr_div_pow2 by lia. change (2 ^ 3) with 8.
  rewrite be_store_split. f_equal.
  - rewrite (bits_hi t _ _ Ht) by done. apply be_store_mod.
  - rewrite Z.mul_mod_idemp_l, be_store_mod by lia. f_equal. lia.
Qed.

Lemma hi_range t :
  0 ≤ t → 0 ≤ Z.lor (word V (Z.shiftl (split_total t).2 3)) (Z.shiftr (split_total t).1 (w V - 3)) < 2 ^ w V.
Proof.
  intros Ht. unfold split_total, word, wrapu. cbn [fst snd].
  assert (Hw : 8 ≤ w V) by (rewrite (w_bytes V L); pose proof (wbytes_pos V L); lia).
  assert (HW : 2 ^ w V = 2 ^ (w V - 3) * 8).
  { change 8 with (2 ^ 3). rewrite <- Z.pow_add_r by lia. f_equal. lia. }
  assert (0 < 2 ^ (w V - 3)) by (apply Z.pow_pos_nonneg; lia).
  rewrite Z.shiftl_mul_pow2, Z.shiftr_div_pow2 by lia. change (2 ^ 3) with 8.
  rewrite (bits_hi t _ _ Ht) by done. apply Z.mod_pos_bound. lia.
Qed.

(** The padding the code chooses is that of the standard. *)
Definition code_pad (n : nat) : nat :=
  let room := (block V - 2 * wb)%nat in
  (if room <=? n then block V + room - n else room - n)%nat.

Lemma code_pad_spec n b :
  (b ≤ blk)%nat →
  ∃ q, (1 ≤ q ≤ 2)%nat ∧ (b + code_pad b + 2 * wb = q * blk)%nat ∧ (1 ≤ code_pad b ≤ blk)%nat ∧
    zeros V (n * blk + b) = (code_pad b - 1)%nat.
Proof.
  intros Hb. pose proof (wbytes_pos V L) as Hwb. unfold code_pad, zeros.
  assert (Hblk : blk = (16 * wb)%nat) by done. 
  replace (n * blk + b + 1 + 2 * wb)%nat with (b + 1 + 2 * wb + n * blk)%nat by lia.
  rewrite Nat.Div0.mod_add.
  destruct (blk - 2 * wb <=? b)%nat eqn:E.
  - apply Nat.leb_le in E. exists 2%nat. split_and!; [lia..|].
    rewrite <- (Nat.mod_unique (b + 1 + 2 * wb) blk 1 (b + 1 + 2 * wb - blk)) by lia.
    rewrite Nat.mod_small by lia. lia.
  - apply Nat.leb_gt in E. exists 1%nat. split_and!; [lia..|].
    destruct (decide (b + 1 + 2 * wb = blk)%nat) as [He|].
    + rewrite He, Nat.Div0.mod_same, Nat.sub_0_r, Nat.Div0.mod_same. lia.
    + rewrite (Nat.mod_small (b + 1 + 2 * wb)) by lia. rewrite Nat.mod_small by lia. lia.
Qed.

(** Two words behind the padding complete the last block. *)
Lemma finish_buffer x n m :
  hashed x n m → buflen x = (length m - n * blk)%nat → (buflen x ≤ blk)%nat →
  take (buflen x) (buffer x) = drop (n * blk) m →
  ∀ hi lo q, length hi = wb → length lo = wb → (buflen x + code_pad (buflen x) + 2 * wb = q * blk)%nat → (q ≤ 2)%nat →
  (1 ≤ code_pad (buflen x) ≤ blk)%nat →
  let bytes := buflen x in
  ∃ b1 b2 b3, memcpy_at bytes (fillbuf V) (code_pad bytes) (buffer x) = Ok b1 ∧
    memcpy_at (bytes + code_pad bytes + wb) lo wb b1 = Ok b2 ∧
    memcpy_at (bytes + code_pad bytes) hi wb b2 = Ok b3 ∧ length b3 = bufsize V ∧
    take (q * blk) b3 = drop (n * blk) m ++ of_u8 0x80 :: replicate (code_pad bytes - 1) NUL ++ hi ++ lo.
Proof.
  intros Hh Hn Hbl Hbuf hi lo q Hhi Hlo Hq Hq2 Hpad bytes. pose proof (hashed_buffer _ _ _ Hh) as Hlb.
  set (pad := code_pad bytes) in *. fold bytes in Hq, Hbl, Hbuf, Hpad. fold pad in Hq, Hpad.
  assert (Hfl : length (fillbuf V) = blk) by (unfold fillbuf; cbn [length]; rewrite length_replicate; lia).
  assert (Hbs : bufsize V = (2 * blk)%nat) by done.
  set (b1 := take bytes (buffer x) ++ take pad (fillbuf V) ++ drop (bytes + pad)%nat (buffer x)).
  assert (Hb1 : length b1 = bufsize V) by (unfold b1; rewrite length_memcpy; nia).
  set (b2 := take (bytes + pad + wb)%nat b1 ++ take wb lo ++ drop (bytes + pad + wb + wb)%nat b1).
  assert (Hb2 : length b2 = bufsize V) by (unfold b2; rewrite length_memcpy; nia).
  exists b1, b2, (take (bytes + pad)%nat b2 ++ take wb hi ++ drop (bytes + pad + wb)%nat b2).
  split; [by rewrite memcpy_at_ok by nia|]. split; [by rewrite memcpy_at_ok by nia|].
  split; [by rewrite memcpy_at_ok by nia|]. split; [rewrite length_memcpy; nia|].
  assert (take (bytes + pad)%nat b2 = drop (n * blk) m ++ take pad (fillbuf V)) as ->.
  { unfold b2. rewrite take_app_le, take_take, Nat.min_l by (rewrite ?length_take; nia).
    unfold b1. rewrite Hbuf, app_assoc, take_app_length'; [done|].
    rewrite length_app, length_take, length_drop. lia. }
  assert (drop (bytes + pad + wb)%nat b2 = lo ++ drop (bytes + pad + wb + wb)%nat b1) as ->.
  { unfold b2. rewrite drop_app_length' by (rewrite length_take; nia). by rewrite (take_ge lo) by lia. }
  rewrite (take_ge hi) by lia. set (rest := drop (bytes + pad + wb + wb)%nat b1).
  assert (take pad (fillbuf V) = of_u8 128 :: replicate (pad - 1) NUL) as Hfill.
  { unfold fillbuf. destruct pad as [|p]; [lia|]. cbn [firstn]. f_equal.
    rewrite take_replicate. f_equal. lia. }
  transitivity (take (q * blk) ((drop (n * blk) m ++ take pad (fillbuf V) ++ hi ++ lo) ++ rest)).
  { f_equal. by rewrite <- !app_assoc. }
  rewrite take_app_length' by (rewrite !length_app, length_drop, length_take; lia). by rewrite Hfill.
Qed.

Lemma finish_ctx_ok x m :
  stands_for x m → 2 * Z.of_nat blk < 2 ^ w V → finish_ctx V x = Ok (sha2_hash V m).
Proof.
  intros (n & Hh & Hn & Hbl & Hbuf) Hw. unfold finish_ctx. fold (code_pad (buflen x)).
  pose proof (hashed_le _ _ _ Hh) as Hle.
  destruct (code_pad_spec n (buflen x) Hbl) as (q & Hq12 & Hq & Hpad & Hz).
  assert (Hlen : length m = (n * blk + buflen x)%nat) by lia.
  assert (Hcount : count V (total x) (Z.of_nat (buflen x)) = split_total (Z.of_nat (length m))).
  { rewrite (hashed_total _ _ _ Hh), count_split by lia. f_equal. lia. }
  rewrite Hcount. rewrite !swap_store by (apply hi_range || apply word_range; lia).
  destruct (finish_buffer x n m Hh Hn Hbl Hbuf
    (be_store wb (Z.lor (word V (Z.shiftl (split_total (Z.of_nat (length m))).2 3))
                   (Z.shiftr (split_total (Z.of_nat (length m))).1 (w V - 3))))
    (be_store wb (word V (Z.shiftl (split_total (Z.of_nat (length m))).1 3))) q)
    as (b1 & b2 & b3 & E1 & E2 & E3 & Hl3 & Ht3); [apply length_be_store..|done|lia|done|].
  rewrite E1. cbn [mbind cres_bind]. rewrite E2. cbn [mbind cres_bind]. rewrite E3. cbn [mbind cres_bind].
  rewrite Hq, process_block_eq by (unfold bufsize in *; nia). cbn [mbind cres_bind H]. f_equal. f_equal.
  rewrite bit_length in Ht3 by lia. rewrite (hashed_H _ _ _ Hh).
  set (v := absorb V q b3 _). assert (Forall (λ z, 0 ≤ z < 2 ^ w V) (store_vars v)) as Hr by (apply absorb_range; lia).
  unfold sha2_hash. set (p := pad_message V m).
  assert (Hp : drop (n * blk) p = take (q * blk) b3).
  { unfold p, pad_message. by rewrite drop_app_le, Ht3, Hlen, Hz by done. }
  assert (Hpl : length p = ((n + q) * blk)%nat).
  { apply (f_equal length) in Hp. rewrite length_drop, length_take, Hl3 in Hp. unfold bufsize in *. nia. }
  rewrite Hpl, Nat.div_mul by (pose proof block_pos as Hpos; lia).
  assert (absorb V (n + q) p (load_vars (H_init V)) = v) as ->.
  { rewrite absorb_add, Hp. unfold v. rewrite <- (take_drop (q * blk) b3) at 2.
    rewrite absorb_app by (rewrite length_take, Hl3; unfold bufsize in *; nia). f_equal.
    unfold p, pad_message. by rewrite absorb_app. }
  f_equal. clear -Hr L. induction Hr as [|z l Hz _ IH]; [done|]. cbn [List.map]. by rewrite IH, swap_store.
Qed.

(** A sequence of calls of [process_bytes], each with an address and data. *)
Definition feed (chunks : list (Z * bytes)) (x : ctx) : cres ctx :=
  foldC (λ x c, process_bytes V c.1 c.2 x) chunks x.

Lemma feed_ok chunks x m :
  stands_for x m → 2 * Z.of_nat blk < 2 ^ w V → Forall (λ c, Z.of_nat (length c.2) < 2 ^ w V) chunks →
  ∃ x', feed chunks x = Ok x' ∧ stands_for x' (m ++ concat (List.map snd chunks)).
Proof.
  intros Hx Hw Hc. revert x m Hx. induction Hc as [|[a c] l Hl _ IH]; intros x m Hx; cbn [List.map concat].
  { rewrite app_nil_r. by exists x. }
  unfold feed. cbn [foldC fst snd]. destruct (process_bytes_ok a c x m Hx Hl Hw) as (x' & -> & Hx').
  cbn [mbind cres_bind]. rewrite app_assoc. by apply IH.
Qed.
End proofs.

Lemma variant_laws V : V = sha256 ∨ V = sha512 → sha2_laws V ∧ 2 * Z.of_nat (block V) < 2 ^ w V.
Proof. intros [->| ->]; (split; [apply sha256_laws || apply sha512_laws|done]). Qed.

(** * Properties *)

(** C30. However a message is cut into pieces, whatever their addresses and
    whatever the buffer of the context held before, feeding them to SHA-256 or
    SHA-512 and finishing gives the digest that FIPS 180-2 defines for the
    padded message, and no access leaves the buffer of the context.  The length
    of one piece has to fit the word that counts bytes (32 bits for SHA-256);
    the length of the message need not. *)
Theorem sha2_streaming (V : sha2) (x : ctx) (chunks : list (Z * bytes)) :
  V = sha256 ∨ V = sha512 → length (buffer x) = bufsize V →
  Forall (λ c, Z.of_nat (length c.2) < 2 ^ w V) chunks →
  (x ← feed V chunks (init_ctx V x); finish_ctx V x) = Ok (sha2_hash V (concat (List.map snd chunks))).
Proof.
  intros HV Hb Hc. destruct (variant_laws V HV) as [L Hw].
  destruct (feed_ok V L chunks (init_ctx V x) []) as (x' & -> & Hx'); [by apply init_stands_for|done|done|].
  cbn [mbind cres_bind]. by apply finish_ctx_ok.
Qed.

(** A message of 150 bytes in pieces of 70 (at an odd address) and 80. *)
Lemma sha2_streaming_witness :
  (x ← feed sha256 [(1, replicate 70 "a"%char); (8, replicate 80 "b"%char)]
         (init_ctx sha256 (Ctx [] (7, 7) 3 (replicate 128 "?"%char)));
   finish_ctx sha256 x) = Ok (sha2_hash sha256 (replicate 70 "a"%char ++ replicate 80 "b"%char)).
Proof.
  rewrite <- (app_nil_r (replicate 80 _)).
  apply (sha2_streaming sha256 (Ctx [] (7, 7) 3 (replicate 128 "?"%char))
           [(1, replicate 70 "a"%char); (8, replicate 80 "b"%char)]).
  - by left.
  - reflexivity.
  - repeat constructor.
Defined.

(** The reference on the first test vector of FIPS 180-2. *)
Example sha256_abc :
  List.map u8 (take 8 (sha2_hash sha256 (lit "abc"))) = [0xba; 0x78; 0x16; 0xbf; 0x8f; 0x01; 0xcf; 0xea].
Proof. vm_compute. reflexivity. Qed.
Example sha512_abc :
  List.map u8 (take 8 (sha2_hash sha512 (lit "abc"))) = [0xdd; 0xaf; 0x35; 0xa1; 0x93; 0x61; 0x7a; 0xba].
Proof. vm_compute. reflexivity. Qed.
