(* ===== verification/ShaCrypt.v ===== *)
(** [crypt_sha256] and [crypt_sha512] ([crypt/crypt_sha256.c],
    [crypt/crypt_sha512.c]): the SHA-2 based password hashes.

    The functions are the same text for two digests; [shacrypt] collects what
    differs.  The uninitialised contexts on the stack are [uninit_ctx]; that
    their contents do not matter is part of [stands_for].  The buffer of the
    caller is the text written to it and the room that is left. *)

From S2P Require Import Prelude CString CryptB64 Sha2.

Local Open Scope Z_scope.

(** The operands and length of one [b64_from_24bit (B2, B1, B0, N)]: indices
    into the digest, [None] for a zero. *)
Abbreviation sextets := (option nat * option nat * option nat * nat)%type.

Record shacrypt := ShaCrypt {
  alg : sha2;
  salt_prefix : bytes;
  groups : list sextets;
}.

Definition g4 (i j k : nat) : sextets := (Some i, Some j, Some k, 4%nat).

Definition sha256_groups : list sextets :=
  [g4 0 10 20; g4 21 1 11; g4 12 22 2; g4 3 13 23; g4 24 4 14; g4 15 25 5; g4 6 16 26;
   g4 27 7 17; g4 18 28 8; g4 9 19 29; (None, Some 31, Some 30, 3)]%nat.

Definition sha512_groups : list sextets :=
  [g4 0 21 42; g4 22 43 1; g4 44 2 23; g4 3 24 45; g4 25 46 4; g4 47 5 26; g4 6 27 48;
   g4 28 49 7; g4 50 8 29; g4 9 30 51; g4 31 52 10; g4 53 11 32; g4 12 33 54; g4 34 55 13;
   g4 56 14 35; g4 15 36 57; g4 37 58 16; g4 59 17 38; g4 18 39 60; g4 40 61 19; g4 62 20 41;
   (None, None, Some 63, 2)]%nat.

Definition crypt5 : shacrypt := ShaCrypt sha256 (lit "$5$") sha256_groups.
Definition crypt6 : shacrypt := ShaCrypt sha512 (lit "$6$") sha512_groups.

Definition rounds_prefix : bytes := lit "rounds=".
Definition SALT_LEN_MAX : nat := 16.
Definition ROUNDS_DEFAULT : Z := 5000.
Definition ROUNDS_MIN : Z := 1000.
Definition ROUNDS_MAX : Z := 999999999.

Section crypt.
Context (C : shacrypt).

(** [sizeof (alt_result)] *)
Definition dlen : nat := digest_len (alg C).

(** ** The setting: the salt, the number of rounds and whether it was given *)
Record setting := Setting { s_salt : bytes; s_rounds : Z; s_custom : bool }.

Definition parse_salt (salt : bytes) : bytes :=
  take SALT_LEN_MAX (take_while (λ c, negb (bool_decide (c = "$"%char))) salt).

Definition parse_setting (salt : bytes) : setting :=
  let salt := if has_prefix (salt_prefix C) salt then drop (length (salt_prefix C)) salt else salt in
  if has_prefix rounds_prefix salt then
    let '(srounds, endp) := strtoul (drop (length rounds_prefix) salt) in
    if bool_decide (head endp = Some "$"%char)
    then Setting (parse_salt (drop 1 endp)) (Z.max ROUNDS_MIN (Z.min srounds ROUNDS_MAX)) true
    else Setting (parse_salt salt) ROUNDS_DEFAULT false
  else Setting (parse_salt salt) ROUNDS_DEFAULT false.

(** ** The digest.  Every buffer that is fed is aligned (the code copies the key
    and the salt where they are not), hence address 0. *)
Definition uninit_ctx : ctx := Ctx [] (0, 0) 0 (replicate (bufsize (alg C)) NUL).
Definition start : ctx := init_ctx (alg C) uninit_ctx.
Definition add (data : bytes) (x : ctx) : cres ctx := process_bytes (alg C) 0 data x.
Definition finish (x : ctx) : cres bytes := finish_ctx (alg C) x.

(** [for (cnt = key_len; cnt > 32; cnt -= 32)] and the call behind it. *)
Fixpoint add_digest (fuel cnt : nat) (alt : bytes) (x : ctx) : cres ctx :=
  match fuel with
  | O => Fault Diverges
  | S fuel =>
      if (dlen <? cnt)%nat then x ← add alt x; add_digest fuel (cnt - dlen) alt x
      else add (take cnt alt) x
  end.

(** [for (cnt = key_len; cnt > 0; cnt >>= 1)] *)
Fixpoint add_bits (fuel : nat) (cnt : Z) (alt key : bytes) (x : ctx) : cres ctx :=
  match fuel with
  | O => Fault Diverges
  | S fuel =>
      if 0 <? cnt then
        x ← (if negb (Z.land cnt 1 =? 0) then add alt x else add key x);
        add_bits fuel (Z.shiftr cnt 1) alt key x
      else Ok x
  end.

Fixpoint add_times (n : nat) (data : bytes) (x : ctx) : cres ctx :=
  match n with
  | O => Ok x
  | S n => x ← add data x; add_times n data x
  end.

(** The byte sequences P and S: [for (cnt = len; cnt >= 32; cnt -= 32)] and the
    copy behind it. *)
Fixpoint byte_sequence (fuel cnt : nat) (temp : bytes) : cres bytes :=
  match fuel with
  | O => Fault Diverges
  | S fuel =>
      if (dlen <=? cnt)%nat then rest ← byte_sequence fuel (cnt - dlen) temp; Ok (temp ++ rest)
      else Ok (take cnt temp)
  end.

Definition one_round (p_bytes s_bytes : bytes) (cnt : Z) (alt : bytes) : cres bytes :=
  let odd := negb (Z.land cnt 1 =? 0) in
  let x := start in
  x ← (if odd then add p_bytes x else add alt x);
  x ← (if negb (cnt mod 3 =? 0) then add s_bytes x else Ok x);
  x ← (if negb (cnt mod 7 =? 0) then add p_bytes x else Ok x);
  x ← (if odd then add alt x else add p_bytes x);
  finish x.

Fixpoint all_rounds (n : nat) (cnt : Z) (p_bytes s_bytes alt : bytes) : cres bytes :=
  match n with
  | O => Ok alt
  | S n => alt ← one_round p_bytes s_bytes cnt alt; all_rounds n (cnt + 1) p_bytes s_bytes alt
  end.

Definition crypt_digest (key salt : bytes) (rounds : Z) : cres bytes :=
  let key_len := length key in
  let salt_len := length salt in
  x ← add key start;
  x ← add salt x;
  y ← add key start;
  y ← add salt y;
  y ← add key y;
  alt ← finish y;
  x ← add_digest (S key_len) key_len alt x;
  x ← add_bits (S key_len) (Z.of_nat key_len) alt key x;
  alt ← finish x;
  y ← add_times key_len key start;
  temp ← finish y;
  p_bytes ← byte_sequence (S key_len) key_len temp;
  y ← add_times (16 + Z.to_nat (u8 (default NUL (alt !! 0%nat)))) salt start;
  temp ← finish y;
  s_bytes ← byte_sequence (S salt_len) salt_len temp;
  all_rounds (Z.to_nat rounds) 0 p_bytes s_bytes alt.

(** ** The text *)
Record out := Out { text : bytes; room : Z }.

(** [*cp++ = c; --buflen;] *)
Definition put (c : ascii) (o : out) : out := Out (text o ++ [c]) (room o - 1).

Fixpoint b64_loop (n : nat) (w : Z) (o : out) : out :=
  match n with
  | O => o
  | S n =>
      if 0 <? room o
      then b64_loop n (Z.shiftr w 6) (put (default NUL (itoa64 !! Z.to_nat (Z.land w 0x3f))) o)
      else o
  end.

Definition sextet_value (alt : bytes) (g : sextets) : Z :=
  let at_ i := match i with Some i => u8 (default NUL (alt !! i)) | None => 0 end in
  let '(b2, b1, b0, _) := g in
  Z.lor (Z.lor (Z.shiftl (at_ b2) 16) (Z.shiftl (at_ b1) 8)) (at_ b0).

Definition b64_from_24bit (alt : bytes) (o : out) (g : sextets) : out := b64_loop g.2 (sextet_value alt g) o.

(** [stpncpy], [snprintf]: what is written when [room] bytes are left. *)
Definition write_prefix (o : out) : out :=
  Out (text o ++ take (Z.to_nat (Z.max 0 (room o))) (salt_prefix C)) (room o - Z.of_nat (length (salt_prefix C))).

Definition write_rounds (s : setting) (o : out) : out :=
  if s_custom s then
    let t := rounds_prefix ++ fmt_d (s_rounds s) ++ lit "$" in
    Out (text o ++ take (Z.to_nat (Z.max 0 (room o) - 1)) t) (room o - Z.of_nat (length t))
  else o.

Definition write_salt (s : setting) (o : out) : out :=
  let n := Z.min (Z.max 0 (room o)) (Z.of_nat (length (s_salt s))) in
  Out (text o ++ take (Z.to_nat n) (s_salt s)) (room o - n).

(** The string left in the buffer; [None] when it is not terminated. *)
Definition crypt_text (s : setting) (alt : bytes) (buflen : Z) : option bytes :=
  let o := write_prefix (Out [] buflen) in
  let o := write_rounds s o in
  let o := write_salt s o in
  let o := if 0 <? room o then put "$"%char o else o in
  let o := foldl (b64_from_24bit alt) o (groups C) in
  if room o <=? 0 then None else Some (text o).

Definition crypt_sha (key salt : bytes) (buflen : Z) : cres (option bytes) :=
  let s := parse_setting salt in
  alt ← crypt_digest key (s_salt s) (s_rounds s);
  Ok (crypt_text s alt buflen).
End crypt.

Definition crypt_sha256 : bytes → bytes → Z → cres (option bytes) := crypt_sha crypt5.
Definition crypt_sha512 : bytes → bytes → Z → cres (option bytes) := crypt_sha crypt6.

(** * Reference definition of the digest

    The steps of the SHA-crypt specification in terms of the digest of whole
    messages: [cyc n b] is the first [n] bytes of [b] repeated. *)
Section reference.
Context (C : shacrypt).

Definition cyc (n : nat) (b : bytes) : bytes := take n (concat (replicate n b)).

Definition bit_count (z : Z) : nat := if 0 <? z then S (Z.to_nat (Z.log2 z)) else 0%nat.

(** For every bit of [z], from the lowest, [one] or [zero]. *)
Definition by_bits (z : Z) (one zero : bytes) : bytes :=
  concat (List.map (λ i, if Z.testbit z (Z.of_nat i) then one else zero) (seq 0 (bit_count z))).

Definition ref_round (P S alt : bytes) (i : Z) : bytes :=
  sha2_hash (alg C)
    ((if Z.odd i then P else alt) ++ (if i mod 3 =? 0 then [] else S) ++
     (if i mod 7 =? 0 then [] else P) ++ (if Z.odd i then alt else P)).

Definition ref_digest (key salt : bytes) (rounds : Z) : bytes :=
  let hash := sha2_hash (alg C) in
  let n := length key in
  let B := hash (key ++ salt ++ key) in
  let A := hash (key ++ salt ++ cyc n B ++ by_bits (Z.of_nat n) B key) in
  let P := cyc n (hash (concat (replicate n key))) in
  let S := cyc (length salt) (hash (concat (replicate (16 + Z.to_nat (u8 (default NUL (A !! 0%nat)))) salt))) in
  foldl (ref_round P S) A (List.map Z.of_nat (seq 0 (Z.to_nat rounds))).
End reference.

(** * Lemmas *)
Lemma concat_replicate_add {A} i j (b : list A) :
  concat (replicate (i + j) b) = concat (replicate i b) ++ concat (replicate j b).
Proof. by rewrite replicate_add, concat_app. Qed.

Lemma length_concat_replicate {A} n (b : list A) : length (concat (replicate n b)) = (n * length b)%nat.
Proof. induction n as [|n IH]; [done|]. cbn [replicate concat Nat.mul]. by rewrite length_app, IH. Qed.

Lemma cyc_enough n k b : b ≠ [] → (n ≤ k)%nat → take n (concat (replicate k b)) = cyc n b.
Proof.
  intros Hb Hk. unfold cyc. replace k with (n + (k - n))%nat by lia.
  rewrite concat_replicate_add. rewrite take_app_le; [done|].
  rewrite length_concat_replicate. destruct b; [done|]. simpl. lia.
Qed.

Lemma cyc_ge n b : b ≠ [] → (length b ≤ n)%nat → cyc n b = b ++ cyc (n - length b) b.
Proof.
  intros Hb Hn. rewrite <- (cyc_enough n (S n)), <- (cyc_enough (n - length b) n) by (done || lia).
  cbn [replicate concat]. rewrite take_app. by rewrite (take_ge b) by done.
Qed.

Lemma cyc_le n b : (n ≤ length b)%nat → cyc n b = take n b.
Proof.
  intros Hn. unfold cyc. destruct n as [|n]; [done|]. cbn [replicate concat]. by rewrite take_app_le.
Qed.

Lemma length_cyc n b : b ≠ [] → length (cyc n b) = n.
Proof.
  intros Hb. unfold cyc. rewrite length_take, length_concat_replicate. destruct b; [done|]. cbn [length]. lia.
Qed.

Lemma bit_count_step z : 0 < z → bit_count z = S (bit_count (Z.shiftr z 1)).
Proof.
  intros Hz. unfold bit_count. rewrite (proj2 (Z.ltb_lt _ _)) by lia. f_equal.
  rewrite Z.shiftr_div_pow2 by lia. change (2 ^ 1) with 2.
  destruct (Z.ltb_spec 0 (z / 2)) as [Hz2|Hz2].
  - rewrite <- (Z2Nat.inj_succ (Z.log2 (z / 2))) by apply Z.log2_nonneg. f_equal.
    rewrite <- Z.div2_div in *. rewrite (Z.div2_odd z) at 1. 
    destruct (Z.odd z); cbn [Z.b2z]; rewrite ?Z.add_0_r; [apply Z.log2_succ_double|apply Z.log2_double]; lia.
  - assert (z = 1) as ->; [|done]. pose proof (Z.div_mod z 2). pose proof (Z.mod_pos_bound z 2). lia.
Qed.

Lemma by_bits_step z one zero :
  0 < z → by_bits z one zero = (if Z.odd z then one else zero) ++ by_bits (Z.shiftr z 1) one zero.
Proof.
  intros Hz. unfold by_bits. rewrite bit_count_step by done. cbn [seq List.map concat].
  rewrite Z.bit0_odd. f_equal. rewrite <- seq_shift, List.map_map. f_equal.
  apply List.map_ext. intros i. rewrite Z.shiftr_spec by lia. by replace (Z.of_nat (S i)) with (Z.of_nat i + 1) by lia.
Qed.

Lemma odd_land z : negb (Z.land z 1 =? 0) = Z.odd z.
Proof.
  change 1 with (Z.ones 1). rewrite Z.land_ones by lia. change (2 ^ 1) with 2. rewrite Zmod_odd. by destruct (Z.odd z).
Qed.

Lemma length_sha2_hash V m : length (sha2_hash V m) = digest_len V.
Proof. unfold sha2_hash. cbn [store_vars List.map concat]. rewrite !length_app, !length_be_store. unfold digest_len. cbn [length]. lia. Qed.

Section digest.
Context (C : shacrypt) (L : sha2_laws (alg C)) (HV : 2 * Z.of_nat (block (alg C)) < 2 ^ w (alg C)).

Local Abbreviation hash := (sha2_hash (alg C)).
Local Abbreviation fits b := (Z.of_nat (length b) < 2 ^ w (alg C)).

(** The computation leaves a context that stands for [m]. *)
Definition computes (c : cres ctx) (m : bytes) : Prop := ∃ x, c = Ok x ∧ stands_for (alg C) x m.

Lemma computes_bind {A} (c : cres ctx) m (f : ctx → cres A) r :
  computes c m → (∀ x, stands_for (alg C) x m → f x = r) → (c ≫= f) = r.
Proof. intros (x & -> & Hx) Hf. by apply Hf. Qed.

Lemma computes_seq (c : cres ctx) m (f : ctx → cres ctx) m' :
  computes c m → (∀ x, stands_for (alg C) x m → computes (f x) m') → computes (c ≫= f) m'.
Proof. intros (x & -> & Hx) Hf. by apply Hf. Qed.

Lemma start_ok : stands_for (alg C) (start C) [].
Proof. apply init_stands_for. cbn [buffer uninit_ctx]. by rewrite length_replicate. Qed.

Lemma add_ok data x m : stands_for (alg C) x m → fits data → computes (add C data x) (m ++ data).
Proof. intros. by apply process_bytes_ok. Qed.

Lemma skip_ok x m : stands_for (alg C) x m → computes (Ok x) m.
Proof. by exists x. Qed.

Lemma finish_ok x m : stands_for (alg C) x m → finish C x = Ok (hash m).
Proof. intros. by apply finish_ctx_ok. Qed.

Lemma dlen_fits (b : bytes) : (length b ≤ dlen C)%nat → fits b.
Proof.
  intros Hb. unfold dlen, digest_len, block in *. lia.
Qed.

Lemma add_digest_ok fuel cnt alt x m :
  stands_for (alg C) x m → length alt = dlen C → (cnt < fuel)%nat →
  computes (add_digest C fuel cnt alt x) (m ++ cyc cnt alt).
Proof.
  intros Hx Ha. assert (0 < dlen C)%nat as Hd by (unfold dlen, digest_len; pose proof (wbytes_pos _ L); lia).
  assert (alt ≠ []) as Hn by (intros ->; simpl in Ha; lia).
  revert cnt x m Hx. induction fuel as [|fuel IH]; intros cnt x m Hx Hf; [lia|]. cbn [add_digest].
  destruct (Nat.ltb_spec (dlen C) cnt) as [Hc|Hc].
  - rewrite cyc_ge, app_assoc by (done || lia). eapply computes_seq; [by apply add_ok; [|apply dlen_fits; lia]|].
    intros y Hy. rewrite Ha. apply IH; [done|lia].
  - rewrite cyc_le by lia. apply add_ok; [done|]. apply dlen_fits. rewrite length_take. lia.
Qed.

Lemma add_bits_ok fuel cnt alt key x m :
  stands_for (alg C) x m → fits alt → fits key → 0 ≤ cnt < Z.of_nat fuel →
  computes (add_bits C fuel cnt alt key x) (m ++ by_bits cnt alt key).
Proof.
  intros Hx Ha Hk. revert cnt x m Hx. induction fuel as [|fuel IH]; intros cnt x m Hx Hf; [lia|]. cbn [add_bits].
  destruct (Z.ltb_spec 0 cnt) as [Hc|Hc].
  - rewrite by_bits_step, app_assoc, odd_land by done. eapply computes_seq with (m ++ (if Z.odd cnt then alt else key)).
    { destruct (Z.odd cnt); by apply add_ok. }
    intros y Hy. apply IH; [done|]. rewrite Z.shiftr_div_pow2 by lia. change (2 ^ 1) with 2.
    split; [apply Z.div_pos; lia|apply Z.div_lt_upper_bound; lia].
  - assert (cnt = 0) as -> by lia. unfold by_bits. cbn. rewrite app_nil_r. by apply skip_ok.
Qed.

Lemma add_times_ok n data x m :
  stands_for (alg C) x m → fits data → computes (add_times C n data x) (m ++ concat (replicate n data)).
Proof.
  intros Hx Hd. revert x m Hx. induction n as [|n IH]; intros x m Hx; cbn [add_times replicate concat].
  - rewrite app_nil_r. by apply skip_ok.
  - rewrite app_assoc. eapply computes_seq; [by apply add_ok|]. intros y Hy. by apply IH.
Qed.

Lemma byte_sequence_ok fuel cnt temp :
  length temp = dlen C → (cnt < fuel)%nat → byte_sequence C fuel cnt temp = Ok (cyc cnt temp).
Proof.
  intros Ht. assert (0 < dlen C)%nat as Hd by (unfold dlen, digest_len; pose proof (wbytes_pos _ L); lia).
  assert (temp ≠ []) as Hn by (intros ->; simpl in Ht; lia).
  revert cnt. induction fuel as [|fuel IH]; intros cnt Hf; [lia|]. cbn [byte_sequence].
  destruct (Nat.leb_spec (dlen C) cnt).
  - rewrite IH by lia. cbn [mbind cres_bind]. by rewrite (cyc_ge cnt), Ht by (done || lia).
  - by rewrite cyc_le by lia.
Qed.

Lemma one_round_ok P S alt i :
  fits P → fits S → fits alt → one_round C P S i alt = Ok (ref_round C P S alt i).
Proof.
  intros HP HS Ha. unfold one_round, ref_round. rewrite odd_land.
  eapply computes_bind with (m := [] ++ (if Z.odd i then P else alt)).
  { destruct (Z.odd i); apply add_ok; (done || apply start_ok). }
  intros x Hx. eapply computes_bind with (m := ([] ++ (if Z.odd i then P else alt)) ++ (if i mod 3 =? 0 then [] else S)).
  { destruct (i mod 3 =? 0); [rewrite app_nil_r; by apply skip_ok|by apply add_ok]. }
  clear x Hx. intros x Hx. eapply computes_bind with
    (m := (([] ++ (if Z.odd i then P else alt)) ++ (if i mod 3 =? 0 then [] else S)) ++ (if i mod 7 =? 0 then [] else P)).
  { destruct (i mod 7 =? 0); [rewrite app_nil_r; by apply skip_ok|by apply add_ok]. }
  clear x Hx. intros x Hx. eapply computes_bind with (m := ((([] ++ (if Z.odd i then P else alt)) ++
    (if i mod 3 =? 0 then [] else S)) ++ (if i mod 7 =? 0 then [] else P)) ++ (if Z.odd i then alt else P)).
  { destruct (Z.odd i); by apply add_ok. }
  clear x Hx. intros x Hx. rewrite (finish_ok _ _ Hx). by rewrite <- !app_assoc.
Qed.

Lemma ref_round_length P Q alt i : length (ref_round C P Q alt i) = dlen C.
Proof. apply length_sha2_hash. Qed.

Lemma all_rounds_ok n i P Q alt :
  fits P → fits Q → length alt = dlen C →
  all_rounds C n (Z.of_nat i) P Q alt = Ok (foldl (ref_round C P Q) alt (List.map Z.of_nat (seq i n))).
Proof.
  intros HP HQ. revert i alt; induction n as [|n IH]; intros i alt Ha; cbn [all_rounds seq List.map foldl]; [done|].
  rewrite one_round_ok by (done || apply dlen_fits; lia). cbn [mbind cres_bind].
  replace (Z.of_nat i + 1) with (Z.of_nat (S i)) by lia. apply IH, ref_round_length.
Qed.

(** The loops compute the digest of the specification. *)
Lemma crypt_digest_ok key salt rounds :
  fits key → (length salt ≤ SALT_LEN_MAX)%nat → crypt_digest C key salt rounds = Ok (ref_digest C key salt rounds).
Proof.
  intros Hk Hs. assert (Hsf : fits salt).
  { apply Z.le_lt_trans with (2 * Z.of_nat (block (alg C))); [|done]. unfold block, SALT_LEN_MAX in *. pose proof (wbytes_pos _ L). lia. }
  assert (Hd : ∀ m, length (hash m) = dlen C) by (intros; apply length_sha2_hash).
  assert (Hne : ∀ m, hash m ≠ []).
  { intros m Hm. specialize (Hd m). rewrite Hm in Hd. unfold dlen, digest_len in Hd. pose proof (wbytes_pos _ L). simpl in Hd. lia. }
  unfold crypt_digest, ref_digest.
  eapply computes_bind; [by apply add_ok; [apply start_ok|]|intros x1 H1].
  eapply computes_bind; [by apply add_ok|intros x2 H2].
  eapply computes_bind; [by apply add_ok; [apply start_ok|]|intros y1 I1].
  eapply computes_bind; [by apply add_ok|intros y2 I2].
  eapply computes_bind; [by apply add_ok|intros y3 I3].
  rewrite (finish_ok _ _ I3). cbn [app mbind cres_bind]. rewrite <- app_assoc. set (B := hash (key ++ salt ++ key)).
  eapply computes_bind; [apply add_digest_ok; [done|apply Hd|lia]|intros x3 H3].
  eapply computes_bind; [apply add_bits_ok; [done|apply dlen_fits; unfold B; by rewrite Hd|done|lia]|intros x4 H4].
  rewrite (finish_ok _ _ H4). cbn [app mbind cres_bind]. rewrite <- !app_assoc.
  set (A := hash (key ++ salt ++ _)).
  eapply computes_bind; [by apply add_times_ok; [apply start_ok|]|intros y4 I4].
  rewrite (finish_ok _ _ I4). cbn [app mbind cres_bind]. rewrite byte_sequence_ok by (apply Hd || lia). cbn [mbind cres_bind].
  eapply computes_bind; [by apply add_times_ok; [apply start_ok|]|intros y5 I5].
  rewrite (finish_ok _ _ I5). cbn [app mbind cres_bind]. rewrite byte_sequence_ok by (apply Hd || lia). cbn [mbind cres_bind].
  apply (all_rounds_ok _ 0); [by rewrite length_cyc by apply Hne..|apply Hd].
Qed.

Lemma ref_digest_length key salt rounds : length (ref_digest C key salt rounds) = dlen C.
Proof.
  unfold ref_digest. set (A := sha2_hash _ (key ++ salt ++ _)).
  assert (length A = dlen C) as HA by apply length_sha2_hash. clearbody A.
  generalize (List.map Z.of_nat (seq 0 (Z.to_nat rounds))). intros l.
  match goal with |- context [ref_round C ?P ?Q] => generalize P, Q end. intros P Q.
  revert A HA. induction l as [|i l IH]; intros A HA; [done|]. apply IH, ref_round_length.
Qed.
End digest.

(** ** The text *)
Definition rounds_text (s : setting) : bytes :=
  if s_custom s then rounds_prefix ++ fmt_d (s_rounds s) ++ lit "$" else [].

Definition digest_text (C : shacrypt) (alt : bytes) : bytes :=
  concat (List.map (λ g, to64 (sextet_value alt g) g.2) (groups C)).

Lemma b64_loop_room n v o :
  Z.of_nat n ≤ room o → b64_loop n v o = Out (text o ++ to64 v n) (room o - Z.of_nat n).
Proof.
  revert v o; induction n as [|n IH]; intros v o Hn; cbn [b64_loop to64].
  - rewrite app_nil_r, Z.sub_0_r. by destruct o.
  - rewrite (proj2 (Z.ltb_lt _ _)) by lia. rewrite IH by (cbn [put room]; lia). cbn [put text room].
    rewrite <- app_assoc. f_equal. lia.
Qed.

Definition text_len (C : shacrypt) : nat := list_sum (List.map snd (groups C)).

Lemma groups_room alt (l : list sextets) o :
  Z.of_nat (list_sum (List.map snd l)) ≤ room o →
  foldl (b64_from_24bit alt) o l =
    Out (text o ++ concat (List.map (λ g, to64 (sextet_value alt g) g.2) l)) (room o - Z.of_nat (list_sum (List.map snd l))).
Proof.
  revert o; induction l as [|g l IH]; intros o Ho; cbn [foldl List.map concat] in *.
  - cbn [List.map list_sum fold_right]. rewrite app_nil_r, Z.sub_0_r. by destruct o.
  - change (list_sum (g.2 :: List.map snd l)) with (g.2 + list_sum (List.map snd l))%nat in *.
    unfold b64_from_24bit at 2. rewrite b64_loop_room by lia. rewrite IH by (cbn [room]; lia).
    cbn [text room]. rewrite <- app_assoc. f_equal. lia.
Qed.

Lemma crypt_text_room C s alt buflen :
  Z.of_nat (length (salt_prefix C ++ rounds_text s ++ s_salt s) + 1 + text_len C) < buflen →
  crypt_text C s alt buflen = Some (salt_prefix C ++ rounds_text s ++ s_salt s ++ "$"%char :: digest_text C alt).
Proof.
  rewrite !length_app. intros Hb. unfold crypt_text, write_prefix. cbn [text room app].
  rewrite (take_ge (salt_prefix C)) by lia.
  assert (write_rounds s (Out (salt_prefix C) (buflen - Z.of_nat (length (salt_prefix C)))) =
          Out (salt_prefix C ++ rounds_text s) (buflen - Z.of_nat (length (salt_prefix C)) - Z.of_nat (length (rounds_text s)))) as ->.
  { unfold write_rounds, rounds_text in *. destruct (s_custom s); cbn [text room].
    - by rewrite take_ge by lia.
    - by rewrite app_nil_r, Z.sub_0_r. }
  unfold write_salt. cbn [text room]. rewrite Z.max_r, Z.min_r by lia. rewrite (take_ge (s_salt s)) by lia.
  rewrite (proj2 (Z.ltb_lt _ _)) by lia. cbn [put text room].
  unfold put. cbn [text room]. rewrite groups_room by (cbn [room]; unfold text_len in Hb; lia). cbn [text room].
  rewrite (proj2 (Z.leb_gt _ _)) by (unfold text_len in Hb; lia). f_equal. by rewrite <- !app_assoc.
Qed.

Lemma fmt_digits_length fuel z k : 0 ≤ z < 10 ^ Z.of_nat k → (0 < k)%nat → (length (fmt_digits fuel z) ≤ k)%nat.
Proof.
  revert z k; induction fuel as [|fuel IH]; intros z k Hz Hk; cbn [fmt_digits]; [simpl; lia|].
  case_bool_decide as H10; [done|]. rewrite length_app. cbn [length].
  destruct k as [|[|k]]; [lia|simpl in Hz; lia|].
  assert (length (fmt_digits fuel (z / 10)) ≤ S k)%nat; [|lia]. apply IH; [|lia].
  rewrite Nat2Z.inj_succ, Z.pow_succ_r in Hz by lia. split; [apply Z.div_pos; lia|apply Z.div_lt_upper_bound; lia].
Qed.

(** ** Settings *)
Lemma parse_salt_spec salt :
  "$"%char ∉ parse_salt salt ∧ (length (parse_salt salt) ≤ SALT_LEN_MAX)%nat ∧ (no_nul salt → no_nul (parse_salt salt)).
Proof.
  unfold parse_salt. set (t := take_while _ salt). split_and!.
  - intros Hin. apply elem_of_take in Hin as (i & Hi & _). 
    pose proof (take_while_Forall (λ c, negb (bool_decide (c = "$"%char))) salt) as Hf. fold t in Hf.
    rewrite Forall_lookup in Hf. specialize (Hf _ _ Hi). by rewrite bool_decide_eq_true_2 in Hf.
  - rewrite length_take. lia.
  - intros Hn Hin. apply Hn. apply elem_of_take in Hin as (i & Hi & _). apply list_elem_of_lookup_2 in Hi.
    rewrite <- (take_drop_while (λ c, negb (bool_decide (c = "$"%char))) salt). fold t. set_solver.
Qed.

Lemma parse_salt_app salt rest :
  "$"%char ∉ salt → (length salt ≤ SALT_LEN_MAX)%nat → parse_salt (salt ++ "$"%char :: rest) = salt.
Proof.
  intros Hs Hl. unfold parse_salt. rewrite take_while_app.
  - by rewrite take_ge.
  - apply Forall_forall. intros c Hc. rewrite bool_decide_eq_false_2; [done|]. by intros ->.
  - by rewrite bool_decide_eq_true_2.
Qed.

(** Settings the code can get from a string. *)
Record good_setting (s : setting) : Prop := {
  good_dollar : "$"%char ∉ s_salt s;
  good_length : (length (s_salt s) ≤ SALT_LEN_MAX)%nat;
  good_rounds : if s_custom s then ROUNDS_MIN ≤ s_rounds s ≤ ROUNDS_MAX else s_rounds s = ROUNDS_DEFAULT;
}.

Lemma parse_setting_good C salt : good_setting (parse_setting C salt).
Proof.
  unfold parse_setting. set (t := if has_prefix _ salt then _ else _).
  assert (∀ u, good_setting (Setting (parse_salt u) ROUNDS_DEFAULT false)) as Hdef.
  { intros u. destruct (parse_salt_spec u) as (? & ? & _). by constructor. }
  destruct (has_prefix rounds_prefix t); [|done]. destruct (strtoul _) as [sr endp].
  case_bool_decide; [|done]. destruct (parse_salt_spec (drop 1 endp)) as (? & ? & _).
  constructor; [done..|]. cbn [s_custom s_rounds]. unfold ROUNDS_MIN, ROUNDS_MAX. lia.
Qed.

(** The text a setting and a digest produce. *)
Definition hash_text (C : shacrypt) (s : setting) (txt : bytes) : bytes :=
  salt_prefix C ++ rounds_text s ++ s_salt s ++ "$"%char :: txt.

(** A prefix without "$" lies in front of the first "$". *)
Lemma has_prefix_dollar p s rest :
  "$"%char ∉ p → has_prefix p (s ++ "$"%char :: rest) = has_prefix p s.
Proof.
  intros Hp. unfold has_prefix. apply bool_decide_ext. rewrite take_app. split; intros Heq.
  - destruct (length p - length s)%nat as [|k] eqn:E; [by rewrite app_nil_r in Heq|].
    exfalso. apply Hp. rewrite <- Heq. cbn [firstn]. set_solver.
  - replace (length p - length s)%nat with 0%nat; [by rewrite app_nil_r|].
    apply (f_equal length) in Heq. rewrite length_take in Heq. lia.
Qed.

(** A hash that has been made is read back as the setting it was made with. *)
Lemma parse_hash_text C s txt :
  good_setting s → s_custom s = true ∨ has_prefix rounds_prefix (s_salt s) = false →
  parse_setting C (hash_text C s txt) = s.
Proof.
  intros [Hd Hl Hr] Hor. unfold parse_setting, hash_text. rewrite has_prefix_app, drop_app_length.
  unfold rounds_text. destruct s as [salt rounds custom]. cbn [s_custom s_salt s_rounds] in *. destruct custom.
  - rewrite <- !app_assoc, has_prefix_app, drop_app_length.
    change (lit "$" ++ salt ++ "$"%char :: txt) with ("$"%char :: salt ++ "$"%char :: txt).
    unfold ROUNDS_MIN, ROUNDS_MAX in *.
    rewrite strtoul_fmt by (done || lia). cbn [head]. rewrite bool_decide_eq_true_2 by done.
    cbn [skipn]. rewrite drop_0, parse_salt_app by done. f_equal. lia.
  - destruct Hor as [?|Hp]; [done|]. cbn [app]. rewrite has_prefix_dollar, Hp by by compute_done.
    by rewrite parse_salt_app, Hr by done.
Qed.

(** ** The digest can be read off its text *)
Definition opt_byte (alt : bytes) (i : option nat) : Z :=
  match i with Some i => u8 (default NUL (alt !! i)) | None => 0 end.

Lemma opt_byte_range alt i : 0 ≤ opt_byte alt i < 256.
Proof. destruct i; cbn; [apply u8_range|lia]. Qed.

Lemma sextet_value_sum alt b2 b1 b0 n :
  sextet_value alt (b2, b1, b0, n) = opt_byte alt b2 * 65536 + opt_byte alt b1 * 256 + opt_byte alt b0.
Proof.
  unfold sextet_value. fold (opt_byte alt b2) (opt_byte alt b1) (opt_byte alt b0).
  pose proof (opt_byte_range alt b2). pose proof (opt_byte_range alt b1). pose proof (opt_byte_range alt b0).
  rewrite !Z.shiftl_mul_pow2 by lia.
  rewrite (lor_add_swap (opt_byte alt b1 * 2 ^ 8) (opt_byte alt b2) 16) by lia.
  replace (opt_byte alt b1 * 2 ^ 8 + opt_byte alt b2 * 2 ^ 16) with ((opt_byte alt b1 + opt_byte alt b2 * 2 ^ 8) * 2 ^ 8) by lia.
  rewrite lor_add_swap by lia. lia.
Qed.

(** The characters are enough for the value. *)
Definition wide_enough (g : sextets) : bool :=
  let '(b2, b1, b0, n) := g in
  match b2, b1 with
  | Some _, _ => 4 <=? n
  | None, Some _ => 3 <=? n
  | None, None => 2 <=? n
  end%nat.

Lemma pow64_mono i n : (i ≤ n)%nat → 64 ^ Z.of_nat i ≤ 64 ^ Z.of_nat n.
Proof. intros. apply Z.pow_le_mono_r; lia. Qed.

Lemma sextet_value_range alt g : wide_enough g = true → 0 ≤ sextet_value alt g < 64 ^ Z.of_nat g.2.
Proof.
  destruct g as [[[b2 b1] b0] n]. rewrite sextet_value_sum. intros Hn. cbn [snd].
  pose proof (opt_byte_range alt b2). pose proof (opt_byte_range alt b1). pose proof (opt_byte_range alt b0).
  destruct b2; [|destruct b1]; cbn [wide_enough opt_byte] in *; apply Nat.leb_le, pow64_mono in Hn.
  - change (64 ^ Z.of_nat 4) with 16777216 in Hn. lia.
  - change (64 ^ Z.of_nat 3) with 262144 in Hn. lia.
  - change (64 ^ Z.of_nat 2) with 4096 in Hn. lia.
Qed.

Definition opt_list (i : option nat) : list nat := match i with Some i => [i] | None => [] end.

Definition group_indices (g : sextets) : list nat :=
  let '(b2, b1, b0, _) := g in opt_list b2 ++ opt_list b1 ++ opt_list b0.

Lemma sextet_value_inj a b g i :
  sextet_value a g = sextet_value b g → i ∈ group_indices g → default NUL (a !! i) = default NUL (b !! i).
Proof.
  destruct g as [[[b2 b1] b0] n]. rewrite !sextet_value_sum. intros Hv Hi.
  pose proof (opt_byte_range a b2). pose proof (opt_byte_range a b1). pose proof (opt_byte_range a b0).
  pose proof (opt_byte_range b b2). pose proof (opt_byte_range b b1). pose proof (opt_byte_range b b0).
  assert (opt_byte a b2 = opt_byte b b2 ∧ opt_byte a b1 = opt_byte b b1 ∧ opt_byte a b0 = opt_byte b b0) as (E2 & E1 & E0) by lia.
  unfold group_indices in Hi. rewrite !elem_of_app in Hi.
  destruct Hi as [Hi|[Hi|Hi]]; [destruct b2|destruct b1|destruct b0]; cbn [opt_list] in Hi;
    first [by apply elem_of_nil in Hi|apply list_elem_of_singleton in Hi as ->; by apply (inj u8)].
Qed.

Lemma digest_text_inj_list (l : list sextets) a b i :
  forallb wide_enough l = true →
  concat (List.map (λ g, to64 (sextet_value a g) g.2) l) = concat (List.map (λ g, to64 (sextet_value b g) g.2) l) →
  i ∈ concat (List.map group_indices l) → default NUL (a !! i) = default NUL (b !! i).
Proof.
  induction l as [|g l IH]; cbn [List.map concat forallb]; intros Hw Heq Hi; [by apply elem_of_nil in Hi|].
  apply andb_prop in Hw as [Hg Hw]. apply app_inj_1 in Heq as [Hh Ht]; [|by rewrite !to64_length].
  apply elem_of_app in Hi as [Hi|Hi]; [|by apply IH].
  apply to64_inj in Hh; [|by apply sextet_value_range..]. by apply (sextet_value_inj a b g).
Qed.

Lemma digest_text_length C alt : length (digest_text C alt) = text_len C.
Proof.
  unfold digest_text, text_len. induction (groups C) as [|g l IH]; [done|].
  cbn [List.map concat]. rewrite length_app, IH, to64_length. done.
Qed.

(** Every byte of the digest is in the text. *)
Definition covers (C : shacrypt) : bool :=
  forallb wide_enough (groups C) &&
  forallb (λ i, bool_decide (i ∈ concat (List.map group_indices (groups C)))) (seq 0 (dlen C)).

Lemma digest_text_inj C a b :
  covers C = true → length a = dlen C → length b = dlen C → digest_text C a = digest_text C b → a = b.
Proof.
  intros [Hw Hc]%andb_prop Ha Hb Heq. apply list_eq_same_length with (dlen C); [done..|].
  intros i x y Hi Hx Hy. rewrite forallb_forall in Hc.
  assert (bool_decide (i ∈ concat (List.map group_indices (groups C))) = true) as Hin%bool_decide_eq_true.
  { apply Hc, list_elem_of_In, elem_of_seq. lia. }
  pose proof (digest_text_inj_list (groups C) a b i Hw Heq Hin) as Hd. by rewrite Hx, Hy in Hd.
Qed.

Lemma digest_text_no_nul C alt : forallb wide_enough (groups C) = true → no_nul (digest_text C alt).
Proof.
  unfold digest_text, no_nul. induction (groups C) as [|g l IH]; cbn [List.map concat forallb].
  - intros _. apply not_elem_of_nil.
  - intros [Hg Hl]%andb_prop. apply not_elem_of_app. split; [|by apply IH].
    apply to64_no_nul. by apply sextet_value_range.
Qed.

Lemma isdigit_not_nul c : isdigit c = true → c ≠ NUL.
Proof. by intros H ->. Qed.

Lemma rounds_text_no_nul s : good_setting s → no_nul (rounds_text s).
Proof.
  intros [_ _ Hr]. unfold rounds_text. destruct (s_custom s); [|by apply not_elem_of_nil].
  unfold no_nul. rewrite !not_elem_of_app. split_and!; [by compute_done| |by compute_done].
  unfold fmt_d, ROUNDS_MIN, ROUNDS_MAX in *. rewrite bool_decide_eq_false_2 by lia.
  destruct (fmt_digits_spec 20 (s_rounds s)) as (Hd & _); [lia|lia|].
  intros Hin. rewrite Forall_forall in Hd. by apply Hd, isdigit_not_nul in Hin.
Qed.

Lemma rounds_text_length s : good_setting s → (length (rounds_text s) ≤ 17)%nat.
Proof.
  intros [_ _ Hr]. unfold rounds_text. destruct (s_custom s); [|simpl; lia].
  rewrite !length_app. unfold fmt_d, ROUNDS_MIN, ROUNDS_MAX in *. rewrite bool_decide_eq_false_2 by lia.
  pose proof (fmt_digits_length 20 (s_rounds s) 9 ltac:(lia) ltac:(lia)).
  change (length rounds_prefix) with 7%nat. change (length (lit "$")) with 1%nat. lia.
Qed.

(** The two functions. *)
Lemma format_facts C :
  C = crypt5 ∨ C = crypt6 →
  sha2_laws (alg C) ∧ 2 * Z.of_nat (block (alg C)) < 2 ^ w (alg C) ∧ covers C = true ∧
  length (salt_prefix C) = 3%nat ∧ no_nul (salt_prefix C) ∧ (text_len C ≤ 86)%nat.
Proof.
  intros [->| ->]; (split; [apply sha256_laws || apply sha512_laws|]); (split; [done|]); (split; [by vm_compute|]);
    (split; [done|]); (split; [by compute_done|]); vm_compute; lia.
Qed.

(** The length of the password fits the word that counts bytes. *)
Definition key_fits (C : shacrypt) (key : bytes) : Prop := Z.of_nat (length key) < 2 ^ w (alg C).

(** What [crypt_sha256] and [crypt_sha512] leave in a buffer of 128 bytes. *)
Lemma crypt_sha_ok C key salt :
  C = crypt5 ∨ C = crypt6 → key_fits C key →
  let s := parse_setting C salt in
  crypt_sha C key salt 128 = Ok (Some (hash_text C s (digest_text C (ref_digest C key (s_salt s) (s_rounds s))))).
Proof.
  intros HC Hk s. destruct (format_facts C HC) as (L & Hw & _ & Hp & _ & Ht).
  pose proof (parse_setting_good C salt) as Hg. fold s in Hg.
  unfold crypt_sha. fold s. rewrite crypt_digest_ok by (done || apply Hg). cbn [mbind cres_bind].
  rewrite crypt_text_room; [done|]. rewrite !length_app. pose proof (rounds_text_length s Hg). pose proof (good_length s Hg).
  unfold SALT_LEN_MAX in *. lia.
Qed.

Lemma drop_while_elem {A} (p : A → bool) l x : x ∈ drop_while p l → x ∈ l.
Proof. intros Hx. rewrite <- (take_drop_while p l). set_solver. Qed.

Lemma drop_elem {A} n (l : list A) x : x ∈ drop n l → x ∈ l.
Proof. intros Hx. rewrite <- (take_drop n l). set_solver. Qed.

Lemma strtoul_rest s v e x : strtoul s = (v, e) → x ∈ e → x ∈ s.
Proof.
  unfold strtoul. case_match; intros [= _ <-]; [done|]. intros Hx%drop_while_elem.
  case_match; [apply drop_elem in Hx|]; by apply drop_while_elem in Hx.
Qed.

Lemma parse_setting_no_nul C salt : no_nul salt → no_nul (s_salt (parse_setting C salt)).
Proof.
  intros Hn. unfold parse_setting. set (t := if has_prefix _ salt then _ else _).
  assert (no_nul t) as Ht by (unfold t; case_match; [intros Hx%drop_elem|]; done).
  assert (∀ u, no_nul u → no_nul (parse_salt u)) as Hp by (intros u Hu; by apply parse_salt_spec).
  destruct (has_prefix rounds_prefix t); [|by apply Hp]. destruct (strtoul _) as [sr endp] eqn:E.
  case_bool_decide; [|by apply Hp]. apply Hp. intros Hx%drop_elem. apply Ht.
  eapply drop_elem, strtoul_rest; done.
Qed.

(** Length, characters and digest of a hash. *)
Lemma hash_text_length C s alt :
  length (salt_prefix C) = 3%nat → (text_len C ≤ 86)%nat → good_setting s →
  (length (hash_text C s (digest_text C alt)) < 128)%nat.
Proof.
  intros Hp Ht Hg. unfold hash_text. rewrite !length_app. cbn [length]. pose proof (rounds_text_length s Hg).
  pose proof (good_length s Hg). unfold SALT_LEN_MAX in *. rewrite digest_text_length. lia.
Qed.

Lemma hash_text_no_nul C s alt :
  C = crypt5 ∨ C = crypt6 → good_setting s → no_nul (s_salt s) → no_nul (hash_text C s (digest_text C alt)).
Proof.
  intros HC Hg Hs. destruct (format_facts C HC) as (_ & _ & [Hw _]%andb_prop & _ & Hp & _).
  unfold hash_text, no_nul. rewrite !not_elem_of_app, not_elem_of_cons.
  split_and!; [done|by apply rounds_text_no_nul|done|done|by apply digest_text_no_nul].
Qed.

Lemma hash_text_inj C s a b : hash_text C s a = hash_text C s b → a = b.
Proof. unfold hash_text. intros H%app_inv_head%app_inv_head%app_inv_head. by apply cons_eq in H as [_ H]. Qed.

(** * Properties *)

(** C31. The digest loops of [crypt_sha256] and [crypt_sha512] (the alternate
    sum, one copy of it per bit of the key length, the P and S sequences and
    the rounds) compute the digest of the SHA-crypt specification, and no step
    leaves a buffer; whatever the setting string, the result fits the 128-byte
    buffer the password check passes, and is terminated. *)
Theorem crypt_sha_refines (C : shacrypt) (key salt : bytes) :
  C = crypt5 ∨ C = crypt6 → key_fits C key →
  let s := parse_setting C salt in
  crypt_sha C key salt 128 =
    Ok (Some (salt_prefix C ++ rounds_text s ++ s_salt s ++
              "$"%char :: digest_text C (ref_digest C key (s_salt s) (s_rounds s)))).
Proof. apply crypt_sha_ok. Qed.

Lemma crypt_sha_refines_witness :
  let s := parse_setting crypt5 (lit "$5$rounds=77$salt$x") in
  s = Setting (lit "salt") 1000 true ∧
  crypt_sha256 (lit "pw") (lit "$5$rounds=77$salt$x") 128 =
    Ok (Some (lit "$5$rounds=1000$salt$" ++ digest_text crypt5 (ref_digest crypt5 (lit "pw") (lit "salt") 1000))).
Proof.
  split; [by vm_compute|].
  etransitivity; [apply (crypt_sha_refines crypt5 (lit "pw") (lit "$5$rounds=77$salt$x")); [by left|done]|].
  assert (parse_setting crypt5 (lit "$5$rounds=77$salt$x") = Setting (lit "salt") 1000 true) as -> by (by vm_compute).
  reflexivity.
Defined.
