(* ===== verification/BcryptRef.v ===== *)
(** bcrypt as its authors describe it, and the proof that [crypt/crypt_bf.c]
    ([Bcrypt]) computes it.

    The reference keeps the state of Blowfish as one list of words, the P array
    followed by the S boxes.  Expanding a key replaces the words two by two by
    a chain of encryptions; the salt is mixed into the chain.  The code does
    the same in separate loops over the two arrays, with the rounds of the
    cipher unrolled by two and the next subkey mixed in early. *)

From S2P Require Import Prelude CString Sha2 Bcrypt.

Local Open Scope Z_scope.

(** * Reference *)
Definition nthw (w : list Z) (i : nat) : Z := default 0 (w !! i).

(** The S boxes start after 18 words. *)
Definition S_word (w : list Z) (box i : Z) : Z := nthw w (18 + Z.to_nat (256 * box + i)).

Definition ref_F (w : list Z) (x : Z) : Z :=
  let t := u32 (S_word w 0 (Z.shiftr x 24) + S_word w 1 (Z.land (Z.shiftr x 16) 0xff)) in
  let t := Z.lxor t (S_word w 2 (Z.land (Z.shiftr x 8) 0xff)) in
  u32 (t + S_word w 3 (Z.land x 0xff)).

Definition ref_bf_round (w : list Z) (lr : Z * Z) (i : nat) : Z * Z :=
  let l := Z.lxor lr.1 (nthw w i) in (Z.lxor lr.2 (ref_F w l), l).

(** Sixteen rounds; the last exchange is undone. *)
Definition ref_encrypt (w : list Z) (lr : Z * Z) : Z * Z :=
  let lr := foldl (ref_bf_round w) lr (seq 0 16) in
  (Z.lxor lr.2 (nthw w 17), Z.lxor lr.1 (nthw w 16)).

(** One block of the chain. *)
Definition expand_step (salt : list Z) (s : list Z * (Z * Z)) (n : nat) : list Z * (Z * Z) :=
  let '(w, lr) := s in
  let lr := ref_encrypt w (Z.lxor lr.1 (nthw salt ((2 * n) mod 4)), Z.lxor lr.2 (nthw salt ((2 * n + 1) mod 4))) in
  (<[(2 * n + 1)%nat := lr.2]> (<[(2 * n)%nat := lr.1]> w), lr).
Definition expand_words (salt : list Z) (w : list Z) : list Z := (foldl (expand_step salt) (w, (0, 0)) (seq 0 521)).1.

(** The key is mixed into the P array. *)
Definition mix (key w : list Z) : list Z := zip_with Z.lxor (take 18 w) key ++ drop 18 w.

Definition zero_salt : list Z := [0; 0; 0; 0].
Definition key_round (key salt w : list Z) : list Z :=
  expand_words zero_salt (mix (salt_words salt) (expand_words zero_salt (mix key w))).

Definition ref_setup (cost : nat) (salt key : list Z) : list Z :=
  Nat.iter (2 ^ cost) (key_round key salt) (expand_words salt (mix key (init_P ++ init_S))).

Definition ref_output (w : list Z) : list Z :=
  let enc i := let lr := Nat.iter 64 (ref_encrypt w) (nthw BF_magic_w i, nthw BF_magic_w (i + 1)) in [lr.1; lr.2] in
  enc 0%nat ++ enc 2%nat ++ enc 4%nat.

(** The password with its terminator, again and again. *)
Definition cyclic (key : bytes) (n : nat) : ascii := default NUL ((key ++ [NUL]) !! (n mod S (length key))%nat).
Definition key_word (key : bytes) (i : nat) : Z := be_load (cyclic key <$> seq (4 * i) 4).
Definition bf_key_words (key : bytes) : list Z := key_word key <$> seq 0 18.

Definition salt_of (salt : bytes) : list Z := (λ i, be_load (take 4 (drop (4 * i) salt))) <$> seq 0 4.

(** 23 of the 24 bytes of the result. *)
Definition bcrypt_digest (cost : nat) (salt key : bytes) : bytes :=
  take 23 (concat (be_store 4 <$> ref_output (ref_setup cost (salt_of salt) (bf_key_words key)))).

(** * Words *)
Definition wd (x : Z) : Prop := 0 ≤ x < 2 ^ 32.

Lemma u32_mod x : u32 x = x mod 2 ^ 32.
Proof. unfold u32. change 0xffffffff with (Z.ones 32). by rewrite Z.land_ones. Qed.
Lemma wd_u32 x : wd (u32 x).
Proof. rewrite u32_mod. by apply Z.mod_pos_bound. Qed.
Lemma u32_id x : wd x → u32 x = x.
Proof. intros. rewrite u32_mod. by apply Z.mod_small. Qed.
Lemma wd_lxor x y : wd x → wd y → wd (Z.lxor x y).
Proof.
  intros Hx Hy. assert (H : u32 (Z.lxor x y) = Z.lxor x y).
  { rewrite <- (u32_id x), <- (u32_id y) at 2 by done. unfold u32. apply Z.bits_inj'. intros n Hn.
    rewrite !Z.land_spec, !Z.lxor_spec, !Z.land_spec. by destruct (Z.testbit _ n), (Z.testbit _ n), (Z.testbit _ n). }
  rewrite <- H. apply wd_u32.
Qed.
#[local] Hint Resolve wd_u32 wd_lxor : core.

Lemma land_ff_range x : 0 ≤ Z.land x 0xff < 256.
Proof. change 0xff with (Z.ones 8). rewrite Z.land_ones by lia. by apply Z.mod_pos_bound. Qed.
Lemma top_byte_range x : wd x → 0 ≤ Z.shiftr x 24 < 256.
Proof.
  intros [H1 H2]. rewrite Z.shiftr_div_pow2 by lia.
  split; [apply Z.div_pos|apply Z.div_lt_upper_bound]; lia.
Qed.

(** * The tree as an array *)
Lemma lookup_update t p q x :
  lookup_tree (update_tree t p x) q = if decide (p = q) then (match lookup_tree t q with Some _ => Some x | None => None end) else lookup_tree t q.
Proof.
  revert p q; induction t as [|l IHl v r IHr]; intros p q; [by destruct (decide _)|].
  destruct p as [p|p|], q as [q|q|]; cbn [update_tree lookup_tree]; rewrite ?IHl, ?IHr; try (by rewrite decide_False by done);
    try (by rewrite decide_True by done); destruct (decide (p = q)) as [->|Hne]; [by rewrite decide_True by done|
      by rewrite decide_False by naive_solver|by rewrite decide_True by done|by rewrite decide_False by naive_solver].
Qed.

(** The tree holds the words of [l]. *)
Definition holds_array (t : array) (l : list Z) : Prop :=
  length l = 1024%nat ∧ ∀ i x, l !! i = Some x → lookup_tree t (index (Z.of_nat i)) = Some x.

Lemma index_inj i j : 0 ≤ i → 0 ≤ j → index i = index j → i = j.
Proof. unfold index. intros. apply (Z2Pos.inj (i + 1) (j + 1)) in H1; lia. Qed.

Lemma holds_words_update t l i x :
  holds_array t l → (i < 1024)%nat → holds_array (update_tree t (index (Z.of_nat i)) x) (<[i := x]> l).
Proof.
  intros [Hl Ht] Hi. split; [by rewrite length_insert|]. intros j y Hy. rewrite lookup_update.
  destruct (decide (i = j)) as [->|Hne].
  - rewrite list_lookup_insert_eq in Hy by lia. simplify_eq. rewrite decide_True by done.
    destruct (lookup_lt_is_Some_2 l j) as [z Hz]; [lia|]. by rewrite (Ht j z Hz).
  - rewrite list_lookup_insert_ne in Hy by done. rewrite decide_False; [by apply Ht|].
    intros Heq%index_inj; lia.
Qed.

Lemma sbox_at_ok t l box i :
  holds_array t l → 0 ≤ box < 4 → 0 ≤ i < 256 → sbox_at t box i = Ok (nthw l (Z.to_nat (256 * box + i))).
Proof.
  intros [Hl Ht] Hb Hi. unfold sbox_at. rewrite (proj2 (Z.ltb_ge _ _)), (proj2 (Z.leb_gt _ _)) by lia. cbn [orb].
  destruct (lookup_lt_is_Some_2 l (Z.to_nat (256 * box + i))) as [x Hx]; [lia|].
  rewrite <- (Z2Nat.id (256 * box + i)) at 1 by lia. rewrite (Ht _ _ Hx). unfold nthw. by rewrite Hx.
Qed.

(** * The cipher *)
Record models (x : BF_ctx) (w : list Z) : Prop := {
  m_P : bP x = take 18 w;
  m_S : holds_array (bS x) (drop 18 w);
  m_wd : Forall wd w;
}.

Lemma models_length x w : models x w → length w = 1042%nat.
Proof. intros [_ [Hl _] _]. rewrite length_drop in Hl. lia. Qed.

Lemma wd_nthw w i : Forall wd w → wd (nthw w i).
Proof.
  intros Hw. unfold nthw. destruct (w !! i) as [x|] eqn:Hx; [|by unfold wd; cbn; lia].
  by eapply Forall_lookup_1 in Hx.
Qed.

Lemma P_word x w i : models x w → (i < 18)%nat → arr_get (bP x) i = Ok (nthw w i).
Proof.
  intros Hm Hi. pose proof (models_length x w Hm). destruct (lookup_lt_is_Some_2 w i) as [y Hy]; [lia|].
  rewrite (m_P _ _ Hm). unfold nthw. rewrite Hy. apply arr_get_ok. by rewrite lookup_take_lt.
Qed.

Lemma S_word_ok x w box i :
  models x w → 0 ≤ box < 4 → 0 ≤ i < 256 → sbox_at (bS x) box i = Ok (S_word w box i).
Proof.
  intros Hm Hb Hi. rewrite (sbox_at_ok _ _ _ _ (m_S _ _ Hm)) by done. unfold S_word, nthw. by rewrite lookup_drop.
Qed.

Lemma ref_F_wd w x : wd (ref_F w x).
Proof. apply wd_u32. Qed.

Lemma BF_ROUND_ok x w l r n :
  models x w → wd l → (n < 17)%nat →
  BF_ROUND x l r n = Ok (Z.lxor (Z.lxor r (nthw w (n + 1))) (ref_F w l)).
Proof.
  intros Hm Hl Hn. pose proof (land_ff_range l). pose proof (land_ff_range (Z.shiftr l 8)).
  pose proof (land_ff_range (Z.shiftr l 16)). pose proof (top_byte_range l Hl).
  unfold BF_ROUND. do 4 (rewrite (S_word_ok x w) by (done || lia); cbn [mbind cres_bind]).
  rewrite (P_word x w) by (done || lia). cbn [mbind cres_bind]. unfold ref_F. cbv zeta.
  by rewrite (Z.add_comm (S_word w 1 _)).
Qed.

(** Two rounds of the code are two rounds of the reference, the code having
    already mixed in the subkey of the next one. *)
Lemma BF_ROUND2_ok x w l r n :
  models x w → wd l → wd r → (n < 16)%nat →
  let lr := ref_bf_round w (ref_bf_round w (l, r) n) (n + 1) in
  BF_ROUND2 x (Z.lxor l (nthw w n), r) n = Ok (Z.lxor lr.1 (nthw w (n + 2)), lr.2) ∧ wd lr.1 ∧ wd lr.2.
Proof.
  intros Hm Hl Hr Hn lr. pose proof (wd_nthw w n (m_wd _ _ Hm)). pose proof (wd_nthw w (n + 1) (m_wd _ _ Hm)).
  assert (Hwl : wd (Z.lxor l (nthw w n))) by auto. set (l1 := Z.lxor l (nthw w n)) in *.
  assert (Hlr : lr = (Z.lxor l1 (ref_F w (Z.lxor (Z.lxor r (ref_F w l1)) (nthw w (n + 1)))), Z.lxor (Z.lxor r (ref_F w l1)) (nthw w (n + 1)))) by done.
  clearbody lr. subst lr. cbn [fst snd]. pose proof (ref_F_wd w l1).
  assert (Heq : ∀ a b c, Z.lxor (Z.lxor a b) c = Z.lxor (Z.lxor a c) b).
  { intros a b c. by rewrite !Z.lxor_assoc, (Z.lxor_comm b c). }
  split; [|split; [apply wd_lxor; [done|apply ref_F_wd]|auto]].
  unfold BF_ROUND2. cbn [fst snd]. rewrite (BF_ROUND_ok x w) by (done || lia). cbn [mbind cres_bind].
  rewrite (Heq r (nthw w (n + 1))). rewrite (BF_ROUND_ok x w) by (auto || lia). cbn [mbind cres_bind].
  replace (n + 1 + 1)%nat with (n + 2)%nat by lia. by rewrite Heq.
Qed.

Lemma rounds_ok x w k l r :
  models x w → (k ≤ 8)%nat → wd l → wd r →
  let lr := foldl (ref_bf_round w) (l, r) (seq 0 (2 * k)) in
  foldC (BF_ROUND2 x) (twos k) (Z.lxor l (nthw w 0), r) = Ok (Z.lxor lr.1 (nthw w (2 * k)), lr.2) ∧ wd lr.1 ∧ wd lr.2.
Proof.
  intros Hm Hk Hl Hr. cbv zeta. induction k as [|k IH]; [done|].
  destruct IH as (IH & Hw1 & Hw2); [lia|]. unfold twos. rewrite seq_S, fmap_app, foldC_app. fold (twos k).
  rewrite IH. cbn [mbind cres_bind fmap list_fmap foldC]. rewrite Nat.add_0_l.
  replace (2 * S k)%nat with (2 * k + 2)%nat by lia. rewrite seq_app, foldl_app. cbn [seq foldl].
  destruct (foldl (ref_bf_round w) (l, r) (seq 0 (2 * k))) as [l' r'].
  destruct (BF_ROUND2_ok x w l' r' (2 * k) Hm Hw1 Hw2 ltac:(lia)) as (H2 & Hv1 & Hv2).
  cbn [fst snd]. rewrite H2. cbn [mbind cres_bind]. rewrite Nat.add_0_l.
  replace (S (2 * k)) with (2 * k + 1)%nat by lia. split; [reflexivity|]. split; [exact Hv1|exact Hv2].
Qed.

Lemma BF_ENCRYPT_ok x w l r :
  models x w → wd l → wd r →
  BF_ENCRYPT x (l, r) = Ok (ref_encrypt w (l, r)) ∧ wd (ref_encrypt w (l, r)).1 ∧ wd (ref_encrypt w (l, r)).2.
Proof.
  intros Hm Hl Hr. unfold BF_ENCRYPT, ref_encrypt. cbn [fst snd]. rewrite (P_word x w 0) by (done || lia). cbn [mbind cres_bind].
  destruct (rounds_ok x w 8 l r Hm ltac:(lia) Hl Hr) as (H8 & Hw1 & Hw2).
  change (twos 8) with [0; 2; 4; 6; 8; 10; 12; 14]%nat in H8. change (2 * 8)%nat with 16%nat in H8, Hw1, Hw2.
  rewrite H8. destruct (foldl (ref_bf_round w) (l, r) (seq 0 16)) as [l' r']. cbn [mbind cres_bind fst snd] in *.
  rewrite (P_word x w) by (done || unfold BF_N; lia). cbn [mbind cres_bind].
  pose proof (wd_nthw w 16 (m_wd _ _ Hm)). pose proof (wd_nthw w 17 (m_wd _ _ Hm)). auto.
Qed.

(** * Expansion *)
Lemma Forall_insert2 w i a b : Forall wd w → wd a → wd b → Forall wd (<[S i := b]> (<[i := a]> w)).
Proof. intros. by repeat apply Forall_insert. Qed.

Lemma put_P_ok x w n lr :
  models x w → wd lr.1 → wd lr.2 → (n < 9)%nat →
  ∃ x', put_P x (2 * n) lr = Ok x' ∧ models x' (<[(2 * n + 1)%nat := lr.2]> (<[(2 * n)%nat := lr.1]> w)).
Proof.
  intros Hm H1 H2 Hn. pose proof (models_length x w Hm) as Hl. destruct Hm as [HP HS Hw].
  assert (length (bP x) = 18%nat) by (rewrite HP, length_take; lia).
  unfold put_P. rewrite arr_set_ok by lia. cbn [mbind cres_bind]. rewrite arr_set_ok by (rewrite length_insert; lia).
  cbn [mbind cres_bind]. eexists. split; [done|]. split; cbn [bP bS].
  - rewrite !take_insert_lt by lia. by rewrite HP.
  - by rewrite !drop_insert_lt by lia.
  - by repeat apply Forall_insert.
Qed.

Lemma put_S_ok x w m lr :
  models x w → wd lr.1 → wd lr.2 → (m < 512)%nat →
  ∃ x', put_S x (Z.of_nat (2 * m)) lr = Ok x' ∧
    models x' (<[(2 * (9 + m) + 1)%nat := lr.2]> (<[(2 * (9 + m))%nat := lr.1]> w)).
Proof.
  intros Hm H1 H2 Hn. pose proof (models_length x w Hm) as Hl. destruct Hm as [HP HS Hw].
  unfold put_S. rewrite (proj2 (Z.leb_le _ _)), (proj2 (Z.ltb_lt _ _)) by lia. cbn [andb]. eexists. split; [done|].
  split; cbn [bP bS].
  - by rewrite !take_insert_ge by lia.
  - rewrite !drop_insert_ge by lia. replace (2 * (9 + m) + 1 - 18)%nat with (2 * m + 1)%nat by lia.
    replace (2 * (9 + m) - 18)%nat with (2 * m)%nat by lia.
    replace (Z.of_nat (2 * m) + 1) with (Z.of_nat (2 * m + 1)) by lia.
    apply holds_words_update; [|lia]. apply holds_words_update; [done|lia].
  - by repeat apply Forall_insert.
Qed.

(** The state of a loop of the code and of the chain. *)
Definition chained (r : BF_ctx * (Z * Z)) (s : list Z * (Z * Z)) : Prop :=
  models r.1 s.1 ∧ r.2 = s.2 ∧ wd r.2.1 ∧ wd r.2.2.

Definition salt_at (salt : list Z) (n : nat) : Z * Z := (nthw salt ((2 * n) mod 4), nthw salt ((2 * n + 1) mod 4)).

Lemma salt_wd salt n : Forall wd salt → wd (salt_at salt n).1 ∧ wd (salt_at salt n).2.
Proof. intros. split; by apply wd_nthw. Qed.

Lemma P_step salt r s n a b :
  chained r s → Forall wd salt → (a, b) = salt_at salt n → (n < 9)%nat →
  ∃ lr x', salted_encrypt r.1 r.2 a b = Ok lr ∧ put_P r.1 (2 * n) lr = Ok x' ∧ chained (x', lr) (expand_step salt s n).
Proof.
  intros (Hm & Heq & H1 & H2) Hs Hab Hn. destruct (salt_wd salt n Hs) as [Ha Hb]. destruct r as [x lr], s as [w lr'].
  rewrite <- Hab in Ha, Hb. cbn [fst snd] in *. subst lr'. apply pair_eq in Hab as [-> ->]. unfold salted_encrypt.
  destruct (BF_ENCRYPT_ok x w _ _ Hm (wd_lxor _ _ H1 Ha) (wd_lxor _ _ H2 Hb)) as (-> & Hw1 & Hw2).
  eexists. destruct (put_P_ok x w n _ Hm Hw1 Hw2 Hn) as (x' & Hx & Hm'). exists x'. by split_and!.
Qed.

Lemma S_step salt r s m a b :
  chained r s → Forall wd salt → (a, b) = salt_at salt (9 + m) → (m < 512)%nat →
  ∃ lr x', salted_encrypt r.1 r.2 a b = Ok lr ∧ put_S r.1 (Z.of_nat (2 * m)) lr = Ok x' ∧
    chained (x', lr) (expand_step salt s (9 + m)).
Proof.
  intros (Hm & Heq & H1 & H2) Hs Hab Hn. destruct (salt_wd salt (9 + m) Hs) as [Ha Hb]. destruct r as [x lr], s as [w lr'].
  rewrite <- Hab in Ha, Hb. cbn [fst snd] in *. subst lr'. apply pair_eq in Hab as [-> ->]. unfold salted_encrypt.
  destruct (BF_ENCRYPT_ok x w _ _ Hm (wd_lxor _ _ H1 Ha) (wd_lxor _ _ H2 Hb)) as (-> & Hw1 & Hw2).
  eexists. destruct (put_S_ok x w m _ Hm Hw1 Hw2 Hn) as (x' & Hx & Hm'). exists x'. by split_and!.
Qed.

Lemma expand_split salt w :
  expand_words salt w = (foldl (λ s m, expand_step salt s (9 + m)) (foldl (expand_step salt) (w, (0, 0)) (seq 0 9)) (seq 0 512)).1.
Proof.
  unfold expand_words. change 521%nat with (9 + 512)%nat. rewrite seq_app, foldl_app.
  change (0 + 9)%nat with (9 + 0)%nat. rewrite <- (fmap_add_seq 9 0 512), foldl_fmap. reflexivity.
Qed.

Lemma zero_salt_wd : Forall wd zero_salt.
Proof. by repeat constructor. Qed.
Lemma zero_salt_at n : salt_at zero_salt n = (0, 0).
Proof.
  unfold salt_at. assert (H : ∀ k, nthw zero_salt k = 0) by (intros k; do 4 (destruct k as [|k]; [done|]); done).
  by rewrite !H.
Qed.

Lemma salted_zero x lr : salted_encrypt x lr 0 0 = BF_ENCRYPT x lr.
Proof. unfold salted_encrypt. rewrite !Z.lxor_0_r. by destruct lr. Qed.

Lemma chained_start x w : models x w → chained (x, (0, 0)) (w, (0, 0)).
Proof. intros. by split_and!. Qed.

(** The unsalted expansion. *)
Lemma BF_body_ok x w : models x w → ∃ x', BF_body x = Ok x' ∧ models x' (expand_words zero_salt w).
Proof.
  intros Hm. unfold BF_body. rewrite expand_split.
  destruct (foldC_sim chained (λ r n, lr ← BF_ENCRYPT r.1 r.2; x ← put_P r.1 (2 * n) lr; Ok (x, lr)) (expand_step zero_salt)
    (seq 0 9) (x, (0, 0)) (w, (0, 0)) (chained_start x w Hm)) as (r1 & Hr1 & Hc1).
  { intros r s n Hn%elem_of_seq Hc.
    destruct (P_step zero_salt r s n 0 0 Hc zero_salt_wd (eq_sym (zero_salt_at n)) ltac:(lia)) as (lr & x' & He & Hp & Hc').
    exists (x', lr). rewrite salted_zero in He. by rewrite He; cbn [mbind cres_bind]; rewrite Hp. }
  destruct (foldC_sim chained (λ r m, lr ← BF_ENCRYPT r.1 r.2; x ← put_S r.1 (Z.of_nat (2 * m)) lr; Ok (x, lr))
    (λ s m, expand_step zero_salt s (9 + m)) (seq 0 512) r1 _ Hc1) as (r2 & Hr2 & Hc2).
  { intros r s m Hn%elem_of_seq Hc.
    destruct (S_step zero_salt r s m 0 0 Hc zero_salt_wd (eq_sym (zero_salt_at _)) ltac:(lia)) as (lr & x' & He & Hp & Hc').
    exists (x', lr). rewrite salted_zero in He. by rewrite He; cbn [mbind cres_bind]; rewrite Hp. }
  unfold twos. rewrite foldC_fmap, Hr1. cbn [mbind cres_bind]. rewrite foldC_fmap, Hr2. cbn [mbind cres_bind].
  eexists. split; [done|]. apply Hc2.
Qed.

Lemma foldl_pairs {A} (g : A → nat → A) a n :
  foldl g a (seq 0 (2 * n)) = foldl (λ a k, g (g a (2 * k)%nat) (2 * k + 1)%nat) a (seq 0 n).
Proof.
  induction n as [|n IH]; [done|]. replace (2 * S n)%nat with (2 * n + 2)%nat by lia.
  rewrite seq_app, foldl_app, IH, (seq_S n 0), foldl_app. cbn [seq foldl]. rewrite !Nat.add_0_l.
  by replace (S (2 * n)) with (2 * n + 1)%nat by lia.
Qed.

Lemma arr_get_nthw l k : (k < length l)%nat → arr_get l k = Ok (nthw l k).
Proof. intros Hk. destruct (lookup_lt_is_Some_2 l k Hk) as [x Hx]. unfold nthw. rewrite Hx. by apply arr_get_ok. Qed.

Lemma salt_index_P n : (n < 9)%nat → Nat.land (2 * n) 2 = ((2 * n) mod 4)%nat ∧ (Nat.land (2 * n) 2 + 1 = (2 * n + 1) mod 4)%nat.
Proof. intros Hn. do 9 (destruct n as [|n]; [split; reflexivity|]). lia. Qed.

Lemma salt_at_even salt k : salt_at salt (9 + 2 * k) = (nthw salt 2, nthw salt 3).
Proof.
  unfold salt_at. replace (2 * (9 + 2 * k))%nat with (2 + (4 + k) * 4)%nat by lia.
  replace (2 + (4 + k) * 4 + 1)%nat with (3 + (4 + k) * 4)%nat by lia. by rewrite !Nat.Div0.mod_add.
Qed.
Lemma salt_at_odd salt k : salt_at salt (9 + (2 * k + 1)) = (nthw salt 0, nthw salt 1).
Proof.
  unfold salt_at. replace (2 * (9 + (2 * k + 1)))%nat with (0 + (5 + k) * 4)%nat by lia.
  replace (0 + (5 + k) * 4 + 1)%nat with (1 + (5 + k) * 4)%nat by lia. by rewrite !Nat.Div0.mod_add.
Qed.

(** Two blocks of the salted loop over the S boxes. *)
Lemma setup_step salt r s k :
  chained r s → Forall wd salt → (k < 256)%nat →
  ∃ r', (lr ← salted_encrypt r.1 r.2 (nthw salt 2) (nthw salt 3);
         x ← put_S r.1 (Z.of_nat (2 * (2 * k))) lr;
         lr ← salted_encrypt x lr (nthw salt 0) (nthw salt 1);
         x ← put_S x (Z.of_nat (2 * (2 * k) + 2)) lr;
         Ok (x, lr)) = Ok r' ∧
    chained r' (expand_step salt (expand_step salt s (9 + 2 * k)) (9 + (2 * k + 1))).
Proof.
  intros Hc Hs Hk.
  destruct (S_step salt r s (2 * k) _ _ Hc Hs (eq_sym (salt_at_even salt k)) ltac:(lia)) as (lr1 & x1 & He1 & Hp1 & Hc1).
  rewrite He1. cbn [mbind cres_bind]. rewrite Hp1. cbn [mbind cres_bind].
  destruct (S_step salt (x1, lr1) _ (2 * k + 1) _ _ Hc1 Hs (eq_sym (salt_at_odd salt k)) ltac:(lia)) as (lr2 & x2 & He2 & Hp2 & Hc2).
  cbn [fst snd] in He2, Hp2. rewrite He2. cbn [mbind cres_bind].
  replace (2 * (2 * k) + 2)%nat with (2 * (2 * k + 1))%nat by lia. rewrite Hp2. cbn [mbind cres_bind]. by exists (x2, lr2).
Qed.

Lemma BF_setup_ok x w salt :
  models x w → Forall wd salt → length salt = 4%nat →
  ∃ x', BF_setup x salt = Ok x' ∧ models x' (expand_words salt w).
Proof.
  intros Hm Hs Hl. unfold BF_setup. rewrite expand_split.
  destruct (foldC_sim chained (λ r n, a ← arr_get salt (Nat.land (2 * n) 2); b ← arr_get salt (Nat.land (2 * n) 2 + 1);
      lr ← salted_encrypt r.1 r.2 a b; x ← put_P r.1 (2 * n) lr; Ok (x, lr)) (expand_step salt)
    (seq 0 9) (x, (0, 0)) (w, (0, 0)) (chained_start x w Hm)) as (r1 & Hr1 & Hc1).
  { intros r s n Hn%elem_of_seq Hc. destruct (salt_index_P n ltac:(lia)) as [-> ->].
    rewrite !arr_get_nthw by (rewrite Hl; by apply Nat.mod_upper_bound). cbn [mbind cres_bind].
    destruct (P_step salt r s n _ _ Hc Hs eq_refl ltac:(lia)) as (lr & x' & He & Hp & Hc').
    exists (x', lr). by rewrite He; cbn [mbind cres_bind]; rewrite Hp. }
  destruct (foldC_sim chained _ (λ s k, expand_step salt (expand_step salt s (9 + 2 * k)) (9 + (2 * k + 1))) (seq 0 256) r1 _ Hc1
    (λ r s k Hk Hc, setup_step salt r s k Hc Hs (proj2 (proj1 (elem_of_seq _ _ _) Hk)))) as (r2 & Hr2 & Hc2).
  unfold twos. rewrite foldC_fmap, Hr1. cbn [mbind cres_bind].
  change (Nat.land (BF_N + 4) 3) with 0%nat. change (Nat.land (BF_N + 5) 3) with 1%nat.
  change (Nat.land (BF_N + 2) 3) with 2%nat. change (Nat.land (BF_N + 3) 3) with 3%nat.
  do 4 (rewrite arr_get_nthw by lia; cbn [mbind cres_bind]).
  rewrite foldC_fmap, Hr2. cbn [mbind cres_bind]. eexists. split; [done|].
  change 512%nat with (2 * 256)%nat. rewrite foldl_pairs. apply Hc2.
Qed.

(** * The hash *)
Lemma xor_P_ok x w key :
  models x w → Forall wd key → length key = 18%nat → models (xor_P x key) (mix key w).
Proof.
  intros Hm Hk Hl. pose proof (models_length x w Hm). destruct Hm as [HP HS Hw]. unfold xor_P, mix.
  assert (Hz : length (zip_with Z.lxor (take 18 w) key) = 18%nat) by (rewrite length_zip_with, length_take; lia).
  split; cbn [bP bS].
  - by rewrite take_app_length', HP by done.
  - by rewrite drop_app_length'.
  - apply Forall_app. split; [|by apply Forall_drop]. apply Forall_lookup. intros i y Hy.
    rewrite lookup_zip_with_Some in Hy. destruct Hy as (a & b & -> & Ha & Hb).
    apply wd_lxor; [|by eapply Forall_lookup_1 in Hb]. rewrite lookup_take_Some in Ha. destruct Ha as [Ha _].
    by eapply Forall_lookup_1 in Ha.
Qed.

Lemma salt_words_ok salt : Forall wd salt → length salt = 4%nat → Forall wd (salt_words salt) ∧ length (salt_words salt) = 18%nat.
Proof.
  intros Hs Hl. unfold salt_words. rewrite !Forall_app, !length_app, length_take, Hl. split; [|done].
  split_and!; try done. by apply Forall_take.
Qed.

Lemma BF_rounds_ok count x w key salt :
  models x w → Forall wd key → length key = 18%nat → Forall wd salt → length salt = 4%nat →
  ∃ x', BF_rounds count x key salt = Ok x' ∧ models x' (Nat.iter count (key_round key salt) w).
Proof.
  intros Hm Hk Hl Hs Hsl. destruct (salt_words_ok salt Hs Hsl) as [Hsw Hswl].
  revert x w Hm; induction count as [|n IH]; intros x w Hm; [by exists x|]. cbn [BF_rounds].
  destruct (BF_body_ok _ _ (xor_P_ok x w key Hm Hk Hl)) as (x1 & H1 & Hm1). rewrite H1. cbn [mbind cres_bind].
  destruct (BF_body_ok _ _ (xor_P_ok x1 _ _ Hm1 Hsw Hswl)) as (x2 & H2 & Hm2). rewrite H2. cbn [mbind cres_bind].
  rewrite Nat.iter_succ_r. by apply IH.
Qed.

Lemma encrypt_times_ok n x w lr :
  models x w → wd lr.1 → wd lr.2 →
  encrypt_times n x lr = Ok (Nat.iter n (ref_encrypt w) lr) ∧
  wd (Nat.iter n (ref_encrypt w) lr).1 ∧ wd (Nat.iter n (ref_encrypt w) lr).2.
Proof.
  intros Hm. revert lr; induction n as [|n IH]; intros [l r] H1 H2; [done|]. cbn [encrypt_times fst snd] in *.
  destruct (BF_ENCRYPT_ok x w l r Hm H1 H2) as (-> & Hw1 & Hw2). cbn [mbind cres_bind]. rewrite !Nat.iter_succ_r. by apply IH.
Qed.

Lemma BF_output_ok x w : models x w → BF_output x = Ok (ref_output w) ∧ Forall wd (ref_output w).
Proof.
  intros Hm. unfold BF_output, ref_output. cbv zeta.
  assert (H : ∀ i, (i = 0 ∨ i = 2 ∨ i = 4)%nat →
    encrypt_times 64 x (nthw BF_magic_w i, nthw BF_magic_w (i + 1)) = Ok (Nat.iter 64 (ref_encrypt w) (nthw BF_magic_w i, nthw BF_magic_w (i + 1))) ∧
    wd (Nat.iter 64 (ref_encrypt w) (nthw BF_magic_w i, nthw BF_magic_w (i + 1))).1 ∧
    wd (Nat.iter 64 (ref_encrypt w) (nthw BF_magic_w i, nthw BF_magic_w (i + 1))).2).
  { intros i Hi. apply encrypt_times_ok; [done|..]; cbn [fst snd]; apply wd_nthw; by repeat constructor. }
  destruct (H 0%nat ltac:(auto)) as (H0 & Ha0 & Hb0), (H 2%nat ltac:(auto)) as (H2 & Ha2 & Hb2), (H 4%nat ltac:(auto)) as (H4 & Ha4 & Hb4).
  set (e0 := Nat.iter 64 _ (nthw BF_magic_w 0, _)) in *. set (e2 := Nat.iter 64 _ (nthw BF_magic_w 2, _)) in *.
  set (e4 := Nat.iter 64 _ (nthw BF_magic_w 4, _)) in *. clearbody e0 e2 e4.
  split; [|cbn [app]; do 6 (constructor; [assumption|]); constructor].
  change (twos 3) with [0; 2; 4]%nat. cbn [foldC Nat.add] in *.
  do 6 (rewrite (arr_get_nthw BF_magic_w) by (cbn; lia)); cbn [mbind cres_bind].
  rewrite H0. cbn [mbind cres_bind]. rewrite H2. cbn [mbind cres_bind]. rewrite H4. cbn [mbind cres_bind app].
  done.
Qed.

(** ** The initial state *)
Lemma init_S_holds : holds_array init_state_S init_S.
Proof.
  split; [reflexivity|].
  assert (H : forallb (λ i, bool_decide (lookup_tree init_state_S (index (Z.of_nat i)) = init_S !! i)) (seq 0 1024) = true)
    by (vm_compute; reflexivity).
  intros i x Hx. rewrite forallb_forall in H. rewrite <- Hx. apply lookup_lt_Some in Hx.
  change (length init_S) with 1024%nat in Hx.
  specialize (H i ltac:(apply list_elem_of_In, elem_of_seq; lia)). by apply bool_decide_eq_true in H.
Qed.

Lemma init_wd : Forall wd init_S ∧ Forall wd init_P.
Proof.
  assert (H : forallb (λ x, (0 <=? x) && (x <? 2 ^ 32)) (init_S ++ init_P) = true) by (vm_compute; reflexivity).
  rewrite forallb_app, andb_true_iff in H. destruct H as [H1 H2]. rewrite forallb_forall in H1, H2.
  split; apply Forall_forall; intros x Hx%list_elem_of_In; [apply H1 in Hx|apply H2 in Hx];
    rewrite andb_true_iff, Z.leb_le, Z.ltb_lt in Hx; exact Hx.
Qed.

Lemma init_models key :
  Forall wd key → length key = 18%nat →
  models (BFCtx init_state_S (zip_with Z.lxor init_P key)) (mix key (init_P ++ init_S)).
Proof.
  intros Hk Hl. apply (xor_P_ok (BFCtx init_state_S init_P) (init_P ++ init_S) key); [|done..].
  destruct init_wd as [HS HP]. split; cbn [bP bS]; [done|exact init_S_holds|]. by apply Forall_app.
Qed.

(** ** The key *)
Lemma cyclic_step key n :
  no_nul key →
  let p := drop (n mod S (length key)) key in
  default NUL (head p) = cyclic key n ∧
  (if bool_decide (cyclic key n = NUL) then key else tail p) = drop (S n mod S (length key)) key.
Proof.
  intros Hk p. set (L := S (length key)) in *. assert (Hm : (n mod L < L)%nat) by by apply Nat.mod_upper_bound.
  unfold cyclic. fold L. unfold p. set (m := (n mod L)%nat) in *.
  destruct (decide (m = length key)) as [He|Hne].
  - rewrite He, drop_all, lookup_app_r, Nat.sub_diag by lia. split; [done|]. rewrite bool_decide_eq_true_2 by done.
    assert ((S n mod L)%nat = 0%nat) as ->; [|by rewrite drop_0].
    unfold m in He. rewrite <- Nat.add_1_r, Nat.Div0.add_mod, He by lia. rewrite (Nat.Div0.add_mod_idemp_r (length key) 1).
    rewrite Nat.add_1_r. apply Nat.Div0.mod_same.
  - destruct (lookup_lt_is_Some_2 key m) as [c Hc]; [unfold L in Hm; lia|].
    rewrite (drop_S _ _ _ Hc), (lookup_app_l_Some _ _ _ _ Hc). cbn [head default from_option tail]. split; [done|].
    rewrite bool_decide_eq_false_2.
    + f_equal. rewrite <- (Nat.add_1_r n), Nat.Div0.add_mod. fold m.
      destruct (decide (L = 1)%nat) as [H1|H1]; [unfold L in *; lia|]. rewrite (Nat.mod_small 1 L) by lia.
      rewrite Nat.mod_small by (unfold L in *; lia). lia.
    + unfold id. intros ->. apply Hk. by eapply list_elem_of_lookup_2.
Qed.

Lemma shift_in t c : 0 ≤ t < 2 ^ 24 → 0 ≤ c < 256 → Z.lor (u32 (Z.shiftl t 8)) c = 256 * t + c.
Proof.
  intros Ht Hc. rewrite Z.shiftl_mul_pow2, u32_id by (unfold wd; lia). rewrite lor_add_swap by lia. lia.
Qed.

Lemma land_80 t c : 0 ≤ t < 2 ^ 24 → 0 ≤ c < 128 → Z.land (256 * t + c) 0x80 = 0.
Proof.
  intros Ht Hc. apply Z.bits_inj'. intros n Hn. rewrite Z.land_spec, Z.bits_0. change 0x80 with (2 ^ 7).
  destruct (decide (n = 7)) as [->|]; [|by rewrite Z.pow2_bits_false, andb_false_r by lia].
  replace (256 * t + c) with (c + t * 2 ^ 8) by lia. rewrite <- (Z.mod_pow2_bits_low _ 8), Z.mod_add by lia.
  rewrite (Z.mod_small c (2 ^ 8)), <- (Z.mod_small c (2 ^ 7)) by lia. by rewrite Z.mod_pow2_bits_high by lia.
Qed.

Definition is_ascii (c : ascii) : Prop := u8 c < 128.

Lemma ascii_s8 c : is_ascii c → u32 (s8 c) = u8 c.
Proof.
  intros Hc. unfold is_ascii in Hc. unfold s8. rewrite (proj2 (Z.ltb_lt _ _)) by lia. apply u32_id. pose proof (u8_range c). unfold wd. lia.
Qed.

Lemma cyclic_ascii key n : Forall is_ascii key → is_ascii (cyclic key n).
Proof.
  intros Hk. unfold cyclic. destruct ((key ++ [NUL]) !! _) as [c|] eqn:Hc; [|done].
  eapply Forall_lookup_1 in Hc; [exact Hc|]. apply Forall_app. split; [done|]. by constructor.
Qed.

(** A password for which the variants do not differ, or a variant without
    either of the special treatments. *)
Definition plain_key (flags : Z) (key : bytes) : Prop :=
  flags = 4 ∨ Forall is_ascii key ∧ (flags = 1 ∨ flags = 2).

Definition key_at (key : bytes) (n : nat) : bytes := drop (n mod S (length key)) key.

Lemma key_char_ok key n t0 t1 sg j :
  no_nul key →
  key_char key (KeyPos (key_at key n) t0 t1 sg) j =
    let c := cyclic key n in
    let tmp1 := Z.lor (u32 (Z.shiftl t1 8)) (u32 (s8 c)) in
    KeyPos (key_at key (S n)) (Z.lor (u32 (Z.shiftl t0 8)) (u8 c)) tmp1
      (if (j =? 0)%nat then sg else Z.lor sg (Z.land tmp1 0x80)).
Proof.
  intros Hk. destruct (cyclic_step key n Hk) as [Hc Hp]. unfold key_char. cbn [kp_ptr kp_tmp0 kp_tmp1 kp_sign].
  fold (key_at key n) in Hc, Hp. rewrite Hc, Hp. done.
Qed.

(** Four characters make a word; for a password in ASCII both ways agree and
    no sign is seen. *)
Lemma key_word_ok key i sg :
  no_nul key →
  let k := foldl (key_char key) (KeyPos (key_at key (4 * i)) 0 0 sg) (seq 0 4) in
  kp_ptr k = key_at key (4 * S i) ∧ kp_tmp0 k = key_word key i ∧
  (Forall is_ascii key → kp_tmp1 k = key_word key i ∧ kp_sign k = sg).
Proof.
  intros Hk k. unfold k. cbn [seq foldl]. rewrite !key_char_ok by done. cbn [Nat.eqb kp_ptr kp_tmp0 kp_tmp1 kp_sign].
  unfold key_word. cbn [seq fmap list_fmap]. change (reverse [?a; ?b; ?c; ?d]) with [d; c; b; a].
  set (c0 := cyclic key (4 * i)). set (c1 := cyclic key (S (4 * i))).
  set (c2 := cyclic key (S (S (4 * i)))). set (c3 := cyclic key (S (S (S (4 * i))))).
  pose proof (u8_range c0). pose proof (u8_range c1). pose proof (u8_range c2). pose proof (u8_range c3).
  unfold be_load. change (reverse [c0; c1; c2; c3]) with [c3; c2; c1; c0]. cbn [le_load].
  split; [by replace (4 * S i)%nat with (S (S (S (S (4 * i))))) by lia|].
  assert (Hw : Z.lor (u32 (Z.shiftl (Z.lor (u32 (Z.shiftl (Z.lor (u32 (Z.shiftl (Z.lor (u32 (Z.shiftl 0 8)) (u8 c0)) 8)) (u8 c1)) 8)) (u8 c2)) 8)) (u8 c3) =
    256 * (256 * (256 * u8 c0 + u8 c1) + u8 c2) + u8 c3).
  { rewrite (shift_in 0), (shift_in (256 * 0 + u8 c0)), (shift_in (256 * (256 * 0 + u8 c0) + u8 c1)), shift_in by lia. lia. }
  split; [rewrite Hw; lia|].
  intros Ha. pose proof (cyclic_ascii key) as Hca. rewrite !ascii_s8 by (by apply Hca).
  assert (is_ascii c1 ∧ is_ascii c2 ∧ is_ascii c3) as (Hi1 & Hi2 & Hi3) by (split_and!; by apply Hca). unfold is_ascii in *.
  split; [rewrite Hw; lia|].
  rewrite (shift_in 0), (shift_in (256 * 0 + u8 c0)), (shift_in (256 * (256 * 0 + u8 c0) + u8 c1)), shift_in by lia.
  by rewrite !land_80, !Z.lor_0_r by lia.
Qed.

Lemma key_word_wd key i : wd (key_word key i).
Proof.
  unfold key_word, be_load. pose proof (le_load_range (reverse (cyclic key <$> seq (4 * i) 4))) as H.
  rewrite length_reverse, length_fmap, length_seq in H. exact H.
Qed.

Lemma set_key_loop key bug n :
  no_nul key → bug = 0 ∨ Forall is_ascii key → (n ≤ 18)%nat →
  let s := foldl (set_key_word key bug) (SetKey key 0 0 [] []) (seq 0 n) in
  sk_ptr s = key_at key (4 * n) ∧ sk_expanded s = key_word key <$> seq 0 n ∧
  sk_initial s = zip_with Z.lxor (take n init_P) (key_word key <$> seq 0 n) ∧ (Forall is_ascii key → sk_sign s = 0).
Proof.
  intros Hk Hb. cbv zeta. induction n as [|n IH]; intros Hn.
  { split_and!; [|done..]. unfold key_at. by rewrite Nat.mul_0_r, Nat.Div0.mod_0_l, drop_0. }
  destruct IH as (Hp & He & Hi & Hs); [lia|]. rewrite seq_S, foldl_app. cbn [foldl Nat.add].
  set (s := foldl _ _ (seq 0 n)) in *. unfold set_key_word. cbv zeta. cbn [sk_ptr sk_sign sk_expanded sk_initial]. rewrite Hp.
  destruct (key_word_ok key n (sk_sign s) Hk) as (Hp' & H0 & H1). cbv zeta in *.
  set (k := foldl _ _ (seq 0 4)) in *.
  assert (Hw : (if bug =? 0 then kp_tmp0 k else kp_tmp1 k) = key_word key n).
  { destruct (Z.eqb_spec bug 0) as [|Hne]; [done|]. apply H1. by destruct Hb. }
  rewrite Hw, He, Hi. split_and!; [done|by rewrite fmap_app| |intros Ha; rewrite (proj2 (H1 Ha)); by apply Hs].
  destruct (lookup_lt_is_Some_2 init_P n) as [p Hpn]; [change (length init_P) with 18%nat; lia|].
  rewrite (take_S_r _ _ _ Hpn), fmap_app, zip_with_app; [by rewrite Hpn|].
  rewrite length_fmap, length_seq, length_take. change (length init_P) with 18%nat. lia.
Qed.

Lemma BF_set_key_ok key flags :
  no_nul key → plain_key flags key →
  BF_set_key key flags = (bf_key_words key, zip_with Z.lxor init_P (bf_key_words key)).
Proof.
  intros Hk Hp. unfold BF_set_key. cbv zeta.
  destruct (set_key_loop key (Z.land flags 1) 18 Hk) as (_ & He & Hi & Hs).
  { destruct Hp as [->|[? _]]; [by left|by right]. }
  { done. }
  change (BF_N + 2)%nat with 18%nat. set (s := foldl _ _ (seq 0 18)) in *. cbv zeta in *. rewrite He, Hi.
  fold (bf_key_words key). rewrite (take_ge init_P) by done. f_equal.
  assert (Hsign : ∀ d, Z.land (u32 (Z.shiftl (sk_sign s) 9)) (Z.land (u32 (Z.lnot d)) (u32 (Z.shiftl (Z.land flags 2) 15))) = 0).
  { intros d. destruct Hp as [->|[Ha _]]; [by rewrite !Z.land_0_r|]. by rewrite (Hs Ha). }
  rewrite Hsign. destruct (zip_with _ init_P _); [done|]. by rewrite Z.lxor_0_r.
Qed.

(** ** Byte order *)
Lemma of_u8_bits a b : (∀ n, 0 ≤ n < 8 → Z.testbit a n = Z.testbit b n) → of_u8 a = of_u8 b.
Proof.
  intros H. unfold of_u8. do 2 f_equal. apply Z.bits_inj'. intros n Hn. change 256 with (2 ^ 8).
  destruct (decide (n < 8)); [rewrite !Z.mod_pow2_bits_low by lia; apply H; lia|by rewrite !Z.mod_pow2_bits_high by lia].
Qed.

Lemma swap_bit x n :
  wd x → 0 ≤ n < 32 → Z.testbit (BF_swap x) n = Z.testbit x (24 - 8 * (n / 8) + n mod 8).
Proof.
  intros Hx Hn. assert (Hh : ∀ m, 32 ≤ m → Z.testbit x m = false).
  { intros m Hm. rewrite <- (Z.mod_small x (2 ^ 32)) by done. by apply Z.mod_pow2_bits_high. }
  unfold BF_swap, u32. rewrite <- (Z2Nat.id n) by lia. set (k := Z.to_nat n). assert (k < 32)%nat by lia. clearbody k.
  do 32 (destruct k as [|k];
    [bit_at; repeat match goal with |- context [Z.testbit x ?m] => rewrite (Hh m) by lia end; rewrite ?orb_false_r; reflexivity|]).
  lia.
Qed.

Lemma BF_swap_store x : wd x → le_store 4 (BF_swap x) = be_store 4 x.
Proof.
  intros Hx. unfold be_store. cbn [le_store]. change (reverse [?a; ?b; ?c; ?d]) with [d; c; b; a].
  rewrite !Z.div_div by lia. change (256 * 256) with (2 ^ 16). change (2 ^ 16 * 256) with (2 ^ 24). change (256 * 2 ^ 16) with (2 ^ 24). change 256 with (2 ^ 8).
  rewrite <- !Z.shiftr_div_pow2 by lia.
  repeat apply (f_equal2 cons); [..|done]; apply of_u8_bits; intros n Hn; rewrite ?Z.shiftr_spec, swap_bit by (done || lia); f_equal.
  - rewrite Z.div_small, Z.mod_small; lia.
  - replace (n + 8) with (n + 1 * 8) by lia. rewrite Z.div_add, Z.mod_add, Z.div_small, Z.mod_small; lia.
  - replace (n + 16) with (n + 2 * 8) by lia. rewrite Z.div_add, Z.mod_add, Z.div_small, Z.mod_small; lia.
  - replace (n + 24) with (n + 3 * 8) by lia. rewrite Z.div_add, Z.mod_add, Z.div_small, Z.mod_small; lia.
Qed.

Lemma swap_load b : length b = 4%nat → BF_swap (le_load b) = be_load b.
Proof.
  intros Hb. unfold be_load. rewrite <- (le_store_load b) at 2. rewrite Hb. fold (be_store 4 (le_load b)).
  assert (wd (le_load b)) by (pose proof (le_load_range b) as H; by rewrite Hb in H).
  rewrite <- BF_swap_store, le_load_store by done. rewrite Z.mod_small; [done|]. apply wd_u32.
Qed.

Lemma salt_words_of salt : length salt = 16%nat → BF_swap <$> words_of 4 salt = salt_of salt.
Proof.
  intros Hl. unfold salt_of. cbn [words_of fmap list_fmap seq]. rewrite !drop_drop.
  by rewrite !swap_load by (rewrite length_take, ?length_drop; lia).
Qed.

Lemma salt_of_ok salt : length salt = 16%nat → Forall wd (salt_of salt) ∧ length (salt_of salt) = 4%nat.
Proof.
  intros Hl. rewrite <- salt_words_of by done. split; [|done]. apply Forall_fmap, Forall_true. intros x. apply wd_u32.
Qed.

Lemma bytes_of_swap ws : Forall wd ws → bytes_of (BF_swap <$> ws) = concat (be_store 4 <$> ws).
Proof.
  intros Hw. unfold bytes_of. rewrite <- list_fmap_compose. f_equal. apply list_fmap_ext. intros i x Hx. apply BF_swap_store.
  by eapply Forall_lookup_1 in Hx.
Qed.

(** ** The encoding *)
Lemma atoi_itoa v : 0 ≤ v < 64 → BF_safe_atoi64 (bf_itoa v) = Some v.
Proof.
  intros Hv. assert (H := forall_range 64 (λ v, bool_decide (BF_safe_atoi64 (bf_itoa v) = Some v)) eq_refl v Hv).
  by apply bool_decide_eq_true in H.
Qed.

Lemma next64_itoa s i v : s !! i = Some (bf_itoa v) → 0 ≤ v < 64 → next64 s i = Ok (Some v).
Proof.
  intros Hs Hv. unfold next64, char_at. rewrite (arr_get_ok _ i (bf_itoa v)) by by apply lookup_app_l_Some.
  cbn [mbind cres_bind]. by rewrite atoi_itoa.
Qed.

(** The values of the characters that encode three bytes. *)
Definition enc1 (a : Z) : Z := Z.shiftr a 2.
Definition enc2 (a b : Z) : Z := Z.lor (Z.shiftl (Z.land a 0x03) 4) (Z.shiftr b 4).
Definition enc3 (b c : Z) : Z := Z.lor (Z.shiftl (Z.land b 0x0f) 2) (Z.shiftr c 6).

Lemma below_64 v : (∀ n, 6 ≤ n → Z.testbit v n = false) → 0 ≤ v < 64.
Proof.
  intros H. assert (v = v mod 2 ^ 6) as ->.
  { apply Z.bits_inj'. intros n Hn. destruct (decide (n < 6)); [by rewrite Z.mod_pow2_bits_low by lia|].
    rewrite Z.mod_pow2_bits_high by lia. apply H. lia. }
  by apply Z.mod_pos_bound.
Qed.

Lemma byte_high a n : 0 ≤ a < 256 → 8 ≤ n → Z.testbit a n = false.
Proof. intros Ha Hn. rewrite <- (Z.mod_small a (2 ^ 8)) by done. by apply Z.mod_pow2_bits_high. Qed.

Lemma enc_range a b :
  0 ≤ a < 256 → 0 ≤ b < 256 →
  0 ≤ enc1 a < 64 ∧ 0 ≤ enc2 a b < 64 ∧ 0 ≤ enc3 a b < 64 ∧ 0 ≤ Z.land b 0x3f < 64.
Proof.
  intros Ha Hb. split; [|split; [|split]]; apply below_64; intros n Hn; unfold enc1, enc2, enc3;
    rewrite ?Z.lor_spec, ?Z.shiftl_spec, ?Z.land_spec, ?Z.shiftr_spec by lia.
  - by apply byte_high; [|lia].
  - rewrite (byte_high b (n + 4)), orb_false_r by lia. change 0x03 with (Z.ones 2). by rewrite Z.ones_spec_high, andb_false_r by lia.
  - rewrite (byte_high b (n + 6)), orb_false_r by lia. change 0x0f with (Z.ones 4). by rewrite Z.ones_spec_high, andb_false_r by lia.
  - change 0x3f with (Z.ones 6). by rewrite Z.ones_spec_high, andb_false_r by lia.
Qed.

Ltac byte_cases :=
  apply of_u8_bits; let n := fresh "n" in let Hn := fresh "Hn" in intros n Hn;
  assert (n = 0 ∨ n = 1 ∨ n = 2 ∨ n = 3 ∨ n = 4 ∨ n = 5 ∨ n = 6 ∨ n = 7) as Hc by lia; clear Hn;
  unfold enc1, enc2, enc3;
  repeat (destruct Hc as [->|Hc]; [|]); try subst n;
  bit_at; try reflexivity.

Lemma dec1 a b : of_u8 (Z.lor (Z.shiftl (enc1 (u8 a)) 2) (Z.shiftr (Z.land (enc2 (u8 a) (u8 b)) 0x30) 4)) = a.
Proof.
  rewrite <- (of_u8_u8 a) at 3. byte_cases; by rewrite (byte_high (u8 b)), orb_false_r by (apply u8_range || lia).
Qed.
Lemma dec1_last a : of_u8 (Z.lor (Z.shiftl (enc1 (u8 a)) 2) (Z.shiftr (Z.land (Z.shiftl (Z.land (u8 a) 0x03) 4) 0x30) 4)) = a.
Proof. rewrite <- (of_u8_u8 a) at 3. byte_cases. Qed.
Lemma dec2 a b c : of_u8 (Z.lor (Z.shiftl (Z.land (enc2 (u8 a) (u8 b)) 0x0f) 4) (Z.shiftr (Z.land (enc3 (u8 b) (u8 c)) 0x3c) 2)) = b.
Proof.
  rewrite <- (of_u8_u8 b) at 3. byte_cases; rewrite ?(byte_high (u8 c)), ?orb_false_r by (apply u8_range || lia); done.
Qed.
Lemma dec2_last a b : of_u8 (Z.lor (Z.shiftl (Z.land (enc2 (u8 a) (u8 b)) 0x0f) 4) (Z.shiftr (Z.land (Z.shiftl (Z.land (u8 b) 0x0f) 2) 0x3c) 2)) = b.
Proof. rewrite <- (of_u8_u8 b) at 3. byte_cases. Qed.
Lemma dec3 b c : of_u8 (Z.lor (Z.shiftl (Z.land (enc3 (u8 b) (u8 c)) 0x03) 6) (Z.land (u8 c) 0x3f)) = c.
Proof. rewrite <- (of_u8_u8 c) at 3. byte_cases. Qed.

(** What was encoded decodes to the same bytes, wherever it stands. *)
Lemma decode_encode fuel pre b rest :
  b ≠ [] → (length b ≤ 3 * fuel)%nat →
  BF_decode fuel (pre ++ BF_encode b ++ rest) (length pre) (length b) = Ok (Some b).
Proof.
  revert pre b; induction fuel as [|fuel IH]; intros pre b Hne Hf; [destruct b; [done|cbn in Hf; lia]|].
  assert (Hat : ∀ k v e, e !! k = Some (bf_itoa v) → 0 ≤ v < 64 → next64 (pre ++ e ++ rest) (length pre + k) = Ok (Some v)).
  { intros k v e He Hv. apply next64_itoa; [|done]. rewrite lookup_app_r by lia.
    replace (length pre + k - length pre)%nat with k by lia. by apply lookup_app_l_Some. }
  destruct b as [|a b]; [done|]. pose proof (u8_range a) as Ha.
  destruct b as [|b l].
  { destruct (enc_range (u8 a) 0 Ha ltac:(lia)) as (H1 & H2 & _). unfold enc2 in H2. rewrite Z.shiftr_0_l, Z.lor_0_r in H2.
    cbn [BF_decode BF_encode length]. rewrite <- (Nat.add_0_r (length pre)) at 1.
    rewrite (Hat 0%nat (enc1 (u8 a))) by done. cbn [mbind cres_bind].
    rewrite (Hat 1%nat (Z.shiftl (Z.land (u8 a) 3) 4)) by done. cbn [mbind cres_bind Nat.leb]. by rewrite dec1_last. }
  pose proof (u8_range b) as Hb. destruct l as [|c l].
  { destruct (enc_range (u8 a) (u8 b) Ha Hb) as (H1 & H2 & _). destruct (enc_range (u8 b) 0 Hb ltac:(lia)) as (_ & _ & H3 & _).
    unfold enc3 in H3. rewrite Z.shiftr_0_l, Z.lor_0_r in H3.
    cbn [BF_decode BF_encode length]. rewrite <- (Nat.add_0_r (length pre)) at 1.
    rewrite (Hat 0%nat (enc1 (u8 a))) by done. cbn [mbind cres_bind].
    rewrite (Hat 1%nat (enc2 (u8 a) (u8 b))) by done. cbn [mbind cres_bind Nat.leb].
    rewrite (Hat 2%nat (Z.shiftl (Z.land (u8 b) 15) 2)) by done. cbn [mbind cres_bind Nat.leb]. by rewrite dec1, dec2_last. }
  pose proof (u8_range c) as Hc. destruct (enc_range (u8 a) (u8 b) Ha Hb) as (H1 & H2 & _).
  destruct (enc_range (u8 b) (u8 c) Hb Hc) as (_ & _ & H3 & H4).
  cbn [BF_decode BF_encode length]. rewrite <- (Nat.add_0_r (length pre)) at 1.
  rewrite (Hat 0%nat (enc1 (u8 a))) by done. cbn [mbind cres_bind].
  rewrite (Hat 1%nat (enc2 (u8 a) (u8 b))) by done. cbn [mbind cres_bind Nat.leb].
  rewrite (Hat 2%nat (enc3 (u8 b) (u8 c))) by done. cbn [mbind cres_bind Nat.leb].
  rewrite (Hat 3%nat (Z.land (u8 c) 0x3f)) by done. cbn [mbind cres_bind]. rewrite dec1, dec2, dec3.
  destruct (decide (l = [])) as [->|Hl]; [done|].
  assert (Hlen : (length l <=? 0)%nat = false) by (destruct l; [done|reflexivity]). rewrite Hlen.
  specialize (IH (pre ++ [bf_itoa (enc1 (u8 a)); bf_itoa (enc2 (u8 a) (u8 b)); bf_itoa (enc3 (u8 b) (u8 c)); bf_itoa (Z.land (u8 c) 0x3f)]) l Hl).
  rewrite <- app_assoc, length_app in IH. cbn [app length] in IH.
  replace (S (S (S (length l))) - 3)%nat with (length l) by lia.
  unfold enc1, enc2, enc3 in IH. cbn [app]. rewrite IH; [done|]. cbn [length] in Hf. lia.
Qed.

Lemma encode_inj b b' : length b = length b' → BF_encode b = BF_encode b' → b = b'.
Proof.
  intros Hl He. destruct b as [|x b]; [by destruct b'|].
  assert (Hd := decode_encode (length (x :: b)) [] (x :: b) [] ltac:(done) ltac:(lia)).
  assert (Hd' := decode_encode (length (x :: b)) [] b' [] ltac:(by destruct b') ltac:(lia)).
  rewrite He, Hl in Hd. rewrite Hl in Hd'. congruence.
Qed.

(** ** The setting *)
Definition bcrypt_header (c2 : ascii) (cost : nat) : bytes :=
  ["$"%char; "2"%char; c2; "$"%char; digit (Z.of_nat cost / 10); digit (Z.of_nat cost mod 10); "$"%char].

(** The settings [crypt_blowfish] understands: a variant, a cost and sixteen
    bytes of salt. *)
Definition bcrypt_setting (c2 : ascii) (cost : nat) (salt : bytes) : bytes := bcrypt_header c2 cost ++ BF_encode salt.

Definition bcrypt_hash (c2 : ascii) (cost : nat) (salt key : bytes) : bytes :=
  bcrypt_setting c2 cost salt ++ BF_encode (bcrypt_digest cost salt key).

Definition variant (c2 : ascii) : Prop := c2 ∈ lit "abxy".

Lemma variant_cases c2 : variant c2 → c2 = "a"%char ∨ c2 = "b"%char ∨ c2 = "x"%char ∨ c2 = "y"%char.
Proof. unfold variant. cbn. set_solver. Qed.

Lemma header_ok c2 cost s :
  variant c2 → (cost < 32)%nat →
  setting_ok (bcrypt_header c2 cost ++ s) = Ok true ∧
  ∃ c4 c5, bcrypt_header c2 cost ++ s = "$"%char :: "2"%char :: c2 :: "$"%char :: c4 :: c5 :: "$"%char :: s ∧
    (s8 c4 - 48) * 10 + (s8 c5 - 48) = Z.of_nat cost.
Proof.
  intros Hv Hc. split; [|eexists _, _; split; [reflexivity|]].
  - apply variant_cases in Hv. do 32 (destruct cost as [|cost]; [destruct Hv as [->|[->|[->| ->]]]; vm_compute; reflexivity|]). lia.
  - do 32 (destruct cost as [|cost]; [vm_compute; reflexivity|]). lia.
Qed.

Lemma last_salt_char v : 0 ≤ v < 64 → arr_get BF_atoi64 (Z.to_nat (s8 (bf_itoa v) - 0x20)) = Ok v.
Proof.
  intros Hv. assert (H := forall_range 64 (λ v, bool_decide (arr_get BF_atoi64 (Z.to_nat (s8 (bf_itoa v) - 0x20)) = Ok v)) eq_refl v Hv).
  by apply bool_decide_eq_true in H.
Qed.

Lemma last_salt_value a : let v := Z.shiftl (Z.land a 0x03) 4 in 0 ≤ v < 64 ∧ Z.land v 0x30 = v.
Proof.
  cbv zeta. change 0x03 with (Z.ones 2). rewrite Z.land_ones by lia. pose proof (Z.mod_pos_bound a (2 ^ 2) ltac:(lia)) as H.
  assert (a mod 2 ^ 2 = 0 ∨ a mod 2 ^ 2 = 1 ∨ a mod 2 ^ 2 = 2 ∨ a mod 2 ^ 2 = 3) as Hc by lia.
  destruct Hc as [->|[->|[->| ->]]]; by vm_compute.
Qed.

(** The last character of the salt is written again without its unused bits,
    which are zero here. *)
Lemma copied_setting hdr salt rest :
  length hdr = 7%nat → length salt = 16%nat →
  ∃ c28 v, char_at (hdr ++ BF_encode salt ++ rest) 28 = Ok c28 ∧ arr_get BF_atoi64 (Z.to_nat (s8 c28 - 0x20)) = Ok v ∧
    ∀ out, take 28 (hdr ++ BF_encode salt ++ rest) ++ bf_itoa (Z.land v 0x30) :: out = (hdr ++ BF_encode salt) ++ out.
Proof.
  intros Hh Hs. do 16 (destruct salt as [|? salt]; [discriminate Hs|]). destruct salt; [|discriminate Hs].
  match goal with |- context [BF_encode ?l] => set (e := BF_encode l); assert (He : ∃ p a, e = p ++ [bf_itoa (Z.shiftl (Z.land a 0x03) 4)] ∧ length p = 21%nat) end.
  { eexists [_;_;_;_;_;_;_;_;_;_;_;_;_;_;_;_;_;_;_;_;_], _. split; reflexivity. }
  destruct He as (p & z & He & Hp). clearbody e. subst e. destruct (last_salt_value z) as [Hv Hl].
  set (v := Z.shiftl (Z.land z 3) 4) in *.
  exists (bf_itoa v), v. split; [|split; [by apply last_salt_char|]].
  - unfold char_at. apply arr_get_ok. rewrite <- !app_assoc. rewrite lookup_app_r, lookup_app_r by lia.
    by replace (28 - length hdr - length p)%nat with 0%nat by lia.
  - intros out. rewrite Hl. rewrite (app_assoc hdr), (app_assoc hdr p). rewrite <- (app_assoc _ [_] rest).
    rewrite take_app_length' by (rewrite length_app; lia). by rewrite <- !app_assoc.
Qed.

Lemma BF_core_ok key salt cost :
  length salt = 16%nat →
  BF_core (bf_key_words key, zip_with Z.lxor init_P (bf_key_words key)) (salt_of salt) (Z.to_nat (2 ^ Z.of_nat cost)) =
    Ok (ref_output (ref_setup cost (salt_of salt) (bf_key_words key))) ∧
  Forall wd (ref_output (ref_setup cost (salt_of salt) (bf_key_words key))).
Proof.
  intros Hs. destruct (salt_of_ok salt Hs) as [Hsw Hsl].
  assert (Hkw : Forall wd (bf_key_words key)) by (apply Forall_fmap, Forall_true; intros; apply key_word_wd).
  assert (Hkl : length (bf_key_words key) = 18%nat) by (unfold bf_key_words; by rewrite length_fmap, length_seq).
  assert (Hpow : Z.to_nat (2 ^ Z.of_nat cost) = (2 ^ cost)%nat).
  { change 2 with (Z.of_nat 2). rewrite <- Nat2Z.inj_pow. apply Nat2Z.id. }
  unfold BF_core, ref_setup. rewrite Hpow.
  destruct (BF_setup_ok _ _ (salt_of salt) (init_models (bf_key_words key) Hkw Hkl) Hsw Hsl) as (x1 & -> & Hm1).
  cbn [mbind cres_bind].
  destruct (BF_rounds_ok (2 ^ cost) x1 _ _ _ Hm1 Hkw Hkl Hsw Hsl) as (x2 & -> & Hm2).
  cbn [mbind cres_bind]. exact (BF_output_ok x2 _ Hm2).
Qed.

Lemma BF_hash_text key hdr salt rest c2 count out :
  BF_core (BF_set_key key (flags_of c2)) (salt_of salt) (Z.to_nat count) = Ok out → length hdr = 7%nat → length salt = 16%nat →
  BF_hash key (hdr ++ BF_encode salt ++ rest) c2 count salt =
    Ok ((hdr ++ BF_encode salt) ++ BF_encode (take 23 (bytes_of (BF_swap <$> out)))).
Proof.
  intros Hcore Hh Hs. unfold BF_hash. rewrite salt_words_of, Hcore, bind_ok by done.
  destruct (copied_setting hdr salt rest Hh Hs) as (c28 & v & H28 & Hv28 & Hout).
  change (7 + 22 - 1)%nat with 28%nat. by rewrite H28, bind_ok, Hv28, bind_ok, Hout.
Qed.

Lemma BF_hash_ok key c2 cost salt rest :
  no_nul key → plain_key (flags_of c2) key → length salt = 16%nat →
  BF_hash key (bcrypt_setting c2 cost salt ++ rest) c2 (2 ^ Z.of_nat cost) salt = Ok (bcrypt_hash c2 cost salt key).
Proof.
  intros Hk Hp Hs. unfold bcrypt_hash, bcrypt_setting. rewrite <- app_assoc.
  destruct (BF_core_ok key salt cost Hs) as [Hcore Hwd].
  rewrite <- (BF_set_key_ok key (flags_of c2)) in Hcore by done. rewrite (BF_hash_text _ _ _ _ _ _ _ Hcore) by done.
  rewrite bytes_of_swap by done. unfold bcrypt_digest. reflexivity.
Qed.

(** A setting of this form is accepted. *)
Lemma BF_crypt_accepts key c2 cost salt rest size min :
  variant c2 → (cost < 32)%nat → length salt = 16%nat → 61 ≤ size → min ≤ 2 ^ Z.of_nat cost →
  BF_crypt key (bcrypt_setting c2 cost salt ++ rest) size min =
    (out ← BF_hash key (bcrypt_setting c2 cost salt ++ rest) c2 (2 ^ Z.of_nat cost) salt; Ok (Some out)).
Proof.
  intros Hv Hc Hs Hsize Hmin. unfold BF_crypt. rewrite (proj2 (Z.ltb_ge _ _)) by lia.
  assert (Happ : bcrypt_setting c2 cost salt ++ rest = bcrypt_header c2 cost ++ BF_encode salt ++ rest)
    by (symmetry; apply app_assoc).
  destruct (header_ok c2 cost (BF_encode salt ++ rest) Hv Hc) as (Hok & c4 & c5 & Heq & Hcost).
  pose proof (decode_encode 6 (bcrypt_header c2 cost) salt rest ltac:(by destruct salt) ltac:(lia)) as Hdec.
  change (length (bcrypt_header c2 cost)) with 7%nat in Hdec. rewrite Hs in Hdec. rewrite <- Happ in Hok, Hdec, Heq.
  clear Happ. set (setting := bcrypt_setting c2 cost salt ++ rest) in *. clearbody setting.
  assert (char_at setting 2 = Ok c2 ∧ char_at setting 4 = Ok c4 ∧ char_at setting 5 = Ok c5) as (H2 & H4 & H5).
  { subst setting. by split_and!. }
  rewrite Hok. cbn [mbind cres_bind negb]. rewrite H2, H4, H5. cbn [mbind cres_bind].
  rewrite Hcost, Z.shiftl_1_l, (proj2 (Z.ltb_ge _ _) Hmin).
  rewrite Hdec, bind_ok. cbv beta iota. reflexivity.
Qed.


Lemma BF_crypt_ok key c2 cost salt rest size min :
  no_nul key → variant c2 → plain_key (flags_of c2) key → (cost < 32)%nat → length salt = 16%nat →
  61 ≤ size → min ≤ 2 ^ Z.of_nat cost →
  BF_crypt key (bcrypt_setting c2 cost salt ++ rest) size min = Ok (Some (bcrypt_hash c2 cost salt key)).
Proof.
  intros Hk Hv Hp Hc Hs Hsize Hmin. by rewrite BF_crypt_accepts, BF_hash_ok, bind_ok by done.
Qed.

(** ** The self-test *)
Definition test_salt : bytes :=
  of_u8 <$> [0x71; 0xd7; 0x9f; 0x82; 0x18; 0xa3; 0x92; 0x59; 0xa7; 0xa2; 0x9a; 0xab; 0xb2; 0xdb; 0xaf; 0xc3].

Lemma test_setting_eq c2 : test_setting c2 = bcrypt_setting c2 0 test_salt ++ [].
Proof. reflexivity. Qed.

(** Blowfish on the test key, for the keys the variants make of it. *)
Definition text_is (r : cres (list Z)) (hash : bytes) : bool :=
  match r with
  | Ok out => bool_decide (BF_encode (take 23 (bytes_of (BF_swap <$> out))) = hash)
  | Fault _ => false
  end.

Lemma text_is_inv r hash :
  text_is r hash = true → ∃ out, r = Ok out ∧ BF_encode (take 23 (bytes_of (BF_swap <$> out))) = hash.
Proof. destruct r as [out|]; [|done]. cbn [text_is]. intros H%bool_decide_eq_true. eauto. Qed.

Abbreviation test_core flags := (BF_core (BF_set_key test_key flags) (salt_of test_salt) (Z.to_nat 1)).

Lemma test_core_4 : text_is (test_core 4) (default [] (test_hashes !! 0%nat)) = true.
Proof. vm_compute. reflexivity. Qed.
Lemma test_core_1 : text_is (test_core 1) (default [] (test_hashes !! 1%nat)) = true.
Proof. vm_compute. reflexivity. Qed.

(** The safety measure of "2a" does not apply to the test key. *)
Lemma test_key_2 : BF_set_key test_key 2 = BF_set_key test_key 4.
Proof. vm_compute. reflexivity. Qed.
Lemma test_core_2 : text_is (test_core 2) (default [] (test_hashes !! 0%nat)) = true.
Proof. rewrite test_key_2. exact test_core_4. Qed.

Lemma test_crypt c2 hash :
  variant c2 → text_is (test_core (flags_of c2)) hash = true →
  BF_crypt test_key (test_setting c2) 61 1 = Ok (Some (test_setting c2 ++ hash)).
Proof.
  intros Hv Hm. apply text_is_inv in Hm as (out & Hcore & Hm).
  rewrite test_setting_eq, BF_crypt_accepts by (done || lia). change (2 ^ Z.of_nat 0) with 1.
  unfold bcrypt_setting. rewrite <- app_assoc, (BF_hash_text _ _ _ _ _ _ _ Hcore), bind_ok, Hm by done.
  by rewrite app_nil_r.
Qed.

Lemma self_test_ok c2 : variant c2 → self_test true c2 = Ok true.
Proof.
  intros Hv. assert (Hm : text_is (test_core (flags_of c2)) (default [] (test_hashes !! Z.to_nat (Z.land (flags_of c2) 1))) = true).
  { apply variant_cases in Hv as [->|[->|[->| ->]]]; [exact test_core_2|exact test_core_4|exact test_core_1|exact test_core_4]. }
  unfold self_test. rewrite (test_crypt c2 _ Hv Hm), bind_ok. rewrite bool_decide_eq_true_2 by done. vm_compute. reflexivity.
Qed.

Lemma variant_plain c2 key :
  variant c2 → c2 = "b"%char ∨ c2 = "y"%char ∨ Forall is_ascii key → plain_key (flags_of c2) key.
Proof.
  intros Hv Hc. unfold plain_key. apply variant_cases in Hv as [->|[->|[->| ->]]]; [right|by left|right|by left];
    (destruct Hc as [Hc|[Hc|Hc]]; [done|done|]); (split; [done|]); [by right|by left].
Qed.

Lemma magic_ok c2 cost s size :
  61 ≤ size → crypt_output_magic (bcrypt_header c2 cost ++ s) size = Ok (Some (lit "*0")).
Proof. intros Hs. unfold crypt_output_magic. by rewrite (proj2 (Z.ltb_ge _ _)) by lia. Qed.

Lemma crypt_blowfish_spec key c2 cost salt rest size :
  no_nul key → variant c2 → plain_key (flags_of c2) key → (4 ≤ cost < 32)%nat → length salt = 16%nat → 61 ≤ size →
  crypt_blowfish key (bcrypt_setting c2 cost salt ++ rest) size = Ok (Some (bcrypt_hash c2 cost salt key)).
Proof.
  intros Hk Hv Hp Hcost Hs Hsize. unfold crypt_blowfish.
  assert (Hm : crypt_output_magic (bcrypt_setting c2 cost salt ++ rest) size = Ok (Some (lit "*0"))).
  { unfold bcrypt_setting. rewrite <- app_assoc. by apply magic_ok. }
  assert (H16 : 16 ≤ 2 ^ Z.of_nat cost) by (apply (Z.pow_le_mono_r 2 4); lia).
  rewrite Hm, bind_ok, (BF_crypt_ok key c2 cost salt rest size 16), bind_ok by (done || lia). cbv beta iota.
  change (char_at (bcrypt_setting c2 cost salt ++ rest) 2) with (Ok c2).
  by rewrite bind_ok, self_test_ok, bind_ok by done.
Qed.

(** ** Any input

    Whatever the hash that is checked looks like, the code stays inside its
    buffers. *)
Lemma wd_lor x y : wd x → wd y → wd (Z.lor x y).
Proof.
  intros Hx Hy. assert (H : u32 (Z.lor x y) = Z.lor x y).
  { rewrite <- (u32_id x), <- (u32_id y) at 2 by done. unfold u32. by rewrite Z.land_lor_distr_l. }
  rewrite <- H. apply wd_u32.
Qed.

Lemma wd_land x y : wd x → wd (Z.land x y).
Proof.
  intros Hx. assert (H : u32 (Z.land x y) = Z.land x y).
  { unfold u32. rewrite <- Z.land_assoc, (Z.land_comm y), Z.land_assoc. f_equal. exact (u32_id x Hx). }
  rewrite <- H. apply wd_u32.
Qed.

Definition key_words_ok (ws : list Z) (n : nat) : Prop := Forall wd ws ∧ length ws = n.

Lemma u8_wd c : wd (u8 c).
Proof. pose proof (u8_range c). unfold wd. lia. Qed.

Lemma set_key_word_wd key bug s i :
  key_words_ok (sk_expanded s) i → key_words_ok (sk_initial s) i →
  key_words_ok (sk_expanded (set_key_word key bug s i)) (S i) ∧ key_words_ok (sk_initial (set_key_word key bug s i)) (S i).
Proof.
  intros [He1 He2] [Hi1 Hi2]. unfold set_key_word. cbv zeta. cbn [sk_expanded sk_initial].
  set (k := foldl _ _ _). assert (Hk : wd (kp_tmp0 k) ∧ wd (kp_tmp1 k)).
  { unfold k. cbn [seq foldl]. generalize (key_char key (key_char key (key_char key (KeyPos (sk_ptr s) 0 0 (sk_sign s)) 0) 1) 2). intros k'.
    unfold key_char. cbn [kp_tmp0 kp_tmp1]. split; apply wd_lor; auto using u8_wd. }
  set (w := if bug =? 0 then kp_tmp0 k else kp_tmp1 k). assert (Hw : wd w) by (unfold w; destruct (bug =? 0); apply Hk).
  unfold key_words_ok. rewrite !Forall_app, !length_app. cbn [length].
  split; (split; [split; [done|constructor; [|done]]|lia]); [done|]. apply wd_lxor; [|done].
  change (default 0 (init_P !! i)) with (nthw init_P i). apply wd_nthw, init_wd.
Qed.

Lemma BF_set_key_wd key flags :
  key_words_ok (BF_set_key key flags).1 18 ∧ key_words_ok (BF_set_key key flags).2 18.
Proof.
  unfold BF_set_key. cbv zeta. cbn [fst snd]. set (s := foldl _ _ _).
  assert (H : key_words_ok (sk_expanded s) 18 ∧ key_words_ok (sk_initial s) 18).
  { unfold s. change (BF_N + 2)%nat with 18%nat. generalize 18%nat. intros n. induction n as [|n IH]; [by repeat split|].
    rewrite seq_S, foldl_app. cbn [foldl Nat.add]. apply set_key_word_wd; apply IH. }
  destruct H as [He [Hi Hl]]. split; [done|]. destruct (sk_initial s) as [|p ps]; [done|].
  split; [|done]. apply Forall_cons in Hi as [Hp Hps]. constructor; [|done]. apply wd_lxor; [done|].
  apply wd_land, wd_u32.
Qed.

Lemma BF_core_total key flags salt count :
  length salt = 16%nat → ∃ out, BF_core (BF_set_key key flags) (salt_of salt) count = Ok out.
Proof.
  intros Hs. destruct (BF_set_key_wd key flags) as [[He Hel] [Hp Hpl]]. destruct (BF_set_key key flags) as [e p]. cbn [fst snd] in *.
  destruct (salt_of_ok salt Hs) as [Hsw Hsl]. destruct init_wd as [HS HP].
  assert (Hm : models (BFCtx init_state_S p) (p ++ init_S)).
  { split; cbn [bP bS]; [by rewrite take_app_length'|rewrite drop_app_length' by done; exact init_S_holds|by apply Forall_app]. }
  unfold BF_core. destruct (BF_setup_ok _ _ (salt_of salt) Hm Hsw Hsl) as (x1 & -> & Hm1). rewrite bind_ok.
  destruct (BF_rounds_ok count x1 _ _ _ Hm1 He Hel Hsw Hsl) as (x2 & -> & Hm2). rewrite bind_ok.
  destruct (BF_output_ok x2 _ Hm2) as [-> _]. by eexists.
Qed.

(** A string can be read up to its terminator. *)
Lemma char_at_le s i : (i ≤ length s)%nat → ∃ c, char_at s i = Ok c ∧ (c ≠ NUL → (i < length s)%nat).
Proof.
  intros Hi. unfold char_at. destruct (decide (i = length s)) as [->|Hne].
  - exists NUL. split; [|done]. apply arr_get_ok. by rewrite lookup_app_r, Nat.sub_diag by lia.
  - destruct (lookup_lt_is_Some_2 s i) as [c Hc]; [lia|]. exists c. split; [|lia]. by apply arr_get_ok, lookup_app_l_Some.
Qed.

Definition digit64 (s : bytes) (i : nat) : Prop :=
  (i < length s)%nat ∧ ∃ c v, char_at s i = Ok c ∧ BF_safe_atoi64 c = Some v.

Lemma next64_total s i :
  (i ≤ length s)%nat → ∃ r, next64 s i = Ok r ∧ (r = None ∨ ∃ v, r = Some v ∧ digit64 s i).
Proof.
  intros Hi. destruct (char_at_le s i Hi) as (c & Hc & Hl). unfold next64. rewrite Hc, bind_ok. eexists. split; [done|].
  destruct (BF_safe_atoi64 c) as [v|] eqn:E; [right|by left]. exists v. split; [done|].
  split; [apply Hl; by intros ->|by eexists _, _].
Qed.

(** A salt is decoded or refused, and only characters of the alphabet are
    decoded. *)
Lemma BF_decode_total fuel s i size :
  (i ≤ length s)%nat → (1 ≤ size ≤ 3 * fuel)%nat →
  ∃ r, BF_decode fuel s i size = Ok r ∧
    (r = None ∨ ∃ b, r = Some b ∧ length b = size ∧ ∀ j, (3 * j < 4 * size)%nat → digit64 s (i + j)).
Proof.
  revert i size; induction fuel as [|fuel IH]; intros i size Hi Hs; [lia|]. cbn [BF_decode].
  assert (Hd : ∀ n j, (j < S n)%nat → (∀ k, (k < n)%nat → digit64 s (i + k)) → digit64 s (i + n) → digit64 s (i + j)).
  { intros n j Hj Hlt Hn. destruct (decide (j = n)) as [->|]; [done|]. apply Hlt. lia. }
  destruct (next64_total s i Hi) as (r1 & -> & [->|(c1 & -> & Hl1)]); rewrite bind_ok; [by eauto|].
  assert (H1 : ∀ k, (k < 1)%nat → digit64 s (i + k)) by (intros k Hk; by replace (i + k)%nat with i by lia). destruct Hl1 as [Hl1 _].
  destruct (next64_total s (i + 1)) as (r2 & -> & [->|(c2 & -> & Hl2)]); [lia|rewrite bind_ok; by eauto|rewrite bind_ok].
  assert (H2 : ∀ k, (k < 2)%nat → digit64 s (i + k)) by eauto. destruct Hl2 as [Hl2 _].
  destruct (Nat.leb_spec size 1).
  { eexists; split; [done|]. right. eexists. split; [done|]. split; [cbn; lia|]. intros j Hj. apply H2. lia. }
  destruct (next64_total s (i + 2)) as (r3 & -> & [->|(c3 & -> & Hl3)]); [lia|rewrite bind_ok; by eauto|rewrite bind_ok].
  assert (H3 : ∀ k, (k < 3)%nat → digit64 s (i + k)) by eauto. destruct Hl3 as [Hl3 _].
  destruct (Nat.leb_spec size 2).
  { eexists; split; [done|]. right. eexists. split; [done|]. split; [cbn; lia|]. intros j Hj. apply H3. lia. }
  destruct (next64_total s (i + 3)) as (r4 & -> & [->|(c4 & -> & Hl4)]); [lia|rewrite bind_ok; by eauto|rewrite bind_ok].
  assert (H4 : ∀ k, (k < 4)%nat → digit64 s (i + k)) by eauto. destruct Hl4 as [Hl4 _].
  destruct (Nat.leb_spec size 3).
  { eexists; split; [done|]. right. eexists. split; [done|]. split; [cbn; lia|]. intros j Hj. apply H4. lia. }
  destruct (IH (i + 4)%nat (size - 3)%nat) as (r & -> & [->|(b & -> & Hb & Hr)]); [lia..| |]; rewrite bind_ok; [by eauto|].
  eexists. split; [done|]. right. eexists. split; [done|]. split; [cbn [length]; lia|].
  intros j Hj. destruct (decide (j < 4)%nat); [by apply H4|]. replace (i + j)%nat with (i + 4 + (j - 4))%nat by lia. apply Hr. lia.
Qed.

Lemma digit64_table c v : BF_safe_atoi64 c = Some v → ∃ v', arr_get BF_atoi64 (Z.to_nat (s8 c - 0x20)) = Ok v'.
Proof.
  intros H. assert (Hb : bool_decide (is_Some (BF_safe_atoi64 c)) = true) by (apply bool_decide_eq_true; by exists v). clear H.
  destruct c as [[] [] [] [] [] [] [] []]; first [discriminate Hb|eexists; vm_compute; reflexivity].
Qed.

Lemma test_total s i (p : ascii → bool) (k : cres bool) (Q : Prop) :
  (i ≤ length s)%nat → p NUL = false →
  (∀ c, (i < length s)%nat → char_at s i = Ok c → p c = true → ∃ b, k = Ok b ∧ (b = true → Q)) →
  ∃ b, (c ← char_at s i; if p c then k else Ok false) = Ok b ∧ (b = true → Q).
Proof.
  intros Hi Hn Hk. destruct (char_at_le s i Hi) as (c & Hc & Hl). rewrite Hc, bind_ok.
  destruct (p c) eqn:Hp; [|by exists false]. apply (Hk c); [|done|done]. apply Hl. intros ->. by rewrite Hn in Hp.
Qed.

Lemma subtype_variant c : (97 <=? s8 c) && (s8 c <=? 122) && negb (flags_of c =? 0) = true → variant c.
Proof.
  intros H. apply (bool_decide_unpack _). destruct c as [[] [] [] [] [] [] [] []]; first [discriminate H|by vm_compute].
Qed.

(** The tests of the setting stop at its terminator. *)
Lemma setting_ok_total s :
  ∃ b, setting_ok s = Ok b ∧ (b = true → (7 ≤ length s)%nat ∧ ∃ c2, char_at s 2 = Ok c2 ∧ variant c2).
Proof.
  unfold setting_ok. cbv zeta.
  apply test_total; [lia|done|]. intros c0 H0 _ _. apply test_total; [lia|done|]. intros c1 H1 _ _.
  apply test_total; [lia|done|]. intros c2 H2 Hc2 Hv. apply test_total; [lia|done|]. intros c3 H3 _ _.
  apply test_total; [lia|done|]. intros c4 H4 Hc4 _. apply test_total; [lia|done|]. intros c5 H5 Hc5 _.
  rewrite Hc4, bind_ok, Hc5, bind_ok. destruct (bool_decide (c4 = "3"%char) && (49 <? s8 c5)); [by exists false|].
  apply test_total; [lia|done|]. intros c6 H6 _ _. exists true. split; [done|]. intros _. split; [lia|].
  exists c2. split; [done|]. by apply subtype_variant.
Qed.

Lemma BF_hash_total key setting c2 count salt c v :
  length salt = 16%nat → char_at setting 28 = Ok c → BF_safe_atoi64 c = Some v →
  ∃ out, BF_hash key setting c2 count salt = Ok out.
Proof.
  intros Hs Hc Hv. unfold BF_hash. rewrite salt_words_of by done.
  destruct (BF_core_total key (flags_of c2) salt (Z.to_nat count) Hs) as [out ->]. rewrite bind_ok.
  change (7 + 22 - 1)%nat with 28%nat. rewrite Hc, bind_ok. destruct (digit64_table c v Hv) as [v' ->]. rewrite bind_ok. by eexists.
Qed.

Lemma BF_crypt_total key setting size min :
  ∃ r, BF_crypt key setting size min = Ok r ∧ (is_Some r → ∃ c2, char_at setting 2 = Ok c2 ∧ variant c2).
Proof.
  set (Q := ∃ c2, char_at setting 2 = Ok c2 ∧ variant c2).
  assert (Hnone : ∃ r : option bytes, Ok (A := option bytes) None = Ok r ∧ (is_Some r → Q)).
  { exists None. split; [done|]. by intros [? ?]. }
  unfold BF_crypt. destruct (size <? _); [exact Hnone|]. destruct (setting_ok_total setting) as (ok & -> & Hok). rewrite bind_ok.
  destruct ok; cbn [negb]; [|exact Hnone]. destruct (Hok eq_refl) as (Hl & c2 & Hc2 & Hv).
  assert (HQ : Q) by (by exists c2). clearbody Q. rewrite Hc2, bind_ok.
  destruct (char_at_le setting 4) as (c4 & -> & _); [lia|]. destruct (char_at_le setting 5) as (c5 & -> & _); [lia|].
  rewrite !bind_ok. cbv zeta. destruct (_ <? min); [exact Hnone|].
  destruct (BF_decode_total 6 setting 7 16) as (r & -> & [->|(salt & -> & Hs & Hd)]); [lia..| |]; rewrite bind_ok; [exact Hnone|].
  destruct (Hd 21%nat) as (_ & c & v & Hc & Hcv); [lia|].
  destruct (BF_hash_total key setting c2 (Z.shiftl 1 ((s8 c4 - 48) * 10 + (s8 c5 - 48))) salt c v Hs Hc Hcv) as [out ->].
  rewrite bind_ok. eexists. split; [done|]. done.
Qed.

Lemma self_test_false c : self_test false c = self_test true "a"%char.
Proof. unfold self_test. change (Z.to_nat (Z.land (flags_of "a"%char) 1)) with 0%nat. reflexivity. Qed.

Lemma magic_total setting size : 3 ≤ size → ∃ m, crypt_output_magic setting size = Ok (Some m).
Proof.
  intros Hs. unfold crypt_output_magic. rewrite (proj2 (Z.ltb_ge _ _)) by lia.
  destruct (char_at_le setting 0) as (c0 & -> & Hl); [lia|]. rewrite bind_ok.
  destruct (bool_decide_reflect (c0 = "*"%char)) as [->|]; [|rewrite bind_ok; by eexists].
  destruct (char_at_le setting 1) as (c1 & -> & _); [apply Hl; done|]. rewrite !bind_ok. by eexists.
Qed.

(** Any hash can be given to the code: it writes a text, the failure text if
    nothing else. *)
Lemma crypt_blowfish_total key setting size :
  3 ≤ size → ∃ out, crypt_blowfish key setting size = Ok (Some out).
Proof.
  intros Hs. unfold crypt_blowfish. destruct (magic_total setting size Hs) as [m ->]. rewrite bind_ok.
  destruct (BF_crypt_total key setting size 16) as (r & -> & Hr). rewrite bind_ok. destruct r as [out|].
  - destruct (Hr ltac:(by eexists)) as (c2 & -> & Hv). rewrite bind_ok, (self_test_ok c2 Hv), bind_ok. by eexists.
  - rewrite self_test_false, self_test_ok, bind_ok by (apply (bool_decide_unpack _); by vm_compute). by eexists.
Qed.

(** ** The text *)
Lemma itoa_no_nul v : 0 ≤ v < 64 → bf_itoa v ≠ NUL.
Proof.
  intros Hv. assert (H := forall_range 64 (λ v, bool_decide (bf_itoa v ≠ NUL)) eq_refl v Hv). by apply bool_decide_eq_true in H.
Qed.

Lemma BF_encode_no_nul b : no_nul (BF_encode b).
Proof.
  unfold no_nul. remember (length b) as n eqn:Hn. assert (Hl : (length b ≤ n)%nat) by lia. clear Hn. revert b Hl.
  induction n as [|n IH]; intros b Hl; [destruct b; [apply not_elem_of_nil|cbn in Hl; lia]|].
  destruct b as [|a b]; [apply not_elem_of_nil|]. cbn [BF_encode length] in *. cbv zeta. pose proof (u8_range a) as Ha.
  destruct (enc_range (u8 a) 0 Ha ltac:(lia)) as (Ha1 & Ha2 & _). unfold enc2 in Ha2. rewrite Z.shiftr_0_l, Z.lor_0_r in Ha2.
  apply not_elem_of_cons. split; [by apply not_eq_sym, itoa_no_nul|].
  destruct b as [|b l]; [apply not_elem_of_cons; split; [by apply not_eq_sym, itoa_no_nul|apply not_elem_of_nil]|].
  pose proof (u8_range b) as Hb. destruct (enc_range (u8 a) (u8 b) Ha Hb) as (_ & Hab & _).
  destruct (enc_range (u8 b) 0 Hb ltac:(lia)) as (_ & _ & Hb3 & _). unfold enc3 in Hb3. rewrite Z.shiftr_0_l, Z.lor_0_r in Hb3.
  apply not_elem_of_cons. split; [by apply not_eq_sym, itoa_no_nul|].
  destruct l as [|c l]; [apply not_elem_of_cons; split; [by apply not_eq_sym, itoa_no_nul|apply not_elem_of_nil]|].
  pose proof (u8_range c) as Hc. destruct (enc_range (u8 b) (u8 c) Hb Hc) as (_ & _ & Hbc & Hc4).
  rewrite !not_elem_of_cons. split_and!; [by apply not_eq_sym, itoa_no_nul..|]. apply IH. cbn [length] in Hl. lia.
Qed.

Lemma bcrypt_hash_no_nul c2 cost salt key : variant c2 → (cost < 32)%nat → no_nul (bcrypt_hash c2 cost salt key).
Proof.
  intros Hv Hc. unfold bcrypt_hash, bcrypt_setting. unfold no_nul. rewrite !not_elem_of_app.
  split; [split|]; [|apply BF_encode_no_nul..].
  apply variant_cases in Hv as [->|[->|[->| ->]]]; do 32 (destruct cost as [|cost]; [apply (bool_decide_unpack _); by vm_compute|]); lia.
Qed.

(** * Properties *)

(** C33. The bcrypt hash is bcrypt: for a password that is plain ASCII, or any
    password with the variants "2b" and "2y", every cost from 4 to 31 and every
    salt, the code writes the setting followed by the encoding of 23 bytes of
    the magic text, encrypted 64 times under the expensive key schedule; its
    self-test passes. *)
Theorem crypt_blowfish_is_bcrypt (key : bytes) (c2 : ascii) (cost : nat) (salt rest : bytes) (size : Z) :
  no_nul key → variant c2 → c2 = "b"%char ∨ c2 = "y"%char ∨ Forall is_ascii key →
  (4 ≤ cost < 32)%nat → length salt = 16%nat → 61 ≤ size →
  crypt_blowfish key (bcrypt_setting c2 cost salt ++ rest) size = Ok (Some (bcrypt_hash c2 cost salt key)).
Proof.
  intros Hk Hv Hc Hcost Hs Hsize. apply crypt_blowfish_spec; try done. by apply variant_plain.
Qed.

Lemma crypt_blowfish_is_bcrypt_witness :
  crypt_blowfish (lit "secret") (bcrypt_setting "y"%char 4 test_salt ++ []) 128 =
    Ok (Some (bcrypt_hash "y"%char 4 test_salt (lit "secret"))).
Proof.
  apply (crypt_blowfish_is_bcrypt (lit "secret") "y"%char 4 test_salt [] 128).
  - apply (bool_decide_unpack _). by vm_compute.
  - apply (bool_decide_unpack _). by vm_compute.
  - right. by left.
  - lia.
  - reflexivity.
  - lia.
Defined.
