(* ===== verification/Crypt.v ===== *)
(** [crypt/crypt.c] and [crypt/crypt_md5.c]: checking a password against a
    stored hash.

    The digests of libcrypto are an interface ([Digests]); the MD5 context of
    [crypt_md5] is the concatenation of what was fed to it.  The functions of
    the other formats are those of [Des], [Bcrypt] and [ShaCrypt].  A crypt
    function that refuses its salt returns -1, having written nothing to the
    caller's buffer or, for the extended DES format, no more than some
    characters of the stored hash itself; [crypt_check_*] then compare the
    buffer, and come to bytes that were not written: that is a fault here. *)

From S2P Require Import Prelude CString Hash Base64 Env Des DesRef Bcrypt BcryptRef CryptB64 ShaCrypt.

Local Open Scope Z_scope.

(** Checks are reasoned about by the specifications of the functions. *)
#[global] Opaque crypt_des crypt_blowfish.

(** * MD5 *)
Section md5.
Context `{D : Digests}.

(** As many bytes of the digest as the password has, sixteen at a time. *)
Fixpoint fill (fuel : nat) (final : bytes) (pl : nat) : bytes :=
  match fuel with
  | O => []
  | S fuel =>
      match pl with
      | O => []
      | _ => take (Nat.min 16 pl) final ++ fill fuel final (pl - 16)
      end
  end.

(** One byte per bit of the length of the password: NUL (the cleared digest)
    or the first character. *)
Fixpoint weird (fuel : nat) (pw0 : ascii) (i : Z) : bytes :=
  match fuel with
  | O => []
  | S fuel =>
      if i =? 0 then []
      else (if Z.land i 1 =? 1 then NUL else pw0) :: weird fuel pw0 (Z.shiftr i 1)
  end.

Definition md5_round (pw salt final : bytes) (i : Z) : bytes :=
  let odd := Z.land i 1 =? 1 in
  MD5 ((if odd then pw else final) ++
       (if i mod 3 =? 0 then [] else salt) ++
       (if i mod 7 =? 0 then [] else pw) ++
       (if odd then final else pw)).

Fixpoint md5_rounds (n : nat) (i : Z) (pw salt final : bytes) : bytes :=
  match n with
  | O => final
  | S n => md5_rounds n (i + 1) pw salt (md5_round pw salt final i)
  end.

(** The digest, as 22 characters. *)
Definition md5_text (final : bytes) : bytes :=
  let f i := u8 (default NUL (final !! i)) in
  let group a b c := to64 (Z.lor (Z.lor (Z.shiftl (f a) 16) (Z.shiftl (f b) 8)) (f c)) 4 in
  group 0%nat 6%nat 12%nat ++ group 1%nat 7%nat 13%nat ++ group 2%nat 8%nat 14%nat ++
  group 3%nat 9%nat 15%nat ++ group 4%nat 10%nat 5%nat ++ to64 (f 11%nat) 2.

Definition md5_digest (pw magic salt : bytes) : bytes :=
  let final := MD5 (pw ++ salt ++ pw) in
  let final := MD5 (pw ++ magic ++ salt ++ fill (S (length pw)) final (length pw) ++
                    weird (S (length pw)) (default NUL (head pw)) (Z.of_nat (length pw))) in
  md5_rounds 1000 0 pw salt final.

Definition magic_of (salt : bytes) : option bytes :=
  if has_prefix (lit "$1$") salt then Some (lit "$1$")
  else if has_prefix (lit "$apr1$") salt then Some (lit "$apr1$")
  else None.

(** [None] for the result -1: an unknown magic, or no "$" within eight
    characters of salt. *)
Definition crypt_md5 (pw salt : bytes) : option bytes :=
  match magic_of salt with
  | None => None
  | Some magic =>
      match cut "$"%char (drop (length magic) salt) with
      | None => None
      | Some (sp, _) =>
          if (8 <? length sp)%nat then None
          else Some (magic ++ sp ++ "$"%char :: md5_text (md5_digest pw magic sp))
      end
  end.
End md5.

(** * Dispatch *)
Section check.
Context `{D : Digests}.

(** [buf] is compared as the crypt function left it. *)
Definition check_buf (buf : option bytes) (hashed : bytes) : cres bool :=
  match buf with
  | None => Fault Uninitialised
  | Some buf => Ok (streq (c_str buf) hashed)
  end.

(** The static arrays of [crypt_des] are as the last call left them, which makes
    no difference ([crypt_des_statics]). *)
Definition crypt_check_des (plain hashed : bytes) : cres bool :=
  r ← crypt_des statics0 plain hashed 128; check_buf r.1 hashed.
Definition crypt_check_phk_md5 (plain hashed : bytes) : cres bool := check_buf (crypt_md5 plain hashed) hashed.
Definition crypt_check_blowfish (plain hashed : bytes) : cres bool :=
  buf ← crypt_blowfish plain hashed 128; check_buf buf hashed.
Definition crypt_check_sha256 (plain hashed : bytes) : cres bool :=
  buf ← crypt_sha256 plain hashed 128; check_buf buf hashed.
Definition crypt_check_sha512 (plain hashed : bytes) : cres bool :=
  buf ← crypt_sha512 plain hashed 128; check_buf buf hashed.

Definition crypt_check_rfc2307_plain (plain hashed : bytes) : cres bool :=
  if negb (has_prefix (lit "{PLAIN}") hashed) then Ok false
  else Ok (streq (drop 7 hashed) plain).

Definition SHA_DIGEST_LENGTH : nat := 20.

Definition crypt_check_rfc2307_sha (plain hashed : bytes) : cres bool :=
  if negb (has_prefix (lit "{SHA}") hashed) then Ok false
  else match base64_decode (drop 5 hashed) with
       | None => Ok false
       | Some b =>
           if negb (length b =? SHA_DIGEST_LENGTH)%nat then Ok false
           else Ok (bool_decide (take SHA_DIGEST_LENGTH b = take SHA_DIGEST_LENGTH (SHA1 plain)))
       end.

Definition crypt_check_rfc2307_ssha (plain hashed : bytes) : cres bool :=
  if negb (has_prefix (lit "{SSHA}") hashed) then Ok false
  else match base64_decode (drop 6 hashed) with
       | None => Ok false
       | Some b =>
           if (length b <=? SHA_DIGEST_LENGTH)%nat then Ok false
           else let salt := drop SHA_DIGEST_LENGTH b in
                Ok (bool_decide (take SHA_DIGEST_LENGTH b = take SHA_DIGEST_LENGTH (SHA1 (plain ++ salt))))
       end.

(** The function pointers [get_crypt_function] returns. *)
Inductive crypt_scheme := CheckDes | CheckMd5 | CheckBlowfish | CheckSha256 | CheckSha512
  | CheckPlain | CheckSha | CheckSsha.

Definition mcf_scheme (mcf : bytes) : option crypt_scheme :=
  let n := length mcf in
  if streq mcf (lit "apr1") then Some CheckMd5
  else if streq mcf (lit "1") then Some CheckMd5
  else if (1 <=? n)%nat && bool_decide (head mcf = Some "2"%char) then Some CheckBlowfish
  else if streq mcf (lit "5") then Some CheckSha256
  else if streq mcf (lit "6") then Some CheckSha512
  else None.

Definition rfc2307_scheme (fmt : bytes) : option crypt_scheme :=
  if streq fmt (lit "PLAIN") then Some CheckPlain
  else if streq fmt (lit "SHA") then Some CheckSha
  else if streq fmt (lit "SSHA") then Some CheckSsha
  else None.

Definition get_crypt_function (hash : bytes) : option crypt_scheme :=
  let h0 := head hash in
  if (length hash =? 13)%nat && negb (bool_decide (h0 = Some "$"%char ∨ h0 = Some "{"%char)) then Some CheckDes
  else if bool_decide (h0 = Some "_"%char) then Some CheckDes
  else
    let brace :=
      if bool_decide (h0 = Some "{"%char)
      then match cut "}"%char (drop 1 hash) with Some (fmt, _) => rfc2307_scheme fmt | None => None end
      else None in
    if bool_decide (h0 = Some "$"%char)
    then match cut "$"%char (drop 1 hash) with Some (mcf, _) => mcf_scheme mcf | None => brace end
    else brace.

Definition run_scheme (s : crypt_scheme) (plain hash : bytes) : cres bool :=
  match s with
  | CheckDes => crypt_check_des plain hash
  | CheckMd5 => crypt_check_phk_md5 plain hash
  | CheckBlowfish => crypt_check_blowfish plain hash
  | CheckSha256 => crypt_check_sha256 plain hash
  | CheckSha512 => crypt_check_sha512 plain hash
  | CheckPlain => crypt_check_rfc2307_plain plain hash
  | CheckSha => crypt_check_rfc2307_sha plain hash
  | CheckSsha => crypt_check_rfc2307_ssha plain hash
  end.

Definition crypt_check (plain hash : bytes) : cres bool :=
  let hash := if has_prefix (lit "{CRYPT}") hash then drop 7 hash else hash in
  match get_crypt_function hash with
  | None => Ok false
  | Some fn => run_scheme fn plain hash
  end.
End check.

(** * Lemmas *)
Lemma scheme_brace fmt rest :
  "}"%char ∉ fmt → get_crypt_function ("{"%char :: fmt ++ "}"%char :: rest) = rfc2307_scheme fmt.
Proof.
  intros Hf. unfold get_crypt_function. cbn [head skipn].
  rewrite (bool_decide_eq_true_2 (_ ∨ _)) by by right. rewrite andb_false_r.
  rewrite bool_decide_eq_false_2, (bool_decide_eq_false_2 (Some "{"%char = Some "$"%char)) by done.
  rewrite bool_decide_eq_true_2, drop_0, cut_app by done. done.
Qed.

Lemma scheme_mcf mcf rest :
  "$"%char ∉ mcf → get_crypt_function ("$"%char :: mcf ++ "$"%char :: rest) = mcf_scheme mcf.
Proof.
  intros Hf. unfold get_crypt_function. cbn [head skipn].
  rewrite (bool_decide_eq_true_2 (_ ∨ _)) by by left. rewrite andb_false_r.
  rewrite bool_decide_eq_false_2, (bool_decide_eq_false_2 (Some "$"%char = Some "{"%char)) by done.
  rewrite bool_decide_eq_true_2, drop_0, cut_app by done. done.
Qed.

(** ** The text of MD5 *)
Lemma md5_text_length f : length (md5_text f) = 22%nat.
Proof. unfold md5_text. by rewrite !length_app, !to64_length. Qed.

Lemma md5_text_no_nul f : NUL ∉ md5_text f.
Proof.
  unfold md5_text. rewrite !not_elem_of_app.
  split_and!; apply to64_no_nul; rewrite ?group_value;
    repeat match goal with |- context [u8 ?x] => lazymatch goal with
      | H : 0 ≤ u8 x < 256 |- _ => fail | _ => pose proof (u8_range x) end end; lia.
Qed.

Lemma list_16_eq (f g : bytes) :
  length f = 16%nat → length g = 16%nat →
  (∀ i, (i < 16)%nat → default NUL (f !! i) = default NUL (g !! i)) → f = g.
Proof.
  intros Hf Hg H. apply list_eq_same_length with 16%nat; [done..|]. intros i x y Hi Hx Hy.
  specialize (H i Hi). by rewrite Hx, Hy in H.
Qed.

Lemma md5_text_inj f g : length f = 16%nat → length g = 16%nat → md5_text f = md5_text g → f = g.
Proof.
  intros Hf Hg H. unfold md5_text in H.
  apply app_inj_1 in H as [H0 H]; [|by rewrite !to64_length].
  apply app_inj_1 in H as [H1 H]; [|by rewrite !to64_length].
  apply app_inj_1 in H as [H2 H]; [|by rewrite !to64_length].
  apply app_inj_1 in H as [H3 H]; [|by rewrite !to64_length].
  apply app_inj_1 in H as [H4 H5]; [|by rewrite !to64_length].
  apply group_inj in H0 as (?&?&?), H1 as (?&?&?), H2 as (?&?&?), H3 as (?&?&?), H4 as (?&?&?).
  apply to64_inj in H5; [|pose proof (u8_range (default NUL (f !! 11%nat))); lia
                         |pose proof (u8_range (default NUL (g !! 11%nat))); lia].
  apply (inj u8) in H5. apply list_16_eq; [done..|]. intros i Hi.
  do 16 (destruct i as [|i]; [assumption|]). lia.
Qed.

Section theorems.
Context `{D : Digests}.

Lemma md5_rounds_length `{!DigestLaws} n i pw salt f :
  length f = 16%nat → length (md5_rounds n i pw salt f) = 16%nat.
Proof.
  revert i f; induction n as [|n IH]; intros i f Hf; simpl; [done|]. apply IH. apply MD5_length.
Qed.

Lemma md5_digest_length `{!DigestLaws} pw magic salt : length (md5_digest pw magic salt) = 16%nat.
Proof. unfold md5_digest. generalize 1000%nat. intros n. apply md5_rounds_length, MD5_length. Qed.

Lemma magic_of_cases salt magic :
  magic_of salt = Some magic → magic = lit "$1$" ∨ magic = lit "$apr1$".
Proof. unfold magic_of. case_tests; naive_solver. Qed.

(** A hash made by [crypt_md5] is recognised as one. *)
Lemma md5_hash_parts magic sp text :
  magic = lit "$1$" ∨ magic = lit "$apr1$" → "$"%char ∉ sp → (length sp ≤ 8)%nat →
  let h := magic ++ sp ++ "$"%char :: text in
  has_prefix (lit "{CRYPT}") h = false ∧ get_crypt_function h = Some CheckMd5 ∧
  ∀ pw, crypt_md5 pw h = Some (magic ++ sp ++ "$"%char :: md5_text (md5_digest pw magic sp)).
Proof.
  intros Hm Hsp Hl h. split; [unfold h; by destruct Hm as [->| ->]|]. split.
  - destruct Hm as [->| ->]; unfold h.
    + change (lit "$1$" ++ sp ++ "$"%char :: text) with ("$"%char :: lit "1" ++ "$"%char :: sp ++ "$"%char :: text).
      rewrite scheme_mcf; [reflexivity|by compute_done].
    + change (lit "$apr1$" ++ sp ++ "$"%char :: text) with ("$"%char :: lit "apr1" ++ "$"%char :: sp ++ "$"%char :: text).
      rewrite scheme_mcf; [reflexivity|by compute_done].
  - intros pw. unfold crypt_md5.
    assert (magic_of h = Some magic) as ->.
    { unfold magic_of, h. destruct Hm as [->| ->]; [by rewrite has_prefix_app|].
      rewrite has_prefix_app. reflexivity. }
    unfold h. rewrite drop_app_length, cut_app by done.
    by rewrite (proj2 (Nat.ltb_ge _ _)) by done.
Qed.

(** A SHA-2 hash goes to the function of its format. *)
Lemma sha_check_dispatch C pw s txt :
  C = crypt5 ∨ C = crypt6 →
  let h := hash_text C s txt in
  crypt_check pw h = (buf ← crypt_sha C pw h 128; check_buf buf h).
Proof.
  intros HC h. unfold crypt_check.
  assert (has_prefix (lit "{CRYPT}") h = false) as -> by (destruct HC as [->| ->]; reflexivity).
  unfold h, hash_text. set (rest := rounds_text s ++ _). destruct HC as [->| ->].
  - change (salt_prefix crypt5 ++ rest) with ("$"%char :: lit "5" ++ "$"%char :: rest).
    rewrite scheme_mcf by by compute_done. reflexivity.
  - change (salt_prefix crypt6 ++ rest) with ("$"%char :: lit "6" ++ "$"%char :: rest).
    rewrite scheme_mcf by by compute_done. reflexivity.
Qed.

Lemma check_brace plain fmt rest scheme :
  "}"%char ∉ fmt → has_prefix (lit "{CRYPT}") ("{"%char :: fmt ++ "}"%char :: rest) = false →
  rfc2307_scheme fmt = Some scheme →
  crypt_check plain ("{"%char :: fmt ++ "}"%char :: rest) =
    run_scheme scheme plain ("{"%char :: fmt ++ "}"%char :: rest).
Proof. intros Hf Hp Hs. unfold crypt_check. by rewrite Hp, scheme_brace, Hs. Qed.

(** A comparison of two texts with the same beginning. *)
Lemma check_buf_text prefix text text' :
  no_nul (prefix ++ text') → check_buf (Some (prefix ++ text')) (prefix ++ text) = Ok (bool_decide (text' = text)).
Proof.
  intros Hn. cbn [check_buf]. rewrite c_str_id by done. f_equal. unfold streq. apply bool_decide_ext. split; [|by intros ->].
  apply app_inv_head.
Qed.

(** ** DES hashes *)

(** A hash of a DES format is read as one, its text in the place of the rest of
    the setting. *)
Definition des_first (ext : bool) (prefix : bytes) : Prop :=
  ext = true ∨ head prefix ≠ Some "$"%char ∧ head prefix ≠ Some "{"%char.

Lemma des_setting_prefix setting ext prefix salt n text :
  des_setting setting ext prefix salt n → des_setting (prefix ++ text) ext prefix salt n.
Proof.
  destruct 1; [by apply traditional|]. cbn [app]. rewrite <- app_assoc. by apply extended.
Qed.

Lemma des_prefix_no_nul setting ext prefix salt n : des_setting setting ext prefix salt n → no_nul prefix.
Proof.
  destruct 1 as [c0 c1 rest _ H0 H1|n salt rest Hn Hs]; unfold no_nul.
  - rewrite !not_elem_of_cons. split_and!; [by intros <-..|apply not_elem_of_nil].
  - rewrite not_elem_of_cons, not_elem_of_app. split_and!; [done|apply to64_no_nul; lia..].
Qed.

Lemma des_dispatch setting ext prefix salt n text :
  des_setting setting ext prefix salt n → des_first ext prefix → length text = 11%nat →
  has_prefix (lit "{CRYPT}") (prefix ++ text) = false ∧ get_crypt_function (prefix ++ text) = Some CheckDes.
Proof.
  intros Hs Hf Hl. destruct Hs as [c0 c1 rest Hc _ _|n salt rest _ _].
  2:{ split; [done|]. unfold get_crypt_function. cbn [head app]. by destruct (_ && _). }
  destruct Hf as [Hf|[Hd Hb]]; [done|]. cbn [head app] in *. split.
  - unfold has_prefix. apply bool_decide_eq_false_2. cbn. congruence.
  - unfold get_crypt_function. cbn [head length]. rewrite Hl, (bool_decide_eq_false_2 (_ ∨ _)) by naive_solver. reflexivity.
Qed.

(** ** Bcrypt hashes *)
Lemma bcrypt_digest_length cost salt key : length (bcrypt_digest cost salt key) = 23%nat.
Proof. unfold bcrypt_digest, ref_output. cbv zeta. by rewrite length_take. Qed.

Lemma bcrypt_dispatch pass c2 cost salt text :
  variant c2 →
  crypt_check pass (bcrypt_setting c2 cost salt ++ text) = crypt_check_blowfish pass (bcrypt_setting c2 cost salt ++ text).
Proof.
  intros Hv. unfold crypt_check.
  assert (has_prefix (lit "{CRYPT}") (bcrypt_setting c2 cost salt ++ text) = false) as -> by done.
  assert (get_crypt_function (bcrypt_setting c2 cost salt ++ text) = Some CheckBlowfish) as ->; [|done].
  unfold bcrypt_setting. rewrite <- app_assoc. unfold bcrypt_header. set (rest := digit _ :: _).
  change (get_crypt_function ("$"%char :: ["2"%char; c2] ++ "$"%char :: (rest ++ BF_encode salt ++ text)) = Some CheckBlowfish).
  rewrite scheme_mcf.
  - unfold mcf_scheme, streq. apply variant_cases in Hv as [->|[->|[->| ->]]]; reflexivity.
  - apply variant_cases in Hv as [->|[->|[->| ->]]]; by compute_done.
Qed.

(** ** Hashes that can be checked *)

(** [crypt_md5] accepts the salt of the hash. *)
Definition md5_salt_ok (h : bytes) : bool :=
  match magic_of h with
  | None => false
  | Some magic =>
      match cut "$"%char (drop (length magic) h) with
      | None => false
      | Some (sp, _) => (length sp <=? 8)%nat
      end
  end.

(** Hashes of every format, with a DES setting that is complete and an MD5 salt
    that is not too long; hashes of an unknown format are refused without
    computing anything. *)
Definition format_ok (h : bytes) : bool :=
  let h := if has_prefix (lit "{CRYPT}") h then drop 7 h else h in
  match get_crypt_function h with
  | Some CheckDes => des_salt_ok h
  | Some CheckMd5 => md5_salt_ok h
  | _ => true
  end.

Lemma check_sha_total C pass h :
  C = crypt5 ∨ C = crypt6 → key_fits C pass → ∃ b, (buf ← crypt_sha C pass h 128; check_buf buf h) = Ok b.
Proof. intros HC Hk. rewrite crypt_sha_ok by done. by eexists. Qed.

Lemma check_des_total pass h : des_salt_ok h = true → ∃ b, crypt_check_des pass h = Ok b.
Proof.
  intros (ext & prefix & salt & n & Hs)%des_salt_setting. unfold crypt_check_des.
  destruct (crypt_des_total statics0 pass h 128 ext prefix salt n) as (out & sh' & ->); [by split|done|done|]. by eexists.
Qed.

Lemma check_blowfish_total pass h : ∃ b, crypt_check_blowfish pass h = Ok b.
Proof.
  unfold crypt_check_blowfish. destruct (crypt_blowfish_total pass h 128) as [out ->]; [done|]. rewrite bind_ok. by eexists.
Qed.

Lemma check_md5_total pass h : md5_salt_ok h = true → ∃ b, crypt_check_phk_md5 pass h = Ok b.
Proof.
  unfold md5_salt_ok, crypt_check_phk_md5, crypt_md5. destruct (magic_of h); [|done].
  destruct (cut _ _) as [[sp rest]|]; [|done]. intros Hl%Nat.leb_le. rewrite (proj2 (Nat.ltb_ge _ _)) by done. by eexists.
Qed.

Lemma short_fits C pass : C = crypt5 ∨ C = crypt6 → Z.of_nat (length pass) < 2 ^ 32 → key_fits C pass.
Proof. intros [->| ->]; unfold key_fits; cbn; lia. Qed.

Lemma crypt_check_ok pass h :
  format_ok h = true → Z.of_nat (length pass) < 2 ^ 32 → ∃ b, crypt_check pass h = Ok b.
Proof.
  unfold format_ok, crypt_check. cbv zeta. set (h' := if has_prefix _ h then _ else h). intros Hf Hp.
  destruct (get_crypt_function h') as [fn|]; [|by exists false]. destruct fn; cbn [run_scheme].
  - by apply check_des_total.
  - by apply check_md5_total.
  - apply check_blowfish_total.
  - apply (check_sha_total crypt5); [by left|apply short_fits; [by left|done]].
  - apply (check_sha_total crypt6); [by right|apply short_fits; [by right|done]].
  - unfold crypt_check_rfc2307_plain. destruct (negb _); by eexists.
  - unfold crypt_check_rfc2307_sha. repeat case_match; by eexists.
  - unfold crypt_check_rfc2307_ssha. repeat case_match; by eexists.
Qed.

(** * Properties *)

(** A hash that [crypt_md5] computed (formats "$1$" and "$apr1$") fits the
    128-byte buffer of the caller, is accepted for the password it was made
    from, and for any other password exactly when the two have the same
    thousand-round digest under that salt; the comparison never reads an
    unwritten buffer. *)
Theorem md5_hash_check `{!DigestLaws} (pw salt h : bytes) :
  no_nul salt → crypt_md5 pw salt = Some h →
  (length h ≤ 37)%nat ∧ crypt_check pw h = Ok true ∧
  ∃ magic sp, ∀ pw', crypt_check pw' h =
    Ok (bool_decide (md5_digest pw' magic sp = md5_digest pw magic sp)).
Proof.
  intros Hn. unfold crypt_md5 at 1. destruct (magic_of salt) as [magic|] eqn:Em; [|done].
  destruct (cut _ _) as [[sp rest]|] eqn:Ec; [|done].
  destruct (8 <? length sp)%nat eqn:El; [done|]. apply Nat.ltb_ge in El. intros [= <-].
  apply magic_of_cases in Em. apply cut_Some in Ec as [Hs Hsp].
  assert (Hnsp : NUL ∉ sp).
  { intros Hin. apply Hn.
    rewrite <- (take_drop (length magic) salt), Hs. set_solver. }
  set (h := magic ++ sp ++ "$"%char :: md5_text (md5_digest pw magic sp)).
  destruct (md5_hash_parts magic sp (md5_text (md5_digest pw magic sp)) Em Hsp El) as (Hp & Hf & Hc).
  assert (Hall : ∀ pw', crypt_check pw' h = Ok (bool_decide (md5_digest pw' magic sp = md5_digest pw magic sp))).
  { intros pw'. unfold crypt_check, h. rewrite Hp, Hf. cbn [run_scheme].
    unfold crypt_check_phk_md5. rewrite Hc. cbn [check_buf]. f_equal.
    rewrite c_str_id.
    - unfold streq. apply bool_decide_ext. split.
      + intros Heq. apply app_inv_head, app_inv_head in Heq. apply cons_eq in Heq as [_ Heq].
        apply md5_text_inj in Heq; [done|apply md5_digest_length..].
      + by intros ->.
    - unfold no_nul. rewrite !not_elem_of_app, not_elem_of_cons.
      split_and!; [destruct Em as [->| ->]; by compute_done|done|done|apply md5_text_no_nul]. }
  split; [|split].
  - unfold h. rewrite !length_app. cbn [length]. rewrite md5_text_length.
    destruct Em as [->| ->]; simpl; lia.
  - rewrite Hall. by rewrite bool_decide_eq_true_2.
  - by exists magic, sp.
Qed.

(** A SHA-256 or SHA-512 hash ("$5$", "$6$", with or without "rounds=") that
    the code computed is accepted by the password check for the password it was
    made from, and for any other password exactly when the two have the same
    digest under that salt and number of rounds.  Without "rounds=" in the
    setting, the salt must not itself start with that text (the code would read
    it as a number of rounds when it parses the hash). *)
Theorem sha_hash_check (C : shacrypt) (pw salt : bytes) :
  C = crypt5 ∨ C = crypt6 → no_nul salt → key_fits C pw →
  let s := parse_setting C salt in
  s_custom s = true ∨ has_prefix (lit "rounds=") (s_salt s) = false →
  ∃ h, crypt_sha C pw salt 128 = Ok (Some h) ∧ (length h < 128)%nat ∧ crypt_check pw h = Ok true ∧
    ∀ pw', key_fits C pw' → crypt_check pw' h =
      Ok (bool_decide (ref_digest C pw' (s_salt s) (s_rounds s) = ref_digest C pw (s_salt s) (s_rounds s))).
Proof.
  intros HC Hn Hk s Hor. destruct (format_facts C HC) as (L & Hw & Hcov & Hp & Hpn & Ht).
  assert (Hg : good_setting s) by apply parse_setting_good.
  rewrite crypt_sha_ok by done. eexists; split; [done|]. split; [by apply hash_text_length|].
  assert (Hall : ∀ pw', key_fits C pw' → crypt_check pw'
    (hash_text C s (digest_text C (ref_digest C pw (s_salt s) (s_rounds s)))) =
    Ok (bool_decide (ref_digest C pw' (s_salt s) (s_rounds s) = ref_digest C pw (s_salt s) (s_rounds s)))).
  { intros pw' Hk'. rewrite (sha_check_dispatch C), crypt_sha_ok, parse_hash_text by done. cbn [mbind cres_bind check_buf].
    rewrite c_str_id by (apply hash_text_no_nul; [done|done|by apply parse_setting_no_nul]). f_equal.
    unfold streq. apply bool_decide_ext. split; [|by intros ->]. intros Heq%hash_text_inj.
    apply (digest_text_inj C) in Heq; [done|done|by apply ref_digest_length..]. }
  split; [|done]. fold s. rewrite Hall by done. by rewrite bool_decide_eq_true_2.
Qed.

(** A DES hash that the code computed, of either format (a traditional one
    must not start with "$" or "{", which mark other formats), is accepted by
    the password check for the password it was made from, and for any other
    password exactly when the two encrypt the zero block to the same bits. *)
Theorem des_hash_check (pw setting : bytes) (ext : bool) (prefix : bytes) (salt : Z) (n : nat) :
  no_nul pw → des_setting setting ext prefix salt n → des_first ext prefix →
  ∃ h, fst <$> crypt_des statics0 pw setting 128 = Ok (Some h) ∧ (length h ≤ 20)%nat ∧ crypt_check pw h = Ok true ∧
    ∀ pw', no_nul pw' → crypt_check pw' h =
      Ok (bool_decide (des_hash (password_key ext pw') salt n = des_hash (password_key ext pw) salt n)).
Proof.
  intros Hk Hs Hf. assert (H0 : statics_ok statics0) by by split.
  destruct (crypt_des_spec statics0 pw setting 128 ext prefix salt n) as (sh & _ & ->); [done..|].
  exists (des_crypt ext prefix pw salt n). split; [done|]. split.
  { unfold des_crypt. rewrite length_app, sextets_length. destruct Hs; cbn [length]; rewrite ?length_app, ?to64_length; lia. }
  assert (Hall : ∀ pw', no_nul pw' → crypt_check pw' (des_crypt ext prefix pw salt n) =
      Ok (bool_decide (des_hash (password_key ext pw') salt n = des_hash (password_key ext pw) salt n))).
  { intros pw' Hk'. unfold crypt_check. set (text := DesRef.sextets (des_hash (password_key ext pw) salt n)).
    assert (Hd := des_dispatch setting ext prefix salt n text Hs Hf (sextets_length _)).
    change (des_crypt ext prefix pw salt n) with (prefix ++ text). destruct Hd as [-> ->]. cbn [run_scheme]. unfold crypt_check_des.
    destruct (crypt_des_spec statics0 pw' (prefix ++ text) 128 ext prefix salt n) as (sh' & _ & ->); [done..|by eapply des_setting_prefix|done|].
    rewrite bind_ok. cbn [fst]. unfold des_crypt. rewrite check_buf_text.
    - f_equal. apply bool_decide_ext. split; [|by intros ->]. apply sextets_inj; apply des_hash_length.
    - apply not_elem_of_app. split; [by eapply des_prefix_no_nul|apply sextets_no_nul, des_hash_length]. }
  split; [|done]. rewrite Hall by done. by rewrite bool_decide_eq_true_2.
Qed.

(** A bcrypt hash that the code computed, of variant "2b" or "2y" or for
    passwords of plain ASCII, is accepted by the password check for the
    password it was made from, and for any other password exactly when the two
    have the same digest under that salt and cost. *)
Theorem bcrypt_hash_check (pw : bytes) (c2 : ascii) (cost : nat) (salt rest : bytes) :
  variant c2 → (4 ≤ cost < 32)%nat → length salt = 16%nat → no_nul pw → plain_key (flags_of c2) pw →
  ∃ h, crypt_blowfish pw (bcrypt_setting c2 cost salt ++ rest) 128 = Ok (Some h) ∧ crypt_check pw h = Ok true ∧
    ∀ pw', no_nul pw' → plain_key (flags_of c2) pw' → crypt_check pw' h =
      Ok (bool_decide (bcrypt_digest cost salt pw' = bcrypt_digest cost salt pw)).
Proof.
  intros Hv Hc Hs Hk Hp. exists (bcrypt_hash c2 cost salt pw). split; [by apply crypt_blowfish_spec|].
  assert (Hall : ∀ pw', no_nul pw' → plain_key (flags_of c2) pw' → crypt_check pw' (bcrypt_hash c2 cost salt pw) =
      Ok (bool_decide (bcrypt_digest cost salt pw' = bcrypt_digest cost salt pw))).
  { intros pw' Hk' Hp'. unfold bcrypt_hash at 1. rewrite bcrypt_dispatch by done. unfold crypt_check_blowfish.
    rewrite crypt_blowfish_spec, bind_ok by done. unfold bcrypt_hash. rewrite check_buf_text by (apply bcrypt_hash_no_nul; [done|lia]).
    f_equal. apply bool_decide_ext. split; [|by intros ->]. apply encode_inj. by rewrite !bcrypt_digest_length. }
  split; [|done]. rewrite Hall by done. by rewrite bool_decide_eq_true_2.
Qed.

(** The RFC 2307 formats: a "{PLAIN}" entry accepts exactly its password; a
    "{SHA}" entry exactly the passwords whose SHA-1 is the encoded digest; an
    "{SSHA}" entry exactly those whose SHA-1 with the appended salt is; a
    format that is not known accepts nothing. *)
Theorem rfc2307_checks `{!DigestLaws} (plain pw digest salt : bytes) :
  length digest = SHA_DIGEST_LENGTH →
  crypt_check plain (lit "{PLAIN}" ++ pw) = Ok (streq pw plain) ∧
  crypt_check plain (lit "{SHA}" ++ base64_encode digest) = Ok (bool_decide (digest = SHA1 plain)) ∧
  (salt ≠ [] → crypt_check plain (lit "{SSHA}" ++ base64_encode (digest ++ salt)) =
               Ok (bool_decide (digest = SHA1 (plain ++ salt)))) ∧
  (∀ fmt rest, "}"%char ∉ fmt → fmt ≠ lit "CRYPT" → rfc2307_scheme fmt = None →
     crypt_check plain ("{"%char :: fmt ++ "}"%char :: rest) = Ok false).
Proof.
  intros Hl. split_and!.
  - transitivity (run_scheme CheckPlain plain (lit "{PLAIN}" ++ pw)).
    { apply (check_brace plain (lit "PLAIN") pw); [by compute_done|reflexivity..]. }
    cbn [run_scheme]. unfold crypt_check_rfc2307_plain. by rewrite has_prefix_app.
  - transitivity (run_scheme CheckSha plain (lit "{SHA}" ++ base64_encode digest)).
    { apply (check_brace plain (lit "SHA")); [by compute_done|reflexivity..]. }
    cbn [run_scheme]. unfold crypt_check_rfc2307_sha. rewrite has_prefix_app. cbn [negb].
    rewrite (drop_app_length' _ _ 5%nat), base64_decode_encode, Hl by done. cbn [negb Nat.eqb SHA_DIGEST_LENGTH].
    rewrite (take_ge digest) by (rewrite Hl; done). by rewrite (take_ge (SHA1 _)) by (rewrite SHA1_length; done).
  - intros Hs. transitivity (run_scheme CheckSsha plain (lit "{SSHA}" ++ base64_encode (digest ++ salt))).
    { apply (check_brace plain (lit "SSHA")); [by compute_done|reflexivity..]. }
    cbn [run_scheme]. unfold crypt_check_rfc2307_ssha. rewrite has_prefix_app. cbn [negb].
    rewrite (drop_app_length' _ _ 6%nat), base64_decode_encode, length_app, Hl by done.
    destruct salt as [|c salt]; [done|]. rewrite (proj2 (Nat.leb_gt _ _)) by (cbn [length]; lia). cbv zeta.
    rewrite <- Hl, take_app_length, drop_app_length, Hl.
    by rewrite (take_ge (SHA1 _)) by (rewrite SHA1_length; done).
  - intros fmt rest Hf Hc Hn. unfold crypt_check.
    destruct (has_prefix (lit "{CRYPT}") ("{"%char :: fmt ++ "}"%char :: rest)) eqn:E.
    + exfalso. unfold has_prefix in E. apply bool_decide_eq_true in E.
      assert (Hcut : cut "}"%char (drop 1 ("{"%char :: fmt ++ "}"%char :: rest)) = Some (fmt, rest)) by (by apply cut_app).
      rewrite <- (take_drop (length (lit "{CRYPT}")) ("{"%char :: fmt ++ "}"%char :: rest)) in Hcut.
      rewrite E in Hcut. simpl in Hcut. by injection Hcut as <- _.
    + by rewrite scheme_brace, Hn.
Qed.
End theorems.

Lemma md5_hash_check_witness :
  match crypt_md5 (D:=digests_pad) (lit "secret") (lit "$apr1$ab$") with
  | Some h => crypt_check (D:=digests_pad) (lit "secret") h = Ok true
  | None => False
  end.
Proof.
  destruct (crypt_md5 (D:=digests_pad) (lit "secret") (lit "$apr1$ab$")) as [h|] eqn:E; [|discriminate].
  apply (md5_hash_check (D:=digests_pad) (H:=digests_pad_laws) (lit "secret") (lit "$apr1$ab$") h); [|exact E].
  by compute_done.
Defined.

Lemma rfc2307_checks_witness :
  let d := @SHA1 digests_pad (lit "pw") in
  crypt_check (D:=digests_pad) (lit "pw") (lit "{SHA}" ++ base64_encode d) = Ok true.
Proof.
  intros d.
  destruct (rfc2307_checks (D:=digests_pad) (H:=digests_pad_laws) (lit "pw") [] d []) as (_ & H & _).
  - reflexivity.
  - rewrite H. by rewrite bool_decide_eq_true_2.
Defined.

(** A hash whose salt is too long is compared with an unwritten buffer. *)
Example md5_long_salt :
  crypt_check (D:=digests_pad) (lit "pw") (lit "$1$123456789$x") = Fault Uninitialised.
Proof. reflexivity. Qed.

(** A stored hash that is only the mark of the extended DES format is read past
    its end. *)
Example des_short_setting :
  crypt_check (D:=digests_pad) (lit "pw") (lit "_") = Fault OutOfBounds.
Proof.
  unfold crypt_check. change (get_crypt_function _) with (Some CheckDes). cbn [run_scheme]. unfold crypt_check_des.
  change (if has_prefix _ _ then _ else _) with (lit "_"). change (lit "_") with ["_"%char].
  rewrite crypt_des_short; [done|by split|cbn; lia|done].
Qed.

Lemma sha_hash_check_witness :
  ∃ h, crypt_sha crypt6 (lit "secret") (lit "$6$abc") 128 = Ok (Some h) ∧ (length h < 128)%nat ∧
       crypt_check (D:=digests_pad) (lit "secret") h = Ok true.
Proof.
  destruct (sha_hash_check (D:=digests_pad) crypt6 (lit "secret") (lit "$6$abc")) as (h & Hh & Hl & Ht & _).
  - by right.
  - by compute_done.
  - done.
  - right. by vm_compute.
  - exists h. split; [exact Hh|]. split; [exact Hl|exact Ht].
Defined.

Lemma des_hash_check_witness :
  ∃ h, fst <$> crypt_des statics0 (lit "test") (lit "fn") 128 = Ok (Some h) ∧
       crypt_check (D:=digests_pad) (lit "test") h = Ok true.
Proof.
  destruct (des_hash_check (D:=digests_pad) (lit "test") (lit "fn") false (lit "fn") (salt2 "f"%char "n"%char) 25)
    as (h & Hh & _ & Ht & _).
  - by compute_done.
  - by apply traditional.
  - right. by split.
  - exists h. split; [exact Hh|exact Ht].
Defined.

Lemma bcrypt_hash_check_witness :
  ∃ h, crypt_blowfish (lit "secret") (bcrypt_setting "y"%char 4 test_salt ++ []) 128 = Ok (Some h) ∧
       crypt_check (D:=digests_pad) (lit "secret") h = Ok true.
Proof.
  destruct (bcrypt_hash_check (D:=digests_pad) (lit "secret") "y"%char 4 test_salt []) as (h & Hh & Ht & _).
  - apply (bool_decide_unpack _). by vm_compute.
  - lia.
  - reflexivity.
  - by compute_done.
  - left. reflexivity.
  - exists h. split; [exact Hh|exact Ht].
Defined.
