(* ===== verification/Auth.v ===== *)
(** [auth/auth.c]: basic authentication against a path's user database, and
    the address whitelist.

    Addresses are byte lists in network order; the host is little-endian, as
    on the platforms the plugin is built for, so that the [uint32_t] view of
    four bytes is [le_val] of them and [htonl] swaps. *)

From S2P Require Import Prelude CString Hash Base64 Env Api Namespace Cluster RemapPath Crypt.

Local Open Scope Z_scope.

(** * Words *)
Fixpoint le_val (b : bytes) : Z :=
  match b with [] => 0 | c :: b => u8 c + 256 * le_val b end.

(** [htonl] of a 32-bit word on a little-endian host. *)
Definition htonl (w : Z) : Z :=
  Z.lor (Z.lor (Z.shiftl (Z.land w 0xFF) 24) (Z.shiftl (Z.land (Z.shiftr w 8) 0xFF) 16))
        (Z.lor (Z.shiftl (Z.land (Z.shiftr w 16) 0xFF) 8) (Z.land (Z.shiftr w 24) 0xFF)).

(** The host-order value of an address in network order: [htonl] of its
    [in_addr_t]. *)
Definition be_val (b : bytes) : Z := le_val (reverse b).

(** * Addresses *)
Definition ipv4_in_network (ip net : bytes) (pfxlen : Z) : cres bool :=
  if bool_decide (0 ≤ 32 - pfxlen < 64) then
    let mask := wrapu 32 (wrapu 64 (Z.shiftl (2 ^ 64 - 1) (32 - pfxlen))) in
    if bool_decide (pfxlen < 0 ∨ pfxlen > 32) then Ok false
    else Ok (Z.land (be_val ip) mask =? Z.land (be_val net) mask)
  else Fault ShiftRange.

(** Four bytes of an address, as the [uint32_t] copied from them. *)
Definition word (addr : bytes) (i : nat) : Z := le_val (take 4 (drop (4 * i) addr)).

(** The mask word [i]: the [switch] clears the words from [pfxlen / 32] on,
    then the partial word is set. *)
Definition mask_word (pfxlen : Z) (i : nat) : Z :=
  let q := pfxlen / 32 in
  let r := pfxlen mod 32 in
  let cleared := if bool_decide (q ≤ Z.of_nat i) then 0 else 0xFFFFFFFF in
  if bool_decide (Z.of_nat i = q) && negb (r =? 0)
  then htonl (wrapu 32 (Z.shiftl 0xFFFFFFFF (32 - r)))
  else cleared.

Definition ipv6_in_network (ip net : bytes) (pfxlen : Z) : bool :=
  if bool_decide (pfxlen < 0 ∨ pfxlen > 128) then false
  else forallb (λ i, Z.land (word ip i) (mask_word pfxlen i) =? Z.land (word net i) (mask_word pfxlen i))
               [0; 1; 2; 3]%nat.

Record sockaddr := Sockaddr {
  sa_family : family;
  sa_addr : bytes;
}.

(** The loop over the whitelist, for one family. *)
Fixpoint check_list (test : bytes → bytes → Z → cres bool) (fam : family) (addr : bytes)
    (l : list remap_auth_addr) : cres bool :=
  match l with
  | [] => Ok false
  | rad :: l =>
      if negb (bool_decide (ra_family rad = fam)) then check_list test fam addr l
      else r ← test addr (ra_addr rad) (ra_prefix_length rad);
           if (r : bool) then Ok true else check_list test fam addr l
  end.

Section auth.
Context `{P : Posix} `{D : Digests}.
Implicit Types (rp : remap_path).

Definition auth_check_address (addr : sockaddr) rp : cres bool :=
  match sa_family addr with
  | AF_INET => check_list ipv4_in_network AF_INET (sa_addr addr) (rp_auth_addr_list rp)
  | AF_INET6 => check_list (λ a n p, Ok (ipv6_in_network a n p)) AF_INET6 (sa_addr addr) (rp_auth_addr_list rp)
  | AF_OTHER => Ok false
  end.

(** * Passwords *)
Definition auth_check_password (users : hash bytes) (usenam pass : bytes) : cres bool :=
  match hash_get users usenam with
  | None => Ok false
  | Some crypted => crypt_check pass crypted
  end.

Definition auth_check_basic (hdr : bytes) rp : cres Z :=
  let len := length hdr in
  if negb (bool_decide (rp_auth_type rp = REMAP_AUTH_BASIC)) then Ok 0
  else match rp_users rp with
  | None => Ok 0
  | Some users =>
      match cut " "%char hdr with
      | None => Ok (-1)
      | Some (before, _) =>
          if (len <? 7)%nat then Ok (-1)
          else if negb (has_prefix (lit "Basic ") hdr) then Ok (-1)
          else
            let creds := drop_while isspace (drop (length before) hdr) in
            if bool_decide (creds = []) then Ok (-1)
            else if bool_decide (base64_decode_len (Z.of_nat (length creds)) > 256 - 1) then Ok (-1)
            else match base64_decode creds with
            | None => Ok (-1)
            | Some buf =>
                if (length buf <? 3)%nat then Ok (-1)
                else match cut ":"%char (c_str buf) with
                | None => Ok (-1)
                | Some (user, pass) =>
                    ok ← auth_check_password users user pass;
                    Ok (if (ok : bool) then 1 else 0)
                end
            end
      end
  end.
End auth.

(** * Specification: the network bits of an address *)

(** Bit [i] of an address, counted from its first, most significant one. *)
Definition addr_bit (b : bytes) (i : Z) : bool :=
  match b !! Z.to_nat (i / 8) with
  | Some c => Z.testbit (u8 c) (7 - i mod 8)
  | None => false
  end.

(** The first [n] bits of two addresses agree. *)
Definition same_prefix (a b : bytes) (n : Z) : Prop := ∀ i, 0 ≤ i < n → addr_bit a i = addr_bit b i.

(** * Lemmas *)
Lemma le_val_nonneg b : 0 ≤ le_val b.
Proof. induction b as [|c b IH]; simpl; [done|]. pose proof (u8_range c). lia. Qed.

Lemma testbit_le_val b j :
  0 ≤ j → Z.testbit (le_val b) j =
    match b !! Z.to_nat (j / 8) with Some c => Z.testbit (u8 c) (j mod 8) | None => false end.
Proof.
  revert j; induction b as [|c b IH]; intros j Hj; simpl le_val; [by rewrite Z.bits_0|].
  pose proof (u8_range c).
  replace (256 * le_val b) with (le_val b * 2 ^ 8) by lia.
  rewrite <- lor_add, Z.lor_spec by lia.
  destruct (decide (j < 8)).
  - rewrite Z.mul_pow2_bits_low by lia. rewrite orb_false_r, Z.div_small, Z.mod_small by lia. done.
  - rewrite Z.mul_pow2_bits by lia. rewrite IH by lia.
    replace (Z.testbit (u8 c) j) with false.
    2:{ symmetry. rewrite <- (Z.mod_small (u8 c) (2 ^ 8)) by lia. apply Z.mod_pow2_bits_high. lia. }
    replace (j / 8) with ((j - 8) / 8 + 1).
    2:{ replace j with ((j - 8) + 1 * 8) at 2 by lia. by rewrite Z.div_add by lia. }
    replace (j mod 8) with ((j - 8) mod 8).
    2:{ replace j with ((j - 8) + 1 * 8) at 2 by lia. by rewrite Z.mod_add by lia. }
    replace (Z.to_nat ((j - 8) / 8 + 1)) with (S (Z.to_nat ((j - 8) / 8))); [done|].
    assert (0 ≤ (j - 8) / 8) by (apply Z.div_pos; lia). lia.
Qed.

(** Masked words are equal iff they agree where the mask has a one. *)
Lemma land_eq_iff a b m w :
  0 ≤ w → 0 ≤ m < 2 ^ w →
  Z.land a m = Z.land b m ↔ ∀ j, 0 ≤ j < w → Z.testbit m j = true → Z.testbit a j = Z.testbit b j.
Proof.
  intros Hw Hm. split.
  - intros H j Hj Hmj. apply (f_equal (λ z, Z.testbit z j)) in H.
    by rewrite !Z.land_spec, Hmj, !andb_true_r in H.
  - intros H. apply Z.bits_inj'. intros j Hj. rewrite !Z.land_spec.
    destruct (Z.testbit m j) eqn:E; [|by rewrite !andb_false_r]. rewrite (H j); [done| |done].
    split; [done|]. destruct (decide (j < w)); [done|].
    rewrite <- (Z.mod_small m (2 ^ w)) in E by done. by rewrite Z.mod_pow2_bits_high in E by lia.
Qed.

(** Counting bits of a four-byte word from either end. *)
Lemma word_index i : 0 ≤ i < 32 → (31 - i) / 8 = 3 - i / 8 ∧ (31 - i) mod 8 = 7 - i mod 8.
Proof.
  intros. pose proof (Z.div_mod i 8 ltac:(lia)). pose proof (Z.mod_pos_bound i 8 ltac:(lia)).
  pose proof (Z.div_mod (31 - i) 8 ltac:(lia)). pose proof (Z.mod_pos_bound (31 - i) 8 ltac:(lia)). lia.
Qed.

Lemma be_val_bit b i : length b = 4%nat → 0 ≤ i < 32 → Z.testbit (be_val b) (31 - i) = addr_bit b i.
Proof.
  intros Hb Hi. unfold be_val, addr_bit. rewrite testbit_le_val by lia.
  destruct (word_index i Hi) as [-> ->].
  assert (0 ≤ i / 8 < 4) by (split; [apply Z.div_pos; lia|apply Z.div_lt_upper_bound; lia]).
  replace (reverse b !! Z.to_nat (3 - i / 8)) with (b !! Z.to_nat (i / 8)); [done|].
  destruct b as [|a [|b' [|c [|d [|]]]]]; try done.
  assert (Hc : i / 8 = 0 ∨ i / 8 = 1 ∨ i / 8 = 2 ∨ i / 8 = 3) by lia.
  by destruct Hc as [->|[->|[->| ->]]].
Qed.

Definition v4_mask (p : Z) : Z := wrapu 32 (wrapu 64 (Z.shiftl (2 ^ 64 - 1) (32 - p))).

Lemma v4_mask_bits p j : 0 ≤ p ≤ 32 → 0 ≤ j < 32 → Z.testbit (v4_mask p) j = (32 - p <=? j).
Proof.
  intros Hp Hj.
  pose proof (forall_range 33 (λ p, forallb (λ j, Bool.eqb (Z.testbit (v4_mask p) (Z.of_nat j)) (32 - p <=? Z.of_nat j)) (seq 0 32))
    ltac:(vm_compute; reflexivity) p ltac:(lia)) as H. cbv beta in H.
  rewrite forallb_forall in H. specialize (H (Z.to_nat j)).
  rewrite Z2Nat.id, Bool.eqb_true_iff in H by lia. apply H, in_seq. lia.
Qed.

Lemma v4_mask_eq ip net p :
  length ip = 4%nat → length net = 4%nat → 0 ≤ p ≤ 32 →
  Z.land (be_val ip) (v4_mask p) = Z.land (be_val net) (v4_mask p) ↔ same_prefix ip net p.
Proof.
  intros Hi Hn Hp. rewrite (land_eq_iff _ _ _ 32) by (lia || apply wrapu_range; lia).
  unfold same_prefix. split; intros H i Hb.
  - rewrite <- !be_val_bit by (done || lia). apply H; [lia|]. rewrite v4_mask_bits by lia. lia.
  - rewrite v4_mask_bits by lia. intros Hm.
    replace i with (31 - (31 - i)) by lia. rewrite !be_val_bit by (done || lia). apply H. lia.
Qed.

(** The position in the address of bit [j] of word [i]. *)
Definition net_index (i : nat) (j : Z) : Z := 32 * Z.of_nat i + 8 * (j / 8) + (7 - j mod 8).

Lemma net_index_parts i j :
  0 ≤ j < 32 → net_index i j / 8 = 4 * Z.of_nat i + j / 8 ∧ net_index i j mod 8 = 7 - j mod 8.
Proof.
  intros. unfold net_index. pose proof (Z.mod_pos_bound j 8 ltac:(lia)).
  replace (32 * Z.of_nat i + 8 * (j / 8) + (7 - j mod 8))
    with ((7 - j mod 8) + (4 * Z.of_nat i + j / 8) * 8) by lia.
  rewrite Z.div_add, Z.mod_add by lia. rewrite Z.div_small, Z.mod_small by lia. lia.
Qed.

Lemma net_index_inv n : 0 ≤ n < 128 → ∃ i j, (i < 4)%nat ∧ 0 ≤ j < 32 ∧ net_index i j = n.
Proof.
  intros Hn. pose proof (Z.div_mod n 32 ltac:(lia)). pose proof (Z.mod_pos_bound n 32 ltac:(lia)).
  pose proof (Z.div_mod (n mod 32) 8 ltac:(lia)). pose proof (Z.mod_pos_bound (n mod 32) 8 ltac:(lia)).
  set (m := n mod 32) in *. exists (Z.to_nat (n / 32)), (8 * (m / 8) + (7 - m mod 8)).
  assert (0 ≤ n / 32) by (apply Z.div_pos; lia).
  assert (0 ≤ m / 8) by (apply Z.div_pos; lia).
  split; [lia|]. split; [lia|]. unfold net_index.
  replace (8 * (m / 8) + (7 - m mod 8)) with ((7 - m mod 8) + m / 8 * 8) by lia.
  rewrite Z.div_add, Z.mod_add by lia.
  rewrite (Z.div_small (7 - m mod 8)), (Z.mod_small (7 - m mod 8)) by lia. lia.
Qed.

Lemma word_bit addr i j :
  length addr = 16%nat → (i < 4)%nat → 0 ≤ j < 32 →
  Z.testbit (word addr i) j = addr_bit addr (net_index i j).
Proof.
  intros Hl Hi Hj. unfold word, addr_bit. rewrite testbit_le_val by lia.
  destruct (net_index_parts i j Hj) as [-> ->].
  assert (0 ≤ j / 8 < 4) by (split; [apply Z.div_pos; lia|apply Z.div_lt_upper_bound; lia]).
  rewrite lookup_take_lt, lookup_drop by lia.
  replace (4 * i + Z.to_nat (j / 8))%nat with (Z.to_nat (4 * Z.of_nat i + j / 8)) by lia.
  by replace (7 - (7 - j mod 8)) with (j mod 8) by lia.
Qed.

Lemma mask_word_bits p i j :
  0 ≤ p ≤ 128 → (i < 4)%nat → 0 ≤ j < 32 → Z.testbit (mask_word p i) j = (net_index i j <? p).
Proof.
  intros Hp Hi Hj.
  pose proof (forall_range 129 (λ p, forallb (λ i, forallb (λ j,
    Bool.eqb (Z.testbit (mask_word p i) (Z.of_nat j)) (net_index i (Z.of_nat j) <? p)) (seq 0 32)) (seq 0 4))
    ltac:(vm_compute; reflexivity) p ltac:(lia)) as H. cbv beta in H.
  rewrite forallb_forall in H. specialize (H i). rewrite forallb_forall in H.
  specialize (H ltac:(apply in_seq; lia) (Z.to_nat j)).
  rewrite Z2Nat.id, Bool.eqb_true_iff in H by lia. apply H, in_seq. lia.
Qed.

Lemma mask_word_range p i : 0 ≤ p ≤ 128 → (i < 4)%nat → 0 ≤ mask_word p i < 2 ^ 32.
Proof.
  intros Hp Hi.
  pose proof (forall_range 129 (λ p, forallb (λ i,
    (0 <=? mask_word p i) && (mask_word p i <? 2 ^ 32)) (seq 0 4))
    ltac:(vm_compute; reflexivity) p ltac:(lia)) as H. cbv beta in H.
  rewrite forallb_forall in H. specialize (H i ltac:(apply in_seq; lia)). lia.
Qed.

Lemma v6_mask_eq ip net p :
  length ip = 16%nat → length net = 16%nat → 0 ≤ p ≤ 128 →
  (∀ i, (i < 4)%nat → Z.land (word ip i) (mask_word p i) = Z.land (word net i) (mask_word p i))
  ↔ same_prefix ip net p.
Proof.
  intros Hi Hn Hp. split.
  - intros H n Hb. destruct (net_index_inv n ltac:(lia)) as (i & j & Hi4 & Hj & <-).
    rewrite <- !word_bit by done. specialize (H i Hi4).
    rewrite (land_eq_iff _ _ _ 32) in H by (lia || by apply mask_word_range).
    apply H; [done|]. rewrite mask_word_bits by done. lia.
  - intros H i Hi4. rewrite (land_eq_iff _ _ _ 32) by (lia || by apply mask_word_range).
    intros j Hj. rewrite mask_word_bits, !word_bit by done. intros. apply H.
    unfold net_index in *. pose proof (Z.mod_pos_bound j 8 ltac:(lia)).
    assert (0 ≤ j / 8) by (apply Z.div_pos; lia). lia.
Qed.

Lemma ipv4_in_network_iff ip net p :
  length ip = 4%nat → length net = 4%nat → 0 ≤ p ≤ 32 →
  ipv4_in_network ip net p = Ok true ↔ same_prefix ip net p.
Proof.
  intros Hi Hn Hp. unfold ipv4_in_network.
  rewrite bool_decide_eq_true_2, bool_decide_eq_false_2 by lia.
  rewrite <- v4_mask_eq by done. fold (v4_mask p).
  destruct (Z.eqb_spec (Z.land (be_val ip) (v4_mask p)) (Z.land (be_val net) (v4_mask p))); naive_solver.
Qed.

Lemma ipv4_in_network_ok ip net p : -31 ≤ p ≤ 32 → ∃ r, ipv4_in_network ip net p = Ok r.
Proof.
  intros Hp. unfold ipv4_in_network. rewrite bool_decide_eq_true_2 by lia.
  case_bool_decide; eauto.
Qed.

Lemma ipv6_in_network_iff ip net p :
  length ip = 16%nat → length net = 16%nat →
  ipv6_in_network ip net p = true ↔ 0 ≤ p ≤ 128 ∧ same_prefix ip net p.
Proof.
  intros Hi Hn. unfold ipv6_in_network. case_bool_decide; [split; [done|lia]|].
  rewrite <- v6_mask_eq by (done || lia). rewrite forallb_forall. split.
  - intros H'. split; [lia|]. intros i Hi4. apply Z.eqb_eq, H'.
    do 4 (destruct i as [|i]; [simpl; tauto|]). lia.
  - intros [_ H'] i Hin. apply Z.eqb_eq, H'. simpl in Hin. lia.
Qed.

(** * Properties *)

(** For a prefix length between 0 and 32, [ipv4_in_network] tells whether
    the first [pfxlen] bits of the two addresses agree; a small negative
    length is refused; a length above 32 is shifted by before it is refused,
    which C leaves undefined. *)
Theorem ipv4_in_network_prefix (ip net : bytes) (pfxlen : Z) :
  length ip = 4%nat → length net = 4%nat →
  (0 ≤ pfxlen ≤ 32 → ∃ b, ipv4_in_network ip net pfxlen = Ok b ∧ (b = true ↔ same_prefix ip net pfxlen)) ∧
  (-31 ≤ pfxlen < 0 → ipv4_in_network ip net pfxlen = Ok false) ∧
  (32 < pfxlen → ipv4_in_network ip net pfxlen = Fault ShiftRange).
Proof.
  intros Hi Hn. split_and!.
  - intros Hp. destruct (ipv4_in_network_ok ip net pfxlen) as [b Hb]; [lia|]. exists b. split; [done|].
    rewrite <- ipv4_in_network_iff, Hb by done. naive_solver.
  - intros Hp. unfold ipv4_in_network. by rewrite !bool_decide_eq_true_2 by lia.
  - intros Hp. unfold ipv4_in_network. by rewrite bool_decide_eq_false_2 by lia.
Qed.

Definition ip (a b c d : Z) : bytes := [of_u8 a; of_u8 b; of_u8 c; of_u8 d].

Lemma ipv4_in_network_prefix_witness :
  ∃ b, ipv4_in_network (ip 10 1 2 3) (ip 10 0 0 0) 8 = Ok b ∧
       (b = true ↔ same_prefix (ip 10 1 2 3) (ip 10 0 0 0) 8).
Proof. apply (ipv4_in_network_prefix (ip 10 1 2 3) (ip 10 0 0 0) 8); [reflexivity|reflexivity|lia]. Defined.

(** [ipv6_in_network] tells whether the prefix length is between 0 and 128
    and the first [pfxlen] bits of the two addresses agree, whatever the
    length modulo the word size. *)
Theorem ipv6_in_network_prefix (ip net : bytes) (pfxlen : Z) :
  length ip = 16%nat → length net = 16%nat →
  ipv6_in_network ip net pfxlen = true ↔ 0 ≤ pfxlen ≤ 128 ∧ same_prefix ip net pfxlen.
Proof. apply ipv6_in_network_iff. Qed.

Lemma ipv6_in_network_prefix_witness :
  ipv6_in_network (replicate 16 NUL) (replicate 16 NUL) 65 = true.
Proof.
  apply (ipv6_in_network_prefix (replicate 16 NUL) (replicate 16 NUL) 65); [reflexivity|reflexivity|].
  split; [lia|]. intros i _. reflexivity.
Defined.

(** ** The whitelist *)
Definition max_prefix (fam : family) : Z := match fam with AF_INET => 32 | AF_INET6 => 128 | AF_OTHER => -1 end.
Definition addr_length (fam : family) : nat := match fam with AF_INET => 4 | AF_INET6 => 16 | AF_OTHER => 0 end.

(** The prefix lengths [ipv4_in_network] can shift by.  An IPv6 entry may have
    any. *)
Definition prefix_ok (e : remap_auth_addr) : Prop := ra_family e = AF_INET → -31 ≤ ra_prefix_length e ≤ 32.

(** Entries as [remap_path_get_addresses] makes them from such lengths. *)
Definition entry_ok (e : remap_auth_addr) : Prop :=
  length (ra_addr e) = addr_length (ra_family e) ∧ prefix_ok e.

(** The networks the list names contain the address. *)
Definition covers (fam : family) (addr : bytes) (e : remap_auth_addr) : Prop :=
  ra_family e = fam ∧ 0 ≤ ra_prefix_length e ≤ max_prefix fam ∧ same_prefix addr (ra_addr e) (ra_prefix_length e).
Definition whitelisted (addr : sockaddr) (l : list remap_auth_addr) : Prop :=
  sa_family addr ≠ AF_OTHER ∧ ∃ e, e ∈ l ∧ covers (sa_family addr) (sa_addr addr) e.

Lemma check_list_spec test fam addr l :
  (∀ e, e ∈ l → ra_family e = fam →
     ∃ b, test addr (ra_addr e) (ra_prefix_length e) = Ok b ∧ (b = true ↔ covers fam addr e)) →
  ∃ b, check_list test fam addr l = Ok b ∧ (b = true ↔ ∃ e, e ∈ l ∧ covers fam addr e).
Proof.
  induction l as [|e l IH]; intros Ht; simpl.
  { exists false. split; [done|]. split; [done|]. intros (e & He & _). by apply elem_of_nil in He. }
  destruct IH as (b & Hb & Hbi). { intros e' He'. apply Ht. by right. }
  case_bool_decide as Hf; simpl.
  - destruct (Ht e) as (b' & -> & Hb'); [by left|done|]. simpl. destruct b'.
    + exists true. split; [done|]. split; [|done]. intros _. exists e. split; [by left|by apply Hb'].
    + exists b. split; [done|]. rewrite Hbi. setoid_rewrite elem_of_cons. naive_solver.
  - exists b. split; [done|]. rewrite Hbi. setoid_rewrite elem_of_cons. unfold covers. naive_solver.
Qed.

Lemma auth_check_address_spec `{Posix} (addr : sockaddr) rp :
  length (sa_addr addr) = addr_length (sa_family addr) →
  (∀ e, e ∈ rp_auth_addr_list rp → length (ra_addr e) = addr_length (ra_family e)) →
  (sa_family addr = AF_INET → ∀ e, e ∈ rp_auth_addr_list rp → prefix_ok e) →
  ∃ b, auth_check_address addr rp = Ok b ∧ (b = true ↔ whitelisted addr (rp_auth_addr_list rp)).
Proof.
  intros Hl He Hpf. unfold auth_check_address, whitelisted.
  destruct (sa_family addr) eqn:Ef; simpl in Hl.
  - destruct (check_list_spec ipv4_in_network AF_INET (sa_addr addr) (rp_auth_addr_list rp)) as (b & -> & Hb).
    + intros e Hin Hfam. pose proof (He e Hin) as Hel. pose proof (Hpf eq_refl e Hin Hfam) as Hp. rewrite Hfam in *; simpl in *.
      destruct (ipv4_in_network_ok (sa_addr addr) (ra_addr e) (ra_prefix_length e)) as [b Hb]; [lia|].
      exists b. split; [done|]. unfold covers; simpl. destruct (decide (0 ≤ ra_prefix_length e)).
      * rewrite <- ipv4_in_network_iff, Hb by (done || lia). naive_solver.
      * unfold ipv4_in_network in Hb. rewrite !bool_decide_eq_true_2 in Hb by lia. simplify_eq. naive_solver lia.
    + exists b. naive_solver.
  - destruct (check_list_spec (λ a n p, Ok (ipv6_in_network a n p)) AF_INET6 (sa_addr addr) (rp_auth_addr_list rp))
      as (b & -> & Hb).
    + intros e Hin Hfam. pose proof (He e Hin) as Hel. rewrite Hfam in *; simpl in *.
      eexists. split; [done|]. rewrite ipv6_in_network_iff by done. unfold covers; simpl. naive_solver.
    + exists b. naive_solver.
  - exists false. naive_solver.
Qed.

Lemma auth_check_address_iff `{Posix} (addr : sockaddr) rp :
  length (sa_addr addr) = addr_length (sa_family addr) → Forall entry_ok (rp_auth_addr_list rp) →
  ∃ b, auth_check_address addr rp = Ok b ∧ (b = true ↔ whitelisted addr (rp_auth_addr_list rp)).
Proof. intros Hl He. rewrite Forall_forall in He. apply auth_check_address_spec; [done|..]; intros; by apply He. Qed.

(** The list built from the annotation: the entries that parse, last first. *)
Lemma get_addresses_reverse `{Posix} str :
  remap_path_get_addresses str = reverse (omap parse_address (strtok_all (lit ",") str)).
Proof.
  unfold remap_path_get_addresses. generalize (strtok_all (lit ",") str) as l. intros l.
  assert (Hacc : ∀ acc, foldl (λ l saddr, match parse_address saddr with Some e => e :: l | None => l end) acc l
                        = reverse (omap parse_address l) ++ acc).
  { induction l as [|a l IH]; intros acc; simpl; [done|]. rewrite IH.
    destruct (parse_address a); simpl; [|done]. by rewrite reverse_cons, <- app_assoc. }
  by rewrite Hacc, app_nil_r.
Qed.

Lemma parse_address_length `{PosixLaws} s e :
  parse_address s = Some e → length (ra_addr e) = addr_length (ra_family e).
Proof.
  unfold parse_address. destruct (match cut _ s with Some _ => _ | None => _ end) as [a p].
  destruct (inet_pton6 a) as [b|] eqn:E6.
  - intros; simplify_eq; simpl. by eapply inet_pton6_length.
  - destruct (inet_pton4 a) as [b|] eqn:E4; intros; simplify_eq; simpl. by eapply inet_pton4_length.
Qed.

(** C24. The whitelist-source-range annotation end to end:
    [auth_check_address], on a path whose list was read from the annotation,
    accepts a client exactly when one of the comma-separated entries that
    parse has the client's address family and a network prefix of the client's
    address, with a prefix length between 0 and the size of such an address.
    The client's address has the length of its family.  For an IPv6 client, or
    one of another family, nothing is asked of the entries; for an IPv4 client
    every IPv4 entry must have a prefix length between -31 and 32, since the
    code shifts by 32 minus the length before it looks at the length: an entry
    such as 10.0.0.0/33 or 10.0.0.0/-40 is an undefined shift
    ([ipv4_in_network_prefix]). *)
Theorem whitelist_decision `{PosixLaws} (str : bytes) (rp : remap_path) (addr : sockaddr) :
  length (sa_addr addr) = addr_length (sa_family addr) →
  rp_auth_addr_list rp = remap_path_get_addresses str →
  (sa_family addr = AF_INET → ∀ s e, s ∈ strtok_all (lit ",") str → parse_address s = Some e → prefix_ok e) →
  ∃ b, auth_check_address addr rp = Ok b ∧
    (b = true ↔ sa_family addr ≠ AF_OTHER ∧
       ∃ s e, s ∈ strtok_all (lit ",") str ∧ parse_address s = Some e ∧
              covers (sa_family addr) (sa_addr addr) e).
Proof.
  intros Hl Hr Hp. destruct (auth_check_address_spec addr rp Hl) as (b & Hb & Hbi).
  1,2: rewrite Hr, get_addresses_reverse; setoid_rewrite elem_of_reverse; setoid_rewrite list_elem_of_omap.
  { intros e (s & _ & He). by eapply parse_address_length. }
  { intros Hf e (s & Hs & He). by eapply Hp. }
  exists b. split; [done|]. rewrite Hbi. unfold whitelisted. rewrite Hr, get_addresses_reverse.
  setoid_rewrite elem_of_reverse. setoid_rewrite list_elem_of_omap. naive_solver.
Qed.

Lemma whitelist_decision_witness :
  let rp := set_rp_auth_addr_list (P:=posix_literal) (path_defaults None)
              (remap_path_get_addresses (P:=posix_literal) (lit "192.168.0.0/16,10.0.0.0/8")) in
  ∃ b, auth_check_address (Sockaddr AF_INET (ip 10 1 2 3)) rp = Ok b.
Proof.
  intros rp.
  destruct (whitelist_decision (H:=posix_literal) (H0:=posix_literal_laws)
    (lit "192.168.0.0/16,10.0.0.0/8") rp (Sockaddr AF_INET (ip 10 1 2 3))) as (b & Hb & _).
  - reflexivity.
  - reflexivity.
  - intros _ s e Hs He _.
    assert (Hc : s ∈ [lit "192.168.0.0/16"; lit "10.0.0.0/8"]) by exact Hs. clear Hs.
    repeat (apply elem_of_cons in Hc as [->|Hc]; [vm_compute in He; injection He as <-; simpl; lia|]).
    by apply elem_of_nil in Hc.
  - exists b. exact Hb.
Defined.

(** ** Basic authentication *)
Lemma base64_encode_head l : l ≠ [] → ∃ c s, base64_encode l = c :: s ∧ isspace c = false.
Proof.
  intros Hl. assert (Hc : ∀ a, isspace (b64char (enc_d0 (u8 a))) = false).
  { intros a. apply negb_true_iff.
    apply (forall_bytes (λ a, negb (isspace (b64char (enc_d0 (u8 a)))))). vm_compute. reflexivity. }
  destruct l as [|a [|b [|c l]]]; [done|..]; eexists _, _; (split; [reflexivity|apply Hc]).
Qed.

Lemma base64_encode_length l :
  Z.of_nat (length (base64_encode l)) = base64_encode_len (Z.of_nat (length l)).
Proof. apply length_base64_encode_groups. Qed.

(** The header of the credentials. *)
Definition basic_header (user pass : bytes) : bytes :=
  lit "Basic " ++ base64_encode (user ++ ":"%char :: pass).

Lemma basic_header_creds user pass :
  let hdr := basic_header user pass in
  cut " "%char hdr = Some (lit "Basic", base64_encode (user ++ ":"%char :: pass)) ∧
  (7 ≤ length hdr)%nat ∧ has_prefix (lit "Basic ") hdr = true ∧
  drop_while isspace (drop 5 hdr) = base64_encode (user ++ ":"%char :: pass) ∧
  base64_encode (user ++ ":"%char :: pass) ≠ [].
Proof.
  intros hdr. destruct (base64_encode_head (user ++ ":"%char :: pass)) as (c & s & He & Hc).
  { by destruct user. }
  unfold hdr, basic_header. rewrite He. split_and!.
  - change (lit "Basic " ++ c :: s) with (lit "Basic" ++ " "%char :: c :: s). apply cut_app. by compute_done.
  - rewrite length_app. simpl. lia.
  - apply has_prefix_app.
  - change (drop 5 (lit "Basic " ++ c :: s)) with (" "%char :: c :: s).
    cbn [drop_while]. rewrite Hc. reflexivity.
  - done.
Qed.

(** C23. Basic authentication accepts the encoded credentials of a user exactly
    when the user is in the path's database and the stored hash accepts the
    password: for any user name without a colon and any password (both
    without NUL) whose encoding fits the 256-byte buffer and which, with the
    colon between them, are at least three characters.  Credentials that do
    not fit are refused without being decoded, shorter ones (user a with an
    empty password) after it. *)
Theorem basic_auth_decision `{Posix} `{Digests} (rp : remap_path) (users : hash bytes) (user pass : bytes) :
  rp_auth_type rp = REMAP_AUTH_BASIC → rp_users rp = Some users →
  ":"%char ∉ user → no_nul user → no_nul pass →
  let fits := bool_decide
    (base64_decode_len (base64_encode_len (Z.of_nat (length user + 1 + length pass))) ≤ 255) in
  auth_check_basic (basic_header user pass) rp =
    if fits then
      if (length user + 1 + length pass <? 3)%nat then Ok (-1) else
      match hash_get users user with
      | None => Ok 0
      | Some crypted => (λ ok : bool, if ok then 1 else 0) <$> crypt_check pass crypted
      end
    else Ok (-1).
Proof.
  intros Ht Hu Hcol Hnu Hnp fits.
  destruct (basic_header_creds user pass) as (Hcut & Hl & Hp & Hd & Hne).
  assert (Hn : no_nul (user ++ ":"%char :: pass)).
  { unfold no_nul in *. rewrite elem_of_app, elem_of_cons. intros [?|[?|?]]; done. }
  assert (Hlen' : length (user ++ ":"%char :: pass) = (length user + 1 + length pass)%nat).
  { rewrite length_app. simpl. lia. }
  unfold auth_check_basic. rewrite Ht, bool_decide_eq_true_2, Hu, Hcut by done. cbn [negb].
  rewrite (proj2 (Nat.ltb_ge _ _)), Hp by done. cbn [negb].
  replace (length (lit "Basic")) with 5%nat by reflexivity. rewrite Hd.
  rewrite (bool_decide_eq_false_2 (_ = [])) by done.
  rewrite base64_encode_length, Hlen'. unfold fits. case_bool_decide as Hbig.
  - by rewrite bool_decide_eq_false_2 by lia.
  - rewrite bool_decide_eq_true_2 by lia. rewrite base64_decode_encode.
    rewrite Hlen'. case_match; [done|]. rewrite c_str_id, cut_app by done.
    unfold auth_check_password. destruct (hash_get users user); [|done]. by destruct (crypt_check _ _).
Qed.

Lemma basic_auth_decision_witness :
  let users := hash_set (hash_new 127 true) (lit "bob") (lit "{PLAIN}hunter2") in
  let rp := set_rp_users (set_rp_auth_type (P:=posix_literal) (path_defaults None) REMAP_AUTH_BASIC) (Some users) in
  auth_check_basic (D:=digests_pad) (basic_header (lit "bob") (lit "hunter2")) rp = Ok 1.
Proof.
  intros users rp.
  rewrite (basic_auth_decision (H:=posix_literal) (H0:=digests_pad)
             rp users (lit "bob") (lit "hunter2")); [reflexivity|reflexivity|reflexivity|..].
  - by compute_done.
  - by compute_done.
  - by compute_done.
Defined.
