(* ===== verification/Config.v ===== *)
(** [tsapi/config.c]: the plugin's configuration, from a file, the service
    account of the pod and the environment.

    The file system and the environment are inputs: the contents of the
    configuration file and of the token file, whether the CA file exists, and
    [getenv].  The result [None] is the NULL (or -1) of an error. *)

From S2P Require Import Prelude CString Hash.

Local Open Scope Z_scope.

(** * Data *)
Record k8s_config := K8sConfig {
  co_server : option bytes;
  co_tls_certfile : option bytes;
  co_tls_keyfile : option bytes;
  co_tls_cafile : option bytes;
  co_tls_verify : bool;
  co_token : option bytes;
  co_tls : bool;
  co_remap : bool;
  co_classes : hashset;
  co_xfp : bool;
  co_configmap_namespace : option bytes;
  co_configmap_name : option bytes;
}.

Definition set_co_server (c : k8s_config) v : k8s_config := K8sConfig v (co_tls_certfile c)
  (co_tls_keyfile c) (co_tls_cafile c) (co_tls_verify c) (co_token c) (co_tls c) (co_remap c)
  (co_classes c) (co_xfp c) (co_configmap_namespace c) (co_configmap_name c).
Definition set_co_tls_certfile (c : k8s_config) v : k8s_config := K8sConfig (co_server c) v
  (co_tls_keyfile c) (co_tls_cafile c) (co_tls_verify c) (co_token c) (co_tls c) (co_remap c)
  (co_classes c) (co_xfp c) (co_configmap_namespace c) (co_configmap_name c).
Definition set_co_tls_keyfile (c : k8s_config) v : k8s_config := K8sConfig (co_server c)
  (co_tls_certfile c) v (co_tls_cafile c) (co_tls_verify c) (co_token c) (co_tls c) (co_remap c)
  (co_classes c) (co_xfp c) (co_configmap_namespace c) (co_configmap_name c).
Definition set_co_tls_cafile (c : k8s_config) v : k8s_config := K8sConfig (co_server c)
  (co_tls_certfile c) (co_tls_keyfile c) v (co_tls_verify c) (co_token c) (co_tls c) (co_remap c)
  (co_classes c) (co_xfp c) (co_configmap_namespace c) (co_configmap_name c).
Definition set_co_tls_verify (c : k8s_config) v : k8s_config := K8sConfig (co_server c)
  (co_tls_certfile c) (co_tls_keyfile c) (co_tls_cafile c) v (co_token c) (co_tls c) (co_remap c)
  (co_classes c) (co_xfp c) (co_configmap_namespace c) (co_configmap_name c).
Definition set_co_token (c : k8s_config) v : k8s_config := K8sConfig (co_server c) (co_tls_certfile
  c) (co_tls_keyfile c) (co_tls_cafile c) (co_tls_verify c) v (co_tls c) (co_remap c) (co_classes c)
  (co_xfp c) (co_configmap_namespace c) (co_configmap_name c).
Definition set_co_tls (c : k8s_config) v : k8s_config := K8sConfig (co_server c) (co_tls_certfile c)
  (co_tls_keyfile c) (co_tls_cafile c) (co_tls_verify c) (co_token c) v (co_remap c) (co_classes c)
  (co_xfp c) (co_configmap_namespace c) (co_configmap_name c).
Definition set_co_remap (c : k8s_config) v : k8s_config := K8sConfig (co_server c) (co_tls_certfile
  c) (co_tls_keyfile c) (co_tls_cafile c) (co_tls_verify c) (co_token c) (co_tls c) v (co_classes c)
  (co_xfp c) (co_configmap_namespace c) (co_configmap_name c).
Definition set_co_classes (c : k8s_config) v : k8s_config := K8sConfig (co_server c)
  (co_tls_certfile c) (co_tls_keyfile c) (co_tls_cafile c) (co_tls_verify c) (co_token c) (co_tls c)
  (co_remap c) v (co_xfp c) (co_configmap_namespace c) (co_configmap_name c).
Definition set_co_xfp (c : k8s_config) v : k8s_config := K8sConfig (co_server c) (co_tls_certfile c)
  (co_tls_keyfile c) (co_tls_cafile c) (co_tls_verify c) (co_token c) (co_tls c) (co_remap c)
  (co_classes c) v (co_configmap_namespace c) (co_configmap_name c).
Definition set_co_configmap_namespace (c : k8s_config) v : k8s_config := K8sConfig (co_server c)
  (co_tls_certfile c) (co_tls_keyfile c) (co_tls_cafile c) (co_tls_verify c) (co_token c) (co_tls c)
  (co_remap c) (co_classes c) (co_xfp c) v (co_configmap_name c).
Definition set_co_configmap_name (c : k8s_config) v : k8s_config := K8sConfig (co_server c)
  (co_tls_certfile c) (co_tls_keyfile c) (co_tls_cafile c) (co_tls_verify c) (co_token c) (co_tls c)
  (co_remap c) (co_classes c) (co_xfp c) (co_configmap_namespace c) v.

(** * Operations *)
Definition class_delims : bytes := [" "; "009"; "013"; "010"]%char.

Definition cfg_set_ingress_classes (cfg : k8s_config) (classes : bytes) : k8s_config :=
  set_co_classes cfg (hashset_of 11 (strtok_all class_delims classes)).

Definition k8s_config_new : k8s_config :=
  cfg_set_ingress_classes
    (K8sConfig None None None None true None true true (hash_new 11 false) true None None)
    (lit "trafficserver").

Definition newline : ascii := "010"%char.
Definition line_ends : bytes := ["013"; "010"]%char.

(** [fgets (line, size, f)]: up to [size - 1] characters, through the first
    newline; [None] at the end of the file. *)
Fixpoint fgets (n : nat) (f : bytes) : bytes * bytes :=
  match n, f with
  | S n, c :: f => if bool_decide (c = newline) then ([c], f)
                   else let '(l, rest) := fgets n f in (c :: l, rest)
  | _, _ => ([], f)
  end.

Fixpoint fgets_all (fuel size : nat) (f : bytes) : list bytes :=
  match fuel, f with
  | S fuel, _ :: _ => let '(l, rest) := fgets (size - 1) f in l :: fgets_all fuel size rest
  | _, _ => []
  end.

(** Remove the line terminators at the end of a line. *)
Definition chomp (l : bytes) : bytes := reverse (drop_while (is_delim line_ends) (reverse l)).

(** "true" or "false", or an error. *)
Definition cfg_bool (value : bytes) : option bool :=
  if streq value (lit "true") then Some true
  else if streq value (lit "false") then Some false
  else None.

Definition cfg_option (cfg : k8s_config) (opt value : bytes) : option k8s_config :=
  if streq opt (lit "server") then Some (set_co_server cfg (Some value))
  else if streq opt (lit "token") then Some (set_co_token cfg (Some value))
  else if streq opt (lit "certfile") then Some (set_co_tls_certfile cfg (Some value))
  else if streq opt (lit "keyfile") then Some (set_co_tls_keyfile cfg (Some value))
  else if streq opt (lit "cafile") then Some (set_co_tls_cafile cfg (Some value))
  else if streq opt (lit "tls") then set_co_tls cfg <$> cfg_bool value
  else if streq opt (lit "tls_verify") then set_co_tls_verify cfg <$> cfg_bool value
  else if streq opt (lit "remap") then set_co_remap cfg <$> cfg_bool value
  else if streq opt (lit "x_forwarded_proto") then set_co_xfp cfg <$> cfg_bool value
  else if streq opt (lit "ingress_classes") then Some (cfg_set_ingress_classes cfg value)
  else if streq opt (lit "configmap")
  then match cut "/"%char value with
       | None => None
       | Some (ns, name) => Some (set_co_configmap_name (set_co_configmap_namespace cfg (Some ns)) (Some name))
       end
  else None.

(** One line: [None] for a syntax error or an unknown option. *)
Definition cfg_line (cfg : k8s_config) (line : bytes) : option k8s_config :=
  let opt := drop_while isspace (chomp (c_str line)) in
  match opt with
  | [] => Some cfg
  | c :: _ =>
      if bool_decide (c = "#"%char) then Some cfg
      else match cut ":"%char opt with
           | None => None
           | Some (opt, value) => cfg_option cfg opt (drop_while isspace value)
           end
  end.

Fixpoint cfg_lines (cfg : k8s_config) (lines : list bytes) : option k8s_config :=
  match lines with
  | [] => Some cfg
  | l :: lines => cfg ← cfg_line cfg l; cfg_lines cfg lines
  end.

(** [None] for the contents is a file that cannot be opened. *)
Definition cfg_load_file (cfg : k8s_config) (contents : option bytes) : option k8s_config :=
  f ← contents; cfg_lines cfg (fgets_all (S (length f)) 1024 f).

Definition SA_CACERT_FILE : bytes := lit "/var/run/secrets/kubernetes.io/serviceaccount/ca.crt".

(** The loop that strips the token line.  [strchr] also finds the NUL, so a
    line of terminators only is read in front of its start. *)
Fixpoint strip_token (fuel : nat) (line : bytes) : cres bytes :=
  match fuel with
  | O => Fault Diverges
  | S fuel =>
      match last line with
      | None => Fault OutOfBounds
      | Some c => if is_delim line_ends c then strip_token fuel (removelast line) else Ok line
      end
  end.

(** What the program sees of its surroundings. *)
Record environment := Environment {
  env_file : option (option bytes);      (* the file named on the command line, and its contents *)
  env_sa_token : option bytes;           (* contents of the token file *)
  env_sa_cacert : bool;                  (* the CA file exists *)
  getenv : bytes → option bytes;
}.

Definition sa_config (cfg : k8s_config) (env : environment) : cres k8s_config :=
  match env_sa_token env with
  | None => Ok cfg
  | Some [] => Ok cfg
  | Some contents =>
      let line := c_str (fgets 2047 contents).1 in
      line ← strip_token (S (length line)) line;
      let cfg := set_co_token cfg (Some line) in
      match getenv env (lit "KUBERNETES_SERVICE_HOST"), getenv env (lit "KUBERNETES_SERVICE_PORT") with
      | Some host, Some port =>
          Ok (set_co_server cfg (Some (take 255 (lit "https://" ++ host ++ lit ":" ++ port))))
      | _, _ => Ok cfg
      end
  end.

(** [if ((s = getenv (...)) != NULL)] for a string and for a boolean. *)
Definition env_string (env : environment) (name : string)
    (set : k8s_config → option bytes → k8s_config) (cfg : k8s_config) : k8s_config :=
  match getenv env (lit name) with Some s => set cfg (Some s) | None => cfg end.
Definition env_bool (env : environment) (name : string)
    (set : k8s_config → bool → k8s_config) (cfg : k8s_config) : option k8s_config :=
  match getenv env (lit name) with Some s => set cfg <$> cfg_bool s | None => Some cfg end.

(** The environment variables, and the checks at the end. *)
Definition env_config (cfg : k8s_config) (env : environment) : option k8s_config :=
  let cfg := if env_sa_cacert env then set_co_tls_cafile cfg (Some SA_CACERT_FILE) else cfg in
  let cfg := env_string env "TS_SERVER" set_co_server cfg in
  let cfg := env_string env "TS_CAFILE" set_co_tls_cafile cfg in
  let cfg := env_string env "TS_CERTFILE" set_co_tls_certfile cfg in
  let cfg := env_string env "TS_KEYFILE" set_co_tls_keyfile cfg in
  let cfg := env_string env "TS_TOKEN" set_co_token cfg in
  cfg ← env_bool env "TS_TLS" set_co_tls cfg;
  cfg ← env_bool env "TS_TLS_VERIFY" set_co_tls_verify cfg;
  cfg ← env_bool env "TS_REMAP" set_co_remap cfg;
  cfg ← (match getenv env (lit "TS_CONFIGMAP") with
         | None => Some cfg
         | Some s =>
             match cut "/"%char s with
             | None => None
             | Some (ns, name) => Some (set_co_configmap_name (set_co_configmap_namespace cfg (Some ns)) (Some name))
             end
         end);
  let cfg := match getenv env (lit "TS_INGRESS_CLASSES") with
             | Some s => cfg_set_ingress_classes cfg s | None => cfg end in
  let cfg := match co_tls_keyfile cfg with Some _ => set_co_token cfg None | None => cfg end in
  if bool_decide (is_Some (co_tls_keyfile cfg) ∧ co_tls_certfile cfg = None) then None
  else if bool_decide (is_Some (co_tls_certfile cfg) ∧ co_tls_keyfile cfg = None) then None
  else if bool_decide (co_server cfg = None) then None
  else Some cfg.

Definition k8s_config_load (env : environment) : cres (option k8s_config) :=
  match (match env_file env with
         | None => Some k8s_config_new
         | Some contents => cfg_load_file k8s_config_new contents
         end) with
  | None => Ok None
  | Some cfg => cfg ← sa_config cfg env; Ok (env_config cfg env)
  end.

(** * Lemmas *)

(** The two halves of the ConfigMap name are set together. *)
Definition paired (cfg : k8s_config) : Prop :=
  is_Some (co_configmap_namespace cfg) ↔ is_Some (co_configmap_name cfg).

Lemma cfg_option_paired cfg opt value cfg' : paired cfg → cfg_option cfg opt value = Some cfg' → paired cfg'.
Proof.
  intros Hp. unfold cfg_option.
  repeat match goal with |- context [if streq opt ?k then _ else _] => destruct (streq opt k) end;
    try (intros; simplify_eq; done); try (destruct (cfg_bool value); intros; simplify_eq/=; done).
  destruct (cut _ value) as [[ns name]|]; intros; simplify_eq. unfold paired; simpl. split; eauto.
Qed.

Lemma cfg_lines_paired cfg lines cfg' : paired cfg → cfg_lines cfg lines = Some cfg' → paired cfg'.
Proof.
  revert cfg; induction lines as [|l lines IH]; intros cfg Hp; simpl; [naive_solver|].
  destruct (cfg_line cfg l) as [cfg1|] eqn:E; [|done]. simpl. apply IH. revert E. unfold cfg_line.
  destruct (drop_while isspace (chomp (c_str l))) as [|c opt]; [naive_solver|].
  case_bool_decide; [naive_solver|]. destruct (cut _ _) as [[]|]; [|done]. by apply cfg_option_paired.
Qed.

Lemma sa_config_paired cfg env cfg' : paired cfg → sa_config cfg env = Ok cfg' → paired cfg'.
Proof.
  intros Hp. unfold sa_config. destruct (env_sa_token env) as [[|c l]|]; [naive_solver| |naive_solver].
  destruct (strip_token _ _); [|done]. cbn [mbind cres_bind].
  destruct (getenv env _); [destruct (getenv env _)|]; intros; simplify_eq; done.
Qed.

(** The token line is stripped without reading outside it when it has a
    character that is not a terminator. *)
Lemma strip_token_ok line :
  Exists (λ c, is_delim line_ends c = false) line → ∃ t, strip_token (S (length line)) line = Ok t.
Proof.
  induction line as [|c line IH] using rev_ind; intros He; [by inversion He|].
  cbn [strip_token]. rewrite last_snoc. destruct (is_delim line_ends c) eqn:Ec; [|by eauto].
  rewrite removelast_last, length_app. replace (length line + length [c])%nat with (S (length line)) by (simpl; lia).
  apply IH. apply Exists_app in He as [?|He]; [done|]. inversion He; subst; [congruence|]. by inversion H0.
Qed.

(** What the environment variables decide, whatever was configured before: all
    those the code reads.  The token is only used without a client key. *)
Record env_decides (env : environment) (cfg : k8s_config) : Prop := {
  ed_server s : getenv env (lit "TS_SERVER") = Some s → co_server cfg = Some s;
  ed_cafile s : getenv env (lit "TS_CAFILE") = Some s → co_tls_cafile cfg = Some s;
  ed_certfile s : getenv env (lit "TS_CERTFILE") = Some s → co_tls_certfile cfg = Some s;
  ed_keyfile s : getenv env (lit "TS_KEYFILE") = Some s → co_tls_keyfile cfg = Some s;
  ed_token s : getenv env (lit "TS_TOKEN") = Some s → co_tls_keyfile cfg = None → co_token cfg = Some s;
  ed_tls s : getenv env (lit "TS_TLS") = Some s → cfg_bool s = Some (co_tls cfg);
  ed_verify s : getenv env (lit "TS_TLS_VERIFY") = Some s → cfg_bool s = Some (co_tls_verify cfg);
  ed_remap s : getenv env (lit "TS_REMAP") = Some s → cfg_bool s = Some (co_remap cfg);
  ed_configmap s : getenv env (lit "TS_CONFIGMAP") = Some s →
    ∃ ns name, cut "/"%char s = Some (ns, name) ∧ co_configmap_namespace cfg = Some ns ∧ co_configmap_name cfg = Some name;
  ed_classes s class : getenv env (lit "TS_INGRESS_CLASSES") = Some s →
    hash_get (co_classes cfg) class = HASH_PRESENT ↔ class ∈ strtok_all class_delims s;
}.

(** A configuration the plugin can start with. *)
Record config_ok (cfg : k8s_config) : Prop := {
  ok_server : is_Some (co_server cfg);
  ok_client_cert : is_Some (co_tls_keyfile cfg) ↔ is_Some (co_tls_certfile cfg);
  ok_one_credential : is_Some (co_tls_keyfile cfg) → co_token cfg = None;
  ok_configmap : paired cfg;
}.

Lemma env_bool_inv env name set cfg cfg' :
  env_bool env name set cfg = Some cfg' →
  (getenv env (lit name) = None ∧ cfg' = cfg) ∨
  ∃ s b, getenv env (lit name) = Some s ∧ cfg_bool s = Some b ∧ cfg' = set cfg b.
Proof.
  unfold env_bool. destruct (getenv env (lit name)) as [s|]; [|naive_solver].
  destruct (cfg_bool s) eqn:E; intros; simplify_eq/=. right; eauto.
Qed.

(** The decisions about files and server, before the switches. *)
Definition paths_decided (env : environment) (cfg : k8s_config) : Prop :=
  (∀ s, getenv env (lit "TS_SERVER") = Some s → co_server cfg = Some s) ∧
  (∀ s, getenv env (lit "TS_CAFILE") = Some s → co_tls_cafile cfg = Some s) ∧
  (∀ s, getenv env (lit "TS_CERTFILE") = Some s → co_tls_certfile cfg = Some s) ∧
  (∀ s, getenv env (lit "TS_KEYFILE") = Some s → co_tls_keyfile cfg = Some s) ∧
  (∀ s, getenv env (lit "TS_TOKEN") = Some s → co_token cfg = Some s).

Lemma env_strings_decided env cfg :
  paths_decided env (env_string env "TS_TOKEN" set_co_token (env_string env "TS_KEYFILE" set_co_tls_keyfile
    (env_string env "TS_CERTFILE" set_co_tls_certfile (env_string env "TS_CAFILE" set_co_tls_cafile
      (env_string env "TS_SERVER" set_co_server cfg))))).
Proof.
  unfold paths_decided, env_string.
  destruct (getenv env (lit "TS_SERVER")), (getenv env (lit "TS_CAFILE")), (getenv env (lit "TS_CERTFILE")),
    (getenv env (lit "TS_KEYFILE")), (getenv env (lit "TS_TOKEN")); split_and!; intros ? [=]; subst; done.
Qed.

Lemma env_strings_paired env cfg name set :
  (∀ c v, paired c → paired (set c v)) → paired cfg → paired (env_string env name set cfg).
Proof. intros Hs Hp. unfold env_string. destruct (getenv env (lit name)); auto. Qed.

(** The checks at the end of [k8s_config_load]. *)
Lemma final_checks env cfg cfg' :
  paired cfg → env_decides env cfg →
  (let cfg := match co_tls_keyfile cfg with Some _ => set_co_token cfg None | None => cfg end in
   if bool_decide (is_Some (co_tls_keyfile cfg) ∧ co_tls_certfile cfg = None) then None
   else if bool_decide (is_Some (co_tls_certfile cfg) ∧ co_tls_keyfile cfg = None) then None
   else if bool_decide (co_server cfg = None) then None
   else Some cfg) = Some cfg' →
  config_ok cfg' ∧ env_decides env cfg'.
Proof.
  intros Hp Hd. cbv zeta. set (c := match co_tls_keyfile cfg with Some _ => _ | None => _ end).
  assert (Hpc : paired c) by (unfold c; by destruct (co_tls_keyfile cfg)).
  assert (Hdc : env_decides env c) by (unfold c; destruct (co_tls_keyfile cfg) eqn:Ek; destruct Hd; constructor; simpl; try done; congruence).
  assert (Htok : is_Some (co_tls_keyfile c) → co_token c = None).
  { unfold c. destruct (co_tls_keyfile cfg) eqn:E; [done|]. rewrite E. by intros []. }
  clearbody c. do 3 (case_bool_decide; [done|]). intros [= <-]. split; [|done].
  destruct (co_tls_keyfile c) eqn:E1, (co_tls_certfile c) eqn:E2, (co_server c) eqn:E3;
    try (exfalso; naive_solver); constructor; rewrite ?E1, ?E2, ?E3 in *; try done; eauto.
  all: split; intros []; done.
Qed.

Lemma env_config_spec cfg env cfg' :
  paired cfg → env_config cfg env = Some cfg' → config_ok cfg' ∧ env_decides env cfg'.
Proof.
  intros Hp H. unfold env_config in H. cbv zeta in H.
  match type of H with mbind ?k (env_bool _ _ _ ?c) = _ =>
    assert (H0 : paths_decided env c) by apply env_strings_decided;
    assert (Hp0 : paired c) by (repeat apply env_strings_paired; try done; by destruct (env_sa_cacert env));
    revert H0 Hp0 H; generalize c as c0; intros c0 H0 Hp0 H
  end.
  destruct (env_bool env "TS_TLS" set_co_tls c0) as [c1|] eqn:E1; [|done]. cbn [mbind option_bind] in H.
  assert (H1 : paths_decided env c1 ∧ paired c1 ∧ ∀ s, getenv env (lit "TS_TLS") = Some s → cfg_bool s = Some (co_tls c1)).
  { apply env_bool_inv in E1 as [[? ->]|(s & b & ? & ? & ->)]; (split; [exact H0|split; [exact Hp0|naive_solver]]). }
  destruct (env_bool env "TS_TLS_VERIFY" set_co_tls_verify c1) as [c2|] eqn:E2; [|done]. cbn [mbind option_bind] in H.
  assert (H2 : (paths_decided env c2 ∧ paired c2 ∧ ∀ s, getenv env (lit "TS_TLS") = Some s → cfg_bool s = Some (co_tls c2)) ∧
    ∀ s, getenv env (lit "TS_TLS_VERIFY") = Some s → cfg_bool s = Some (co_tls_verify c2)).
  { apply env_bool_inv in E2 as [[? ->]|(s & b & ? & ? & ->)]; (split; [exact H1|naive_solver]). }
  destruct (env_bool env "TS_REMAP" set_co_remap c2) as [c3|] eqn:E3; [|done]. cbn [mbind option_bind] in H.
  assert (H3 : ((paths_decided env c3 ∧ paired c3 ∧ ∀ s, getenv env (lit "TS_TLS") = Some s → cfg_bool s = Some (co_tls c3)) ∧
    ∀ s, getenv env (lit "TS_TLS_VERIFY") = Some s → cfg_bool s = Some (co_tls_verify c3)) ∧
    ∀ s, getenv env (lit "TS_REMAP") = Some s → cfg_bool s = Some (co_remap c3)).
  { apply env_bool_inv in E3 as [[? ->]|(s & b & ? & ? & ->)]; (split; [exact H2|naive_solver]). }
  clear H0 H1 H2 E1 E2 E3. destruct H3 as [[((Hs & Hca & Hce & Hk & Htok) & Hp3 & Htls) Hver] Hrem].
  match type of H with mbind ?k ?m = _ => destruct m as [c4|] eqn:E4; [|done] end. cbn [mbind option_bind] in H.
  assert (Hcm : ∀ s, getenv env (lit "TS_CONFIGMAP") = Some s →
    ∃ ns name, cut "/"%char s = Some (ns, name) ∧ co_configmap_namespace c4 = Some ns ∧ co_configmap_name c4 = Some name).
  { intros s Hg. rewrite Hg in E4. destruct (cut _ s) as [[ns name]|]; [|done]. injection E4 as <-. by exists ns, name. }
  assert (H4 : paired c4 ∧ ∃ ns name, c4 = set_co_configmap_name (set_co_configmap_namespace c3 ns) name).
  { destruct (getenv env (lit "TS_CONFIGMAP")) as [s|].
    - destruct (cut _ s) as [[ns name]|]; [|done]. injection E4 as <-. split; [by split|by exists (Some ns), (Some name)].
    - injection E4 as <-. split; [done|]. exists (co_configmap_namespace c3), (co_configmap_name c3). by destruct c3. }
  destruct H4 as [Hpp (cmns & cmname & ->)]. revert H. apply final_checks.
  - by destruct (getenv env (lit "TS_INGRESS_CLASSES")).
  - destruct (getenv env (lit "TS_INGRESS_CLASSES")) as [cl|] eqn:Ecl; constructor; try done; try (intros; by apply Htok).
    + intros s class. rewrite Ecl. intros [= <-]. apply hashset_of_get. lia.
    + intros s class. by rewrite Ecl.
Qed.

(** * Properties *)

(** C40. A configuration that [k8s_config_load] accepts names an API server,
    has a client certificate exactly when it has its key, uses a bearer token
    only without a client key, and names the ConfigMap completely or not at
    all; and every variable the code reads (TS_SERVER, TS_CAFILE, TS_CERTFILE,
    TS_KEYFILE, TS_TOKEN, TS_TLS, TS_TLS_VERIFY, TS_REMAP, TS_CONFIGMAP,
    TS_INGRESS_CLASSES) has, if set, the last word over the file and the
    service account, or the configuration is rejected; only TS_TOKEN is
    dropped when a client key is configured.  docs/config.md also names
    TS_VERIFY_TLS and TS_X_FORWARDED_PROTO, which the code does not read
    ([config_unread_variables]). *)
Theorem config_load_sound (env : environment) (cfg : k8s_config) :
  k8s_config_load env = Ok (Some cfg) → config_ok cfg ∧ env_decides env cfg.
Proof.
  unfold k8s_config_load. intros H.
  match type of H with match ?m with Some _ => _ | None => _ end = _ => destruct m as [c0|] eqn:E0; [|done] end.
  assert (Hp : paired c0).
  { destruct (env_file env) as [contents|]; [|simplify_eq; split; intros []; done].
    unfold cfg_load_file in E0. destruct contents as [f|]; [|done]. revert E0. apply cfg_lines_paired.
    split; intros []; done. }
  destruct (sa_config c0 env) as [c1|] eqn:E1; [|done]. apply (inj Ok) in H. revert H.
  by apply env_config_spec, (sa_config_paired c0 env).
Qed.

(** Two documented variables that change nothing. *)
Example config_unread_variables :
  let env := Environment None None false (λ v,
    if streq v (lit "TS_SERVER") then Some (lit "https://api")
    else if streq v (lit "TS_VERIFY_TLS") || streq v (lit "TS_X_FORWARDED_PROTO") then Some (lit "false") else None) in
  (λ c, match c with Some cfg => Some (co_tls_verify cfg, co_xfp cfg) | None => None end) <$> k8s_config_load env =
  Ok (Some (true, true)).
Proof. vm_compute. reflexivity. Qed.

Definition example_env : environment :=
  Environment (Some (Some (lit "server: https://api" ++ newline :: lit "tls: false" ++ [newline]))) None true
    (λ v, if streq v (lit "TS_TLS") then Some (lit "true") else None).

Lemma config_load_sound_witness :
  match k8s_config_load example_env with
  | Ok (Some cfg) => cfg_bool (lit "true") = Some (co_tls cfg)
  | _ => False
  end.
Proof.
  destruct (k8s_config_load example_env) as [[cfg|]|] eqn:E; [|vm_compute in E; discriminate..].
  destruct (config_load_sound example_env cfg E) as [_ Hd]. apply (ed_tls _ _ Hd). reflexivity.
Defined.
