(* ===== verification/RemapDb.v ===== *)
(** [remap/remap_db.c]: the remap database and the treatment of a request:
    host and path lookup, TLS redirect, authentication, CORS, app-root,
    rewrite, query normalisation, and the cache key. *)

From stdpp Require Import sorting.
From S2P Require Import Prelude CString Hash Base64 Strmatch Env Api Namespace Cluster RemapPath RemapHost Crypt Auth Config.

Local Open Scope Z_scope.

(** * Data *)
Record remap_db `{Posix} `{OpenSSL} := RemapDb {
  rd_config : k8s_config;
  rd_healthcheck : option bytes;
  rd_hosts : hash remap_host;
}.

(** A header field: its values in order ([rh_nvalues] is their number). *)
Record remap_hdrfield := RemapHdrfield { rh_values : list bytes }.

(** The path has no leading slash; [None] is the path of "/".  [None] stands
    for a null pointer. *)
Record remap_request := RemapRequest {
  rr_proto : option bytes;
  rr_method : bytes;
  rr_host : option bytes;
  rr_path : option bytes;
  rr_query : option bytes;
  rr_hdrfields : hash remap_hdrfield;
  rr_addr : sockaddr;
}.

Record remap_result `{Posix} `{OpenSSL} := RemapResult {
  rz_target : option remap_target;
  rz_proto : option bytes;
  rz_urlpath : option bytes;
  rz_query : option bytes;
  rz_headers : hash bytes;
  rz_status : Z;
  rz_status_text : option bytes;
  rz_body : option bytes;
  rz_host : option remap_host;
  rz_path : option remap_path;
}.

Inductive rr_code := RR_OK | RR_SYNTHETIC | RR_ERR_INVALID_HOST | RR_ERR_INVALID_PROTOCOL
  | RR_ERR_NO_HOST | RR_ERR_NO_PATH | RR_ERR_NO_BACKEND | RR_ERR_FORBIDDEN | RR_ERR_UNAUTHORIZED.

#[global] Instance rr_code_eq_dec : EqDecision rr_code.
Proof. solve_decision. Defined.

(** [snprintf (buf, n, ...)] of the text [s]: at most [n - 1] characters. *)
Definition snprintf (n : Z) (s : bytes) : bytes := take (Z.to_nat (n - 1)) s.

Definition zlen (s : bytes) : Z := Z.of_nat (length s).

(** * Operations *)
Section ops.
Context `{P : Posix} `{SSL : OpenSSL} `{D : Digests}.
Implicit Types (db : remap_db) (req : remap_request) (ret : remap_result).

Definition remap_db_new (cfg : k8s_config) : remap_db :=
  RemapDb _ _ cfg None (hash_new 4093 true).

Definition remap_db_get_host db (hostname : bytes) : option remap_host :=
  hash_get (rd_hosts db) hostname.

Definition remap_db_get_or_create_host db (hostname : bytes) : remap_db * remap_host :=
  match remap_db_get_host db hostname with
  | Some rh => (db, rh)
  | None => (RemapDb _ _ (rd_config db) (rd_healthcheck db)
               (hash_set (rd_hosts db) hostname remap_host_new), remap_host_new)
  end.

(** Assignments to the result. *)
Definition set_rz_target ret v : remap_result :=
  RemapResult _ _ v (rz_proto ret) (rz_urlpath ret) (rz_query ret) (rz_headers ret) (rz_status ret)
    (rz_status_text ret) (rz_body ret) (rz_host ret) (rz_path ret).
Definition set_rz_proto ret v : remap_result :=
  RemapResult _ _ (rz_target ret) v (rz_urlpath ret) (rz_query ret) (rz_headers ret) (rz_status ret)
    (rz_status_text ret) (rz_body ret) (rz_host ret) (rz_path ret).
Definition set_rz_urlpath ret v : remap_result :=
  RemapResult _ _ (rz_target ret) (rz_proto ret) v (rz_query ret) (rz_headers ret) (rz_status ret)
    (rz_status_text ret) (rz_body ret) (rz_host ret) (rz_path ret).
Definition set_rz_query ret v : remap_result :=
  RemapResult _ _ (rz_target ret) (rz_proto ret) (rz_urlpath ret) v (rz_headers ret) (rz_status ret)
    (rz_status_text ret) (rz_body ret) (rz_host ret) (rz_path ret).
Definition set_rz_headers ret v : remap_result :=
  RemapResult _ _ (rz_target ret) (rz_proto ret) (rz_urlpath ret) (rz_query ret) v (rz_status ret)
    (rz_status_text ret) (rz_body ret) (rz_host ret) (rz_path ret).
Definition set_rz_response ret (st : Z) (text : bytes) (body : option bytes) : remap_result :=
  RemapResult _ _ (rz_target ret) (rz_proto ret) (rz_urlpath ret) (rz_query ret) (rz_headers ret) st
    (Some text) body (rz_host ret) (rz_path ret).
Definition set_rz_host ret v : remap_result :=
  RemapResult _ _ (rz_target ret) (rz_proto ret) (rz_urlpath ret) (rz_query ret) (rz_headers ret) (rz_status ret)
    (rz_status_text ret) (rz_body ret) v (rz_path ret).
Definition set_rz_path ret v : remap_result :=
  RemapResult _ _ (rz_target ret) (rz_proto ret) (rz_urlpath ret) (rz_query ret) (rz_headers ret) (rz_status ret)
    (rz_status_text ret) (rz_body ret) (rz_host ret) v.

Definition add_header ret (name : string) (value : bytes) : remap_result :=
  set_rz_headers ret (hash_set (rz_headers ret) (lit name) value).

Definition result_zero : remap_result :=
  RemapResult _ _ None None None None (hash_new 127 true) 0 None None None None.

Definition moved_body : bytes := lit "This document has moved." ++ ["010"%char].

Definition rr_check_proto req ret : cres (rr_code * remap_result) :=
  rp ← deref (rz_path ret);
  proto ← deref (rr_proto req);
  if streq proto (lit "http") || streq proto (lit "https")
  then Ok (RR_OK, set_rz_proto ret (Some (if rp_secure_backends rp then lit "https" else lit "http")))
  else if streq proto (lit "ws") || streq proto (lit "wss")
  then Ok (RR_OK, set_rz_proto ret (Some (if rp_secure_backends rp then lit "wss" else lit "ws")))
  else Ok (RR_ERR_INVALID_PROTOCOL, ret).

Definition rr_check_app_root req ret : cres (rr_code * remap_result) :=
  rp ← deref (rz_path ret);
  match rp_app_root rp, rr_path req with
  | None, _ => Ok (RR_OK, ret)
  | _, Some _ => Ok (RR_OK, ret)
  | Some root, None =>
      Ok (RR_SYNTHETIC, set_rz_response (add_header ret "Location" root) 301 (lit "Moved") (Some moved_body))
  end.

Definition opt_len (s : option bytes) : Z := match s with Some s => zlen s | None => 0 end.

Definition rr_check_tls req ret : cres (rr_code * remap_result) :=
  proto ← deref (rr_proto req);
  if streq proto (lit "https") || streq proto (lit "wss") then Ok (RR_OK, ret) else
  rp ← deref (rz_path ret);
  if rp_no_ssl_redirect rp then Ok (RR_OK, ret) else
  rh ← deref (rz_host ret);
  if bool_decide (rh_ctx rh = None) && negb (rp_force_ssl_redirect rp) then Ok (RR_OK, ret) else
  let newp := if streq proto (lit "ws") then lit "wss" else lit "https" in
  host ← deref (rr_host req);
  let blen := zlen newp + 3 + zlen host + 1 + 1 in
  let blen := match rr_path req with Some p => blen + zlen p | None => blen end in
  let blen := match rr_query req with Some q => blen + (zlen q + 1) | None => blen end in
  let hdr := snprintf blen (newp ++ lit "://" ++ host ++ lit "/" ++ default [] (rr_path req) ++
                            match rr_query req with Some q => lit "?" ++ q | None => [] end) in
  Ok (RR_SYNTHETIC, set_rz_response (add_header ret "Location" hdr) 301 (lit "Moved") (Some moved_body)).

(** The headers of a preflight response. *)
Definition preflight_headers (rp : remap_path) ret : remap_result :=
  let ret := match rp_cors_methods rp with
             | Some m => add_header ret "Access-Control-Allow-Methods" m | None => ret end in
  let ret := match rp_cors_headers rp with
             | Some h => add_header ret "Access-Control-Allow-Headers" h | None => ret end in
  let ret := if rp_cors_max_age rp =? 0 then ret
             else add_header ret "Access-Control-Max-Age" (snprintf 32 (fmt_d (rp_cors_max_age rp))) in
  if rp_cors_creds rp then add_header ret "Access-Control-Allow-Credentials" (lit "true") else ret.

Definition rr_check_cors req ret : cres (rr_code * remap_result) :=
  rp ← deref (rz_path ret);
  if negb (rp_enable_cors rp) then Ok (RR_OK, ret) else
  match hash_get (rr_hdrfields req) (lit "origin") with
  | Some (RemapHdrfield [origin]) =>
      let preflight ret :=
        if negb (streq (rr_method req) (lit "OPTIONS")) then Ok (RR_OK, ret)
        else Ok (RR_SYNTHETIC, set_rz_response (preflight_headers rp ret) 204 (lit "No content") (rz_body ret)) in
      if bool_decide (hash_get (rp_cors_origins rp) (lit "*") = HASH_PRESENT)
      then preflight (add_header ret "Access-Control-Allow-Origin" (lit "*"))
      else if bool_decide (hash_get (rp_cors_origins rp) origin = HASH_PRESENT)
      then preflight (add_header (add_header ret "Access-Control-Allow-Origin" origin) "Vary" (lit "Origin"))
      else Ok (RR_OK, ret)
  | _ => Ok (RR_OK, ret)
  end.

(** The double quote, for the realm. *)
Definition dquote : ascii := "034"%char.

Definition set_wwwauth_header ret : cres remap_result :=
  rp ← deref (rz_path ret);
  realm ← deref (rp_auth_realm rp);
  let len := 15 + zlen realm in
  Ok (add_header ret "WWW-Authenticate" (snprintf len (lit "Basic realm=" ++ [dquote] ++ realm ++ [dquote]))).

(** [rr_auth && auth_check_basic (rr_auth, rz_path) == 1] *)
Definition basic_ok (rr_auth : option bytes) (rp : remap_path) : cres bool :=
  match rr_auth with
  | None => Ok false
  | Some hdr => n ← auth_check_basic hdr rp; Ok (n =? 1)
  end.

Definition unauthorized ret : cres (rr_code * remap_result) :=
  ret ← set_wwwauth_header ret; Ok (RR_ERR_UNAUTHORIZED, ret).

Definition rr_check_auth req ret : cres (rr_code * remap_result) :=
  rp ← deref (rz_path ret);
  let none := bool_decide (rp_auth_type rp = REMAP_AUTH_NONE) in
  let no_list := bool_decide (rp_auth_addr_list rp = []) in
  if none && no_list then Ok (RR_OK, ret)
  else if none then
    ok ← auth_check_address (rr_addr req) rp;
    Ok (if (ok : bool) then (RR_OK, ret) else (RR_ERR_FORBIDDEN, ret))
  else
    let rr_auth := match hash_get (rr_hdrfields req) (lit "authorization") with
                   | Some (RemapHdrfield [v]) => Some v
                   | _ => None
                   end in
    if no_list then
      ok ← basic_ok rr_auth rp;
      if (ok : bool) then Ok (RR_OK, ret) else unauthorized ret
    else
      match rp_auth_satisfy rp with
      | REMAP_SATISFY_ANY =>
          ip_ok ← auth_check_address (rr_addr req) rp;
          if (ip_ok : bool) then Ok (RR_OK, ret) else
          ok ← basic_ok rr_auth rp;
          if (ok : bool) then Ok (RR_OK, ret) else unauthorized ret
      | REMAP_SATISFY_ALL =>
          ip_ok ← auth_check_address (rr_addr req) rp;
          if negb (ip_ok : bool) then Ok (RR_ERR_FORBIDDEN, ret) else
          ok ← basic_ok rr_auth rp;
          if (ok : bool) then Ok (RR_OK, ret) else unauthorized ret
      end.

(** ** The query string *)

(** [hash_foreach (patterns, &p, ...) if (strmatch (param, pend, p, p + plen))] *)
Fixpoint any_match (param : bytes) (se : nat) (pats : list bytes) : cres bool :=
  match pats with
  | [] => Ok false
  | p :: pats => b ← strmatch param se p; if (b : bool) then Ok true else any_match param se pats
  end.

Definition pattern_list (h : hashset) : list bytes := (λ b, take (hb_keylen b) (hb_key b)) <$> hash_foreach h.

Definition keep_parameter (path : remap_path) (param : bytes) : cres bool :=
  let pend := match cut "="%char param with Some (name, _) => length name | None => length param end in
  ignored ← (match rp_ignore_params path with
             | Some h => any_match param pend (pattern_list h)
             | None => Ok false
             end);
  if (ignored : bool) then Ok false
  else match rp_whitelist_params path with
       | Some h => any_match param pend (pattern_list h)
       | None => Ok true
       end.

(** The parameters kept, in order. *)
Fixpoint keep_all (path : remap_path) (params : list bytes) : cres (list bytes) :=
  match params with
  | [] => Ok []
  | p :: params =>
      b ← keep_parameter path p;
      l ← keep_all path params;
      Ok (if (b : bool) then p :: l else l)
  end.

(** [strcat (ret, p); strcat (ret, "&")] for every parameter. *)
Definition amp : ascii := "&"%char.
Definition join_amp (params : list bytes) : bytes := mjoin ((λ p, p ++ [amp]) <$> params).

Definition make_query req ret : cres remap_result :=
  q ← deref (rr_query req);
  rp ← deref (rz_path ret);
  params ← keep_all rp (strtok_all [amp] q);
  let len := foldl (λ n p, n + (zlen p + 1)) 0 params in
  if len =? 0 then Ok ret
  else Ok (set_rz_query ret (Some (take (Z.to_nat (len - 1)) (join_amp (qsort_str params))))).

(** ** The request *)
Definition rewrite_path (rp : remap_path) req (pfxsz : nat) : cres (option bytes) :=
  match rp_rewrite_target rp with
  | Some target =>
      match rr_path req with
      | Some path =>
          if (length path <? pfxsz)%nat then Fault OutOfBounds else
          let blen := zlen path - Z.of_nat pfxsz + zlen target + 1 in
          Ok (Some (snprintf blen (target ++ drop pfxsz path)))
      | None => Ok (Some target)
      end
  | None => Ok (rr_path req)
  end.

(** [rd_healthcheck + 1] is past the end of an empty string. *)
Definition is_healthcheck db req : cres bool :=
  match rr_path req, rd_healthcheck db with
  | Some path, Some (_ :: hc) => Ok (streq path hc)
  | Some _, Some [] => Fault OutOfBounds
  | _, _ => Ok false
  end.

(** Run the next check only when this one returned [RR_OK]. *)
Definition and_then (m : cres (rr_code * remap_result))
    (k : remap_result → cres (rr_code * remap_result)) : cres (rr_code * remap_result) :=
  '(r, ret) ← m; if bool_decide (r = RR_OK) then k ret else Ok (r, ret).

(** [rand] is the value the random choice of the backend uses. *)
Definition remap_run db req (rand : Z) : cres (rr_code * remap_result) :=
  let ret := result_zero in
  hc ← is_healthcheck db req;
  if (hc : bool) then Ok (RR_SYNTHETIC, set_rz_response ret 200 (lit "OK") None) else
  match rr_host req with
  | None | Some [] => Ok (RR_ERR_INVALID_HOST, ret)
  | Some host =>
      match remap_db_get_host db host with
      | None => Ok (RR_ERR_NO_HOST, ret)
      | Some rh =>
          let ret := set_rz_host ret (Some rh) in
          '(rp, pfxsz) ← remap_host_find_path rh (rr_path req);
          let ret := set_rz_path ret (Some rp) in
          and_then (rr_check_tls req ret) (λ ret,
          and_then (rr_check_auth req ret) (λ ret,
          and_then (rr_check_cors req ret) (λ ret,
          and_then (rr_check_app_root req ret) (λ ret,
            urlpath ← rewrite_path rp req pfxsz;
            let ret := set_rz_urlpath ret urlpath in
            ret ← (match rr_query req with Some _ => make_query req ret | None => Ok ret end);
            and_then (rr_check_proto req ret) (λ ret,
              if bool_decide (rp_addrs rp = []) then Ok (RR_ERR_NO_BACKEND, ret)
              else t ← remap_path_pick_target rp rand; Ok (RR_OK, set_rz_target ret (Some t)))))))
      end
  end.

(** ** The cache key *)
Definition key_buffer (proto host : bytes) (path query : option bytes) : bytes :=
  let protolen := wrapu 8 (zlen proto) in
  let hostlen := wrapu 8 (zlen host) in
  let pathlen := match path with Some p => wrapu 16 (zlen p) | None => 0 end in
  let querylen := match query with Some q => wrapu 16 (zlen q) | None => 0 end in
  [of_u8 protolen] ++ take (Z.to_nat protolen) proto ++
  [of_u8 hostlen] ++ take (Z.to_nat hostlen) host ++
  [of_u8 (Z.land pathlen 0xFF); of_u8 (Z.land (Z.shiftr pathlen 8) 0xFF)] ++
  take (Z.to_nat pathlen) (default [] path) ++
  [of_u8 (Z.land querylen 0xFF); of_u8 (Z.land (Z.shiftr querylen 8) 0xFF)] ++
  take (Z.to_nat querylen) (default [] query).

Definition remap_make_cache_key req ret : cres bytes :=
  proto ← deref (rr_proto req);
  host ← deref (rr_host req);
  Ok ("/"%char :: base64_encode (key_buffer proto host (rr_path req) (rz_query ret))).
End ops.

(** * Lemmas *)
Lemma snprintf_exact n s : zlen s < n → snprintf n s = s.
Proof. unfold zlen, snprintf. intros. apply take_ge. lia. Qed.

Lemma zlen_app a b : zlen (a ++ b) = zlen a + zlen b.
Proof. unfold zlen. rewrite length_app. lia. Qed.
Lemma zlen_nonneg a : 0 ≤ zlen a.
Proof. unfold zlen. lia. Qed.

Section lemmas.
Context `{P : Posix} `{SSL : OpenSSL} `{D : Digests}.
Implicit Types (db : remap_db) (req : remap_request) (ret : remap_result).

(** ** TLS *)

(** A request is redirected when it is not encrypted and the path, or the
    presence of a certificate, asks for it. *)
Definition secure_proto (proto : bytes) : bool := streq proto (lit "https") || streq proto (lit "wss").
Definition must_redirect (proto : bytes) (rh : remap_host) (rp : remap_path) : bool :=
  negb (secure_proto proto) && negb (rp_no_ssl_redirect rp) &&
  (negb (bool_decide (rh_ctx rh = None)) || rp_force_ssl_redirect rp).

(** The URL of the request under the encrypted protocol. *)
Definition secure_url (proto : bytes) req (host : bytes) : bytes :=
  (if streq proto (lit "ws") then lit "wss" else lit "https") ++ lit "://" ++ host ++ lit "/" ++
  default [] (rr_path req) ++ match rr_query req with Some q => lit "?" ++ q | None => [] end.

Lemma rr_check_tls_spec req ret rh rp proto host :
  rr_proto req = Some proto → rz_host ret = Some rh → rz_path ret = Some rp → rr_host req = Some host →
  rr_check_tls req ret =
    Ok (if must_redirect proto rh rp
        then (RR_SYNTHETIC, set_rz_response (add_header ret "Location" (secure_url proto req host)) 301
                              (lit "Moved") (Some moved_body))
        else (RR_OK, ret)).
Proof.
  intros Hpr Hh Hp Hho. unfold rr_check_tls, must_redirect, secure_proto. rewrite Hpr, Hh, Hp, Hho. cbn [deref mbind cres_bind].
  destruct (streq proto (lit "https") || streq proto (lit "wss")); [done|].
  destruct (rp_no_ssl_redirect rp); [done|]. cbn [negb andb].
  replace (bool_decide (rh_ctx rh = None) && negb (rp_force_ssl_redirect rp))
    with (negb (negb (bool_decide (rh_ctx rh = None)) || rp_force_ssl_redirect rp))
    by (by rewrite negb_orb, negb_involutive).
  destruct (negb (bool_decide (rh_ctx rh = None)) || rp_force_ssl_redirect rp); [|done]. cbn [negb].
  do 2 f_equal. rewrite snprintf_exact; [done|]. unfold opt_len.
  pose proof (zlen_nonneg (default [] (rr_path req))).
  destruct (rr_path req), (rr_query req), (streq proto (lit "ws"));
    cbn [default from_option id]; rewrite !zlen_app; unfold zlen; simpl; lia.
Qed.

(** ** Authentication *)

(** Who may use a path, from the results of the two checks. *)
Definition access_granted (rp : remap_path) (ip_ok pw_ok : bool) : bool :=
  match rp_auth_type rp, rp_auth_addr_list rp with
  | REMAP_AUTH_NONE, [] => true
  | REMAP_AUTH_NONE, _ => ip_ok
  | _, [] => pw_ok
  | _, _ => match rp_auth_satisfy rp with
            | REMAP_SATISFY_ANY => ip_ok || pw_ok
            | REMAP_SATISFY_ALL => ip_ok && pw_ok
            end
  end.

Definition authorization req : option bytes :=
  match hash_get (rr_hdrfields req) (lit "authorization") with
  | Some (RemapHdrfield [v]) => Some v
  | _ => None
  end.

Definition realm_header (realm : bytes) : bytes := lit "Basic realm=" ++ [dquote] ++ realm ++ [dquote].

(** The code of a refusal: the address is refused with 403, the password is
    asked for with 401. *)
Definition refusal (rp : remap_path) (ip_ok : bool) : rr_code :=
  match rp_auth_type rp, rp_auth_addr_list rp, rp_auth_satisfy rp with
  | REMAP_AUTH_NONE, _, _ => RR_ERR_FORBIDDEN
  | _, [], _ => RR_ERR_UNAUTHORIZED
  | _, _, REMAP_SATISFY_ANY => RR_ERR_UNAUTHORIZED
  | _, _, REMAP_SATISFY_ALL => if ip_ok then RR_ERR_UNAUTHORIZED else RR_ERR_FORBIDDEN
  end.

(** The refusal: a request for a password needs the realm of the path, which is
    not tested for. *)
Definition refuse rp ret (ip_ok : bool) : cres (rr_code * remap_result) :=
  match refusal rp ip_ok with
  | RR_ERR_UNAUTHORIZED =>
      match rp_auth_realm rp with
      | Some realm => Ok (RR_ERR_UNAUTHORIZED, add_header ret "WWW-Authenticate" (realm_header realm))
      | None => Fault NullDeref
      end
  | code => Ok (code, ret)
  end.

Lemma unauthorized_realm ret rp :
  rz_path ret = Some rp →
  unauthorized ret =
    match rp_auth_realm rp with
    | Some realm => Ok (RR_ERR_UNAUTHORIZED, add_header ret "WWW-Authenticate" (realm_header realm))
    | None => Fault NullDeref
    end.
Proof.
  intros Hp. unfold unauthorized, set_wwwauth_header. rewrite Hp. cbn [deref mbind cres_bind].
  destruct (rp_auth_realm rp) as [realm|]; [|done]. cbn [deref mbind cres_bind]. do 3 f_equal. rewrite snprintf_exact; [done|].
  rewrite !zlen_app. unfold zlen. simpl. lia.
Qed.

Lemma rr_check_auth_spec req ret rp ip_ok pw_ok :
  rz_path ret = Some rp →
  auth_check_address (rr_addr req) rp = Ok ip_ok → basic_ok (authorization req) rp = Ok pw_ok →
  rr_check_auth req ret = if access_granted rp ip_ok pw_ok then Ok (RR_OK, ret) else refuse rp ret ip_ok.
Proof.
  intros Hp Hip Hpw. unfold rr_check_auth. rewrite Hp. cbn [deref mbind cres_bind].
  fold (authorization req). unfold access_granted, refuse, refusal.
  assert (Hu := unauthorized_realm ret rp Hp).
  destruct (rp_auth_type rp) eqn:Et, (rp_auth_addr_list rp) eqn:El, (rp_auth_satisfy rp) eqn:Es;
    rewrite ?(bool_decide_eq_true_2 (REMAP_AUTH_NONE = _)), ?(bool_decide_eq_true_2 ([] = [])),
      ?(bool_decide_eq_false_2 (_ = REMAP_AUTH_NONE)), ?(bool_decide_eq_false_2 (_ :: _ = [])) by done;
    cbn [andb]; rewrite ?Hip, ?Hpw; cbn [mbind cres_bind]; try done;
    destruct ip_ok, pw_ok; cbn [andb orb negb]; rewrite ?Hip, ?Hpw; cbn [mbind cres_bind]; rewrite ?Hu; done.
Qed.

Lemma refuse_ok rp ret ip_ok :
  (rp_auth_type rp ≠ REMAP_AUTH_NONE → is_Some (rp_auth_realm rp)) →
  ∃ c ret', refuse rp ret ip_ok = Ok (c, ret') ∧ c ≠ RR_OK.
Proof.
  intros Hr. assert (Hne : refusal rp ip_ok ≠ RR_OK) by (unfold refusal; by repeat case_match).
  unfold refuse. destruct (refusal rp ip_ok) eqn:Ec; try done; try (eexists _, _; by split).
  destruct Hr as [realm ->]; [|by eauto]. intros Ht. unfold refusal in Ec. by rewrite Ht in Ec.
Qed.

(** ** What each check leaves when it lets the request through *)

(** The checks the path asks for, as run on this request. *)
Definition authorised req (rp : remap_path) : Prop :=
  let ip := auth_check_address (rr_addr req) rp = Ok true in
  let pw := basic_ok (authorization req) rp = Ok true in
  match rp_auth_type rp, rp_auth_addr_list rp with
  | REMAP_AUTH_NONE, [] => True
  | REMAP_AUTH_NONE, _ => ip
  | _, [] => pw
  | _, _ => match rp_auth_satisfy rp with
            | REMAP_SATISFY_ANY => ip ∨ pw
            | REMAP_SATISFY_ALL => ip ∧ pw
            end
  end.

Lemma unauthorized_code ret ret' c : unauthorized ret = Ok (c, ret') → c ≠ RR_OK.
Proof. unfold unauthorized. destruct (set_wwwauth_header ret); simpl; naive_solver. Qed.

Lemma rr_check_auth_pass req ret rp ret' :
  rz_path ret = Some rp → rr_check_auth req ret = Ok (RR_OK, ret') → ret' = ret ∧ authorised req rp.
Proof.
  intros Hp. unfold rr_check_auth. rewrite Hp. cbn [deref mbind cres_bind].
  fold (authorization req). unfold authorised.
  destruct (rp_auth_type rp) eqn:Et, (rp_auth_addr_list rp) eqn:El, (rp_auth_satisfy rp) eqn:Es;
    rewrite ?(bool_decide_eq_true_2 (REMAP_AUTH_NONE = _)), ?(bool_decide_eq_true_2 ([] = [])),
      ?(bool_decide_eq_false_2 (_ = REMAP_AUTH_NONE)), ?(bool_decide_eq_false_2 (_ :: _ = [])) by done;
    cbn [andb];
    repeat match goal with
    | |- context [auth_check_address ?a ?b] => destruct (auth_check_address a b) as [[]|]; cbn [mbind cres_bind negb]
    | |- context [basic_ok ?a ?b] => destruct (basic_ok a b) as [[]|]; cbn [mbind cres_bind]
    end; try naive_solver;
    (intros Hu; by apply unauthorized_code in Hu).
Qed.

Lemma headers_id ret : ∃ h, ret = set_rz_headers ret h.
Proof. exists (rz_headers ret). by destruct ret. Qed.

Lemma rr_check_cors_headers req ret c ret' :
  rr_check_cors req ret = Ok (c, ret') → c = RR_OK → ∃ h, ret' = set_rz_headers ret h.
Proof.
  unfold rr_check_cors. destruct (rz_path ret) as [rp|]; [|done]. cbn [deref mbind cres_bind].
  assert (Hsame : ∀ c0, Ok (c0, ret) = Ok (c, ret') → c = RR_OK → ∃ h, ret' = set_rz_headers ret h).
  { intros c0 Heq _. apply (inj Ok), pair_eq in Heq as [_ <-]. apply headers_id. }
  destruct (rp_enable_cors rp); cbn [negb]; [|apply Hsame].
  destruct (hash_get (rr_hdrfields req) (lit "origin")) as [[[|origin [|]]]|]; try apply Hsame.
  assert (Hadd : ∀ r, (∃ h, r = set_rz_headers ret h) →
    (if negb (streq (rr_method req) (lit "OPTIONS")) then Ok (RR_OK, r)
     else Ok (RR_SYNTHETIC, set_rz_response (preflight_headers rp r) 204 (lit "No content") (rz_body r))) = Ok (c, ret') →
    c = RR_OK → ∃ h, ret' = set_rz_headers ret h).
  { intros r Hr. destruct (negb _); intros Heq Hc; apply (inj Ok), pair_eq in Heq as [<- <-]; [done|discriminate Hc]. }
  case_bool_decide; [apply Hadd; by eexists|]. case_bool_decide; [apply Hadd; by eexists|apply Hsame].
Qed.

Lemma rr_check_app_root_pass req ret rp ret' :
  rz_path ret = Some rp → rr_check_app_root req ret = Ok (RR_OK, ret') →
  ret' = ret ∧ (rp_app_root rp = None ∨ is_Some (rr_path req)).
Proof.
  intros Hp. unfold rr_check_app_root. rewrite Hp. cbn [deref mbind cres_bind].
  destruct (rp_app_root rp), (rr_path req); naive_solver.
Qed.

(** The protocol to the backend. *)
Definition backend_proto (proto : bytes) (secure : bool) : option bytes :=
  if streq proto (lit "http") || streq proto (lit "https")
  then Some (if secure then lit "https" else lit "http")
  else if streq proto (lit "ws") || streq proto (lit "wss")
  then Some (if secure then lit "wss" else lit "ws")
  else None.

Lemma rr_check_proto_spec req ret rp proto :
  rz_path ret = Some rp → rr_proto req = Some proto →
  rr_check_proto req ret =
    Ok (match backend_proto proto (rp_secure_backends rp) with
        | Some p => (RR_OK, set_rz_proto ret (Some p))
        | None => (RR_ERR_INVALID_PROTOCOL, ret)
        end).
Proof.
  intros Hp Hpr. unfold rr_check_proto, backend_proto. rewrite Hp, Hpr. cbn [deref mbind cres_bind].
  by repeat case_match.
Qed.

Lemma make_query_only req ret ret' : make_query req ret = Ok ret' → ∃ q, ret' = set_rz_query ret q.
Proof.
  unfold make_query. destruct (rr_query req); [|done]. cbn [deref mbind cres_bind].
  destruct (rz_path ret) eqn:E; [|done]. cbn [deref mbind cres_bind].
  destruct (keep_all _ _); [|done]. cbn [mbind cres_bind].
  destruct (_ =? 0); intros; simplify_eq; [exists (rz_query ret'); by destruct ret'|by eexists].
Qed.

Lemma and_then_ok m k ret :
  and_then m k = Ok (RR_OK, ret) → ∃ ret', m = Ok (RR_OK, ret') ∧ k ret' = Ok (RR_OK, ret).
Proof.
  unfold and_then. destruct m as [[c ret']|]; [|done]. cbn [mbind cres_bind].
  case_bool_decide; [subst; eauto|]. intros; simplify_eq.
Qed.

(** The path sent to the backend. *)
Definition forwarded_path (rp : remap_path) req (n : nat) : option bytes :=
  match rp_rewrite_target rp, rr_path req with
  | Some target, Some path => Some (target ++ drop n path)
  | Some target, None => Some target
  | None, path => path
  end.

Lemma rewrite_path_spec rp req n :
  (n ≤ length (default [] (rr_path req)))%nat → rewrite_path rp req n = Ok (forwarded_path rp req n).
Proof.
  intros Hn. unfold rewrite_path, forwarded_path. destruct (rp_rewrite_target rp) as [t|]; [|done].
  destruct (rr_path req) as [path|]; [|done]. simpl in Hn.
  rewrite (proj2 (Nat.ltb_ge _ _)) by done. do 2 f_equal. apply snprintf_exact.
  rewrite zlen_app. unfold zlen. rewrite length_drop. lia.
Qed.

Lemma rewrite_path_Ok rp req n u : rewrite_path rp req n = Ok u → u = forwarded_path rp req n.
Proof.
  destruct (decide (n ≤ length (default [] (rr_path req)))%nat) as [Hn|Hn].
  - rewrite rewrite_path_spec by done. naive_solver.
  - unfold rewrite_path, forwarded_path. destruct (rp_rewrite_target rp), (rr_path req); simpl in *; try naive_solver.
    by rewrite (proj2 (Nat.ltb_lt _ _)) by lia.
Qed.

(** What a successful run has established. *)
Lemma remap_run_ok db req (rand : Z) ret :
  remap_run db req rand = Ok (RR_OK, ret) →
  ∃ host rh rp n t proto,
    rr_proto req = Some proto ∧ rr_host req = Some host ∧ host ≠ [] ∧ remap_db_get_host db host = Some rh ∧
    remap_host_find_path rh (rr_path req) = Ok (rp, n) ∧ rz_path ret = Some rp ∧ rz_host ret = Some rh ∧
    must_redirect proto rh rp = false ∧ authorised req rp ∧
    (rp_app_root rp = None ∨ is_Some (rr_path req)) ∧
    rz_target ret = Some t ∧ t ∈ rp_addrs rp ∧
    rz_proto ret = backend_proto proto (rp_secure_backends rp) ∧
    rz_urlpath ret = forwarded_path rp req n.
Proof.
  unfold remap_run. destruct (is_healthcheck db req) as [[]|]; cbn [mbind cres_bind]; [done| |done].
  destruct (rr_host req) as [[|c host]|] eqn:Eh; [done| |done].
  destruct (remap_db_get_host db (c :: host)) as [rh|] eqn:Eg; [|done].
  destruct (remap_host_find_path rh (rr_path req)) as [[rp n]|] eqn:Ef; [|done]. cbn [mbind cres_bind].
  set (ret0 := set_rz_path (set_rz_host result_zero (Some rh)) (Some rp)).
  intros H. apply and_then_ok in H as (ret1 & Htls & H).
  destruct (rr_proto req) as [proto|] eqn:Epr; [|unfold rr_check_tls in Htls; by rewrite Epr in Htls].
  rewrite (rr_check_tls_spec req ret0 rh rp proto (c :: host)) in Htls by done.
  destruct (must_redirect proto rh rp) eqn:Er; [done|]. apply (inj Ok) in Htls. injection Htls as <-.
  apply and_then_ok in H as (ret2 & Hauth & H).
  apply (rr_check_auth_pass _ _ rp) in Hauth as [-> Hauth]; [|done].
  apply and_then_ok in H as (ret3 & Hcors & H).
  apply rr_check_cors_headers in Hcors as [h ->]; [|done].
  apply and_then_ok in H as (ret4 & Happ & H).
  apply (rr_check_app_root_pass _ _ rp) in Happ as [-> Happ]; [|done].
  destruct (rewrite_path rp req n) as [u|] eqn:Eu; [|done]. cbn [mbind cres_bind] in H.
  apply rewrite_path_Ok in Eu. subst u.
  match type of H with mbind _ ?m = _ => destruct m as [ret5|] eqn:Eq; [|done] end. cbn [mbind cres_bind] in H.
  assert (Hq : ∃ q, ret5 = set_rz_query (set_rz_urlpath (set_rz_headers ret0 h) (forwarded_path rp req n)) q).
  { destruct (rr_query req); [by apply make_query_only in Eq|].
    simplify_eq. exists None. done. }
  destruct Hq as [q ->]. apply and_then_ok in H as (ret6 & Hproto & H).
  rewrite (rr_check_proto_spec _ _ rp proto) in Hproto by done.
  destruct (backend_proto _ _) as [bp|] eqn:Eb; [|done]. apply (inj Ok) in Hproto. injection Hproto as <-.
  case_bool_decide; [done|]. unfold remap_path_pick_target in H.
  rewrite bool_decide_eq_false_2 in H by done.
  destruct (rp_addrs rp !! _) as [t|] eqn:Et; [|done]. cbn [mbind cres_bind] in H. apply (inj Ok) in H. injection H as <-.
  exists (c :: host), rh, rp, n, t, proto. split_and!; try done. by eapply list_elem_of_lookup_2.
Qed.

(** A generated response has a status text. *)
Lemma and_then_inv m k c ret :
  and_then m k = Ok (c, ret) → (m = Ok (c, ret) ∧ c ≠ RR_OK) ∨ ∃ ret', m = Ok (RR_OK, ret') ∧ k ret' = Ok (c, ret).
Proof.
  unfold and_then. destruct m as [[c' ret']|]; [|done]. cbn [mbind cres_bind].
  case_bool_decide; [subst; eauto|]. intros Heq. apply (inj Ok), pair_eq in Heq as [-> ->]. by left.
Qed.

Lemma unauthorized_401 ret c ret' : unauthorized ret = Ok (c, ret') → c = RR_ERR_UNAUTHORIZED.
Proof. unfold unauthorized. destruct (set_wwwauth_header ret); simpl; naive_solver. Qed.

Lemma rr_check_auth_code req ret ret' : rr_check_auth req ret ≠ Ok (RR_SYNTHETIC, ret').
Proof.
  unfold rr_check_auth. destruct (rz_path ret) as [rp|]; [|done]. cbn [deref mbind cres_bind].
  repeat match goal with
  | |- context [auth_check_address ?a ?b] => destruct (auth_check_address a b) as [[]|]; cbn [mbind cres_bind negb]
  | |- context [basic_ok ?a ?b] => destruct (basic_ok a b) as [[]|]; cbn [mbind cres_bind]
  | |- context [if bool_decide ?p then _ else _] => destruct (bool_decide p); cbn [andb]
  | |- context [match rp_auth_satisfy rp with _ => _ end] => destruct (rp_auth_satisfy rp)
  end; try done; try (by case_match); intros Hu; try (by apply unauthorized_401 in Hu).
Qed.

Lemma remap_run_synthetic db req (rand : Z) ret :
  remap_run db req rand = Ok (RR_SYNTHETIC, ret) → is_Some (rz_status_text ret).
Proof.
  unfold remap_run. destruct (is_healthcheck db req) as [[]|]; cbn [mbind cres_bind]; [| |done].
  { intros H. apply (inj Ok), pair_eq in H as [_ <-]. by eexists. }
  destruct (rr_host req) as [[|c host]|]; [done| |done].
  destruct (remap_db_get_host db (c :: host)) as [rh|]; [|done].
  destruct (remap_host_find_path rh (rr_path req)) as [[rp n]|]; [|done]. cbn [mbind cres_bind].
  generalize (set_rz_path (set_rz_host result_zero (Some rh)) (Some rp)); intros ret0 H.
  apply and_then_inv in H as [[H _]|(ret1 & _ & H)].
  { unfold rr_check_tls in H. destruct (deref (rr_proto req)); [|done]. cbn [mbind cres_bind] in H.
    destruct (_ || _); [done|]. destruct (deref (rz_path ret0)) as [rp0|]; [|done]. cbn [mbind cres_bind] in H.
    destruct (rp_no_ssl_redirect rp0); [done|]. destruct (deref (rz_host ret0)); [|done]. cbn [mbind cres_bind] in H.
    destruct (_ && _); [done|]. destruct (deref (rr_host req)); [|done]. cbn [mbind cres_bind] in H.
    apply (inj Ok), pair_eq in H as [_ <-]. by eexists. }
  apply and_then_inv in H as [[H _]|(ret2 & _ & H)]; [by apply rr_check_auth_code in H|].
  apply and_then_inv in H as [[H _]|(ret3 & _ & H)].
  { unfold rr_check_cors in H. destruct (deref (rz_path ret2)) as [rp2|]; [|done]. cbn [mbind cres_bind] in H.
    destruct (negb _); [done|]. destruct (hash_get (rr_hdrfields req) _) as [[[|o [|]]]|]; try done.
    destruct (bool_decide _); [|destruct (bool_decide _); [|done]]; (destruct (negb _); [done|]);
      apply (inj Ok), pair_eq in H as [_ <-]; by eexists. }
  apply and_then_inv in H as [[H _]|(ret4 & _ & H)].
  { unfold rr_check_app_root in H. destruct (deref (rz_path ret3)) as [rp3|]; [|done]. cbn [mbind cres_bind] in H.
    destruct (rp_app_root rp3), (rr_path req); try done. apply (inj Ok), pair_eq in H as [_ <-]. by eexists. }
  destruct (rewrite_path rp req n); [|done]. cbn [mbind cres_bind] in H.
  match type of H with mbind _ ?m = _ => destruct m as [ret5|]; [|done] end. cbn [mbind cres_bind] in H.
  apply and_then_inv in H as [[H _]|(ret6 & _ & H)].
  { unfold rr_check_proto in H. destruct (deref (rz_path ret5)); [|done]. cbn [mbind cres_bind] in H.
    destruct (deref (rr_proto req)); [|done]. cbn [mbind cres_bind] in H. by repeat case_match. }
  case_bool_decide; [done|]. by destruct (remap_path_pick_target rp rand).
Qed.

(** Whatever the answer, the path of the result is the one the host selected. *)
Definition keeps_path (m : cres (rr_code * remap_result)) (p : option remap_path) : Prop :=
  ∀ c ret, m = Ok (c, ret) → rz_path ret = p.

Lemma and_then_keeps m k p : keeps_path m p → (∀ ret, rz_path ret = p → keeps_path (k ret) p) → keeps_path (and_then m k) p.
Proof. intros Hm Hk c ret [[H _]|(ret' & H & H')]%and_then_inv; [by eapply Hm|]. by eapply (Hk ret'); [eapply Hm|]. Qed.

Lemma preflight_path rp ret : rz_path (preflight_headers rp ret) = rz_path ret.
Proof. unfold preflight_headers. cbv zeta. by destruct (rp_cors_methods rp), (rp_cors_headers rp), (_ =? 0), (rp_cors_creds rp). Qed.

Ltac path_kept := intros c ret'; repeat match goal with
  | |- mbind _ ?m = _ → _ => destruct m; cbn [mbind cres_bind]
  | |- (if ?b then _ else _) = _ → _ => destruct b
  | |- (match ?x with _ => _ end) = _ → _ => destruct x
  | |- Ok (if ?b then _ else _) = _ → _ => destruct b
  end; try done; let H := fresh in intros H; apply (inj Ok), pair_eq in H as [_ <-]; cbn; by rewrite ?preflight_path.

Lemma tls_keeps_path req ret : keeps_path (rr_check_tls req ret) (rz_path ret).
Proof. unfold rr_check_tls. cbv zeta. path_kept. Qed.
Lemma cors_keeps_path req ret : keeps_path (rr_check_cors req ret) (rz_path ret).
Proof. unfold rr_check_cors. cbv zeta. path_kept. Qed.
Lemma app_root_keeps_path req ret : keeps_path (rr_check_app_root req ret) (rz_path ret).
Proof. unfold rr_check_app_root. path_kept. Qed.
Lemma proto_keeps_path req ret : keeps_path (rr_check_proto req ret) (rz_path ret).
Proof. unfold rr_check_proto. path_kept. Qed.
Lemma auth_keeps_path req ret : keeps_path (rr_check_auth req ret) (rz_path ret).
Proof.
  assert (Hu : keeps_path (unauthorized ret) (rz_path ret)).
  { intros c ret'. unfold unauthorized, set_wwwauth_header. destruct (deref (rz_path ret)) as [rp|]; [|done]. cbn [mbind cres_bind].
    destruct (deref (rp_auth_realm rp)); [|done]. cbn [mbind cres_bind]. intros H. by apply (inj Ok), pair_eq in H as [_ <-]. }
  unfold rr_check_auth. cbv zeta. intros c ret'.
  repeat match goal with
  | |- unauthorized _ = _ → _ => apply Hu
  | |- mbind _ ?m = _ → _ => destruct m; cbn [mbind cres_bind]
  | |- (match ?x with _ => _ end) = _ → _ => destruct x
  | |- Ok (if ?b then _ else _) = _ → _ => destruct b
  end; try done; intros H; by apply (inj Ok), pair_eq in H as [_ <-].
Qed.

Lemma remap_run_path db req (rand : Z) c ret rp :
  remap_run db req rand = Ok (c, ret) → rz_path ret = Some rp →
  ∃ host rh n, rr_host req = Some host ∧ remap_db_get_host db host = Some rh ∧ remap_host_find_path rh (rr_path req) = Ok (rp, n).
Proof.
  unfold remap_run. intros H Hp. destruct (is_healthcheck db req) as [[]|]; [| |done].
  { apply (inj Ok), pair_eq in H as [_ <-]. done. }
  cbn [mbind cres_bind] in H. destruct (rr_host req) as [[|h host]|]; try (by apply (inj Ok), pair_eq in H as [_ <-]).
  destruct (remap_db_get_host db _) as [rh|] eqn:Eg; [|by apply (inj Ok), pair_eq in H as [_ <-]].
  destruct (remap_host_find_path _ _) as [[rp' n]|] eqn:Ef; [|done]. cbn [mbind cres_bind] in H.
  enough (rz_path ret = Some rp') as Heq by (exists (h :: host), rh, n; rewrite Heq in Hp; injection Hp as <-; by split_and!).
  clear Hp Eg Ef. revert c ret H. change (∀ c ret, ?m = Ok (c, ret) → rz_path ret = ?p) with (keeps_path m p).
  apply and_then_keeps; [apply tls_keeps_path|intros ret1 H1].
  apply and_then_keeps; [rewrite <- H1; apply auth_keeps_path|intros ret2 H2].
  apply and_then_keeps; [rewrite <- H2; apply cors_keeps_path|intros ret3 H3].
  apply and_then_keeps; [rewrite <- H3; apply app_root_keeps_path|intros ret4 H4].
  destruct (rewrite_path _ _ _) as [u|]; [|done]. cbn [mbind cres_bind].
  destruct (match rr_query req with Some _ => _ | None => _ end) as [ret5|] eqn:Eq; [|done]. cbn [mbind cres_bind].
  assert (H5 : rz_path ret5 = Some rp').
  { destruct (rr_query req); [apply make_query_only in Eq as [q ->]|injection Eq as <-]; done. }
  apply and_then_keeps; [rewrite <- H5; apply proto_keeps_path|]. intros r Hr'. intros c r'. case_bool_decide.
  - intros H'. by apply (inj Ok), pair_eq in H' as [_ <-].
  - destruct (remap_path_pick_target _ _); [|done]. cbn [mbind cres_bind]. intros H'. by apply (inj Ok), pair_eq in H' as [_ <-].
Qed.

(** * Properties *)

(** A request is sent to a backend only if its host is configured, the
    path was selected by the host, the request is encrypted or the path and
    host do not ask for TLS, the client passed the authentication the path
    asks for, and the path is not redirected to its app-root; the backend is
    one of the path's, the protocol the one the path asks for, and the
    request path is the original one with the matched prefix replaced by the
    rewrite target. *)
Theorem remap_run_forwards db req (rand : Z) ret :
  remap_run db req rand = Ok (RR_OK, ret) →
  ∃ host rh rp n t proto,
    rr_proto req = Some proto ∧ rr_host req = Some host ∧ host ≠ [] ∧ remap_db_get_host db host = Some rh ∧
    remap_host_find_path rh (rr_path req) = Ok (rp, n) ∧ rz_path ret = Some rp ∧ rz_host ret = Some rh ∧
    must_redirect proto rh rp = false ∧ authorised req rp ∧
    (rp_app_root rp = None ∨ is_Some (rr_path req)) ∧
    rz_target ret = Some t ∧ t ∈ rp_addrs rp ∧
    rz_proto ret = backend_proto proto (rp_secure_backends rp) ∧
    rz_urlpath ret = forwarded_path rp req n.
Proof. apply remap_run_ok. Qed.
End lemmas.

(** ** Sorting and joining parameters *)
Lemma qsort_str_perm l k :
  l ≡ₚ k → Forall no_nul l → qsort_str l = qsort_str k.
Proof.
  intros Hp Hn. unfold qsort_str.
  apply (Sorted_unique_strong strle); [|apply Sorted_merge_sort, _..|by rewrite !merge_sort_Permutation].
  intros a b Ha Hb Hab Hba. rewrite merge_sort_Permutation in Ha, Hb. rewrite <- Hp in Hb.
  rewrite Forall_forall in Hn. unfold strle in *. rewrite (strcmp_antisym a b) in Hba.
  apply strcmp_0; [by apply Hn..|lia].
Qed.

Lemma qsort_str_Permutation l : qsort_str l ≡ₚ l.
Proof. apply merge_sort_Permutation. Qed.

Lemma join_amp_cons p l : join_amp (p :: l) = p ++ amp :: join_amp l.
Proof. unfold join_amp. cbn. by rewrite <- app_assoc. Qed.

Lemma params_len l a : foldl (λ n p, n + (zlen p + 1)) a l = a + zlen (join_amp l).
Proof.
  revert a; induction l as [|p l IH]; intros a; [unfold zlen; simpl; lia|].
  cbn [foldl]. rewrite IH, join_amp_cons, zlen_app. unfold zlen. simpl. lia.
Qed.

(** The joined string without its last separator. *)
Lemma join_amp_snoc l p : join_amp (l ++ [p]) = (join_amp l ++ p) ++ [amp].
Proof.
  unfold join_amp. rewrite fmap_app, join_app. cbn. by rewrite app_nil_r, <- app_assoc.
Qed.

Lemma split_join_amp l p :
  Forall (λ t, amp ∉ t) l → amp ∉ p → split [amp] (join_amp l ++ p) = l ++ [p].
Proof.
  assert (Hf : ∀ t : bytes, amp ∉ t → Forall (λ x, x ∉ [amp]) t).
  { intros t Ht. apply Forall_forall. intros x Hx Hxa. apply list_elem_of_singleton in Hxa as ->. done. }
  induction 1 as [|t l Ht _ IH]; intros Hp.
  - cbn. by apply split_no_delim_id, Hf.
  - rewrite join_amp_cons, <- app_assoc. cbn [app].
    rewrite split_app_delim; [|by apply Hf|by left]. cbn. f_equal. by apply IH.
Qed.

Lemma strtok_join_amp l p :
  Forall (λ t, amp ∉ t ∧ t ≠ []) (l ++ [p]) → strtok_all [amp] (join_amp l ++ p) = l ++ [p].
Proof.
  intros H. rewrite strtok_all_split.
  assert (Hl : Forall (λ t, amp ∉ t) (l ++ [p])) by (eapply Forall_impl; [done|naive_solver]).
  apply Forall_app in Hl as [Hl Hp]. inversion Hp; subst.
  rewrite split_join_amp by done. clear Hl Hp. induction H as [|t k [_ Ht] _ IH]; [done|].
  rewrite filter_cons_True by done. by f_equal.
Qed.

(** What [make_query] stores for a list of kept parameters. *)
Definition query_of (params : list bytes) : option bytes :=
  if foldl (λ n p, n + (zlen p + 1)) 0 params =? 0 then None
  else Some (take (Z.to_nat (foldl (λ n p, n + (zlen p + 1)) 0 params - 1)) (join_amp (qsort_str params))).

Lemma join_amp_perm_len l k : l ≡ₚ k → zlen (join_amp l) = zlen (join_amp k).
Proof.
  unfold zlen. induction 1 as [|x l k _ IH|x y l|l k m _ IH1 _ IH2]; [done|..|congruence];
    rewrite !join_amp_cons, !length_app; cbn [length]; rewrite ?length_app; cbn [length]; lia.
Qed.

Lemma query_of_spec params :
  match query_of params with
  | None => params = []
  | Some q => Forall (λ t, amp ∉ t ∧ t ≠ []) params → strtok_all [amp] q = qsort_str params
  end.
Proof.
  unfold query_of. rewrite params_len, Z.add_0_l.
  rewrite <- (join_amp_perm_len _ _ (qsort_str_Permutation params)).
  destruct (qsort_str params) as [|p l] eqn:E using rev_ind; [|clear IHl].
  { cbn. pose proof (qsort_str_Permutation params) as Hp. rewrite E in Hp. symmetry in Hp. by apply Permutation_nil_r in Hp. }
  rewrite join_amp_snoc, zlen_app. change (zlen [amp]) with 1.
  pose proof (zlen_nonneg (join_amp l ++ p)).
  rewrite (proj2 (Z.eqb_neq _ _)) by lia. intros Hk.
  rewrite take_app_length'; [|unfold zlen; lia]. apply strtok_join_amp.
  rewrite <- E. by rewrite qsort_str_Permutation.
Qed.

Lemma query_of_perm l k : l ≡ₚ k → Forall no_nul l → query_of l = query_of k.
Proof.
  intros Hp Hn. unfold query_of. rewrite !params_len, (join_amp_perm_len l k) by done.
  by rewrite (qsort_str_perm l k).
Qed.

Section theorems.
Context `{P : Posix} `{SSL : OpenSSL} `{D : Digests}.
Implicit Types (db : remap_db) (req : remap_request) (ret : remap_result).

Definition kept (rp : remap_path) (params : list bytes) : list bytes :=
  filter (λ p, keep_parameter rp p = Ok true) params.

Lemma keep_all_kept rp params k :
  keep_all rp params = Ok k ↔ Forall (λ p, ∃ b, keep_parameter rp p = Ok b) params ∧ k = kept rp params.
Proof.
  revert k; induction params as [|p params IH]; intros k; cbn [keep_all].
  { split; [intros [= <-]; done|intros [_ ->]; done]. }
  unfold kept. rewrite Forall_cons, filter_cons.
  destruct (keep_parameter rp p) as [b|f] eqn:E; cbn [mbind cres_bind]; [|naive_solver].
  destruct (keep_all rp params) as [l|f]; cbn [mbind cres_bind].
  - destruct (proj1 (IH l) eq_refl) as [Hf ->]. destruct b.
    + rewrite decide_True by done. split; [intros [= <-]; eauto|intros [_ ->]; done].
    + rewrite decide_False by done. split; [intros [= <-]; eauto|intros [_ ->]; done].
  - split; [done|]. intros [[_ Hf] _].
    by assert (Hx := proj2 (IH _) (conj Hf eq_refl)).
Qed.

Lemma make_query_Ok req ret rp q ret' :
  rz_path ret = Some rp → rr_query req = Some q → rz_query ret = None →
  make_query req ret = Ok ret' ↔
    Forall (λ p, ∃ b, keep_parameter rp p = Ok b) (strtok_all [amp] q) ∧
    ret' = set_rz_query ret (query_of (kept rp (strtok_all [amp] q))).
Proof.
  intros Hp Hq Hn. unfold make_query. rewrite Hq, Hp. cbn [deref mbind cres_bind].
  assert (Hid : ret = set_rz_query ret None) by (destruct ret; simpl in *; by subst).
  assert (Hk : ∀ k, (if foldl (λ n p, n + (zlen p + 1)) 0 k =? 0 then Ok ret
      else Ok (set_rz_query ret (Some (take (Z.to_nat (foldl (λ n p, n + (zlen p + 1)) 0 k - 1)) (join_amp (qsort_str k))))))
      = Ok (set_rz_query ret (query_of k))).
  { intros k. unfold query_of. destruct (_ =? 0); [by rewrite Hid at 1|done]. }
  destruct (keep_all rp (strtok_all [amp] q)) as [k|f] eqn:E; cbn [mbind cres_bind].
  - apply keep_all_kept in E as [Hf ->]. rewrite Hk. split; [intros Heq; apply (inj Ok) in Heq; eauto|intros [_ ->]; done].
  - split; [done|]. intros [Hf _]. assert (Hc := proj2 (keep_all_kept rp _ _) (conj Hf eq_refl)). congruence.
Qed.

Lemma kept_tokens rp q :
  no_nul q → Forall (λ t, amp ∉ t ∧ t ≠ []) (kept rp (strtok_all [amp] q)) ∧ Forall no_nul (kept rp (strtok_all [amp] q)).
Proof.
  intros Hq. unfold kept. rewrite !Forall_forall. split; intros t [_ Ht]%list_elem_of_filter.
  - split; [eapply strtok_all_no_delim; [done|by left]|by eapply strtok_all_nonempty].
  - by eapply strtok_all_no_nul.
Qed.

(** C18. Query normalisation: the stored query holds exactly the parameters of
    the request that the ignore list and the whitelist keep, each as often as
    in the request, sorted, and none is stored when nothing is kept; requests
    whose parameters differ only in their order get the same query.  The code
    always sorts: docs/caching.md describes sorting only for Ingresses with
    cache-sort-query-params "true", an annotation the code does not read. *)
Theorem query_normalised req ret rp q ret' :
  rz_path ret = Some rp → rr_query req = Some q → rz_query ret = None → no_nul q →
  make_query req ret = Ok ret' →
  match rz_query ret' with
  | None => kept rp (strtok_all [amp] q) = []
  | Some q' => Sorted strle (strtok_all [amp] q') ∧ strtok_all [amp] q' ≡ₚ kept rp (strtok_all [amp] q)
  end ∧
  ∀ req2 q2, rr_query req2 = Some q2 → no_nul q2 → strtok_all [amp] q2 ≡ₚ strtok_all [amp] q →
    make_query req2 ret = Ok ret'.
Proof.
  intros Hp Hq Hn Hnq. rewrite (make_query_Ok req ret rp q) by done. intros [Hf ->].
  destruct (kept_tokens rp q Hnq) as [Hamp Hnul]. split.
  - cbn [rz_query set_rz_query]. pose proof (query_of_spec (kept rp (strtok_all [amp] q))) as Hs.
    destruct (query_of _) as [q'|]; [|done]. rewrite Hs by done.
    split; [apply Sorted_merge_sort, _|apply qsort_str_Permutation].
  - intros req2 q2 Hq2 Hn2 Hperm. apply (make_query_Ok req2 ret rp q2); [done..|].
    split; [by rewrite Hperm|]. f_equal. apply query_of_perm; [|done]. unfold kept. by rewrite Hperm.
Qed.

(** ** The cache key *)
Lemma of_u8_inj a b : 0 ≤ a < 256 → 0 ≤ b < 256 → of_u8 a = of_u8 b → a = b.
Proof. intros Ha Hb H. apply (f_equal u8) in H. rewrite !u8_of_u8, !Z.mod_small in H by done. done. Qed.

(** Two length-prefixed fields at the start of equal buffers are equal. *)
Lemma field8_inj (s t r u : bytes) :
  zlen s < 256 → zlen t < 256 → of_u8 (zlen s) :: s ++ r = of_u8 (zlen t) :: t ++ u → s = t ∧ r = u.
Proof.
  intros Hs Ht [Hl Hr]%cons_eq. pose proof (zlen_nonneg s). pose proof (zlen_nonneg t).
  apply of_u8_inj in Hl; [|done..]. apply app_inj_1 in Hr; [done|]. unfold zlen in Hl. lia.
Qed.

Lemma land_255 n : 0 ≤ n → Z.land n 0xFF = n mod 256.
Proof. intros. by apply (Z.land_ones n 8). Qed.

Lemma field16_inj (s t r u : bytes) :
  zlen s < 65536 → zlen t < 65536 →
  of_u8 (Z.land (zlen s) 0xFF) :: of_u8 (Z.land (Z.shiftr (zlen s) 8) 0xFF) :: s ++ r =
  of_u8 (Z.land (zlen t) 0xFF) :: of_u8 (Z.land (Z.shiftr (zlen t) 8) 0xFF) :: t ++ u →
  s = t ∧ r = u.
Proof.
  intros Hs Ht [Hlo [Hhi Hr]%cons_eq]%cons_eq. pose proof (zlen_nonneg s). pose proof (zlen_nonneg t).
  rewrite !Z.shiftr_div_pow2, !land_255 in * by (apply Z.div_pos || lia; lia).
  change (2 ^ 8) with 256 in *.
  apply of_u8_inj in Hlo; [|apply Z.mod_pos_bound; lia..].
  apply of_u8_inj in Hhi; [|apply Z.mod_pos_bound; lia..].
  assert (Hd : ∀ n, 0 ≤ n < 65536 → n / 256 mod 256 = n / 256).
  { intros n Hn'. apply Z.mod_small. split; [apply Z.div_pos; lia|apply Z.div_lt_upper_bound; lia]. }
  rewrite !Hd in Hhi by lia.
  pose proof (Z.div_mod (zlen s) 256). pose proof (Z.div_mod (zlen t) 256).
  apply app_inj_1 in Hr; [done|]. unfold zlen in *. lia.
Qed.

(** The buffer when no length is truncated. *)
Lemma key_buffer_short proto host path query :
  zlen proto < 256 → zlen host < 256 → opt_len path < 65536 → opt_len query < 65536 →
  key_buffer proto host path query =
    of_u8 (zlen proto) :: proto ++ of_u8 (zlen host) :: host ++
    of_u8 (Z.land (opt_len path) 0xFF) :: of_u8 (Z.land (Z.shiftr (opt_len path) 8) 0xFF) :: default [] path ++
    of_u8 (Z.land (opt_len query) 0xFF) :: of_u8 (Z.land (Z.shiftr (opt_len query) 8) 0xFF) :: default [] query ++ [].
Proof.
  intros Hp Hh Hpa Hq. pose proof (zlen_nonneg proto). pose proof (zlen_nonneg host).
  assert (Ho : ∀ o : option bytes, opt_len o < 65536 →
    match o with Some p => wrapu 16 (zlen p) | None => 0 end = opt_len o ∧
    take (Z.to_nat (opt_len o)) (default [] o) = default [] o).
  { intros [o|] Hlt; simpl in *; [|done]. rewrite wrapu_id by (pose proof (zlen_nonneg o); lia).
    split; [done|]. apply take_ge. unfold zlen. lia. }
  destruct (Ho path Hpa) as [Hp1 Hp2], (Ho query Hq) as [Hq1 Hq2].
  unfold key_buffer. rewrite Hp1, Hq1, !wrapu_id by lia.
  rewrite (take_ge proto), (take_ge host), Hp2, Hq2 by (unfold zlen; lia). by rewrite app_nil_r.
Qed.

Lemma opt_len_zlen o : opt_len o = zlen (default [] o).
Proof. by destruct o. Qed.

(** C19. Two requests get the same cache key only if they have the same
    protocol, host, path and normalised query (a missing path or query being
    the empty one), as long as protocol and host are shorter than 256 bytes
    and path and query shorter than 65536. *)
Theorem cache_key_injective req1 ret1 req2 ret2 key p1 p2 h1 h2 :
  rr_proto req1 = Some p1 → rr_proto req2 = Some p2 → rr_host req1 = Some h1 → rr_host req2 = Some h2 →
  (∀ req ret p h, (req = req1 ∧ ret = ret1 ∧ p = p1 ∧ h = h1) ∨ (req = req2 ∧ ret = ret2 ∧ p = p2 ∧ h = h2) →
     zlen p < 256 ∧ zlen h < 256 ∧ opt_len (rr_path req) < 65536 ∧ opt_len (rz_query ret) < 65536) →
  remap_make_cache_key req1 ret1 = Ok key → remap_make_cache_key req2 ret2 = Ok key →
  p1 = p2 ∧ h1 = h2 ∧
  default [] (rr_path req1) = default [] (rr_path req2) ∧
  default [] (rz_query ret1) = default [] (rz_query ret2).
Proof.
  intros Hp1 Hp2 Hh1 Hh2 Hs. unfold remap_make_cache_key. rewrite Hp1, Hp2, Hh1, Hh2. cbn [deref mbind cres_bind].
  intros Hk1 Hk2. apply (inj Ok) in Hk1, Hk2. rewrite <- Hk2 in Hk1. apply cons_eq in Hk1 as [_ Hk].
  apply (f_equal base64_decode) in Hk. rewrite !base64_decode_encode in Hk. apply (inj Some) in Hk.
  destruct (Hs req1 ret1 p1 h1) as (?&?&?&?); [tauto|]. destruct (Hs req2 ret2 p2 h2) as (?&?&?&?); [tauto|].
  rewrite !key_buffer_short in Hk by done. rewrite !opt_len_zlen in *.
  apply field8_inj in Hk as [-> Hk]; [|done..]. apply field8_inj in Hk as [-> Hk]; [|done..].
  apply field16_inj in Hk as [-> Hk]; [|done..]. apply field16_inj in Hk as [-> _]; done.
Qed.
End theorems.

(** Hosts whose names differ by a multiple of 256 characters collide. *)
Example cache_key_long_host :
  let host := replicate 256 "a"%char in
  key_buffer (lit "http") host None None = key_buffer (lit "http") [] None None.
Proof. vm_compute. reflexivity. Qed.

(** ** Parameters and patterns *)
Section params.
Context `{P : Posix}.

Definition param_name (param : bytes) : bytes :=
  match cut "="%char param with Some (name, _) => name | None => param end.

Lemma param_split param : ∃ tail, param = param_name param ++ tail ∧ after_name tail.
Proof.
  unfold param_name. destruct (cut "="%char param) as [[name rest]|] eqn:E.
  - apply cut_Some in E as [-> _]. exists ("="%char :: rest). split; [done|by right].
  - exists []. split; [by rewrite app_nil_r|by left].
Qed.

Lemma any_match_glob param pats :
  Forall plain pats →
  ∃ b, any_match param (length (param_name param)) pats = Ok b ∧
       (b = true ↔ ∃ p, p ∈ pats ∧ glob p (param_name param)).
Proof.
  destruct (param_split param) as (tail & Hpar & Htail). generalize (param_name param) Hpar. intros name ->. clear Hpar.
  induction 1 as [|p pats Hp _ IH]; cbn [any_match].
  { exists false. split; [done|]. split; [done|]. intros (p & Hp & _). by apply elem_of_nil in Hp. }
  destruct (strmatch_plain p name tail Hp Htail) as (b & -> & Hb). cbn [mbind cres_bind].
  destruct IH as (b' & Hb' & Hi). destruct b.
  - exists true. split; [done|]. split; [|done]. intros _. exists p. split; [by left|by apply Hb].
  - exists b'. split; [done|]. rewrite Hi. setoid_rewrite elem_of_cons. naive_solver.
Qed.

(** The patterns of an optional list. *)
Definition plain_list (o : option hashset) : Prop := ∀ h, o = Some h → Forall plain (pattern_list h).

Lemma keep_parameter_spec (rp : remap_path) param :
  plain_list (rp_ignore_params rp) → plain_list (rp_whitelist_params rp) →
  ∃ b, keep_parameter rp param = Ok b ∧
    (b = true ↔
      (∀ h p, rp_ignore_params rp = Some h → p ∈ pattern_list h → ¬ glob p (param_name param)) ∧
      (∀ h, rp_whitelist_params rp = Some h → ∃ p, p ∈ pattern_list h ∧ glob p (param_name param))).
Proof.
  intros Hi Hw. unfold keep_parameter.
  assert (Hpe : match cut "="%char param with Some (name, _) => length name | None => length param end
                = length (param_name param)) by (unfold param_name; by destruct (cut _ param) as [[]|]).
  rewrite Hpe.
  assert (Hign : ∃ b, match rp_ignore_params rp with
      | Some h => any_match param (length (param_name param)) (pattern_list h) | None => Ok false end = Ok b ∧
      (b = true ↔ ∃ h p, rp_ignore_params rp = Some h ∧ p ∈ pattern_list h ∧ glob p (param_name param))).
  { destruct (rp_ignore_params rp) as [h|].
    - destruct (any_match_glob param (pattern_list h)) as (b & Hb & Hbi); [by apply Hi|].
      exists b. split; [done|]. rewrite Hbi. naive_solver.
    - exists false. naive_solver. }
  destruct Hign as (b & -> & Hb). cbn [mbind cres_bind]. destruct b.
  { exists false. split; [done|]. split; [done|]. naive_solver. }
  assert (Hno : ∀ h p, rp_ignore_params rp = Some h → p ∈ pattern_list h → ¬ glob p (param_name param)) by naive_solver.
  destruct (rp_whitelist_params rp) as [h|].
  - destruct (any_match_glob param (pattern_list h)) as (b & Hbe & Hbi); [by apply Hw|].
    exists b. split; [done|]. rewrite Hbi. naive_solver.
  - exists true. naive_solver.
Qed.

Lemma pattern_list_get (h : hashset) p : hash_wf h → p ∈ pattern_list h ↔ hash_get h p = HASH_PRESENT.
Proof.
  intros Hwf. rewrite hashset_get_foreach by done. unfold pattern_list.
  pose proof (hash_foreach_keylen _ Hwf) as Hl. rewrite !list_elem_of_fmap. rewrite Forall_forall in Hl.
  split; intros (b & -> & Hb); exists b; (split; [|done]); rewrite Hl by done; by rewrite firstn_all.
Qed.

Lemma pattern_list_of n keys p : (0 < n)%nat → p ∈ pattern_list (hashset_of n keys) ↔ p ∈ keys.
Proof. intros Hn. rewrite pattern_list_get by auto with hash_db. by apply hashset_of_get. Qed.

(** A query parameter takes part in the cache key exactly when its name
    matches no pattern of cache-ignore-query-params and, if there is a
    whitelist, some pattern of cache-whitelist-query-params: for the patterns
    of the documentation ("*", "?" and literal characters, without regard to
    case), read from the annotations as the plugin reads them. *)
Theorem keep_parameter_decision (rp : remap_path) (ignore white : option bytes) (param : bytes) :
  rp_ignore_params rp = (λ v, hashset_of 127 (strtok_all blanks v)) <$> ignore →
  rp_whitelist_params rp = (λ v, hashset_of 127 (strtok_all blanks v)) <$> white →
  (∀ v p, ignore = Some v ∨ white = Some v → p ∈ strtok_all blanks v → plain p) →
  ∃ b, keep_parameter rp param = Ok b ∧
    (b = true ↔
      (∀ v p, ignore = Some v → p ∈ strtok_all blanks v → ¬ glob p (param_name param)) ∧
      (∀ v, white = Some v → ∃ p, p ∈ strtok_all blanks v ∧ glob p (param_name param))).
Proof.
  intros Hi Hw Hp.
  destruct (keep_parameter_spec rp param) as (b & Hb & Hiff).
  - intros h Hh. rewrite Hi in Hh. destruct ignore as [v|]; [|done]. simplify_eq/=.
    apply Forall_forall. intros p. rewrite pattern_list_of by lia. apply Hp. by left.
  - intros h Hh. rewrite Hw in Hh. destruct white as [v|]; [|done]. simplify_eq/=.
    apply Forall_forall. intros p. rewrite pattern_list_of by lia. apply Hp. by right.
  - exists b. split; [done|]. rewrite Hiff, Hi, Hw.
    assert (Hm : ∀ v p, p ∈ pattern_list (hashset_of 127 (strtok_all blanks v)) ↔ p ∈ strtok_all blanks v).
    { intros. apply pattern_list_of. lia. }
    destruct ignore as [v1|], white as [v2|]; simpl; split; intros [H1 H2]; split; intros; simplify_eq; eauto.
    all: try (by eapply H1; [done|apply Hm]). 
    all: try (destruct (H2 _ eq_refl) as (p & ? & ?); exists p; by rewrite Hm in *).
    all: try (destruct (H2 _ eq_refl) as (p & Hpp & ?); exists p; split; [by apply Hm|done]).
    all: try (by eapply H1; [done|apply (Hm v1)]).
Qed.
End params.

(** ** Totality *)
Section total.
Context `{PL : PosixLaws} `{SSL : OpenSSL} `{D : Digests}.
Implicit Types (db : remap_db) (req : remap_request) (ret : remap_result).

(** A stored hash that can be checked against every password a request can
    carry: [auth_check_basic] refuses credentials longer than its buffer. *)
Definition checkable (h : bytes) : Prop := ∀ pass, (length pass < 256)%nat → ∃ b, crypt_check pass h = Ok b.

(** The whitelist and the users of a path can be checked. *)
Record auth_safe (rp : remap_path) : Prop := {
  as_addrs : Forall entry_ok (rp_auth_addr_list rp);
  as_users users u h : rp_users rp = Some users → hash_get users u = Some h → checkable h;
}.

(** The configuration of a path that no request can make the code fault on. *)
Record path_safe (rp : remap_path) : Prop := {
  ps_auth : auth_safe rp;
  ps_realm : rp_auth_type rp ≠ REMAP_AUTH_NONE → is_Some (rp_auth_realm rp);
  ps_ignore : plain_list (rp_ignore_params rp);
  ps_white : plain_list (rp_whitelist_params rp);
}.

Record db_safe db : Prop := {
  ds_healthcheck : rd_healthcheck db ≠ Some [];
  ds_hosts host rh : remap_db_get_host db host = Some rh → host_wf rh ∧ Forall path_safe (rh_paths rh);
}.

Lemma auth_check_basic_total (rp : remap_path) hdr : auth_safe rp → ∃ n, auth_check_basic hdr rp = Ok n.
Proof.
  intros Hs. unfold auth_check_basic.
  case_bool_decide; cbn [negb]; [|by eauto]. destruct (rp_users rp) as [users|] eqn:Eu; [|by eauto].
  destruct (cut _ hdr) as [[before rest]|]; [|by eauto].
  set (creds := drop_while _ _).
  destruct (_ <? 7)%nat; [by eauto|]. destruct (negb _); [by eauto|]. case_bool_decide; [by eauto|].
  case_bool_decide as Hlen; [by eauto|]. unfold base64_decode_len in Hlen.
  destruct (base64_decode creds) as [buf|] eqn:Ed; [|by eauto]. apply length_base64_decode in Ed.
  destruct (length buf <? 3)%nat; [by eauto|]. destruct (cut _ (c_str buf)) as [[user pass]|] eqn:Ec; [|by eauto].
  unfold auth_check_password. destruct (hash_get users user) as [h|] eqn:Eh; [|by eexists].
  destruct (as_users rp Hs users user h Eu Eh pass) as [b ->]; [|by eexists].
  apply cut_Some in Ec as [Ec _]. apply (f_equal length) in Ec. rewrite length_app in Ec. cbn [length] in Ec.
  pose proof (length_take_while (λ c, negb (bool_decide (c = NUL))) buf) as Hc. unfold c_str in Ec. fold (c_str buf) in Ec, Hc. rewrite Ec in Hc. clearbody creds. pose proof (Z.div_mod (Z.of_nat (length creds) + 3) 4 ltac:(lia)). pose proof (Z.mod_pos_bound (Z.of_nat (length creds) + 3) 4 eq_refl). lia.
Qed.

Lemma basic_ok_total (rp : remap_path) a : auth_safe rp → ∃ b, basic_ok a rp = Ok b.
Proof.
  intros Hs. destruct a as [hdr|]; [|by eexists]. simpl.
  destruct (auth_check_basic_total rp hdr Hs) as [n ->]. by eexists.
Qed.

Lemma rr_check_auth_total req ret rp :
  rz_path ret = Some rp → path_safe rp → length (sa_addr (rr_addr req)) = addr_length (sa_family (rr_addr req)) →
  ∃ c ret', rr_check_auth req ret = Ok (c, ret') ∧ (c = RR_OK → ret' = ret).
Proof.
  intros Hp Hs Hl.
  destruct (auth_check_address_iff (rr_addr req) rp Hl (as_addrs rp (ps_auth rp Hs))) as (ip_ok & Hip & _).
  destruct (basic_ok_total rp (authorization req) (ps_auth rp Hs)) as [pw_ok Hpw].
  rewrite (rr_check_auth_spec req ret rp ip_ok pw_ok) by done.
  destruct (access_granted rp ip_ok pw_ok); [by eauto|].
  destruct (refuse_ok rp ret ip_ok (ps_realm rp Hs)) as (c & ret' & -> & Hc). by exists c, ret'.
Qed.

Lemma rr_check_cors_total req ret rp : rz_path ret = Some rp → ∃ c ret', rr_check_cors req ret = Ok (c, ret').
Proof.
  intros Hp. unfold rr_check_cors. rewrite Hp. cbn [deref mbind cres_bind].
  destruct (negb (rp_enable_cors rp)); [by eauto|].
  destruct (hash_get (rr_hdrfields req) (lit "origin")) as [[[|o [|]]]|]; try (by eauto).
  destruct (negb (streq _ _)); repeat case_bool_decide; eauto.
Qed.

Lemma rr_check_app_root_total req ret rp : rz_path ret = Some rp → ∃ c ret', rr_check_app_root req ret = Ok (c, ret').
Proof.
  intros Hp. unfold rr_check_app_root. rewrite Hp. cbn [deref mbind cres_bind].
  destruct (rp_app_root rp), (rr_path req); eauto.
Qed.

Lemma make_query_total req ret rp q :
  rz_path ret = Some rp → rr_query req = Some q → path_safe rp → ∃ ret', make_query req ret = Ok ret'.
Proof.
  intros Hp Hq Hs. unfold make_query. rewrite Hq, Hp. cbn [deref mbind cres_bind].
  rewrite (proj2 (keep_all_kept rp (strtok_all [amp] q) (kept rp (strtok_all [amp] q)))).
  - cbn [mbind cres_bind]. destruct (foldl _ _ _ =? 0); eauto.
  - split; [|done]. apply Forall_forall. intros p _.
    destruct (keep_parameter_spec rp p (ps_ignore rp Hs) (ps_white rp Hs)) as (b & Hb & _). eauto.
Qed.

Lemma and_then_total m k c r :
  m = Ok (c, r) → (c = RR_OK → ∃ c' r', k r = Ok (c', r')) → ∃ c' r', and_then m k = Ok (c', r').
Proof. intros -> Hk. unfold and_then. cbn [mbind cres_bind]. case_bool_decide; eauto. Qed.

Lemma remap_run_returns db req (rand : Z) :
  db_safe db → is_Some (rr_proto req) → length (sa_addr (rr_addr req)) = addr_length (sa_family (rr_addr req)) → 0 ≤ rand ≤ RAND_MAX →
  ∃ c ret, remap_run db req rand = Ok (c, ret).
Proof.
  intros [Hhc Hhosts] [proto Hproto] Hl Hr. unfold remap_run.
  assert (Hh : ∃ b, is_healthcheck db req = Ok b).
  { unfold is_healthcheck. destruct (rr_path req), (rd_healthcheck db) as [[]|]; eauto. done. }
  destruct Hh as [[] ->]; cbn [mbind cres_bind]; [by eauto|].
  destruct (rr_host req) as [[|h host]|] eqn:Eh; [by eauto| |by eauto].
  destruct (remap_db_get_host db (h :: host)) as [rh|] eqn:Eg; [|by eauto].
  destruct (Hhosts _ _ Eg) as [Hwf Hsafe].
  assert (Hf : ∃ rp n, remap_host_find_path rh (rr_path req) = Ok (rp, n) ∧ rp ∈ rh_paths rh ∧
                       (n ≤ length (default [] (rr_path req)))%nat) by by apply find_path_total.
  destruct Hf as (rp & n & -> & Hin & Hn). cbn [mbind cres_bind].
  assert (Hs : path_safe rp) by (rewrite Forall_forall in Hsafe; by apply Hsafe).
  set (ret0 := set_rz_path _ _).
  rewrite (rr_check_tls_spec req ret0 rh rp proto (h :: host)) by done.
  destruct (must_redirect proto rh rp); (eapply and_then_total; [reflexivity|]); [done|]. intros _.
  destruct (rr_check_auth_total req ret0 rp) as (c2 & ret2 & E2 & H2); [done..|].
  eapply and_then_total; [exact E2|]. intros ->. rewrite (H2 eq_refl).
  destruct (rr_check_cors_total req ret0 rp) as (c3 & ret3 & E3); [done|].
  eapply and_then_total; [exact E3|]. intros ->. apply rr_check_cors_headers in E3 as [hd ->]; [|done].
  destruct (rr_check_app_root_total req (set_rz_headers ret0 hd) rp) as (c4 & ret4 & E4); [done|].
  eapply and_then_total; [exact E4|]. intros ->. apply (rr_check_app_root_pass _ _ rp) in E4 as [-> _]; [|done].
  rewrite rewrite_path_spec by done. cbn [mbind cres_bind].
  set (ret5 := set_rz_urlpath _ _).
  assert (Hq : ∃ q, match rr_query req with Some _ => make_query req ret5 | None => Ok ret5 end = Ok (set_rz_query ret5 q)).
  { destruct (rr_query req) as [q|] eqn:Eq; [|by exists (rz_query ret5)].
    destruct (make_query_total req ret5 rp q) as [r Hm]; [done..|].
    destruct (make_query_only _ _ _ Hm) as [q' ->]. by exists q'. }
  destruct Hq as [q ->]. cbn [mbind cres_bind].
  rewrite (rr_check_proto_spec _ _ rp proto) by done.
  destruct (backend_proto _ _); (eapply and_then_total; [reflexivity|]); [|done]. intros _.
  case_bool_decide as Ha; [by eauto|].
  destruct (pick_target_ok rp rand Ha Hr) as (t & -> & _). eauto.
Qed.

(** On a database whose paths are configured safely, every request is
    answered: whatever its host, path, query, headers and credentials, and
    whatever [rand] returns, [remap_run] returns a code and never faults or
    loops. *)
Theorem remap_run_total db req (rand : Z) :
  db_safe db → is_Some (rr_proto req) → length (sa_addr (rr_addr req)) = addr_length (sa_family (rr_addr req)) → 0 ≤ rand ≤ RAND_MAX →
  ∃ c ret, remap_run db req rand = Ok (c, ret).
Proof. apply remap_run_returns. Qed.
End total.

(** ** Redirects, refusals and CORS headers *)
Section responses.
Context `{P : Posix} `{SSL : OpenSSL} `{D : Digests}.
Implicit Types (db : remap_db) (req : remap_request) (ret : remap_result).

Lemma get_add_header ret name v k :
  hash_wf (rz_headers ret) →
  hash_get (rz_headers (add_header ret name v)) k = if decide (lit name = k) then Some v else hash_get (rz_headers ret) k.
Proof. apply hash_get_set. Qed.

Lemma add_header_wf ret name v : hash_wf (rz_headers ret) → hash_wf (rz_headers (add_header ret name v)).
Proof. apply hash_set_wf. Qed.

(** An unencrypted request that has to use TLS is redirected before
    anything is asked of the client: whatever the authentication of the path,
    the answer is a 301 whose Location is the complete URL of the request
    (host, path and query, no character lost) under https or wss, and it
    carries no request for credentials. *)
Theorem tls_redirect_first db req (rand : Z) proto host rh rp n :
  rr_proto req = Some proto → is_healthcheck db req = Ok false → rr_host req = Some host → host ≠ [] →
  remap_db_get_host db host = Some rh → remap_host_find_path rh (rr_path req) = Ok (rp, n) →
  must_redirect proto rh rp = true →
  ∃ ret, remap_run db req rand = Ok (RR_SYNTHETIC, ret) ∧ rz_status ret = 301 ∧
    hash_get (rz_headers ret) (lit "Location") = Some (secure_url proto req host) ∧
    hash_get (rz_headers ret) (lit "WWW-Authenticate") = None.
Proof.
  intros Hpr Hhc Hh Hne Hg Hf Hr. unfold remap_run. rewrite Hhc, Hh. cbn [mbind cres_bind].
  destruct host as [|h host]; [done|]. rewrite Hg, Hf. cbn [mbind cres_bind].
  set (ret0 := set_rz_path _ _).
  rewrite (rr_check_tls_spec req ret0 rh rp proto (h :: host)), Hr by done.
  eexists. split; [reflexivity|]. split; [done|].
  assert (Hwf : hash_wf (rz_headers ret0)) by (apply hash_new_wf; lia).
  cbn [rz_headers set_rz_response]. rewrite !get_add_header, decide_True by done. split; [done|].
  rewrite decide_False by done. rewrite hash_get_stack. exact (f_equal head (hash_stack_new 127 true (lit "WWW-Authenticate"))).
Qed.

(** C6. The access decision of a path: with both checks configured, "any" asks
    for one of them and the default for both; with one configured, for that
    one; a client that only fails the address check is told 403, one that has
    to present a password 401 with the realm of the path.  A path that asks for
    a password and has no realm, which docs/auth.md allows, lets the same
    clients through, but where a 401 is due the code dereferences the missing
    realm.  The conditions on the path ([auth_safe]) are those without which
    the two checks themselves fault: the addresses in its whitelist have the
    length of their family, IPv4 entries a prefix length between -31 and 32,
    and the stored hash of every user is of a form that [crypt_check] can check
    against passwords shorter than 256 bytes; the client's address has the
    length of its family. *)
Theorem auth_decision `{!PosixLaws} req ret rp :
  rz_path ret = Some rp → auth_safe rp →
  length (sa_addr (rr_addr req)) = addr_length (sa_family (rr_addr req)) →
  ∃ ip_ok pw_ok,
    (ip_ok = true ↔ whitelisted (rr_addr req) (rp_auth_addr_list rp)) ∧
    basic_ok (authorization req) rp = Ok pw_ok ∧
    rr_check_auth req ret =
      if access_granted rp ip_ok pw_ok then Ok (RR_OK, ret) else refuse rp ret ip_ok.
Proof.
  intros Hp Hs Hl.
  destruct (auth_check_address_iff (rr_addr req) rp Hl (as_addrs rp Hs)) as (ip_ok & Hip & Hipi).
  destruct (basic_ok_total rp (authorization req) Hs) as [pw_ok Hpw].
  exists ip_ok, pw_ok. split; [done|]. split; [done|]. by apply rr_check_auth_spec.
Qed.

Lemma preflight_headers_other rp ret k :
  hash_wf (rz_headers ret) →
  k ∉ [lit "Access-Control-Allow-Methods"; lit "Access-Control-Allow-Headers";
       lit "Access-Control-Max-Age"; lit "Access-Control-Allow-Credentials"] →
  hash_get (rz_headers (preflight_headers rp ret)) k = hash_get (rz_headers ret) k.
Proof.
  intros Hwf Hk. unfold preflight_headers. cbv zeta.
  destruct (rp_cors_methods rp), (rp_cors_headers rp), (rp_cors_max_age rp =? 0), (rp_cors_creds rp);
    rewrite ?get_add_header by (repeat apply add_header_wf; done);
    rewrite ?decide_False by (intros <-; apply Hk; set_solver); done.
Qed.

(** A response names an origin in Access-Control-Allow-Origin only if the
    path has CORS enabled and allows it: either every origin is allowed and
    the value is "*", or the value is the single origin the request presented,
    it is on the path's list, and the response varies by origin. *)
Theorem cors_origin_allowed req ret rp c ret' v :
  rz_path ret = Some rp → hash_wf (rz_headers ret) →
  hash_get (rz_headers ret) (lit "Access-Control-Allow-Origin") = None →
  rr_check_cors req ret = Ok (c, ret') →
  hash_get (rz_headers ret') (lit "Access-Control-Allow-Origin") = Some v →
  rp_enable_cors rp = true ∧ hash_get (rp_cors_origins rp) v = HASH_PRESENT ∧
  (v = lit "*" ∨
   (hash_get (rr_hdrfields req) (lit "origin") = Some (RemapHdrfield [v]) ∧
    hash_get (rz_headers ret') (lit "Vary") = Some (lit "Origin"))).
Proof.
  intros Hp Hwf Hnone. unfold rr_check_cors. rewrite Hp. cbn [deref mbind cres_bind].
  assert (Hsame : Ok (RR_OK, ret) = Ok (c, ret') →
    hash_get (rz_headers ret') (lit "Access-Control-Allow-Origin") = Some v → False).
  { intros Heq. apply (inj Ok), pair_eq in Heq as [_ <-]. by rewrite Hnone. }
  destruct (rp_enable_cors rp); cbn [negb]; [|intros; exfalso; eauto].
  destruct (hash_get (rr_hdrfields req) (lit "origin")) as [[[|origin [|]]]|]; try (intros; exfalso; by eauto).
  assert (Hpre : ∀ r k,
    (if negb (streq (rr_method req) (lit "OPTIONS")) then Ok (RR_OK, r)
     else Ok (RR_SYNTHETIC, set_rz_response (preflight_headers rp r) 204 (lit "No content") (rz_body r))) = Ok (c, ret') →
    hash_wf (rz_headers r) → k = lit "Access-Control-Allow-Origin" ∨ k = lit "Vary" →
    hash_get (rz_headers ret') k = hash_get (rz_headers r) k).
  { intros r k Heq Hr Hk. destruct (negb _); apply (inj Ok), pair_eq in Heq as [_ <-]; [done|].
    apply (preflight_headers_other rp r k Hr). destruct Hk as [->| ->]; by compute_done. }
  case_bool_decide as Hstar; [|case_bool_decide as Ho; [|intros; exfalso; by eauto]]; intros Heq Hv.
  - rewrite (Hpre _ _ Heq), get_add_header, decide_True in Hv by (auto using add_header_wf).
    simplify_eq. auto.
  - rewrite (Hpre _ _ Heq), !get_add_header, decide_False, decide_True in Hv
      by (auto using add_header_wf || done). simplify_eq.
    split; [done|]. split; [done|]. right. split; [done|].
    rewrite (Hpre _ _ Heq), get_add_header, decide_True by (auto using add_header_wf). done.
Qed.
End responses.

(** * Concrete requests *)
Module Examples.
#[local] Existing Instance posix_literal.
#[local] Existing Instance posix_literal_laws.
#[local] Existing Instance openssl_list.
#[local] Existing Instance digests_pad.

Definition ex_users : hash bytes := hash_set (hash_new 127 true) (lit "bob") (lit "{PLAIN}hunter2").
Definition ex_path : remap_path :=
  let rp := remap_path_add_address (path_defaults None) (lit "10.2.0.1") 8080 in
  let rp := set_rp_users (set_rp_auth_realm (set_rp_auth_type rp REMAP_AUTH_BASIC) (Some (lit "staff"))) (Some ex_users) in
  let rp := set_rp_enable_cors (set_rp_force_ssl_redirect rp true) true in
  set_rp_ignore_params rp (Some (hashset_of 127 (strtok_all blanks (lit "utm_* fbclid")))).
Definition ex_host : remap_host := set_rh_paths remap_host_new [ex_path].
Definition ex_db : remap_db :=
  let db := remap_db_new k8s_config_new in
  RemapDb _ _ (rd_config db) (Some (lit "/__alive")) (hash_put (rd_hosts db) (lit "example.com") ex_host).

Definition ex_request (proto : bytes) : remap_request :=
  RemapRequest (Some proto) (lit "GET") (Some (lit "example.com")) (Some (lit "shop/cart"))
    (Some (lit "z=1&utm_source=x&a=2"))
    (hash_set (hash_set (hash_new 127 true) (lit "authorization")
       (RemapHdrfield [basic_header (lit "bob") (lit "hunter2")])) (lit "origin") (RemapHdrfield [lit "https://o"]))
    (Sockaddr AF_INET (ip 192 0 2 1)).

Lemma ex_users_get u h : hash_get ex_users u = Some h → h = lit "{PLAIN}hunter2".
Proof.
  unfold ex_users. rewrite hash_get_set by (apply hash_new_wf; lia). case_decide; [by intros [= <-]|].
  by rewrite hash_get_stack, hash_stack_new.
Qed.

Lemma ex_path_safe : path_safe ex_path.
Proof.
  split.
  - split; [constructor|]. intros users u h [= <-] Hh. apply ex_users_get in Hh as ->. intros pass _. by eexists.
  - intros _. by eexists.
  - intros h [= <-]. apply Forall_forall. intros p. rewrite pattern_list_of by lia.
    intros Hp. assert (Hc : p ∈ [lit "utm_*"; lit "fbclid"]) by exact Hp. clear Hp.
    repeat (apply elem_of_cons in Hc as [->|Hc]; [unfold plain; by compute_done|]). by apply elem_of_nil in Hc.
  - done.
Qed.

Lemma ex_db_get host :
  remap_db_get_host ex_db host = if decide (lit "example.com" = host) then Some ex_host else None.
Proof.
  unfold remap_db_get_host, ex_db. cbn [rd_hosts remap_db_new].
  rewrite (hash_models_get _ (<[lit "example.com" := ex_host]> ∅)).
  - rewrite lookup_insert. case_decide; [done|]. apply lookup_empty.
  - apply hash_models_put, hash_models_new. lia.
Qed.

Lemma ex_db_host host rh : remap_db_get_host ex_db host = Some rh → rh = ex_host.
Proof. rewrite ex_db_get. case_decide; [|done]. intros Heq. by apply (inj Some) in Heq. Qed.

Lemma ex_db_safe : db_safe ex_db.
Proof.
  split; [done|]. intros host rh Hh. apply ex_db_host in Hh as ->. split.
  - exists ex_path, []. split; [reflexivity|]. split; [reflexivity|constructor].
  - constructor; [apply ex_path_safe|constructor].
Qed.

(** The code of a run, to evaluate it without its result. *)
Definition run_code (m : cres (rr_code * remap_result)) : option rr_code :=
  match m with Ok (c, _) => Some c | Fault _ => None end.

Lemma remap_run_forwards_witness :
  match remap_run ex_db (ex_request (lit "https")) 7 with
  | Ok (RR_OK, ret) => ∃ rp, rz_path ret = Some rp ∧ authorised (ex_request (lit "https")) rp
  | _ => False
  end.
Proof.
  assert (Hc : run_code (remap_run ex_db (ex_request (lit "https")) 7) = Some RR_OK) by (vm_compute; reflexivity).
  destruct (remap_run ex_db (ex_request (lit "https")) 7) as [[c ret]|] eqn:E; [|discriminate Hc].
  injection Hc as ->.
  destruct (remap_run_forwards ex_db (ex_request (lit "https")) 7 ret E) as (host & rh & rp & n & t & proto & H).
  exists rp. split; apply H.
Defined.

Lemma remap_run_total_witness : ∃ c ret, remap_run ex_db (ex_request (lit "gopher")) 7 = Ok (c, ret).
Proof. apply remap_run_total; [apply ex_db_safe|by eexists|reflexivity|unfold RAND_MAX; lia]. Defined.

Lemma tls_redirect_first_witness :
  ∃ ret, remap_run ex_db (ex_request (lit "http")) 7 = Ok (RR_SYNTHETIC, ret) ∧
    hash_get (rz_headers ret) (lit "Location") = Some (lit "https://example.com/shop/cart?z=1&utm_source=x&a=2").
Proof.
  destruct (tls_redirect_first ex_db (ex_request (lit "http")) 7 (lit "http") (lit "example.com") ex_host ex_path 0)
    as (ret & H1 & _ & H2 & _); [reflexivity|reflexivity|reflexivity|done|by rewrite ex_db_get, decide_True|reflexivity|reflexivity|].
  exists ret. split; [exact H1|exact H2].
Defined.

Lemma auth_decision_witness :
  let ret := set_rz_path result_zero (Some ex_path) in
  ∃ ip_ok pw_ok, (ip_ok = true ↔ whitelisted (rr_addr (ex_request (lit "https"))) []) ∧
    basic_ok (authorization (ex_request (lit "https"))) ex_path = Ok pw_ok.
Proof.
  intros ret.
  destruct (auth_decision (ex_request (lit "https")) ret ex_path) as (ip_ok & pw_ok & H1 & H2 & _);
    [reflexivity|apply ex_path_safe|reflexivity|].
  exists ip_ok, pw_ok. split; [exact H1|exact H2].
Defined.

Lemma cors_origin_allowed_witness :
  let ret := set_rz_path result_zero (Some ex_path) in
  match rr_check_cors (ex_request (lit "https")) ret with
  | Ok (c, ret') => hash_get (rp_cors_origins ex_path) (lit "*") = HASH_PRESENT
  | Fault _ => False
  end.
Proof.
  intros ret. destruct (rr_check_cors (ex_request (lit "https")) ret) as [[c ret']|] eqn:E; [|discriminate E].
  apply (cors_origin_allowed (ex_request (lit "https")) ret ex_path c ret'); [reflexivity|apply hash_new_wf; lia|reflexivity|exact E|].
  apply (inj Ok), pair_eq in E as [_ <-]. reflexivity.
Defined.

Lemma query_normalised_witness :
  let ret := set_rz_path result_zero (Some ex_path) in
  match make_query (ex_request (lit "https")) ret with
  | Ok ret' =>
      match rz_query ret' with
      | None => False
      | Some q' => strtok_all [amp] q' ≡ₚ kept ex_path (strtok_all [amp] (lit "z=1&utm_source=x&a=2"))
      end
  | Fault _ => False
  end.
Proof.
  intros ret.
  assert (Hc : okb (make_query (ex_request (lit "https")) ret) = true) by (vm_compute; reflexivity).
  destruct (make_query (ex_request (lit "https")) ret) as [ret'|] eqn:E; [|discriminate Hc].
  destruct (query_normalised (ex_request (lit "https")) ret ex_path (lit "z=1&utm_source=x&a=2") ret') as [H _];
    [reflexivity|reflexivity|reflexivity|by compute_done|exact E|].
  destruct (rz_query ret') as [q'|] eqn:Eq; [apply H|].
  assert (Hk : length (kept ex_path (strtok_all [amp] (lit "z=1&utm_source=x&a=2"))) = 2%nat) by (vm_compute; reflexivity).
  rewrite H in Hk. discriminate Hk.
Defined.

Lemma cache_key_injective_witness :
  let req := ex_request (lit "https") in
  match remap_make_cache_key req result_zero with
  | Ok key => default [] (rr_path req) = lit "shop/cart"
  | Fault _ => False
  end.
Proof.
  intros req. set (req2 := ex_request (lit "https")).
  destruct (remap_make_cache_key req result_zero) as [key|] eqn:E; [|discriminate E].
  destruct (cache_key_injective req result_zero req2 result_zero key (lit "https") (lit "https") (lit "example.com") (lit "example.com"))
    as (_ & _ & H & _); [reflexivity|reflexivity|reflexivity|reflexivity| |exact E|exact E|exact H].
  intros r t p h [(-> & -> & -> & ->)|(-> & -> & -> & ->)]; vm_compute; intuition congruence.
Defined.

Lemma keep_parameter_decision_witness :
  ∃ b, keep_parameter ex_path (lit "UTM_source=x") = Ok b ∧
    (b = true ↔
      (∀ v p, Some (lit "utm_* fbclid") = Some v → p ∈ strtok_all blanks v → ¬ glob p (lit "UTM_source")) ∧
      (∀ v, None = Some v → ∃ p, p ∈ strtok_all blanks v ∧ glob p (lit "UTM_source"))).
Proof.
  apply (keep_parameter_decision ex_path (Some (lit "utm_* fbclid")) None (lit "UTM_source=x")).
  - reflexivity.
  - reflexivity.
  - intros v p [[= <-]|[=]] Hp.
    assert (Hc : p ∈ [lit "utm_*"; lit "fbclid"]) by exact Hp. clear Hp.
    repeat (apply elem_of_cons in Hc as [->|Hc]; [unfold plain; by compute_done|]). by apply elem_of_nil in Hc.
Defined.
End Examples.
