(* ===== verification/RemapBuild.v ===== *)
(** [remap/remap_build.c]: building the remap database from the cluster state.

    A [remap_host_t] is changed through the pointer [remap_db_get_or_create_host]
    returned; here the host is threaded and written back with [hash_alter].
    The outer loop iterates over the namespaces with the table's iterator
    while the loop body may add (empty) namespaces to the same table. *)

From S2P Require Import Prelude CString Hash Base64 Env Api Namespace Cluster RemapPath RemapHost Crypt Auth Config Strmatch RemapDb.


Section ops.
Context `{P : Posix} `{SSL : OpenSSL}.
Implicit Types (db : remap_db) (cs : cluster) (ns : namespace) (rh : remap_host) (rp : remap_path).

(** * Operations *)

(** Add every address of a subset that has the port. *)
Definition add_subset (port_name : bytes) rp (es : endpoints_subset) : cres remap_path :=
  match hash_get (es_ports es) port_name with
  | None => Ok rp
  | Some epp =>
      foldC (λ rp addr, host ← deref (ea_ip addr); Ok (remap_path_add_address rp host (et_port epp)))
            (es_addrs es) rp
  end.

Definition build_add_endpoints ns rp (svc : service) (port_name : option bytes) : cres remap_path :=
  type ← deref (sv_type svc);
  if streq type SV_TYPE_EXTERNALNAME then
    host ← deref (sv_external_name svc);
    port ← deref port_name;
    Ok (remap_path_add_address rp host (atoi port))
  else
    name ← deref port_name;
    port ← service_find_port svc name SV_P_TCP;
    match port with
    | None => Ok rp
    | Some port =>
        match namespace_get_endpoints ns (sv_name svc) with
        | None => Ok rp
        | Some eps => foldC (add_subset (sp_name port)) (ep_subsets eps) rp
        end
    end.

(** Configure the path at index [i] of the host. *)
Definition build_path_at ns (ing : ingress) rh (i : nat) (svc : service) (port_name : option bytes) : cres remap_host :=
  match rh_paths rh !! i with
  | None => Fault OutOfBounds
  | Some rp =>
      rp ← remap_path_annotate ns rp (in_annotations ing);
      rp ← build_add_endpoints ns rp svc port_name;
      Ok (set_rh_paths rh (<[i := rp]> (rh_paths rh)))
  end.

Definition build_rule_path cs ns (ing : ingress) rh (path : ingress_path) : cres remap_host :=
  sname ← deref (ip_service_name path);
  match namespace_get_service ns sname with
  | None => Ok rh
  | Some svc =>
      match ip_path path with
      | Some p =>
          match remap_host_new_path rh (Some p) with
          | None => Ok rh
          | Some (rh, i) => build_path_at ns ing rh i svc (ip_service_port path)
          end
      | None =>
          let rh := remap_host_annotate rh cs (in_annotations ing) in
          build_path_at ns ing rh 0 svc (ip_service_port path)
      end
  end.

Definition write_host db (hostname : bytes) rh : remap_db :=
  RemapDb _ _ (rd_config db) (rd_healthcheck db) (hash_alter (rd_hosts db) hostname (λ _, rh)).

Definition build_ingress_rule ns (ing : ingress) (st : remap_db * cluster) (rule : ingress_rule)
    : cres (remap_db * cluster) :=
  let '(db, cs) := st in
  match ir_host rule with
  | None => Ok (db, cs)
  | Some host =>
      if negb (cluster_domain_for_ns cs host (ns_name ns)) then Ok (db, cs)
      else
        let '(db, rh) := remap_db_get_or_create_host db host in
        '(cs, rh) ← remap_host_attach_default_tls rh cs host;
        rh ← foldC (build_rule_path cs ns ing) (ir_paths rule) rh;
        Ok (write_host db host rh, cs)
  end.

(** The hosts of one TLS entry; a host the namespace may not use ends the
    loop. *)
Fixpoint tls_hosts cs ns (sec : secret) (hosts : list bytes) db : cres remap_db :=
  match hosts with
  | [] => Ok db
  | hostname :: hosts =>
      if negb (cluster_domain_for_ns cs hostname (ns_name ns)) then Ok db
      else
        let '(db, rh) := remap_db_get_or_create_host db hostname in
        ctx ← secret_make_ssl_ctx sec;
        tls_hosts cs ns sec hosts (write_host db hostname (set_rh_ctx rh ctx))
  end.

Definition build_ingress_tls ns (st : remap_db * cluster) (itls : ingress_tls) : cres (remap_db * cluster) :=
  let '(db, cs) := st in
  sname ← deref (it_secret_name itls);
  match namespace_get_secret ns sname with
  | None => Ok (db, cs)
  | Some sec => db ← tls_hosts cs ns sec (it_hosts itls) db; Ok (db, cs)
  end.

(** Whether the plugin handles the class of an Ingress. *)
Definition class_accepted (cfg : k8s_config) (ing : ingress) : bool :=
  match hash_get (in_annotations ing) IN_CLASS with
  | Some cls => bool_decide (hash_get (co_classes cfg) cls = HASH_PRESENT)
  | None => true
  end.

Definition build_ingress ns (st : remap_db * cluster) (ing : ingress) : cres (remap_db * cluster) :=
  if negb (class_accepted (rd_config st.1) ing) then Ok st
  else
    st ← foldC (build_ingress_rule ns ing) (in_rules ing) st;
    foldC (build_ingress_tls ns) (in_tls ing) st.

Definition build_namespace (st : remap_db * cluster) ns : cres (remap_db * cluster) :=
  foldC (build_ingress ns) (hb_value <$> hash_foreach (ns_ingresses ns)) st.

(** The [hash_foreach] over the namespaces. *)
Fixpoint build_namespaces (fuel : nat) (st : remap_db * cluster) (it : hash_iter_state namespace)
    : cres (remap_db * cluster) :=
  match fuel with
  | O => Fault Diverges
  | S fuel =>
      match hash_iterate (cs_namespaces st.2) it with
      | (None, _) => Ok st
      | (Some b, it) => st ← build_namespace st (hb_value b); build_namespaces fuel st it
      end
  end.

(** At most one namespace is added per certificate of the configuration. *)
Definition build_fuel cs : nat := S (hash_count (cs_namespaces cs) + length (cc_certs (cs_config cs))).

Definition remap_db_from_cluster (cfg : k8s_config) cs : cres (remap_db * cluster) :=
  '(db, cs) ← build_namespaces (build_fuel cs) (remap_db_new cfg, cs) iter_start;
  Ok (RemapDb _ _ (rd_config db) (Some (cc_healthcheck (cs_config cs))) (rd_hosts db), cs).
End ops.

(** * Lemmas *)

(** ** Updates in place of a table *)
Lemma bucket_set_bucket_cases {V} (h : hash V) bn chain i :
  bucket (set_bucket h bn chain) i = bucket h i ∨ (i = bn ∧ bucket (set_bucket h bn chain) i = chain).
Proof.
  unfold bucket, set_bucket; simpl. rewrite list_lookup_insert. case_decide as Hc; [|by left].
  destruct Hc as [-> Hc]. by right.
Qed.

(** All the values of a table satisfy [G]. *)
Definition values_all {V} (G : V → Prop) (h : hash V) : Prop := ∀ bn b, b ∈ bucket h bn → G (hb_value b).

Lemma values_all_set {V} (G : V → Prop) (h : hash V) key v : values_all G h → G v → values_all G (hash_set h key v).
Proof.
  intros Hh Hv bn b. destruct (bucket_set_bucket_cases h (bucket_number h key)
    (HashBucket key (length key) v :: bucket h (bucket_number h key)) bn) as [Hb|[-> Hb]];
    unfold hash_set, hash_setn; rewrite Hb; [apply Hh|].
  intros [->|Hin]%elem_of_cons; [done|by eapply Hh].
Qed.

Lemma values_all_foreach {V} (G : V → Prop) (h : hash V) :
  hash_wf h → (∀ b, b ∈ hash_foreach h → G (hb_value b)) → values_all G h.
Proof.
  intros Hwf H bn b Hb. apply H. rewrite hash_foreach_concat by done. apply elem_of_concat_buckets; [done|].
  by rewrite (proj2 (wf_entries h Hwf _ _ Hb)).
Qed.

(** The iterator only returns values of the table, also when entries were
    added since it was started. *)
Definition iter_all {V} (G : V → Prop) (it : hash_iter_state V) : Prop := ∀ b, b ∈ it_p it → G (hb_value b).

Lemma iter_scan_all {V} (G : V → Prop) (h : hash V) n i b it :
  values_all G h → iter_scan h n i = (Some b, it) → G (hb_value b) ∧ iter_all G it.
Proof.
  intros Hh. revert i; induction n as [|n IH]; intros i; simpl; [done|].
  destruct (bucket h i) as [|b' next] eqn:E; [apply IH|]. intros; simplify_eq.
  assert (Hc : ∀ b0, b0 ∈ b :: next → G (hb_value b0)) by (intros b0 Hb0; eapply (Hh i); by rewrite E).
  split; [apply Hc; by left|done].
Qed.

Lemma hash_iterate_all {V} (G : V → Prop) (h : hash V) it b it' :
  values_all G h → iter_all G it → hash_iterate h it = (Some b, it') → G (hb_value b) ∧ iter_all G it'.
Proof.
  intros Hh Hi. unfold hash_iterate. destruct (hs_size h <=? it_i it)%nat; [done|].
  destruct (it_p it) as [|b0 [|b1 next]] eqn:E; [by apply iter_scan_all..|].
  intros; simplify_eq. unfold iter_all in *. rewrite E in Hi. simpl.
  split; [apply Hi; set_solver|]. intros; apply Hi; set_solver.
Qed.

(** ** Paths and hosts *)
Section hosts.
Context `{P : Posix} `{SSL : OpenSSL}.
Implicit Types (db : remap_db) (cs : cluster) (ns : namespace) (rh : remap_host) (rp : remap_path).

Lemma annotate_one_regex ns rp k v rp' : annotate_one ns rp k v = Ok rp' → rp_regex rp' = rp_regex rp.
Proof.
  unfold annotate_one. cbv zeta.
  repeat match goal with
  | |- (if ?b then _ else _) = _ → _ => destruct b
  | |- (match ?x with Some _ => _ | None => _ end) = _ → _ => destruct x
  end; intros Hr; try (apply (inj Ok) in Hr; subst; by repeat case_match).
  by apply add_users_only in Hr as [u ->].
Qed.

Lemma annotate_regex ns rp ann rp' : remap_path_annotate ns rp ann = Ok rp' → rp_regex rp' = rp_regex rp.
Proof.
  apply (foldC_post (λ r, rp_regex r = rp_regex rp)); [done|].
  intros r b r' _ <- Hr. by apply annotate_one_regex in Hr.
Qed.

Lemma add_subset_regex name rp es rp' : add_subset name rp es = Ok rp' → rp_regex rp' = rp_regex rp.
Proof.
  unfold add_subset. destruct (hash_get _ _); [|by intros Hr; apply (inj Ok) in Hr as <-].
  apply (foldC_post (λ r, rp_regex r = rp_regex rp)); [done|].
  intros r a r' _ <-. destruct (ea_ip a); [|done]. cbn [deref mbind cres_bind]. by intros Hr; apply (inj Ok) in Hr as <-.
Qed.

Lemma build_add_endpoints_regex ns rp svc port rp' :
  build_add_endpoints ns rp svc port = Ok rp' → rp_regex rp' = rp_regex rp.
Proof.
  unfold build_add_endpoints. destruct (sv_type svc) as [t|]; [|done]. cbn [deref mbind cres_bind].
  destruct (streq t SV_TYPE_EXTERNALNAME).
  - destruct (sv_external_name svc); [|done]. cbn [deref mbind cres_bind]. destruct port; [|done].
    cbn [deref mbind cres_bind]. by intros Hr; apply (inj Ok) in Hr as <-.
  - destruct port as [name|]; [|done]. cbn [deref mbind cres_bind].
    destruct (service_find_port _ _ _) as [[p|]|]; cbn [mbind cres_bind];
      [|by intros Hr; apply (inj Ok) in Hr as <-|done].
    destruct (namespace_get_endpoints _ _); [|by intros Hr; apply (inj Ok) in Hr as <-].
    apply (foldC_post (λ r, rp_regex r = rp_regex rp)); [done|].
    intros r a r' _ <- Hr. by apply add_subset_regex in Hr.
Qed.

(** Replacing a path by one with the same expression keeps the host
    well-formed. *)
Lemma host_wf_insert rh i rp rp' :
  host_wf rh → rh_paths rh !! i = Some rp → rp_regex rp' = rp_regex rp →
  host_wf (set_rh_paths rh (<[i := rp']> (rh_paths rh))).
Proof.
  intros (rp0 & rps & Hp & H0 & Hr) Hi Hre. rewrite Hp in *. destruct i as [|i]; simpl in *.
  - simplify_eq. exists rp', rps. by rewrite Hre.
  - exists rp0, (<[i := rp']> rps). split; [done|]. split; [done|]. apply Forall_insert; [done|].
    rewrite Hre. eapply Forall_lookup_1 in Hr; done.
Qed.

Lemma build_path_at_wf ns ing rh i svc port rh' :
  host_wf rh → build_path_at ns ing rh i svc port = Ok rh' → host_wf rh'.
Proof.
  intros Hwf. unfold build_path_at. destruct (rh_paths rh !! i) as [rp|] eqn:Ei; [|done].
  destruct (remap_path_annotate ns rp _) as [rp1|] eqn:E1; [|done]. cbn [mbind cres_bind].
  destruct (build_add_endpoints ns rp1 svc port) as [rp2|] eqn:E2; [|done]. cbn [mbind cres_bind].
  intros Hr. apply (inj Ok) in Hr as <-. eapply host_wf_insert; [done..|].
  rewrite (build_add_endpoints_regex _ _ _ _ _ E2). by apply annotate_regex in E1.
Qed.

Lemma build_rule_path_wf cs ns ing rh path rh' :
  host_wf rh → build_rule_path cs ns ing rh path = Ok rh' → host_wf rh'.
Proof.
  intros Hwf. unfold build_rule_path. destruct (ip_service_name path); [|done]. cbn [deref mbind cres_bind].
  destruct (namespace_get_service ns _) as [svc|]; [|by intros Hr; apply (inj Ok) in Hr as <-].
  destruct (ip_path path) as [p|].
  - destruct (remap_host_new_path rh (Some p)) as [[rh1 i]|] eqn:En; [|by intros Hr; apply (inj Ok) in Hr as <-].
    apply build_path_at_wf. by apply (remap_host_new_path_wf _ _ _ _ Hwf) in En as [? _].
  - apply build_path_at_wf. destruct Hwf as (rp0 & rps & Hp & H0 & Hr). by exists rp0, rps.
Qed.

End hosts.

(** ** The invariant of the build *)
Section invariant.
Context `{P : Posix} `{SSL : OpenSSL}.
Context (cfg : k8s_config) (cs0 : cluster).
Implicit Types (db : remap_db) (cs : cluster) (ns : namespace) (rh : remap_host) (rp : remap_path).

(** [ing] is an Ingress of namespace [ns] of the cluster. *)
Definition ingress_of ns (ing : ingress) : Prop :=
  (∃ b, b ∈ hash_foreach (cs_namespaces cs0) ∧ hb_value b = ns) ∧
  ing ∈ hb_value <$> hash_foreach (ns_ingresses ns).

(** The Ingress names the host in a rule or in its TLS section. *)
Definition names_host (ing : ingress) (host : bytes) : Prop :=
  (∃ r, r ∈ in_rules ing ∧ ir_host r = Some host) ∨ (∃ t, t ∈ in_tls ing ∧ host ∈ it_hosts t).

(** A namespace that may use the host asks for it. *)
Definition granted (host : bytes) : Prop :=
  ∃ ns ing, ingress_of ns ing ∧ class_accepted cfg ing = true ∧ names_host ing host ∧
    cluster_domain_for_ns cs0 host (ns_name ns) = true.

(** A namespace of the cluster, or one without Ingresses. *)
Definition ns_known ns : Prop := ∀ ing, ing ∈ hb_value <$> hash_foreach (ns_ingresses ns) → ingress_of ns ing.

(** A property of hosts that a new host has and that setting a certificate and
    processing a path of an Ingress of the cluster keep. *)
Class HostProperty (good : remap_host → Prop) := {
  good_new : good remap_host_new;
  good_ctx rh ctx : good rh → good (set_rh_ctx rh ctx);
  good_path ns ing rule path cs rh rh' :
    ingress_of ns ing → rule ∈ in_rules ing → path ∈ ir_paths rule →
    good rh → build_rule_path cs ns ing rh path = Ok rh' → good rh';
}.
Context (good : remap_host → Prop) `{HP : !HostProperty good}.

Record build_inv (st : remap_db * cluster) : Prop := {
  bi_config : rd_config st.1 = cfg;
  bi_cluster : cs_config st.2 = cs_config cs0;
  bi_namespaces : values_all ns_known (cs_namespaces st.2);
  bi_hosts : ∃ m, hash_models (rd_hosts st.1) m ∧ map_Forall (λ host rh, good rh ∧ granted host) m;
}.

Lemma ns_known_make name : ns_known (namespace_make name).
Proof.
  intros ing Hin. exfalso. revert Hin. unfold namespace_make. cbn [ns_ingresses].
  rewrite hash_foreach_concat by (apply hash_new_wf; lia).
  change (concat (hs_buckets (hash_new (V:=ingress) 127 true))) with (@nil (hashbucket ingress)).
  apply not_elem_of_nil.
Qed.

Lemma domain_for_ns_config cs host name :
  cs_config cs = cs_config cs0 → cluster_domain_for_ns cs host name = cluster_domain_for_ns cs0 host name.
Proof. unfold cluster_domain_for_ns. by intros ->. Qed.

(** Writing a well-formed host that was granted. *)
Lemma write_host_inv db cs host db' rh0 rh :
  build_inv (db, cs) → remap_db_get_or_create_host db host = (db', rh0) → granted host →
  good rh0 ∧ (good rh → build_inv (write_host db' host rh, cs)).
Proof.
  intros [Hc Hcs Hn (m & Hm & Hall)] Hg Hgr. simpl in *. unfold remap_db_get_or_create_host, remap_db_get_host in Hg.
  rewrite (hash_models_get _ _ _ Hm) in Hg. destruct (m !! host) as [r|] eqn:E.
  - apply pair_eq in Hg as [<- <-]. split; [by apply (Hall host)|]. intros Hwf. split; [done..|].
    exists (alter (λ _, rh) host m). split; [by apply hash_models_alter|].
    intros k r' Hk. rewrite lookup_alter in Hk. case_decide; [|by apply (Hall k)].
    subst k. rewrite E in Hk. simplify_eq/=. done.
  - apply pair_eq in Hg as [<- <-]. split; [apply good_new|]. intros Hwf. split; [done..|].
    exists (alter (λ _, rh) host (<[host := remap_host_new]> m)).
    split; [apply hash_models_alter; by apply hash_models_set|].
    intros k r' Hk. rewrite lookup_alter in Hk. case_decide as Hkh; [subst k|].
    + rewrite lookup_insert_eq in Hk. simplify_eq/=. done.
    + rewrite lookup_insert_ne in Hk by done. by apply (Hall k).
Qed.

Lemma attach_default_tls_inv rh cs host cs' rh' :
  remap_host_attach_default_tls rh cs host = Ok (cs', rh') → cs_config cs = cs_config cs0 →
  values_all ns_known (cs_namespaces cs) →
  cs_config cs' = cs_config cs0 ∧ values_all ns_known (cs_namespaces cs') ∧ (good rh → good rh').
Proof.
  unfold remap_host_attach_default_tls. intros H Hc Hn.
  destruct (cluster_get_cert_for_hostname cs host) as [crt|].
  2:{ apply (inj Ok), pair_eq in H as [<- <-]. done. }
  assert (Hg : cs_config (cluster_get_namespace cs (cr_namespace crt)).1 = cs_config cs0 ∧
               values_all ns_known (cs_namespaces (cluster_get_namespace cs (cr_namespace crt)).1)).
  { unfold cluster_get_namespace. destruct (hash_get _ _); [done|]. split; [done|].
    apply values_all_set; [done|apply ns_known_make]. }
  destruct (cluster_get_namespace cs (cr_namespace crt)) as [cs1 ns1]. destruct Hg as [Hc1 Hn1].
  destruct (namespace_get_secret ns1 (cr_name crt)) as [s|].
  - destruct (secret_make_ssl_ctx s) as [ctx|]; [|done]. cbn [mbind cres_bind] in H.
    apply (inj Ok), pair_eq in H as [<- <-]. split; [done|]. split; [done|].
    apply good_ctx.
  - apply (inj Ok), pair_eq in H as [<- <-]. done.
Qed.

Lemma build_ingress_rule_inv ns ing st rule st' :
  ingress_of ns ing → class_accepted cfg ing = true → rule ∈ in_rules ing →
  build_inv st → build_ingress_rule ns ing st rule = Ok st' → build_inv st'.
Proof.
  intros Hof Hcl Hrule Hinv. destruct st as [db cs]. unfold build_ingress_rule.
  destruct (ir_host rule) as [host|] eqn:Eh; [|by intros H; apply (inj Ok) in H as <-].
  destruct (cluster_domain_for_ns cs host (ns_name ns)) eqn:Ed; cbn [negb]; [|by intros H; apply (inj Ok) in H as <-].
  assert (Hgr : granted host).
  { exists ns, ing. split; [done|]. split; [done|]. split; [left; by exists rule|].
    by rewrite <- (domain_for_ns_config cs) by apply Hinv. }
  destruct (remap_db_get_or_create_host db host) as [db1 rh] eqn:Eg.
  destruct (remap_host_attach_default_tls rh cs host) as [[cs1 rh1]|] eqn:Et; [|done]. cbn [mbind cres_bind].
  destruct (attach_default_tls_inv _ _ _ _ _ Et) as (Hc1 & Hn1 & Hw1); [apply Hinv..|].
  destruct (foldC _ _ _) as [rh2|] eqn:Ep; [|done]. cbn [mbind cres_bind].
  intros H. apply (inj Ok) in H as <-.
  destruct (write_host_inv db cs host db1 rh rh2 Hinv Eg Hgr) as [Hwf Hw].
  apply (foldC_post good) in Ep; [|by apply Hw1|intros r p r' Hp; by apply (good_path ns ing rule p)].
  destruct (Hw Ep). by constructor.
Qed.

Lemma tls_hosts_inv cs ns ing t sec hosts db db' :
  ingress_of ns ing → class_accepted cfg ing = true → t ∈ in_tls ing → (∀ h, h ∈ hosts → h ∈ it_hosts t) →
  build_inv (db, cs) → tls_hosts cs ns sec hosts db = Ok db' → build_inv (db', cs).
Proof.
  intros Hof Hcl Ht. revert db; induction hosts as [|host hosts IH]; intros db Hsub Hinv; simpl.
  { by intros H; apply (inj Ok) in H as <-. }
  destruct (cluster_domain_for_ns cs host (ns_name ns)) eqn:Ed; cbn [negb]; [|by intros H; apply (inj Ok) in H as <-].
  assert (Hgr : granted host).
  { exists ns, ing. split; [done|]. split; [done|]. split.
    - right. exists t. split; [done|]. apply Hsub. by left.
    - by rewrite <- (domain_for_ns_config cs) by apply Hinv. }
  destruct (remap_db_get_or_create_host db host) as [db1 rh] eqn:Eg.
  destruct (secret_make_ssl_ctx sec) as [ctx|]; [|done]. cbn [mbind cres_bind].
  apply IH; [intros; apply Hsub; by right|].
  destruct (write_host_inv db cs host db1 rh (set_rh_ctx rh ctx) Hinv Eg Hgr) as [Hwf Hw]. apply Hw.
  by apply good_ctx.
Qed.

Lemma build_ingress_tls_inv ns ing st t st' :
  ingress_of ns ing → class_accepted cfg ing = true → t ∈ in_tls ing →
  build_inv st → build_ingress_tls ns st t = Ok st' → build_inv st'.
Proof.
  intros Hof Hcl Ht Hinv. destruct st as [db cs]. unfold build_ingress_tls.
  destruct (it_secret_name t); [|done]. cbn [deref mbind cres_bind].
  destruct (namespace_get_secret ns _) as [sec|]; [|by intros H; apply (inj Ok) in H as <-].
  destruct (tls_hosts cs ns sec (it_hosts t) db) as [db'|] eqn:E; [|done]. cbn [mbind cres_bind].
  intros H. apply (inj Ok) in H as <-. by eapply tls_hosts_inv.
Qed.

Lemma build_ingress_inv ns st ing st' :
  ingress_of ns ing → build_inv st → build_ingress ns st ing = Ok st' → build_inv st'.
Proof.
  intros Hof Hinv. unfold build_ingress. rewrite (bi_config st Hinv).
  destruct (class_accepted cfg ing) eqn:Ec; cbn [negb]; [|by intros H; apply (inj Ok) in H as <-].
  destruct (foldC _ (in_rules ing) st) as [st1|] eqn:E1; [|done]. cbn [mbind cres_bind]. intros E2.
  apply (foldC_post build_inv) in E1; [|done|intros b r b' Hr Hb; by apply (build_ingress_rule_inv ns ing)].
  revert E2. apply (foldC_post build_inv); [done|]. intros b t b' Ht Hb. by apply (build_ingress_tls_inv ns ing).
Qed.

Lemma build_namespace_inv ns st st' : ns_known ns → build_inv st → build_namespace st ns = Ok st' → build_inv st'.
Proof.
  intros Hk Hinv. apply (foldC_post build_inv); [done|].
  intros b ing b' Hi Hb. apply build_ingress_inv; [by apply Hk|done].
Qed.

Lemma build_namespaces_inv fuel st it st' :
  build_inv st → iter_all ns_known it → build_namespaces fuel st it = Ok st' → build_inv st'.
Proof.
  revert st it; induction fuel as [|fuel IH]; intros st it Hinv Hit; simpl; [done|].
  destruct (hash_iterate (cs_namespaces st.2) it) as [[b|] it'] eqn:Ei.
  - destruct (hash_iterate_all ns_known _ _ _ _ (bi_namespaces st Hinv) Hit Ei) as [Hb Hit'].
    destruct (build_namespace st (hb_value b)) as [st1|] eqn:E1; [|done]. cbn [mbind cres_bind].
    apply IH; [|done]. by eapply build_namespace_inv.
  - by intros H; apply (inj Ok) in H as <-.
Qed.

Lemma build_inv_start : hash_wf (cs_namespaces cs0) → build_inv (remap_db_new cfg, cs0).
Proof.
  intros Hwf. split; [done..| |].
  - apply values_all_foreach; [done|]. intros b Hb ing Hing. split; [by exists b|done].
  - exists ∅. split; [apply hash_models_new; lia|]. apply map_Forall_empty.
Qed.
End invariant.

#[global] Instance host_wf_property `{P : Posix} `{SSL : OpenSSL} cs0 : HostProperty cs0 host_wf.
Proof.
  split; [apply remap_host_new_wf| |].
  - intros rh ctx (rp0 & rps & Hwf). by exists rp0, rps.
  - intros ns ing rule path cs rh rh' _ _ _. apply build_rule_path_wf.
Qed.

Lemma built_granted `{Posix} `{OpenSSL} (cfg : k8s_config) (cs cs' : cluster) (db : remap_db)
    (host : bytes) (rh : remap_host) :
  hash_wf (cs_namespaces cs) →
  remap_db_from_cluster cfg cs = Ok (db, cs') → remap_db_get_host db host = Some rh →
  granted cfg cs host ∧ host_wf rh ∧ cs_config cs' = cs_config cs ∧
  rd_healthcheck db = Some (cc_healthcheck (cs_config cs)).
Proof.
  intros Hwf. unfold remap_db_from_cluster.
  destruct (build_namespaces _ _ _) as [[db1 cs1]|] eqn:E; [|done]. cbn [mbind cres_bind].
  intros Hr Hh. apply (inj Ok), pair_eq in Hr as [<- <-].
  apply (build_namespaces_inv cfg cs host_wf) in E; [|by apply build_inv_start|by intros b Hb%elem_of_nil].
  destruct E as [Hcfg Hcs _ (m & Hm & Hall)]. unfold remap_db_get_host in Hh; simpl in *.
  rewrite (hash_models_get _ _ _ Hm) in Hh. destruct (Hall _ _ Hh) as [??]. by rewrite Hcs.
Qed.

(** * Properties *)

(** C8. Every host of a database built from a cluster was asked for by an
    Ingress of a class the plugin handles, in a namespace that the domain
    access list permits to use that host, whatever the other Ingresses and
    the order in which they are processed; every host has its default path
    first and a compiled expression on every other path; and the
    configuration of the cluster is not changed. *)
Theorem built_hosts_permitted `{Posix} `{OpenSSL} (cfg : k8s_config) (cs cs' : cluster) (db : remap_db)
    (host : bytes) (rh : remap_host) :
  hash_wf (cs_namespaces cs) →
  remap_db_from_cluster cfg cs = Ok (db, cs') → remap_db_get_host db host = Some rh →
  granted cfg cs host ∧ host_wf rh ∧ cs_config cs' = cs_config cs ∧
  rd_healthcheck db = Some (cc_healthcheck (cs_config cs)).
Proof. apply built_granted. Qed.

(** ** Termination and totality *)

(** Adding an entry while an iteration is under way makes it at most one
    entry longer. *)
Lemma concat_insert_length {A} (l : list (list A)) j x c :
  l !! j = Some c → length (concat (<[j := x :: c]> l)) = S (length (concat l)).
Proof.
  revert j; induction l as [|k l IH]; intros [|j] Hj; simpl in *; try done.
  - simplify_eq. done.
  - rewrite !length_app, IH by done. lia.
Qed.

Lemma iter_rest_set {V} (h : hash V) key v it :
  hash_wf h → length (iter_rest (hash_set h key v) it) ≤ S (length (iter_rest h it)).
Proof.
  intros Hwf. set (bn := bucket_number h key).
  destruct (lookup_lt_is_Some_2 (hs_buckets h) bn) as [c Hc].
  { rewrite (wf_length h Hwf). apply bucket_number_lt, Hwf. }
  assert (Hd : ∀ i, length (concat (drop i (hs_buckets (hash_set h key v)))) ≤ S (length (concat (drop i (hs_buckets h))))).
  { intros i. unfold hash_set, hash_setn, set_bucket; cbn [hs_buckets]. fold bn.
    replace (bucket h bn) with c by (unfold bucket; by rewrite Hc).
    destruct (decide (bn < i)) as [Hlt|Hge].
    - rewrite drop_insert_lt by done. lia.
    - rewrite drop_insert_ge by lia. rewrite (concat_insert_length _ _ _ c); [lia|].
      rewrite lookup_drop. by replace (i + (bn - i)) with bn by lia. }
  unfold iter_rest. cbn [hs_size hash_set hash_setn set_bucket].
  destruct (hs_size h <=? it_i it); [simpl; lia|].
  destruct (it_p it) as [|b next]; [apply Hd|]. rewrite !length_app. pose proof (Hd (S (it_i it))). lia.
Qed.

Lemma hash_get_values {V} (G : V → Prop) (h : hash V) key v : values_all G h → hash_get h key = Some v → G v.
Proof.
  intros Hh. unfold hash_get, hash_getn. generalize (bucket_number h key) as bn. intros bn.
  assert (Hb : ∀ b, b ∈ bucket h bn → G (hb_value b)) by apply Hh. clear Hh.
  induction (bucket h bn) as [|b chain IH]; simpl; [done|].
  destruct (key_matches key b); [intros [= <-]; apply Hb; by left|]. apply IH. intros; apply Hb; by right.
Qed.

Section total.
Context `{P : Posix} `{SSL : OpenSSLLaws}.
Implicit Types (db : remap_db) (cs : cluster) (ns : namespace) (rh : remap_host) (rp : remap_path).

(** The objects the builder can use: the fields it dereferences are present,
    key pairs are valid base64, and no user of a secret that an auth-secret
    annotation names has an empty password. *)
Record ingress_safe ns (ing : ingress) : Prop := {
  is_paths r p : r ∈ in_rules ing → p ∈ ir_paths r → is_Some (ip_service_name p) ∧ is_Some (ip_service_port p);
  is_tls t : t ∈ in_tls ing → is_Some (it_secret_name t);
  is_auth b se : b ∈ hash_foreach (in_annotations ing) → take (hb_keylen b) (hb_key b) = IN_AUTH_SECRET →
    namespace_get_secret ns (hb_value b) = Some se → passwords_ok se;
}.
Definition service_safe (svc : service) : Prop :=
  is_Some (sv_ports svc) ∧ ∃ t, sv_type svc = Some t ∧ (t = SV_TYPE_EXTERNALNAME → is_Some (sv_external_name svc)).
Record ns_safe ns : Prop := {
  nss_ingresses ing : ing ∈ hb_value <$> hash_foreach (ns_ingresses ns) → ingress_safe ns ing;
  nss_services n svc : namespace_get_service ns n = Some svc → service_safe svc;
  nss_endpoints n e s a : namespace_get_endpoints ns n = Some e → s ∈ ep_subsets e → a ∈ es_addrs s → is_Some (ea_ip a);
  nss_secrets n s : namespace_get_secret ns n = Some s → tls_ok s;
}.

(** A namespace of safe objects, by the objects its tables hold. *)
Lemma ns_models_safe ns v :
  ns_models ns v →
  map_Forall (λ _ i, ingress_safe ns i) (nv_ingresses v) → map_Forall (λ _, service_safe) (nv_services v) →
  map_Forall (λ _ e, ∀ s a, s ∈ ep_subsets e → a ∈ es_addrs s → is_Some (ea_ip a)) (nv_endpointses v) →
  map_Forall (λ _, tls_ok) (nv_secrets v) → ns_safe ns.
Proof.
  intros [Hi Hse Hsv He] Fi Fsv Fe Fse. split.
  - intros ing (b & -> & Hb)%list_elem_of_fmap.
    assert (Hin : (hb_key b, hb_value b) ∈ hash_bindings (ns_ingresses ns)) by (apply list_elem_of_fmap; eauto).
    rewrite (hash_models_bindings _ _ Hi), elem_of_map_to_list in Hin. by apply (Fi _ _ Hin).
  - intros n svc Hn. unfold namespace_get_service in Hn. rewrite (hash_models_get _ _ _ Hsv) in Hn. by apply (Fsv _ _ Hn).
  - intros n e s a Hn. unfold namespace_get_endpoints in Hn. rewrite (hash_models_get _ _ _ He) in Hn. by apply (Fe _ _ Hn).
  - intros n s Hn. unfold namespace_get_secret in Hn. rewrite (hash_models_get _ _ _ Hse) in Hn. by apply (Fse _ _ Hn).
Qed.

Lemma ns_safe_make name : ns_safe (namespace_make name).
Proof.
  assert (Hg : ∀ {V} k, hash_get (hash_new (V:=V) 127 true) k = None).
  { intros V k. rewrite hash_get_stack. exact (f_equal head (hash_stack_new 127 true k)). }
  split.
  - intros ing Hin. exfalso. revert Hin. unfold namespace_make; cbn [ns_ingresses].
    rewrite hash_foreach_concat by (apply hash_new_wf; lia).
    change (concat (hs_buckets (hash_new (V:=ingress) 127 true))) with (@nil (hashbucket ingress)).
    apply not_elem_of_nil.
  - intros n svc. unfold namespace_get_service. cbn [ns_services namespace_make]. by rewrite Hg.
  - intros n e s a. unfold namespace_get_endpoints. cbn [ns_endpointses namespace_make]. by rewrite Hg.
  - intros n s. unfold namespace_get_secret. cbn [ns_secrets namespace_make]. by rewrite Hg.
Qed.

Lemma build_add_endpoints_total ns rp svc port :
  ns_safe ns → service_safe svc → ∃ rp', build_add_endpoints ns rp svc (Some port) = Ok rp'.
Proof.
  intros Hns (Hports & t & Ht & Hext). unfold build_add_endpoints. rewrite Ht. cbn [deref mbind cres_bind].
  destruct (streq t SV_TYPE_EXTERNALNAME) eqn:Et.
  - apply streq_true in Et. destruct (Hext Et) as [e ->]. cbn [deref mbind cres_bind]. eauto.
  - unfold service_find_port. destruct Hports as [ports ->]. cbn [deref mbind cres_bind].
    match goal with |- context [match ?x with Some _ => _ | None => _ end] => destruct x as [p|] end; [|by eauto].
    destruct (namespace_get_endpoints ns (sv_name svc)) as [e|] eqn:Ee; [|by eauto].
    apply foldC_total. intros r s Hs. unfold add_subset. destruct (hash_get _ _); [|by eauto].
    apply foldC_total. intros r1 a Ha. destruct (nss_endpoints ns Hns _ _ _ _ Ee Hs Ha) as [ip ->]. eauto.
Qed.

Lemma build_rule_path_total cs ns ing rh r p :
  ns_safe ns → ingress_safe ns ing → r ∈ in_rules ing → p ∈ ir_paths r → host_wf rh →
  ∃ rh', build_rule_path cs ns ing rh p = Ok rh' ∧ host_wf rh'.
Proof.
  intros Hns Hing Hr Hp Hwf.
  enough (∃ rh', build_rule_path cs ns ing rh p = Ok rh') as [rh' Hb].
  { exists rh'. split; [done|]. by eapply build_rule_path_wf. }
  unfold build_rule_path. destruct (is_paths ns ing Hing r p Hr Hp) as [[n ->] [port ->]]. cbn [deref mbind cres_bind].
  destruct (namespace_get_service ns n) as [svc|] eqn:Es; [|by eauto].
  assert (Hat : ∀ rh i, is_Some (rh_paths rh !! i) → ∃ rh', build_path_at ns ing rh i svc (Some port) = Ok rh').
  { intros rh1 i [rp Hi]. unfold build_path_at. rewrite Hi.
    destruct (annotate_total ns rp _ (is_auth ns ing Hing)) as [rp1 ->]. cbn [mbind cres_bind].
    destruct (build_add_endpoints_total ns rp1 svc port Hns (nss_services ns Hns _ _ Es)) as [rp2 ->]. eauto. }
  destruct (ip_path p) as [path|].
  - destruct (remap_host_new_path rh (Some path)) as [[rh1 i]|] eqn:En; [|by eauto].
    apply Hat. destruct (remap_host_new_path_wf rh path rh1 i Hwf En) as (_ & (rp & _ & ->) & ->).
    rewrite lookup_app_r, Nat.sub_diag by done. by eexists.
  - apply Hat. destruct Hwf as (rp0 & rps & Hp0 & _). simpl. rewrite Hp0. by eexists.
Qed.

(** The certificates whose namespace is not in the table yet. *)
Definition missing cs : nat :=
  length (filter (λ crt, hash_get (cs_namespaces cs) (cr_namespace crt) = None) (cc_certs (cs_config cs))).

(** A bound on the iterations that are left. *)
Definition potential cs (it : hash_iter_state namespace) : nat :=
  length (iter_rest (cs_namespaces cs) it) + missing cs.

Lemma get_namespace_potential cs crt it :
  hash_wf (cs_namespaces cs) → crt ∈ cc_certs (cs_config cs) →
  potential (cluster_get_namespace cs (cr_namespace crt)).1 it ≤ potential cs it.
Proof.
  intros Hwf Hin. unfold cluster_get_namespace.
  destruct (hash_get (cs_namespaces cs) (cr_namespace crt)) eqn:E; [done|].
  unfold potential, missing. cbn [cs_namespaces cs_config fst].
  pose proof (iter_rest_set (cs_namespaces cs) (cr_namespace crt) (namespace_make (cr_namespace crt)) it Hwf).
  enough (length (filter (λ c, hash_get (hash_set (cs_namespaces cs) (cr_namespace crt) (namespace_make (cr_namespace crt)))
                     (cr_namespace c) = None) (cc_certs (cs_config cs))) <
          length (filter (λ c, hash_get (cs_namespaces cs) (cr_namespace c) = None) (cc_certs (cs_config cs)))) by lia.
  assert (Hmono : ∀ l, length (filter (λ c, hash_get (hash_set (cs_namespaces cs) (cr_namespace crt) (namespace_make (cr_namespace crt)))
                     (cr_namespace c) = None) l) ≤ length (filter (λ c, hash_get (cs_namespaces cs) (cr_namespace c) = None) l)).
  { induction l as [|c l IH]; [done|]. rewrite !filter_cons, hash_get_set by done.
    repeat case_decide; simpl; try lia; try congruence. }
  revert Hin. generalize (cc_certs (cs_config cs)) as l. induction l as [|c l IH]; [by intros ?%elem_of_nil|].
  intros [<-|Hin]%elem_of_cons; rewrite !filter_cons, hash_get_set by done.
  - rewrite E, (decide_True (P := cr_namespace crt = cr_namespace crt)), decide_False, decide_True by done.
    cbn [length]. specialize (Hmono l). lia.
  - specialize (IH Hin). repeat case_decide; simpl; try lia; try congruence.
Qed.
(** What every step of the build keeps, with the bound [n] on what is left of
    the iteration [it]. *)
Record loop_inv (it : hash_iter_state namespace) (n : nat) (st : remap_db * cluster) : Prop := {
  li_wf : hash_wf (cs_namespaces st.2);
  li_safe : values_all ns_safe (cs_namespaces st.2);
  li_left : potential st.2 it ≤ n;
  li_hosts : ∃ m, hash_models (rd_hosts st.1) m ∧ map_Forall (λ _ rh, host_wf rh) m;
}.

Lemma attach_default_tls_total rh db cs host it n :
  loop_inv it n (db, cs) →
  ∃ cs' rh', remap_host_attach_default_tls rh cs host = Ok (cs', rh') ∧ loop_inv it n (db, cs') ∧
    rh_paths rh' = rh_paths rh.
Proof.
  intros [Hwf Hs Hl Hm]; cbn [fst snd] in *. unfold remap_host_attach_default_tls, cluster_get_cert_for_hostname.
  destruct (list_find _ (cc_certs (cs_config cs))) as [[i crt]|] eqn:Ef; cbn [fmap option_fmap option_map snd].
  2:{ exists cs, rh. by split_and!. }
  apply list_find_Some in Ef as (Hi & _ & _). apply list_elem_of_lookup_2 in Hi.
  pose proof (get_namespace_potential cs crt it Hwf Hi) as Hpot.
  assert (Hns : ns_safe (cluster_get_namespace cs (cr_namespace crt)).2).
  { unfold cluster_get_namespace. destruct (hash_get _ _) eqn:E; simpl; [by eapply hash_get_values|apply ns_safe_make]. }
  assert (Hc : hash_wf (cs_namespaces (cluster_get_namespace cs (cr_namespace crt)).1) ∧
               values_all ns_safe (cs_namespaces (cluster_get_namespace cs (cr_namespace crt)).1)).
  { unfold cluster_get_namespace. destruct (hash_get _ _) eqn:E; simpl; [done|].
    split; [by apply hash_set_wf|]. apply values_all_set; [done|apply ns_safe_make]. }
  destruct (cluster_get_namespace cs (cr_namespace crt)) as [cs1 ns1]; cbn [fst snd] in *. destruct Hc as [Hw1 Hs1].
  assert (Hinv : loop_inv it n (db, cs1)) by (split; cbn [fst snd]; [done..|lia|done]).
  destruct (namespace_get_secret ns1 (cr_name crt)) as [sec|] eqn:Es.
  - destruct (secret_make_ssl_ctx_total _ (nss_secrets ns1 Hns _ _ Es)) as [c ->]. cbn [mbind cres_bind]. eexists _, _. by split_and!.
  - exists cs1, rh. by split_and!.
Qed.

Lemma get_or_create_total db cs host it n :
  loop_inv it n (db, cs) →
  ∃ db' rh, remap_db_get_or_create_host db host = (db', rh) ∧ host_wf rh ∧
    ∀ rh' cs', host_wf rh' → loop_inv it n (db, cs') → loop_inv it n (write_host db' host rh', cs').
Proof.
  intros [_ _ _ (m & Hm & Hall)]; cbn [fst snd] in *. unfold remap_db_get_or_create_host, remap_db_get_host.
  rewrite (hash_models_get _ _ _ Hm). destruct (m !! host) as [r|] eqn:E; eexists _, _; (split; [done|]).
  - split; [by apply (Hall host)|]. intros rh' cs' Hw [Hwf Hs Hl _]. split; [done..|].
    exists (alter (λ _, rh') host m). split; [by apply hash_models_alter|].
    intros k r' Hk. rewrite lookup_alter in Hk. case_decide; [|by apply (Hall k)].
    subst k. rewrite E in Hk. by simplify_eq/=.
  - split; [apply remap_host_new_wf|]. intros rh' cs' Hw [Hwf Hs Hl _]. split; [done..|].
    exists (alter (λ _, rh') host (<[host := remap_host_new]> m)).
    split; [apply hash_models_alter; by apply hash_models_set|].
    intros k r' Hk. rewrite lookup_alter in Hk. case_decide as Hkh; [subst k|].
    + rewrite lookup_insert_eq in Hk. by simplify_eq/=.
    + rewrite lookup_insert_ne in Hk by done. by apply (Hall k).
Qed.

Lemma build_ingress_rule_total ns ing r st it n :
  ns_safe ns → ingress_safe ns ing → r ∈ in_rules ing → loop_inv it n st →
  ∃ st', build_ingress_rule ns ing st r = Ok st' ∧ loop_inv it n st'.
Proof.
  intros Hns Hing Hr Hinv. destruct st as [db cs]. unfold build_ingress_rule.
  destruct (ir_host r) as [host|]; [|by eauto].
  destruct (cluster_domain_for_ns cs host (ns_name ns)); cbn [negb]; [|by eauto].
  destruct (get_or_create_total db cs host it n Hinv) as (db1 & rh & -> & Hwf & Hwrite).
  destruct (attach_default_tls_total rh db cs host it n Hinv) as (cs1 & rh1 & -> & Hinv1 & Hpaths).
  cbn [mbind cres_bind].
  destruct (foldC_inv host_wf (build_rule_path cs1 ns ing) (ir_paths r) rh1) as (rh2 & -> & Hwf2).
  - unfold host_wf in *. by rewrite Hpaths.
  - intros rh' p Hp Hw. by eapply build_rule_path_total.
  - cbn [mbind cres_bind]. eexists. split; [done|]. by apply Hwrite.
Qed.

Lemma tls_hosts_total cs ns sec hosts db it n c :
  secret_make_ssl_ctx sec = Ok c → loop_inv it n (db, cs) →
  ∃ db', tls_hosts cs ns sec hosts db = Ok db' ∧ loop_inv it n (db', cs).
Proof.
  intros Hsec. revert db; induction hosts as [|host hosts IH]; intros db Hinv; simpl; [by eauto|].
  destruct (cluster_domain_for_ns cs host (ns_name ns)); cbn [negb]; [|by eauto].
  destruct (get_or_create_total db cs host it n Hinv) as (db1 & rh & -> & Hwf & Hwrite).
  rewrite Hsec. cbn [mbind cres_bind]. apply IH, Hwrite; [|done]. exact Hwf.
Qed.

Lemma build_ingress_total ns st ing it n :
  ns_safe ns → ingress_safe ns ing → loop_inv it n st → ∃ st', build_ingress ns st ing = Ok st' ∧ loop_inv it n st'.
Proof.
  intros Hns Hing Hinv. unfold build_ingress. destruct (class_accepted _ ing); cbn [negb]; [|by eauto].
  destruct (foldC_inv (loop_inv it n) (build_ingress_rule ns ing) (in_rules ing) st) as (st1 & -> & Hinv1); [done| |].
  { intros b r Hr Hb. by apply build_ingress_rule_total. }
  cbn [mbind cres_bind]. apply foldC_inv; [done|]. intros [db cs] t Ht Hb. unfold build_ingress_tls.
  destruct (is_tls ns ing Hing t Ht) as [sname ->]. cbn [deref mbind cres_bind].
  destruct (namespace_get_secret ns sname) as [sec|] eqn:Es; [|by eauto].
  destruct (secret_make_ssl_ctx_total _ (nss_secrets ns Hns _ _ Es)) as [c Hc].
  destruct (tls_hosts_total cs ns sec (it_hosts t) db it n c Hc Hb) as (db' & -> & Hinv'). eauto.
Qed.

Lemma build_namespaces_total fuel st it :
  loop_inv it (potential st.2 it) st → iter_all ns_safe it → potential st.2 it < fuel →
  ∃ st', build_namespaces fuel st it = Ok st' ∧ ∃ it' n', loop_inv it' n' st'.
Proof.
  revert st it; induction fuel as [|fuel IH]; intros st it Hinv Hit Hf; [lia|]. simpl.
  pose proof (hash_iterate_rest (cs_namespaces st.2) it (wf_length _ (li_wf _ _ _ Hinv))) as Hrest.
  destruct (hash_iterate (cs_namespaces st.2) it) as [[b|] it'] eqn:Ei; [|by eauto 10].
  destruct (hash_iterate_all ns_safe _ _ _ _ (li_safe _ _ _ Hinv) Hit Ei) as [Hb Hit'].
  assert (Hp : potential st.2 it = S (potential st.2 it')) by (unfold potential; rewrite Hrest; simpl; lia).
  assert (Hinv' : loop_inv it' (potential st.2 it') st) by (destruct Hinv; by constructor).
  destruct (foldC_inv (loop_inv it' (potential st.2 it')) (build_ingress (hb_value b))
    (hb_value <$> hash_foreach (ns_ingresses (hb_value b))) st) as (st1 & Hst1 & Hinv1); [done| |].
  { intros st2 ing Hing Hst2. apply build_ingress_total; [done|by apply Hb|done]. }
  unfold build_namespace. rewrite Hst1. cbn [mbind cres_bind]. apply IH; [|done|].
  - destruct Hinv1; by constructor.
  - pose proof (li_left _ _ _ Hinv1). lia.
Qed.
End total.

Lemma build_returns `{Posix} `{OpenSSLLaws} (cfg : k8s_config) (cs : cluster) :
  hash_wf (cs_namespaces cs) →
  (∀ b, b ∈ hash_foreach (cs_namespaces cs) → ns_safe (hb_value b)) →
  ∃ db cs', remap_db_from_cluster cfg cs = Ok (db, cs').
Proof.
  intros Hwf Hs. unfold remap_db_from_cluster.
  assert (Hpot : potential cs iter_start < build_fuel cs).
  { unfold potential, build_fuel, missing.
    pose proof (length_filter (λ crt, hash_get (cs_namespaces cs) (cr_namespace crt) = None) (cc_certs (cs_config cs))).
    assert (Hr : length (iter_rest (cs_namespaces cs) iter_start) = hash_count (cs_namespaces cs)); [|lia].
    unfold iter_rest, hash_count; simpl. rewrite (proj2 (Nat.leb_gt _ _)) by apply Hwf. by rewrite drop_0. }
  destruct (build_namespaces_total (build_fuel cs) (remap_db_new cfg, cs) iter_start) as ([db cs'] & -> & _).
  - split; [done|by apply values_all_foreach|done|]. exists ∅.
    split; [apply hash_models_new; lia|apply map_Forall_empty].
  - by intros b Hb%elem_of_nil.
  - done.
  - cbn [mbind cres_bind]. eauto.
Qed.

(** C17. The database of a cluster with a well-formed table of namespaces is
    built: the loop over the namespaces ends although its body adds namespaces
    to the table it iterates over, after at most one step per namespace and per
    default certificate, and nothing in it faults.  The objects must have what
    the builder uses without a test ([ns_safe]): every path of a rule a service
    name and port, every tls entry a secret name, every Service ports and a
    type (an ExternalName one its name), every Endpoints address an ip; a
    secret with both tls.crt and tls.key valid base64 in them; and no user with
    an empty password in a secret that an auth-secret annotation names, which
    the loop that strips line ends never leaves ([empty_password_diverges]).
    Of OpenSSL it is used that reading a certificate consumes input. *)
Theorem build_total `{Posix} `{OpenSSLLaws} (cfg : k8s_config) (cs : cluster) :
  hash_wf (cs_namespaces cs) →
  (∀ b, b ∈ hash_foreach (cs_namespaces cs) → ns_safe (hb_value b)) →
  ∃ db cs', remap_db_from_cluster cfg cs = Ok (db, cs').
Proof. apply build_returns. Qed.

(** ** The backends of a path *)
Section backends.
Context `{P : Posix} `{SSL : OpenSSL}.
Implicit Types (ns : namespace) (rp : remap_path).

Definition subset_backends (port_name : bytes) (es : endpoints_subset) : list remap_target :=
  match hash_get (es_ports es) port_name with
  | None => []
  | Some epp => (λ a, RemapTarget (default [] (ea_ip a)) (et_port epp)) <$> es_addrs es
  end.

Lemma set_rp_addrs_id rp : set_rp_addrs rp (rp_addrs rp) = rp.
Proof. by destruct rp. Qed.

Lemma add_addresses rp port (l : list endpoints_address) :
  (∀ a, a ∈ l → is_Some (ea_ip a)) →
  foldC (λ rp addr, host ← deref (ea_ip addr); Ok (remap_path_add_address rp host port)) l rp =
  Ok (set_rp_addrs rp (rp_addrs rp ++ ((λ a, RemapTarget (default [] (ea_ip a)) port) <$> l))).
Proof.
  revert rp; induction l as [|a l IH]; intros rp Hl; simpl.
  { by rewrite app_nil_r, set_rp_addrs_id. }
  destruct (Hl a) as [ip Hip]; [by left|]. rewrite Hip. cbn [deref mbind cres_bind default from_option].
  rewrite IH by (intros; apply Hl; by right). unfold remap_path_add_address. simpl. by rewrite <- app_assoc.
Qed.

Lemma add_subsets rp name (l : list endpoints_subset) :
  (∀ s a, s ∈ l → a ∈ es_addrs s → is_Some (ea_ip a)) →
  foldC (add_subset name) l rp = Ok (set_rp_addrs rp (rp_addrs rp ++ mjoin (subset_backends name <$> l))).
Proof.
  revert rp; induction l as [|s l IH]; intros rp Hl; simpl.
  { by rewrite app_nil_r, set_rp_addrs_id. }
  assert (Hs : add_subset name rp s = Ok (set_rp_addrs rp (rp_addrs rp ++ subset_backends name s))).
  { unfold add_subset, subset_backends. destruct (hash_get _ _); [|by rewrite app_nil_r, set_rp_addrs_id].
    apply add_addresses. intros a. apply Hl. by left. }
  rewrite Hs. cbn [mbind cres_bind]. rewrite IH by (intros s' a Hs'; apply Hl; by right). simpl. by rewrite <- app_assoc.
Qed.

(** C16. For a Service that is not an ExternalName, a path gets exactly one
    backend per address of each Endpoints subset that has the Service port of
    the Ingress, with that subset's number for the port, in order, after the
    backends it had; nothing else of the path changes.  Every address of the
    Endpoints has an ip, as the API requires. *)
Theorem backends_exact ns rp (svc : service) (type name : bytes) (port : service_port) (eps : endpoints) :
  sv_type svc = Some type → type ≠ SV_TYPE_EXTERNALNAME →
  service_find_port svc name SV_P_TCP = Ok (Some port) →
  namespace_get_endpoints ns (sv_name svc) = Some eps →
  (∀ s a, s ∈ ep_subsets eps → a ∈ es_addrs s → is_Some (ea_ip a)) →
  build_add_endpoints ns rp svc (Some name) =
    Ok (set_rp_addrs rp (rp_addrs rp ++ mjoin (subset_backends (sp_name port) <$> ep_subsets eps))).
Proof.
  intros Ht Hne Hp He Hips. unfold build_add_endpoints. rewrite Ht. cbn [deref mbind cres_bind].
  rewrite (proj2 (streq_false _ _)) by done. rewrite Hp. cbn [mbind cres_bind]. rewrite He. by apply add_subsets.
Qed.
End backends.

(** * A concrete cluster *)
Module Examples.
#[local] Existing Instance posix_literal.
#[local] Existing Instance openssl_list.
#[local] Existing Instance openssl_list_laws.

Definition ex_port : service_port := ServicePort (lit "http") 80 8080 SV_P_TCP.
Definition ex_service : service :=
  Service (lit "web") (lit "prod") (Some (lit "ClusterIP")) None None None (Some (hash_new 127 true))
    (Some (hash_set (hash_new 127 true) (lit "http") ex_port)).
Definition ex_endpoints : endpoints :=
  Endpoints (lit "web") (lit "prod")
    [EndpointsSubset [EndpointsAddress (Some (lit "10.0.0.1")) None; EndpointsAddress (Some (lit "10.0.0.2")) None]
       (hash_set (hash_new 7 true) (lit "http") (EndpointsPort (lit "http") 8080 (lit "TCP")))].
Definition ex_annotations : hash bytes :=
  hash_put (hash_put (hash_put (hash_put (hash_new 127 true) IN_APP_ROOT (lit "/app")) IN_AUTH_TYPE (lit "basic"))
    IN_AUTH_REALM (lit "staff")) IN_CACHE_IGNORE_PARAMS (lit "utm_* fbclid").
Definition ex_ingress : ingress :=
  Ingress (lit "site") (lit "prod") []
    [IngressRule (Some (lit "www.example.com")) [IngressPath (Some (lit "/app")) (Some (lit "web")) (Some (lit "80"))]]
    ex_annotations.

Definition ex_cluster : cluster :=
  foldl cluster_apply cluster_make
    [(lit "prod", PutService ex_service); (lit "prod", PutEndpoints ex_endpoints); (lit "prod", PutIngress ex_ingress)].

Lemma ex_cluster_models :
  cluster_models ex_cluster
    (<[lit "prod" := NsView {[lit "site" := ex_ingress]} ∅ {[lit "web" := ex_service]} {[lit "web" := ex_endpoints]}]> ∅).
Proof.
  pose proof (cluster_models_applies _ _
    [(lit "prod", PutService ex_service); (lit "prod", PutEndpoints ex_endpoints); (lit "prod", PutIngress ex_ingress)]
    cluster_models_make) as H. exact H.
Qed.

Lemma ex_cluster_wf : hash_wf (cs_namespaces ex_cluster).
Proof. destruct ex_cluster_models as [(hm & Hm & _)]. by apply (hm_wf _ _ Hm). Qed.

Lemma backends_exact_witness :
  build_add_endpoints (cluster_get_namespace ex_cluster (lit "prod")).2 (path_defaults None) ex_service (Some (lit "80")) =
  Ok (set_rp_addrs (path_defaults None) [RemapTarget (lit "10.0.0.1") 8080; RemapTarget (lit "10.0.0.2") 8080]).
Proof.
  apply (backends_exact (cluster_get_namespace ex_cluster (lit "prod")).2 (path_defaults None) ex_service
    (lit "ClusterIP") (lit "80") ex_port ex_endpoints).
  - reflexivity.
  - by compute_done.
  - vm_compute. reflexivity.
  - vm_compute. reflexivity.
  - intros s a [->|Hs]%elem_of_cons Ha; [|by apply elem_of_nil in Hs].
    simpl in Ha. repeat (apply elem_of_cons in Ha as [->|Ha]; [by eexists|]). by apply elem_of_nil in Ha.
Defined.

Lemma built_hosts_permitted_witness :
  match remap_db_from_cluster k8s_config_new ex_cluster with
  | Ok (db, _) =>
      match remap_db_get_host db (lit "www.example.com") with
      | Some rh => granted k8s_config_new ex_cluster (lit "www.example.com") ∧ host_wf rh
      | None => False
      end
  | Fault _ => False
  end.
Proof.
  assert (Hok : match remap_db_from_cluster k8s_config_new ex_cluster with
    | Ok (db, _) => match remap_db_get_host db (lit "www.example.com") with Some _ => true | None => false end
    | Fault _ => false end = true) by (vm_compute; reflexivity).
  destruct (remap_db_from_cluster k8s_config_new ex_cluster) as [[db cs']|] eqn:E; [|discriminate Hok].
  destruct (remap_db_get_host db (lit "www.example.com")) as [rh|] eqn:Eh; [|discriminate Hok].
  destruct (built_hosts_permitted k8s_config_new ex_cluster cs' db (lit "www.example.com") rh ex_cluster_wf E Eh)
    as (Hg & Hw & _). split; [exact Hg|exact Hw].
Defined.

Lemma ex_ingress_safe ns : ingress_safe ns ex_ingress.
Proof.
  split.
  - intros r p [->|Hr]%elem_of_cons Hp; [|by apply elem_of_nil in Hr].
    apply elem_of_cons in Hp as [->|Hp]; [split; by eexists|by apply elem_of_nil in Hp].
  - intros t Ht. by apply elem_of_nil in Ht.
  - intros b se Hb Hk.
    assert (Hn : Forall (λ b, take (hb_keylen b) (hb_key b) ≠ IN_AUTH_SECRET) (hash_foreach (in_annotations ex_ingress)))
      by (vm_compute; repeat constructor; discriminate).
    rewrite Forall_forall in Hn. by destruct (Hn b Hb).
Qed.

(** The one namespace of the example. *)
Lemma ex_namespace b :
  b ∈ hash_foreach (cs_namespaces ex_cluster) →
  ns_models (hb_value b) (NsView {[lit "site" := ex_ingress]} ∅ {[lit "web" := ex_service]} {[lit "web" := ex_endpoints]}).
Proof.
  intros Hb. destruct ex_cluster_models as [(hm & Hm & Hv)].
  assert (Hin : (hb_key b, hb_value b) ∈ hash_bindings (cs_namespaces ex_cluster)) by (apply list_elem_of_fmap; eauto).
  rewrite (hash_models_bindings _ _ Hm), elem_of_map_to_list in Hin.
  specialize (Hv (hb_key b)). rewrite Hin in Hv. inversion Hv as [x v [Hns _] Hx Hlook|]; subst.
  symmetry in Hlook. rewrite lookup_insert in Hlook. case_decide; [|by rewrite lookup_empty in Hlook].
  by injection Hlook as <-.
Qed.

Lemma ex_cluster_safe b : b ∈ hash_foreach (cs_namespaces ex_cluster) → ns_safe (hb_value b).
Proof.
  intros Hb. apply (ns_models_safe _ _ (ex_namespace b Hb)); cbn [nv_ingresses nv_services nv_endpointses nv_secrets].
  - apply map_Forall_singleton, ex_ingress_safe.
  - apply map_Forall_singleton. split; [by eexists|]. exists (lit "ClusterIP"). by split.
  - apply map_Forall_singleton. intros s a [->|Hs]%elem_of_cons Ha; [|by apply elem_of_nil in Hs].
    simpl in Ha. repeat (apply elem_of_cons in Ha as [->|Ha]; [by eexists|]). by apply elem_of_nil in Ha.
  - apply map_Forall_empty.
Qed.

Lemma ex_ingress_only b ing :
  b ∈ hash_foreach (cs_namespaces ex_cluster) → ing ∈ hb_value <$> hash_foreach (ns_ingresses (hb_value b)) → ing = ex_ingress.
Proof.
  intros Hb (c & -> & Hc)%list_elem_of_fmap. destruct (ex_namespace b Hb) as [Hi _ _ _]. cbn [nv_ingresses] in Hi.
  assert (Hin : (hb_key c, hb_value c) ∈ hash_bindings (ns_ingresses (hb_value b))) by (apply list_elem_of_fmap; eauto).
  rewrite (hash_models_bindings _ _ Hi), elem_of_map_to_list in Hin. by apply lookup_singleton_Some in Hin as [_ <-].
Qed.

Lemma build_total_witness : ∃ db cs', remap_db_from_cluster k8s_config_new ex_cluster = Ok (db, cs').
Proof.
  apply build_total; [apply ex_cluster_wf|apply ex_cluster_safe].
Defined.
End Examples.
