(* ===== verification/Watcher.v ===== *)
(** [api/watcher.c]: keeping the cluster state in step with the API server.

    libcurl is outside the model: a transfer is the sequence of data blocks
    given to its write callback and its result.  The lock is held by every
    update, so each is one atomic step on the cluster state. *)

From S2P Require Import Prelude CString Hash Base64 Env Api Namespace Cluster Config.

(** * Data *)
Record resource := Resource {
  res_url : bytes;
  res_version : option bytes;
}.

Definition resources : list resource := [
  Resource (lit "/api/v1/services") None;
  Resource (lit "/api/v1/endpoints") None;
  Resource (lit "/api/v1/secrets") None;
  Resource (lit "/api/v1/configmaps") None;
  Resource (lit "/apis/extensions/v1beta1/ingresses") None].

(** The state a line of the watch changes: the live cluster of the watcher and
    the flag of the fetcher that something changed. *)
Record wstate := WState {
  ws_cluster : cluster;
  ws_changed : bool;
}.

(** The part of [fetcher_ctx] the callbacks work on. *)
Record fetcher := Fetcher {
  fe_state : wstate;
  fe_buf : option bytes;
}.

Definition unmarked (ws : wstate) cs : wstate := WState cs (ws_changed ws).
Definition mark_changed (cs : cluster) : wstate := WState cs true.

(** * Requests *)

(** [fetcher_make] and [fetcher_watch_make]: the URL, written with [snprintf]
    into a buffer of the computed size. *)
Definition fetch_url (server : bytes) (res : resource) : bytes :=
  let urllen := length server + length (res_url res) + 1 in
  take (urllen - 1) (server ++ res_url res).

Definition watch_url (server : bytes) (res : resource) : cres bytes :=
  version ← deref (res_version res);
  let urllen := length server + length (res_url res) + length version + 29 in
  Ok (take (urllen - 1) (server ++ res_url res ++ lit "?watch=true&resourceVersion=" ++ version)).

(** [watcher_make_curl]: the header with the token. *)
Definition bearer_header (token : bytes) : bytes :=
  let len := 23 + length token + 1 in
  take (len - 1) (lit "Authorization: Bearer " ++ token).

(** The options of a transfer ([curl_easy_setopt]), in the order they are set. *)
Inductive write_callback := FeRead | FeWatchRead.
Inductive curl_opt :=
  | CURLOPT_HTTPHEADER (hdrs : list bytes)
  | CURLOPT_SSLCERTTYPE (t : bytes)
  | CURLOPT_SSLCERT (file : bytes)
  | CURLOPT_SSLKEYTYPE (t : bytes)
  | CURLOPT_SSLKEY (file : bytes)
  | CURLOPT_CAINFO (file : bytes)
  | CURLOPT_SSL_VERIFYPEER (v : Z)
  | CURLOPT_WRITEFUNCTION (cb : write_callback)
  | CURLOPT_WRITEDATA
  | CURLOPT_USERAGENT (agent : bytes)
  | CURLOPT_ERRORBUFFER
  | CURLOPT_URL (url : bytes).

(** [PACKAGE_VERSION] is set by the build; [init] is whether [curl_easy_init]
    succeeds. *)
Definition watcher_make_curl (package_version : bytes) (config : k8s_config) (init : bool) (cb : write_callback) : option (list curl_opt) :=
  if negb init then None else Some (
  match co_token config with Some t => [CURLOPT_HTTPHEADER [bearer_header t]] | None => [] end ++
  match co_tls_certfile config with Some f => [CURLOPT_SSLCERTTYPE (lit "PEM"); CURLOPT_SSLCERT f] | None => [] end ++
  match co_tls_keyfile config with Some f => [CURLOPT_SSLKEYTYPE (lit "PEM"); CURLOPT_SSLKEY f] | None => [] end ++
  match co_tls_cafile config with Some f => [CURLOPT_CAINFO f] | None => [] end ++
  [CURLOPT_SSL_VERIFYPEER (if co_tls_verify config then 1 else 0)] ++
  [CURLOPT_WRITEFUNCTION cb; CURLOPT_WRITEDATA; CURLOPT_USERAGENT (lit "k8s-ts-ingress/" ++ package_version); CURLOPT_ERRORBUFFER]).

(** The options of the transfer, or [None] for the result -1. *)
Definition fetcher_make (package_version : bytes) (config : k8s_config) (init : bool) (res : resource) : cres (option (list curl_opt)) :=
  match watcher_make_curl package_version config init FeRead with
  | None => Ok None
  | Some opts => server ← deref (co_server config); Ok (Some (opts ++ [CURLOPT_URL (fetch_url server res)]))
  end.

Definition fetcher_watch_make (package_version : bytes) (config : k8s_config) (init : bool) (res : resource) : cres (option (list curl_opt)) :=
  match watcher_make_curl package_version config init FeWatchRead with
  | None => Ok None
  | Some opts =>
      server ← deref (co_server config);
      url ← watch_url server res;
      Ok (Some (opts ++ [CURLOPT_URL url]))
  end.

(** [_k8s_get_ssl_error]: the errors as OpenSSL prints them, copied to a new
    block of one byte more, whose last byte is not written ([None]): the
    terminator goes to OpenSSL's buffer instead. *)
Definition k8s_get_ssl_error (errors : bytes) : list (option ascii) :=
  if (length errors =? 0)%nat then (Some <$> lit "no error") ++ [Some NUL]
  else (Some <$> errors) ++ [None].

Section ops.
Context `{J : JsonC} (config : k8s_config).
Implicit Types (fe : fetcher) (ws : wstate) (obj : json_object).

(** Whether an object is the ConfigMap of the plugin. *)
Definition our_configmap (name namespace : bytes) : bool :=
  match co_configmap_namespace config, co_configmap_name config with
  | Some cns, Some cname => streq name cname && streq namespace cns
  | _, _ => false
  end.

(** ** The watch *)

(** A change event: whether the object was deleted, its kind, namespace and
    name, and the object. *)
Record watch_event := WatchEvent {
  we_deleted : bool;
  we_kind : bytes;
  we_namespace : bytes;
  we_name : bytes;
  we_object : json_object;
}.

(** The part of [fe_watch_line] before the lock is taken; [None] when the line
    is ignored with an error message. *)
Definition decode_event (line : bytes) : cres (option watch_event) :=
  match json_tokener_parse line with
  | None => Ok None
  | Some obj =>
      if negb (json_object_is_type obj json_type_object) then Ok None else
      match json_object_object_get_ex obj (lit "type") with
      | None => Ok None
      | Some t =>
          if negb (json_object_is_type t json_type_string) then Ok None else
          stype ← deref (json_object_get_string t);
          let deleted := streq stype (lit "DELETED") in
          match get_typed obj "object" json_type_object with
          | None => Ok None
          | Some o =>
              match get_typed o "kind" json_type_string with
              | None => Ok None
              | Some kind =>
                  skind ← deref (json_object_get_string kind);
                  match get_typed o "metadata" json_type_object with
                  | None => Ok None
                  | Some metadata =>
                      match get_typed metadata "namespace" json_type_string with
                      | None => Ok None
                      | Some namespace =>
                          snamespace ← deref (json_object_get_string namespace);
                          match get_typed metadata "name" json_type_string with
                          | None => Ok None
                          | Some name =>
                              sname ← deref (json_object_get_string name);
                              Ok (Some (WatchEvent deleted skind snamespace sname o))
                          end
                      end
                  end
              end
          end
      end
  end.

(** The change to the cluster, with the lock held. *)
Definition apply_event ws (e : watch_event) : cres wstate :=
  let '(cs, ns) := cluster_get_namespace (ws_cluster ws) (we_namespace e) in
  let update f := cluster_update_namespace cs (we_namespace e) f in
  if streq (we_kind e) (lit "Ingress") then
    if we_deleted e then Ok (mark_changed (update (λ ns, namespace_del_ingress ns (we_name e))))
    else
      r ← ingress_make (we_object e);
      Ok (mark_changed (match r with Some ing => update (λ ns, namespace_put_ingress ns ing) | None => cs end))
  else if streq (we_kind e) (lit "Service") then
    if we_deleted e then Ok (mark_changed (update (λ ns, namespace_del_service ns (we_name e))))
    else
      r ← service_make (we_object e);
      Ok (mark_changed (match r with Some svc => update (λ ns, namespace_put_service ns svc) | None => cs end))
  else if streq (we_kind e) (lit "Secret") then
    if we_deleted e then Ok (mark_changed (update (λ ns, namespace_del_secret ns (we_name e))))
    else
      r ← secret_make (we_object e);
      Ok (mark_changed (match r with Some sec => update (λ ns, namespace_put_secret ns sec) | None => cs end))
  else if streq (we_kind e) (lit "ConfigMap") then
    if our_configmap (we_name e) (we_namespace e) then
      if we_deleted e then Ok (mark_changed (cluster_set_configmap cs None))
      else
        r ← configmap_make (we_object e);
        Ok (mark_changed (match r with Some cm => cluster_set_configmap cs (Some cm) | None => cs end))
    else Ok (unmarked ws cs)
  else if streq (we_kind e) (lit "Endpoints") then
    if we_deleted e then Ok (mark_changed (update (λ ns, namespace_del_endpoints ns (we_name e))))
    else
      r ← endpoints_make (we_object e);
      match r with
      | None => Ok (unmarked ws cs)
      | Some eps =>
          match namespace_get_endpoints ns (we_name e) with
          | Some old =>
              if endpoints_equal eps old then Ok (unmarked ws cs)
              else Ok (mark_changed (update (λ ns, namespace_put_endpoints ns eps)))
          | None => Ok (mark_changed (update (λ ns, namespace_put_endpoints ns eps)))
          end
      end
  else Ok (unmarked ws cs).

Definition fe_watch_line ws (line : bytes) : cres wstate :=
  r ← decode_event line;
  match r with
  | None => Ok ws
  | Some e => apply_event ws e
  end.

(** The [memchr] loop of [fe_watch_read]: the complete lines, each up to its
    newline (which is overwritten with a NUL), and what is left. *)
Fixpoint watch_lines (fuel : nat) ws (buf : bytes) : cres (wstate * bytes) :=
  match fuel with
  | O => Fault Diverges
  | S fuel =>
      match cut newline buf with
      | None => Ok (ws, buf)
      | Some (line, rest) => ws ← fe_watch_line ws (c_str line); watch_lines fuel ws rest
      end
  end.

Definition fe_watch_read fe (data : bytes) : cres fetcher :=
  if (length data =? 0)%nat then Ok fe else
  let buf := default [] (fe_buf fe) ++ data in
  '(ws, rest) ← watch_lines (S (length buf)) (fe_state fe) buf;
  Ok (Fetcher ws (Some rest)).

(** ** The full fetch *)
(** The write callback appends to the buffer of its transfer. *)
Definition fe_read (buf : option bytes) (data : bytes) : option bytes :=
  if (length data =? 0)%nat then buf else Some (default [] buf ++ data).

(** [fetcher_process_item]: objects go to the new cluster, the ConfigMap to
    the live one. *)
Definition fetcher_process_item (kind : bytes) (st : cluster * cluster) (item : json_object)
    : cres (cluster * cluster) :=
  let '(live, cs) := st in
  match get_typed item "metadata" json_type_object with
  | None => Ok (live, cs)
  | Some metadata =>
      match get_typed metadata "namespace" json_type_string with
      | None => Ok (live, cs)
      | Some namespace =>
          nsname ← deref (json_object_get_string namespace);
          let '(cs, _) := cluster_get_namespace cs nsname in
          let update f := cluster_update_namespace cs nsname f in
          if streq kind (lit "IngressList") then
            r ← ingress_make item;
            Ok (live, match r with Some ing => update (λ ns, namespace_put_ingress ns ing) | None => cs end)
          else if streq kind (lit "ServiceList") then
            r ← service_make item;
            Ok (live, match r with Some svc => update (λ ns, namespace_put_service ns svc) | None => cs end)
          else if streq kind (lit "SecretList") then
            r ← secret_make item;
            Ok (live, match r with Some sec => update (λ ns, namespace_put_secret ns sec) | None => cs end)
          else if streq kind (lit "EndpointsList") then
            r ← endpoints_make item;
            Ok (live, match r with Some eps => update (λ ns, namespace_put_endpoints ns eps) | None => cs end)
          else if streq kind (lit "ConfigMapList") then
            r ← configmap_make item;
            Ok (match r with
                | Some cm => if our_configmap (cm_name cm) (cm_namespace cm)
                             then cluster_set_configmap live (Some cm) else live
                | None => live
                end, cs)
          else Ok (live, cs)
      end
  end.

(** [fetcher_process]: the version of the resource and the two clusters.  The
    version is kept when the response is not a list. *)
Definition fetcher_process (buf : option bytes) (version : option bytes) (st : cluster * cluster)
    : cres (option bytes * (cluster * cluster)) :=
  match buf with
  | None => Ok (version, st)
  | Some buf =>
      match json_tokener_parse (c_str buf) with
      | None => Ok (version, st)
      | Some obj =>
          match get_typed obj "items" json_type_array with
          | None => Ok (version, st)
          | Some items =>
              match get_typed obj "metadata" json_type_object with
              | None => Ok (version, st)
              | Some metadata =>
                  match get_typed metadata "resourceVersion" json_type_string with
                  | None => Ok (version, st)
                  | Some rversion =>
                      version ← deref (json_object_get_string rversion);
                      match get_typed obj "kind" json_type_string with
                      | None => Ok (Some version, st)
                      | Some kind =>
                          skind ← deref (json_object_get_string kind);
                          l ← deref (json_object_array items);
                          st ← foldC (fetcher_process_item skind) l st;
                          Ok (Some version, st)
                      end
                  end
              end
          end
      end
  end.

(** [fetcher_get_all] after the transfers: [msgs] are the finished ones in the
    order libcurl reports them, each with its resource and its buffer, or
    [None] if it failed.  The result is -1 ([false]) when one failed, and then
    the live cluster keeps its namespaces. *)
Fixpoint process_all (msgs : list (nat * option (option bytes))) (vs : list resource) (st : cluster * cluster)
    : cres (bool * list resource * (cluster * cluster)) :=
  match msgs with
  | [] => Ok (true, vs, st)
  | (i, result) :: msgs =>
      match vs !! i with
      | None => Fault AssertFail
      | Some res =>
          match result with
          | None => Ok (false, vs, st)
          | Some buf =>
              '(v, st) ← fetcher_process buf (res_version res) st;
              process_all msgs (<[i := Resource (res_url res) v]> vs) st
          end
      end
  end.

Definition fetch_replace (live : cluster) (vs : list resource) (msgs : list (nat * option (option bytes)))
    : cres (bool * list resource * cluster) :=
  '(ok, vs, st) ← process_all msgs vs (live, cluster_make);
  let '(live, new) := st in
  if (ok : bool) then Ok (true, vs, Cluster (cs_namespaces new) (cs_config live))
  else Ok (false, vs, live).
End ops.

(** * Lemmas *)

(** ** Lines and blocks *)
Section lines.
Context `{J : JsonC} (config : k8s_config).
Implicit Types (fe : fetcher) (ws : wstate).

Lemma cut_length c s a b : cut c s = Some (a, b) → length b < length s.
Proof. intros [-> _]%cut_Some. rewrite length_app. simpl. lia. Qed.

Lemma watch_lines_fuel f g ws buf :
  length buf < f → length buf < g → watch_lines config f ws buf = watch_lines config g ws buf.
Proof.
  revert g ws buf; induction f as [|f IH]; intros g ws buf Hf Hg; [lia|]. destruct g as [|g]; [lia|]. simpl.
  destruct (cut newline buf) as [[line rest]|] eqn:E; [|done]. apply cut_length in E.
  destruct (fe_watch_line config ws (c_str line)); simpl; [|done]. apply IH; lia.
Qed.

(** The loop on all of a buffer. *)
Definition drain ws (buf : bytes) : cres (wstate * bytes) := watch_lines config (S (length buf)) ws buf.

Lemma drain_unfold ws buf :
  drain ws buf = match cut newline buf with
                 | None => Ok (ws, buf)
                 | Some (line, rest) => ws ← fe_watch_line config ws (c_str line); drain ws rest
                 end.
Proof.
  unfold drain at 1. cbn [watch_lines]. destruct (cut newline buf) as [[line rest]|] eqn:E; [|done].
  apply cut_length in E. destruct (fe_watch_line config ws (c_str line)); simpl; [|done].
  apply watch_lines_fuel; lia.
Qed.

(** Reading a buffer in two parts, keeping what is left of the first. *)
Lemma drain_app ws a b : drain ws (a ++ b) = ('(ws', rest) ← drain ws a; drain ws' (rest ++ b)).
Proof.
  remember (length a) as n eqn:Hn. revert a ws Hn; induction n as [n IH] using lt_wf_ind; intros a ws ->.
  rewrite (drain_unfold ws a). destruct (cut newline a) as [[line rest]|] eqn:E; [|done].
  pose proof (cut_length _ _ _ _ E) as Hl. apply cut_Some in E as [-> Hnl].
  rewrite drain_unfold, <- app_assoc. cbn [app]. rewrite cut_app by done.
  destruct (fe_watch_line config ws (c_str line)) as [ws'|]; cbn [mbind cres_bind]; [|done].
  by apply (IH (length rest)).
Qed.

(** What is left has no complete line. *)
Lemma drain_rest ws buf ws' rest : drain ws buf = Ok (ws', rest) → newline ∉ rest.
Proof.
  remember (length buf) as n eqn:Hn. revert buf ws Hn; induction n as [n IH] using lt_wf_ind; intros buf ws ->.
  rewrite drain_unfold. destruct (cut newline buf) as [[line rest']|] eqn:E.
  - apply cut_length in E. destruct (fe_watch_line config ws (c_str line)); cbn [mbind cres_bind]; [|done].
    by apply (IH (length rest')).
  - intros Hr. apply (inj Ok), pair_eq in Hr as [_ <-]. by apply cut_None.
Qed.

Lemma fe_watch_read_drain fe data :
  data ≠ [] →
  fe_watch_read config fe data = ('(ws, rest) ← drain (fe_state fe) (default [] (fe_buf fe) ++ data); Ok (Fetcher ws (Some rest))).
Proof. intros Hd. unfold fe_watch_read. destruct data; [done|]. reflexivity. Qed.
End lines.

(** ** What an event means *)
Section events.
Context `{J : JsonC} (config : k8s_config).
Implicit Types (ws : wstate) (m : gmap bytes ns_view).

(** The effect of an event: on one object of its namespace, on the
    configuration, or none. *)
Inductive effect := Nothing | Change (ev : ns_event) | Configure (cm : option configmap).

Definition put_effect {A} (put : A → ns_event) (r : option A) : effect :=
  match r with Some a => Change (put a) | None => Nothing end.

Definition event_effect (e : watch_event) : cres effect :=
  if streq (we_kind e) (lit "Ingress") then
    if we_deleted e then Ok (Change (DelIngress (we_name e))) else put_effect PutIngress <$> ingress_make (we_object e)
  else if streq (we_kind e) (lit "Service") then
    if we_deleted e then Ok (Change (DelService (we_name e))) else put_effect PutService <$> service_make (we_object e)
  else if streq (we_kind e) (lit "Secret") then
    if we_deleted e then Ok (Change (DelSecret (we_name e))) else put_effect PutSecret <$> secret_make (we_object e)
  else if streq (we_kind e) (lit "ConfigMap") then
    if our_configmap config (we_name e) (we_namespace e) then
      if we_deleted e then Ok (Configure None)
      else (λ r, match r with Some cm => Configure (Some cm) | None => Nothing end) <$> configmap_make (we_object e)
    else Ok Nothing
  else if streq (we_kind e) (lit "Endpoints") then
    if we_deleted e then Ok (Change (DelEndpoints (we_name e))) else put_effect PutEndpoints <$> endpoints_make (we_object e)
  else Ok Nothing.

(** The objects and the configuration after it. *)
Definition effect_views (eff : effect) (ns : bytes) m : gmap bytes ns_view :=
  match eff with Change ev => views_apply m (ns, ev) | _ => view_touch m ns end.
Definition effect_config (eff : effect) (cc : cluster_config) : cluster_config :=
  match eff with
  | Configure None => cluster_config_new
  | Configure (Some cm) => config_of (cm_data cm)
  | _ => cc
  end.

(** The cluster state holds the objects [m], with Endpoints as they are parsed. *)
Record ws_models ws m : Prop := {
  wm_cluster : cluster_models (ws_cluster ws) m;
  wm_canon ns v : m !! ns = Some v → map_Forall (λ _, endpoints_canon) (nv_endpointses v);
}.

(** Only the existence of empty namespaces may differ. *)
Definition same_objects m m' : Prop := ∀ ns, default ns_empty (m !! ns) = default ns_empty (m' !! ns).

Lemma same_objects_touch m ns : same_objects m (view_touch m ns).
Proof.
  intros k. unfold view_touch. destruct (m !! ns) eqn:E; [done|].
  destruct (decide (k = ns)) as [->|]; [by rewrite lookup_insert_eq, E|by rewrite lookup_insert_ne].
Qed.

Lemma canon_touch m ns :
  (∀ n v, m !! n = Some v → map_Forall (λ _, endpoints_canon) (nv_endpointses v)) →
  ∀ n v, view_touch m ns !! n = Some v → map_Forall (λ _, endpoints_canon) (nv_endpointses v).
Proof.
  intros Hc n v. unfold view_touch. destruct (m !! ns) eqn:E; [apply Hc|].
  rewrite lookup_insert. case_decide; [|apply Hc]. intros [= <-]. apply map_Forall_empty.
Qed.

Lemma canon_apply m ns ev :
  (∀ n v, m !! n = Some v → map_Forall (λ _, endpoints_canon) (nv_endpointses v)) →
  (∀ e, ev = PutEndpoints e → endpoints_canon e) →
  ∀ n v, views_apply m (ns, ev) !! n = Some v → map_Forall (λ _, endpoints_canon) (nv_endpointses v).
Proof.
  intros Hc Hev n v. unfold views_apply; cbn [fst snd]. rewrite lookup_insert. case_decide; [|apply Hc].
  intros [= <-]. assert (H0 : map_Forall (λ _, endpoints_canon) (nv_endpointses (default ns_empty (m !! ns)))).
  { destruct (m !! ns) eqn:E; [by apply (Hc ns)|apply map_Forall_empty]. }
  destruct (default ns_empty (m !! ns)), ev; simpl in *; try done.
  - apply map_Forall_insert_2; [by apply Hev|done].
  - by apply map_Forall_delete.
Qed.

(** A namespace update through the pointer, on the state after the lookup. *)
Lemma update_after_get cs m ns ev :
  cluster_models cs m →
  cluster_models (cluster_update_namespace (cluster_get_namespace cs ns).1 ns (λ n, ns_apply n ev)) (views_apply m (ns, ev)).
Proof.
  intros Hc. destruct (cluster_get_namespace_models cs m ns Hc) as [Ht _].
  apply (cluster_models_apply _ _ (ns, ev)) in Ht.
  replace (views_apply m (ns, ev)) with (views_apply (view_touch m ns) (ns, ev)); [done|].
  unfold views_apply, view_touch; cbn [fst snd]. destruct (m !! ns) eqn:E; [by rewrite E|].
  by rewrite lookup_insert_eq, insert_insert_eq.
Qed.

Lemma get_namespace_config cs ns : cs_config (cluster_get_namespace cs ns).1 = cs_config cs.
Proof. unfold cluster_get_namespace. by destruct (hash_get _ _). Qed.

(** The namespace part of the result and the flag of one event. *)
Definition step_ok ws m (ns : bytes) (eff : effect) ws' : Prop :=
  ws_models ws' (effect_views eff ns m) ∧
  cs_config (ws_cluster ws') = effect_config eff (cs_config (ws_cluster ws)) ∧
  (ws_changed ws = true → ws_changed ws' = true) ∧
  (ws_changed ws' = false →
   same_objects m (effect_views eff ns m) ∧ cs_config (ws_cluster ws') = cs_config (ws_cluster ws)).

Lemma step_nothing ws m ns : 
  ws_models ws m → step_ok ws m ns Nothing (unmarked ws (cluster_get_namespace (ws_cluster ws) ns).1).
Proof.
  intros [Hc Hcan]. split_and!; simpl.
  - split; [by apply cluster_get_namespace_models|by apply canon_touch].
  - apply get_namespace_config.
  - done.
  - intros _. split; [apply same_objects_touch|apply get_namespace_config].
Qed.

Lemma step_nothing_marked ws m ns :
  ws_models ws m → step_ok ws m ns Nothing (mark_changed (cluster_get_namespace (ws_cluster ws) ns).1).
Proof.
  intros [Hc Hcan]. split_and!; simpl; try done; [|apply get_namespace_config].
  split; [by apply cluster_get_namespace_models|by apply canon_touch].
Qed.

Lemma step_change ws m ns ev :
  ws_models ws m → (∀ e, ev = PutEndpoints e → endpoints_canon e) →
  step_ok ws m ns (Change ev)
    (mark_changed (cluster_update_namespace (cluster_get_namespace (ws_cluster ws) ns).1 ns (λ n, ns_apply n ev))).
Proof.
  intros [Hc Hcan] Hev. split_and!; simpl; try done.
  - split; [by apply update_after_get|by apply canon_apply].
  - by rewrite cluster_update_config, get_namespace_config.
Qed.

Lemma step_configure ws m ns cm :
  ws_models ws m →
  step_ok ws m ns (Configure cm) (mark_changed (cluster_set_configmap (cluster_get_namespace (ws_cluster ws) ns).1 cm)).
Proof.
  intros [Hc Hcan]. destruct (cluster_get_namespace_models _ _ ns Hc) as [[(hm & Hm & HF)] _].
  split_and!; simpl; try done; [|by destruct cm].
  split; [|by apply canon_touch]. split. exists hm. by destruct cm.
Qed.
End events.

Section refinement.
Context `{J : JsonC} (config : k8s_config).
Implicit Types (ws : wstate) (m : gmap bytes ns_view).

(** Replacing an Endpoints by itself changes nothing. *)
Lemma put_same_endpoints cs m ns eps :
  cluster_models cs m → namespace_get_endpoints (cluster_get_namespace cs ns).2 (ep_name eps) = Some eps →
  views_apply m (ns, PutEndpoints eps) = view_touch m ns.
Proof.
  intros Hc Hg. destruct (cluster_get_namespace_models cs m ns Hc) as [_ Hn].
  unfold namespace_get_endpoints in Hg. rewrite (hash_models_get _ _ _ (nm_endpointses _ _ Hn)) in Hg.
  unfold view_touch, views_apply; cbn [fst snd]. destruct (m !! ns) as [v|] eqn:E; simpl in *.
  - apply insert_id. rewrite E. f_equal. destruct v as [i s sv e]; simpl in *. by rewrite (insert_id e) by done.
  - by rewrite lookup_empty in Hg.
Qed.

Lemma stored_canon cs m ns name old :
  cluster_models cs m → (∀ n v, m !! n = Some v → map_Forall (λ _, endpoints_canon) (nv_endpointses v)) →
  namespace_get_endpoints (cluster_get_namespace cs ns).2 name = Some old → endpoints_canon old.
Proof.
  intros Hc Hcan Hg. destruct (cluster_get_namespace_models cs m ns Hc) as [_ Hn].
  unfold namespace_get_endpoints in Hg. rewrite (hash_models_get _ _ _ (nm_endpointses _ _ Hn)) in Hg.
  destruct (m !! ns) as [v|] eqn:E; simpl in Hg; [|by rewrite lookup_empty in Hg].
  by apply (Hcan ns v E name).
Qed.

Lemma apply_event_spec ws m e ws' :
  ws_models ws m → (∀ eps, endpoints_make (we_object e) = Ok (Some eps) → ep_name eps = we_name e) →
  apply_event config ws e = Ok ws' →
  ∃ eff, event_effect config e = Ok eff ∧ step_ok ws m (we_namespace e) eff ws'.
Proof.
  intros Hm Hname. unfold apply_event, event_effect.
  pose proof (step_nothing ws m (we_namespace e) Hm) as Hnone.
  pose proof (step_nothing_marked ws m (we_namespace e) Hm) as Hmark.
  pose proof (step_change ws m (we_namespace e)) as Hchg.
  pose proof (step_configure ws m (we_namespace e)) as Hcfg.
  pose proof (put_same_endpoints (ws_cluster ws) m (we_namespace e)) as Hsame.
  pose proof (stored_canon (ws_cluster ws) m (we_namespace e) (we_name e)) as Hstored.
  destruct (cluster_get_namespace (ws_cluster ws) (we_namespace e)) as [cs ns]; cbn [fst snd] in *.
  destruct (streq (we_kind e) (lit "Ingress")).
  { destruct (we_deleted e).
    - intros H; apply (inj Ok) in H as <-. eexists; split; [done|]. by apply (Hchg (DelIngress (we_name e))).
    - destruct (ingress_make (we_object e)) as [[x|]|]; [| |done]; cbn [mbind cres_bind fmap cres_fmap];
        intros H; apply (inj Ok) in H as <-; (eexists; split; [done|]); [by apply (Hchg (PutIngress x))|done]. }
  destruct (streq (we_kind e) (lit "Service")).
  { destruct (we_deleted e).
    - intros H; apply (inj Ok) in H as <-. eexists; split; [done|]. by apply (Hchg (DelService (we_name e))).
    - destruct (service_make (we_object e)) as [[x|]|]; [| |done]; cbn [mbind cres_bind fmap cres_fmap];
        intros H; apply (inj Ok) in H as <-; (eexists; split; [done|]); [by apply (Hchg (PutService x))|done]. }
  destruct (streq (we_kind e) (lit "Secret")).
  { destruct (we_deleted e).
    - intros H; apply (inj Ok) in H as <-. eexists; split; [done|]. by apply (Hchg (DelSecret (we_name e))).
    - destruct (secret_make (we_object e)) as [[x|]|]; [| |done]; cbn [mbind cres_bind fmap cres_fmap];
        intros H; apply (inj Ok) in H as <-; (eexists; split; [done|]); [by apply (Hchg (PutSecret x))|done]. }
  destruct (streq (we_kind e) (lit "ConfigMap")).
  { destruct (our_configmap config (we_name e) (we_namespace e)); [|intros H; apply (inj Ok) in H as <-; eauto].
    destruct (we_deleted e).
    - intros H; apply (inj Ok) in H as <-. eexists; split; [done|]. by apply (Hcfg None).
    - destruct (configmap_make (we_object e)) as [[x|]|]; [| |done]; cbn [mbind cres_bind fmap cres_fmap];
        intros H; apply (inj Ok) in H as <-; (eexists; split; [done|]); [by apply (Hcfg (Some x))|done]. }
  destruct (streq (we_kind e) (lit "Endpoints")); [|intros H; apply (inj Ok) in H as <-; eauto].
  destruct (we_deleted e).
  - intros H; apply (inj Ok) in H as <-. eexists; split; [done|]. by apply (Hchg (DelEndpoints (we_name e))).
  - destruct (endpoints_make (we_object e)) as [[eps|]|] eqn:Em; [| |done]; cbn [mbind cres_bind fmap cres_fmap].
    2:{ intros H; apply (inj Ok) in H as <-. eauto. }
    assert (Hcan : endpoints_canon eps) by by eapply endpoints_make_canon.
    assert (Hput : step_ok ws m (we_namespace e) (Change (PutEndpoints eps))
      (mark_changed (cluster_update_namespace cs (we_namespace e) (λ n, namespace_put_endpoints n eps)))).
    { apply (Hchg (PutEndpoints eps)); [done|]. by intros ? [= <-]. }
    destruct (namespace_get_endpoints ns (we_name e)) as [old|] eqn:Eo.
    2:{ intros H; apply (inj Ok) in H as <-. eauto. }
    destruct (endpoints_equal eps old) eqn:Ee; intros H; apply (inj Ok) in H as <-; (eexists; split; [done|]); [|done].
    destruct Hm as [Hmc Hmcan]. apply endpoints_equal_eq in Ee; [|done|by apply (Hstored old)]. subst old.
    rewrite <- (Hname eps eq_refl) in Eo. specialize (Hsame eps Hmc Eo).
    unfold step_ok in *. cbn [effect_views effect_config put_effect] in *. by rewrite Hsame.
Qed.

(** The name of an event is the name of its object. *)
Lemma decode_event_name line e eps :
  decode_event line = Ok (Some e) → endpoints_make (we_object e) = Ok (Some eps) → ep_name eps = we_name e.
Proof.
  unfold decode_event. destruct (json_tokener_parse line) as [obj|]; [|done].
  destruct (negb _); [done|]. destruct (json_object_object_get_ex obj _) as [t|]; [|done].
  destruct (negb _); [done|]. destruct (deref (json_object_get_string t)); [|done]. cbn [mbind cres_bind].
  destruct (get_typed obj "object" _) as [o|]; [|done].
  destruct (get_typed o "kind" _) as [kind|]; [|done].
  destruct (deref (json_object_get_string kind)); [|done]. cbn [mbind cres_bind].
  destruct (get_typed o "metadata" _) as [md|] eqn:Emd; [|done].
  destruct (get_typed md "namespace" _) as [n|] eqn:En; [|done].
  destruct (json_object_get_string n) as [sn|] eqn:Esn; [|done]. cbn [deref mbind cres_bind].
  destruct (get_typed md "name" _) as [nm|] eqn:Enm; [|done].
  destruct (json_object_get_string nm) as [snm|] eqn:Esnm; [|done]. cbn [deref mbind cres_bind].
  intros He. apply (inj Ok), (inj Some) in He as <-. cbn [we_object we_name].
  unfold endpoints_make, make_metadata, dup_string. rewrite Emd, En, Esn. cbn [deref mbind cres_bind].
  rewrite Enm, Esnm. cbn [deref mbind cres_bind].
  destruct (get_typed o "subsets" _) as [ss|]; [|by intros Hr; apply (inj Ok), (inj Some) in Hr as <-].
  destruct (json_object_array ss); [|done]. cbn [deref mbind cres_bind].
  destruct (mapC _ _); [|done]. cbn [mbind cres_bind]. by intros Hr; apply (inj Ok), (inj Some) in Hr as <-.
Qed.

(** A line of the watch. *)
Lemma watch_line_spec ws ws' m line :
  ws_models ws m → fe_watch_line config ws line = Ok ws' →
  match decode_event line with
  | Ok (Some e) => ∃ eff, event_effect config e = Ok eff ∧ step_ok ws m (we_namespace e) eff ws'
  | Ok None => ws' = ws
  | Fault _ => False
  end.
Proof.
  intros Hm. unfold fe_watch_line. destruct (decode_event line) as [[e|]|] eqn:Ed; cbn [mbind cres_bind]; [| |done].
  - apply apply_event_spec; [done|]. intros eps. by eapply decode_event_name.
  - intros Hr. by apply (inj Ok) in Hr as <-.
Qed.
End refinement.

(** ** A full fetch *)
Section resync.
Context `{J : JsonC} (config : k8s_config).
Implicit Types (m : gmap bytes ns_view).

(** The effect of an item of a list, with its namespace; [None] when it has
    none. *)
Definition item_effect (kind : bytes) (item : json_object) : cres (option (bytes * effect)) :=
  match get_typed item "metadata" json_type_object with
  | None => Ok None
  | Some metadata =>
      match get_typed metadata "namespace" json_type_string with
      | None => Ok None
      | Some namespace =>
          ns ← deref (json_object_get_string namespace);
          eff ← (if streq kind (lit "IngressList") then put_effect PutIngress <$> ingress_make item
            else if streq kind (lit "ServiceList") then put_effect PutService <$> service_make item
            else if streq kind (lit "SecretList") then put_effect PutSecret <$> secret_make item
            else if streq kind (lit "EndpointsList") then put_effect PutEndpoints <$> endpoints_make item
            else if streq kind (lit "ConfigMapList") then
              (λ r, match r with
                    | Some cm => if our_configmap config (cm_name cm) (cm_namespace cm) then Configure (Some cm) else Nothing
                    | None => Nothing
                    end) <$> configmap_make item
            else Ok Nothing);
          Ok (Some (ns, eff))
      end
  end.

(** The items of a response, with the kind of the list. *)
Definition response_list (obj : json_object) : option (json_object * json_object) :=
  match get_typed obj "items" json_type_array, get_typed obj "metadata" json_type_object, get_typed obj "kind" json_type_string with
  | Some items, Some metadata, Some kind =>
      match get_typed metadata "resourceVersion" json_type_string with Some _ => Some (kind, items) | None => None end
  | _, _, _ => None
  end.

Definition response_items (buf : option bytes) : cres (list (bytes * json_object)) :=
  match buf with
  | None => Ok []
  | Some b =>
      match json_tokener_parse (c_str b) with
      | None => Ok []
      | Some obj =>
          match response_list obj with
          | Some (kind, items) =>
              skind ← deref (json_object_get_string kind);
              l ← deref (json_object_array items);
              Ok (List.map (pair skind) l)
          | None => Ok []
          end
      end
  end.

(** The effects of a response, in order. *)
Definition somes {A} (l : list (option A)) : list A := omap id l.

Definition response_effects (buf : option bytes) : cres (list (bytes * effect)) :=
  items ← response_items buf;
  effs ← mapC (λ '(kind, item), item_effect kind item) items;
  Ok (somes effs).

Definition effects_views (effs : list (bytes * effect)) m : gmap bytes ns_view :=
  foldl (λ m '(ns, eff), effect_views eff ns m) m effs.
Definition effects_config (effs : list (bytes * effect)) (cc : cluster_config) : cluster_config :=
  foldl (λ cc '(_, eff), effect_config eff cc) cc effs.

(** What a full fetch works on: the live cluster, whose namespaces stay, and
    the new one, which holds [m]. *)
Definition fetch_models (live0 : cluster) (effs : list (bytes * effect)) m (st : cluster * cluster) : Prop :=
  cs_namespaces st.1 = cs_namespaces live0 ∧
  cs_config st.1 = effects_config effs (cs_config live0) ∧
  cluster_models st.2 (effects_views effs m).

Lemma fetch_models_app live0 effs effs' m st st' :
  fetch_models live0 effs m st → fetch_models st.1 effs' (effects_views effs m) st' →
  fetch_models live0 (effs ++ effs') m st'.
Proof.
  unfold fetch_models, effects_views, effects_config. rewrite !foldl_app.
  intros (Hn & Hc & _) (Hn' & Hc' & Hm). split_and!; [by rewrite Hn', Hn|by rewrite Hc', Hc|done].
Qed.

(** The update of a namespace for a parsed item, as the code writes it. *)
Lemma item_put {A} (put : A → ns_event) (r : option A) (live cs : cluster) m ns :
  cluster_models cs m →
  let cs1 := (cluster_get_namespace cs ns).1 in
  fetch_models live [(ns, put_effect put r)] m
    (live, match r with Some a => cluster_update_namespace cs1 ns (λ n, ns_apply n (put a)) | None => cs1 end).
Proof.
  intros Hm cs1. unfold fetch_models, effects_config, effects_views; cbn [foldl fst snd].
  destruct r as [a|]; split_and!; try done; simpl.
  - by apply update_after_get.
  - by apply cluster_get_namespace_models.
Qed.

Lemma process_item_spec kind live cs m item st :
  cluster_models cs m → fetcher_process_item config kind (live, cs) item = Ok st →
  ∃ eff, item_effect kind item = Ok eff ∧ fetch_models live (option_list eff) m st.
Proof.
  intros Hm. unfold fetcher_process_item, item_effect.
  assert (Hsame : fetch_models live [] m (live, cs)) by done.
  destruct (get_typed item "metadata" _) as [md|]; [|intros H; apply (inj Ok) in H as <-; by exists None].
  destruct (get_typed md "namespace" _) as [n|]; [|intros H; apply (inj Ok) in H as <-; by exists None].
  destruct (deref (json_object_get_string n)) as [ns|]; [|done]. cbn [mbind cres_bind].
  pose proof (λ r, item_put PutIngress r live cs m ns Hm) as Hi. pose proof (λ r, item_put PutService r live cs m ns Hm) as Hs.
  pose proof (λ r, item_put PutSecret r live cs m ns Hm) as Hse. pose proof (λ r, item_put PutEndpoints r live cs m ns Hm) as He.
  destruct (cluster_get_namespace_models cs m ns Hm) as [Ht _].
  destruct (cluster_get_namespace cs ns) as [cs1 n1]; cbn [fst snd] in *.
  repeat (case_match; [match goal with |- mbind _ ?e = _ → _ => destruct e as [r|] end;
    cbn [mbind cres_bind fmap cres_fmap]; [intros Hr; apply (inj Ok) in Hr as <-; eexists; split; [done|]|done]|]); [by apply Hi|by apply Hs|by apply Hse|by apply He| |].
  - destruct r as [cm|]; [|done]. by destruct (our_configmap config (cm_name cm) (cm_namespace cm)).
  - intros Hr; apply (inj Ok) in Hr as <-. by eexists.
Qed.

Lemma process_items_spec kind l live cs m st :
  cluster_models cs m → foldC (fetcher_process_item config kind) l (live, cs) = Ok st →
  ∃ effs, mapC (λ '(kind, item), item_effect kind item) (List.map (pair kind) l) = Ok effs ∧
    fetch_models live (somes effs) m st.
Proof.
  revert live cs m; induction l as [|item l IH]; intros live cs m Hm.
  { intros H; apply (inj Ok) in H as <-. by exists []. }
  cbn [foldC]. destruct (fetcher_process_item config kind (live, cs) item) as [[live1 cs1]|] eqn:E; [|done].
  cbn [mbind cres_bind]. apply (process_item_spec _ _ _ m) in E as (eff & Heff & Hf); [|done].
  intros Hl. destruct (IH live1 cs1 _ (proj2 (proj2 Hf)) Hl) as (effs & Heffs & Hfs).
  exists (eff :: effs). cbn [List.map mapC]. rewrite Heff, Heffs. cbn [mbind cres_bind]. split; [done|].
  replace (somes (eff :: effs)) with (option_list eff ++ somes effs) by by destruct eff.
  by eapply fetch_models_app.
Qed.

Lemma fetcher_process_spec buf v live cs m v' st :
  cluster_models cs m → fetcher_process config buf v (live, cs) = Ok (v', st) →
  ∃ effs, response_effects buf = Ok effs ∧ fetch_models live effs m st.
Proof.
  intros Hm. assert (Hsame : fetch_models live [] m (live, cs)) by done.
  unfold fetcher_process, response_effects, response_items, response_list.
  destruct buf as [buf|]; [|intros H; apply (inj Ok), pair_eq in H as [_ <-]; by exists []].
  destruct (json_tokener_parse (c_str buf)) as [obj|]; [|intros H; apply (inj Ok), pair_eq in H as [_ <-]; by exists []].
  destruct (get_typed obj "items" _) as [items|]; [|intros H; apply (inj Ok), pair_eq in H as [_ <-]; by exists []].
  destruct (get_typed obj "metadata" _) as [md|]; [|intros H; apply (inj Ok), pair_eq in H as [_ <-]; by exists []].
  destruct (get_typed md "resourceVersion" _) as [rv|].
  2:{ intros H; apply (inj Ok), pair_eq in H as [_ <-]. exists []. by destruct (get_typed obj "kind" _). }
  destruct (deref (json_object_get_string rv)); [|done]. cbn [mbind cres_bind].
  destruct (get_typed obj "kind" _) as [kind|]; [|intros H; apply (inj Ok), pair_eq in H as [_ <-]; by exists []].
  destruct (deref (json_object_get_string kind)) as [skind|]; [|done]. cbn [mbind cres_bind].
  destruct (deref (json_object_array items)) as [l|]; [|done]. cbn [mbind cres_bind].
  destruct (foldC _ l _) as [st'|] eqn:E; [|done]. cbn [mbind cres_bind].
  intros H; apply (inj Ok), pair_eq in H as [_ <-].
  apply (process_items_spec _ _ _ _ m) in E as (effs & -> & Hf); [|done]. by exists (somes effs).
Qed.

(** The effects of the finished transfers; [None] when one failed. *)
Fixpoint fetch_effects (msgs : list (nat * option (option bytes))) : cres (option (list (bytes * effect))) :=
  match msgs with
  | [] => Ok (Some [])
  | (_, None) :: _ => Ok None
  | (_, Some buf) :: msgs =>
      effs ← response_effects buf;
      r ← fetch_effects msgs;
      Ok (option_map (app effs) r)
  end.

Lemma process_all_spec msgs vs live cs m ok vs' st :
  cluster_models cs m → process_all config msgs vs (live, cs) = Ok (ok, vs', st) →
  ∃ r, fetch_effects msgs = Ok r ∧
    match r with
    | Some effs => ok = true ∧ fetch_models live effs m st
    | None => ok = false ∧ cs_namespaces st.1 = cs_namespaces live
    end.
Proof.
  revert vs live cs m; induction msgs as [|[i [buf|]] msgs IH]; intros vs live cs m Hm; cbn [process_all fetch_effects].
  - intros H; apply (inj Ok) in H. simplify_eq. by exists (Some []).
  - destruct (vs !! i) as [res|]; [|done].
    destruct (fetcher_process config buf (res_version res) (live, cs)) as [[v [live1 cs1]]|] eqn:E; [|done].
    cbn [mbind cres_bind]. apply (fetcher_process_spec _ _ _ _ m) in E as (effs & -> & Hf); [|done].
    intros H. destruct (IH _ _ _ _ (proj2 (proj2 Hf)) H) as (r & -> & Hr). cbn [mbind cres_bind].
    eexists; split; [done|]. destruct r as [effs'|]; simpl; destruct Hr as [-> Hr]; (split; [done|]).
    + by eapply fetch_models_app.
    + rewrite Hr. apply Hf.
  - destruct (vs !! i); [|done]. intros H; apply (inj Ok) in H. simplify_eq. by exists None.
Qed.
(** The whole fetch. *)
Lemma resync_spec live live' vs vs' msgs ok :
  fetch_replace config live vs msgs = Ok (ok, vs', live') →
  ∃ r, fetch_effects msgs = Ok r ∧
    match r with
    | Some effs => ok = true ∧ cluster_models live' (effects_views effs ∅) ∧
        cs_config live' = effects_config effs (cs_config live)
    | None => ok = false ∧ cs_namespaces live' = cs_namespaces live
    end.
Proof.
  unfold fetch_replace. destruct (process_all config msgs vs (live, cluster_make)) as [[[ok1 vs1] [l n]]|] eqn:E; [|done].
  cbn [mbind cres_bind]. apply (process_all_spec _ _ _ _ ∅) in E as (r & -> & Hr); [|apply cluster_models_make].
  intros Hl. exists r. split; [done|]. destruct r as [effs|]; destruct Hr as [-> Hr]; apply (inj Ok) in Hl; simplify_eq; (split; [done|]); [|done].
  destruct Hr as (_ & Hc & [(hm & Hm & HF)]); simpl in *. split; [|done]. split. by exists hm.
Qed.
End resync.

(** ** Requests *)
Lemma bearer_header_exact token : bearer_header token = lit "Authorization: Bearer " ++ token.
Proof. unfold bearer_header. apply take_ge. rewrite length_app. cbn. lia. Qed.

Lemma fetch_url_exact server res : fetch_url server res = server ++ res_url res.
Proof. unfold fetch_url. apply take_ge. rewrite length_app. lia. Qed.

Lemma watch_url_exact server res version :
  res_version res = Some version →
  watch_url server res = Ok (server ++ res_url res ++ lit "?watch=true&resourceVersion=" ++ version).
Proof. intros Hv. unfold watch_url. rewrite Hv. cbn [deref mbind cres_bind]. f_equal. apply take_ge. rewrite !length_app. cbn. lia. Qed.

Lemma watcher_make_curl_trust version config init cb opts :
  watcher_make_curl version config init cb = Some opts →
  (∀ v, CURLOPT_SSL_VERIFYPEER v ∈ opts ↔ v = if co_tls_verify config then 1%Z else 0%Z) ∧
  (∀ f, CURLOPT_CAINFO f ∈ opts ↔ co_tls_cafile config = Some f) ∧
  (∀ hs, CURLOPT_HTTPHEADER hs ∈ opts ↔ ∃ t, co_token config = Some t ∧ hs = [lit "Authorization: Bearer " ++ t]) ∧
  (∀ u, CURLOPT_URL u ∉ opts).
Proof.
  unfold watcher_make_curl. destruct init; [|done]. intros [= <-].
  assert (Hb : ∀ t, [bearer_header t] = [lit "Authorization: Bearer " ++ t]) by (intros t; by rewrite bearer_header_exact).
  split_and!.
  - intros v. destruct (co_token config), (co_tls_certfile config), (co_tls_keyfile config), (co_tls_cafile config); set_solver.
  - intros f. destruct (co_token config), (co_tls_certfile config), (co_tls_keyfile config), (co_tls_cafile config); set_solver.
  - intros hs. destruct (co_token config) as [t|]; [rewrite (Hb t)|];
      destruct (co_tls_certfile config), (co_tls_keyfile config), (co_tls_cafile config); set_solver.
  - intros u. destruct (co_token config), (co_tls_certfile config), (co_tls_keyfile config), (co_tls_cafile config); set_solver.
Qed.

(** * Properties *)

(** C15. How libcurl cuts the watch stream into blocks does not matter: reading
    any sequence of blocks has the same effect on the cluster state, the
    change flag and the buffer (faults included) as reading their
    concatenation at once. *)
Theorem watch_read_chunks `{JsonC} (config : k8s_config) (fe : fetcher) (blocks : list bytes) :
  foldC (fe_watch_read config) blocks fe = fe_watch_read config fe (mjoin blocks).
Proof.
  revert fe; induction blocks as [|b blocks IH]; intros fe; [done|].
  change (mjoin (b :: blocks)) with (b ++ mjoin blocks). cbn [foldC].
  destruct (decide (b = [])) as [->|Hb]; [apply IH|].
  rewrite fe_watch_read_drain by done. rewrite (fe_watch_read_drain _ fe (b ++ mjoin blocks)) by (intros Hn; apply app_eq_nil in Hn as [Hn _]; exact (Hb Hn)).
  rewrite app_assoc, (drain_app config (fe_state fe) (default [] (fe_buf fe) ++ b) (mjoin blocks)).
  destruct (drain config (fe_state fe) (default [] (fe_buf fe) ++ b)) as [[ws rest]|] eqn:E; cbn [mbind cres_bind]; [|done].
  rewrite IH. generalize (mjoin blocks) as m; intros m. destruct (decide (m = [])) as [->|Hne].
  - rewrite app_nil_r, drain_unfold, (proj2 (cut_None _ _)); [done|].
    by eapply drain_rest.
  - by rewrite fe_watch_read_drain.
Qed.

(** C13. A line of the watch changes the cluster state as the event it carries
    says: an object is added, replaced or removed in its namespace, or the
    configuration is set or reset, and nothing else; a line that is not an
    event changes nothing.  The change flag is never lost, and when it is not
    set the objects and the configuration are as before: the Endpoints updates
    that are dropped as equal are equal in every field. *)
Theorem watch_line_refines `{JsonC} (config : k8s_config) (ws ws' : wstate) (m : gmap bytes ns_view) (line : bytes) :
  ws_models ws m → fe_watch_line config ws line = Ok ws' →
  match decode_event line with
  | Ok (Some e) => ∃ eff, event_effect config e = Ok eff ∧ step_ok ws m (we_namespace e) eff ws'
  | Ok None => ws' = ws
  | Fault _ => False
  end.
Proof. apply watch_line_spec. Qed.

(** What the watcher asks the API server: every request of a full fetch or of a
    watch goes to the configured server, with the certificate checked unless
    the configuration turns that off, against the configured authorities, and
    with the whole token if there is one. *)
Theorem requests_trusted (version : bytes) (config : k8s_config) (init : bool) (res : resource) (opts : list curl_opt) :
  fetcher_make version config init res = Ok (Some opts) ∨ fetcher_watch_make version config init res = Ok (Some opts) →
  (∀ v, CURLOPT_SSL_VERIFYPEER v ∈ opts ↔ v = if co_tls_verify config then 1%Z else 0%Z) ∧
  (∀ f, CURLOPT_CAINFO f ∈ opts ↔ co_tls_cafile config = Some f) ∧
  (∀ hs, CURLOPT_HTTPHEADER hs ∈ opts ↔ ∃ t, co_token config = Some t ∧ hs = [lit "Authorization: Bearer " ++ t]) ∧
  ∃ server query, co_server config = Some server ∧ ∀ u, CURLOPT_URL u ∈ opts ↔ u = server ++ res_url res ++ query.
Proof.
  intros H.
  assert (∃ cb opts0 server query, watcher_make_curl version config init cb = Some opts0 ∧ co_server config = Some server ∧
    opts = opts0 ++ [CURLOPT_URL (server ++ res_url res ++ query)]) as (cb & opts0 & server & query & Hm & Hs & ->).
  { destruct H as [H|H]; [unfold fetcher_make in H|unfold fetcher_watch_make in H];
      destruct (watcher_make_curl _ _ _ _) as [opts0|] eqn:E; try done;
      (destruct (co_server config) as [server|]; [|done]); cbn [deref mbind cres_bind] in H.
    - apply (inj Ok), (inj Some) in H as <-. exists FeRead, opts0, server, []. by rewrite fetch_url_exact, app_nil_r.
    - destruct (res_version res) as [v|] eqn:Ev; [|unfold watch_url in H; by rewrite Ev in H].
      rewrite (watch_url_exact server res v Ev) in H. cbn [mbind cres_bind] in H. apply (inj Ok), (inj Some) in H as <-.
      by exists FeWatchRead, opts0, server, (lit "?watch=true&resourceVersion=" ++ v). }
  destruct (watcher_make_curl_trust _ _ _ _ _ Hm) as (H1 & H2 & H3 & H4).
  split_and!; [|..|exists server, query; split; [done|]]; intros x; rewrite elem_of_app, list_elem_of_singleton;
    [rewrite <- H1|rewrite <- H2|rewrite <- H3|]; naive_solver.
Qed.

(** * Examples *)
Module Examples.
(** A parser that knows two texts: an event that adds an Endpoints, and the
    list that holds it. *)
Definition an_endpoints : json :=
  JObject [(lit "kind", JString (lit "Endpoints"));
    (lit "metadata", JObject [(lit "namespace", JString (lit "default")); (lit "name", JString (lit "web"))])].

Definition event_json : json := JObject [(lit "type", JString (lit "ADDED")); (lit "object", an_endpoints)].
Definition list_json : json :=
  JObject [(lit "kind", JString (lit "EndpointsList")); (lit "items", JArray [an_endpoints]);
    (lit "metadata", JObject [(lit "resourceVersion", JString (lit "42"))])].

#[local] Instance two_texts : JsonC := json_tree_with (λ s,
  if streq s (lit "event") then Some event_json else if streq s (lit "list") then Some list_json else None).

Definition test_config : k8s_config := k8s_config_new.
Definition ws0 : wstate := WState cluster_make false.

Lemma ws0_models : ws_models ws0 ∅.
Proof. split; [apply cluster_models_make|]. intros ns v. by rewrite lookup_empty. Qed.

Lemma watch_line_refines_witness :
  okb (fe_watch_line test_config ws0 (lit "event")) = true ∧
  ∃ ws' eff, fe_watch_line test_config ws0 (lit "event") = Ok ws' ∧ step_ok ws0 ∅ (lit "default") eff ws' ∧ ws_changed ws' = true.
Proof.
  split; [vm_compute; reflexivity|].
  assert (Hr : ∃ ws', fe_watch_line test_config ws0 (lit "event") = Ok ws' ∧ ws_changed ws' = true).
  { eexists. split; vm_compute; reflexivity. }
  destruct Hr as (ws' & Hr & Hc).
  pose proof (watch_line_refines test_config ws0 ws' ∅ (lit "event") ws0_models Hr) as Hw.
  change (∃ eff, event_effect test_config (WatchEvent false (lit "Endpoints") (lit "default") (lit "web") an_endpoints) = Ok eff ∧
    step_ok ws0 ∅ (lit "default") eff ws') in Hw.
  destruct Hw as (eff & _ & Hs). by exists ws', eff.
Defined.

(** When a response was not a list, its resource has no version and the watch
    that follows takes the length of a null string. *)
Example watch_without_version :
  fetcher_process test_config (Some (lit "other")) None (cluster_make, cluster_make) = Ok (None, (cluster_make, cluster_make)) ∧
  watch_url (lit "http://api") (Resource (lit "/api/v1/services") None) = Fault NullDeref.
Proof. split; vm_compute; reflexivity. Qed.
End Examples.
