(* ===== verification/Synth.v ===== *)
(** [tsapi/synth.c]: the responses the plugin generates itself, built in a
    buffer of fixed size, and the state machine that hands the buffer to
    Traffic Server. *)

From S2P Require Import Prelude CString.

Local Open Scope Z_scope.

(** * Data *)
Definition SY_BUFSZ : Z := 16384.

(** The first [sy_bufpos] bytes of [sy_buf]. *)
Record synth := Synth { sy_buf : bytes }.
Definition sy_bufpos (sy : synth) : Z := Z.of_nat (length (sy_buf sy)).

(** * Operations *)

(** [sy_vprintf] of the formatted text: [vsnprintf] writes what fits before a
    NUL, and the position then covers that NUL. *)
Definition sy_vprintf (sy : synth) (text : bytes) : synth :=
  let left := SY_BUFSZ - sy_bufpos sy in
  let n := Z.of_nat (length text) in
  if n <? left then Synth (sy_buf sy ++ text)
  else if left =? 0 then sy
  else Synth (sy_buf sy ++ take (Z.to_nat (left - 1)) text ++ [NUL]).

Definition crlf2 : bytes := ["013"%char; "010"%char].

Definition synth_new (status : Z) (reason : bytes) : synth :=
  sy_vprintf (Synth []) (lit "HTTP/1.1 " ++ fmt_d status ++ lit " " ++ reason ++ crlf2).

Definition synth_add_header (sy : synth) (hdr value : bytes) : synth :=
  let sy := sy_vprintf sy (hdr ++ lit ": ") in
  let sy := sy_vprintf sy value in
  sy_vprintf sy crlf2.

Definition synth_set_body (sy : synth) (body : option bytes) : synth :=
  match body with
  | Some body =>
      let sy := sy_vprintf sy (lit "Content-Length: " ++ fmt_d (Z.of_nat (length body)) ++ crlf2) in
      sy_vprintf sy (crlf2 ++ body)
  | None => sy_vprintf sy (lit "Content-Length: 0" ++ crlf2)
  end.

(** ** [synth_handle]

    The connection of a response: whether it was accepted and its buffers
    created ([sc_vc]), what was written into the response buffer, and the write
    VIO with the length [TSVIONBytesSet] gave it. *)
Record synth_conn := SynthConn {
  sc_synth : synth;
  sc_vc : bool;
  sc_resp : bytes;
  sc_write_vio : option (option Z);
}.

Inductive sy_event := TS_EVENT_NET_ACCEPT | TS_EVENT_VCONN_READ_READY | SY_WRITE_READY | SY_WRITE_COMPLETE
  | SY_OTHER (code : Z).

#[global] Instance sy_event_eq_dec : EqDecision sy_event.
Proof. solve_decision. Defined.

Inductive sy_call :=
  | TSIOBufferCreate | TSIOBufferDestroy | TSVConnRead | TSVConnShutdown | TSVConnWrite | TSVIOReenable
  | TSVConnClose | SynthFree | SynthContDestroy.

#[global] Instance sy_call_eq_dec : EqDecision sy_call.
Proof. solve_decision. Defined.

(** [synth_intercept] hands a new connection to Traffic Server. *)
Definition synth_intercept (sy : synth) : synth_conn := SynthConn sy false [] None.

Definition synth_free (sc : synth_conn) : list sy_call :=
  (if sc_vc sc then [TSIOBufferDestroy; TSIOBufferDestroy; TSVConnClose] else []) ++ [SynthFree].

(** The connection is [None] once it was freed. *)
Definition synth_handle (event : sy_event) (conn : option synth_conn) : cres (option synth_conn * list sy_call) :=
  match conn with
  | None => Fault UseAfterFree
  | Some sc =>
      match event with
      | TS_EVENT_NET_ACCEPT =>
          Ok (Some (SynthConn (sc_synth sc) true [] (sc_write_vio sc)), [TSIOBufferCreate; TSIOBufferCreate; TSVConnRead])
      | TS_EVENT_VCONN_READ_READY =>
          if sc_vc sc then Ok (Some (SynthConn (sc_synth sc) true (sc_resp sc) (Some None)), [TSVConnShutdown; TSVConnWrite])
          else Fault NullDeref
      | SY_WRITE_READY =>
          match sc_write_vio sc with
          | Some _ => Ok (Some (SynthConn (sc_synth sc) (sc_vc sc) (sc_resp sc ++ sy_buf (sc_synth sc)) (Some (Some (sy_bufpos (sc_synth sc))))),
                          [TSVIOReenable])
          | None => Fault NullDeref
          end
      | SY_WRITE_COMPLETE | SY_OTHER _ => Ok (None, synth_free sc ++ [SynthContDestroy])
      end
  end.

Fixpoint synth_run (conn : option synth_conn) (events : list sy_event) : cres (option synth_conn * list sy_call) :=
  match events with
  | [] => Ok (conn, [])
  | event :: events =>
      '(conn, calls) ← synth_handle event conn;
      '(conn, rest) ← synth_run conn events;
      Ok (conn, calls ++ rest)
  end.

(** * Reading a response *)

(** A line ended by CR LF, and what follows. *)
Fixpoint read_line (s : bytes) : option (bytes * bytes) :=
  match s with
  | [] => None
  | c :: s =>
      match s with
      | d :: s' => if bool_decide (c = "013"%char ∧ d = "010"%char) then Some ([], s')
                   else '(l, r) ← read_line s; Some (c :: l, r)
      | [] => None
      end
  end.

(** The lines of the head, up to the empty one, and the body. *)
Fixpoint read_head (fuel : nat) (s : bytes) : option (list bytes * bytes) :=
  match fuel with
  | O => None
  | S fuel =>
      match read_line s with
      | None => None
      | Some ([], r) => Some ([], r)
      | Some (l, r) => '(ls, body) ← read_head fuel r; Some (l :: ls, body)
      end
  end.

(** * Lemmas *)
Lemma sy_vprintf_bound sy text : sy_bufpos sy ≤ SY_BUFSZ → sy_bufpos (sy_vprintf sy text) ≤ SY_BUFSZ.
Proof.
  unfold sy_vprintf, sy_bufpos. intros H. case_match; [|case_match; [done|]]; cbn [sy_buf];
    rewrite ?length_app, ?length_take; cbn [length]; lia.
Qed.

(** A text that fits is appended. *)
Lemma sy_vprintf_fits sy text :
  sy_bufpos sy + Z.of_nat (length text) < SY_BUFSZ → sy_vprintf sy text = Synth (sy_buf sy ++ text).
Proof. unfold sy_vprintf. intros H. rewrite (proj2 (Z.ltb_lt _ _)) by lia. done. Qed.

Lemma read_line_app l r : "013"%char ∉ l → read_line (l ++ crlf2 ++ r) = Some (l, r).
Proof.
  induction l as [|c l IH]; intros Hn; [done|]. apply not_elem_of_cons in Hn as [Hc Hn].
  specialize (IH Hn). cbn [app]. destruct (l ++ crlf2 ++ r) as [|d s] eqn:E; [by destruct l|].
  cbn [read_line]. rewrite bool_decide_eq_false_2 by (intros [? _]; congruence).
  cbn [read_line] in IH. rewrite IH. done.
Qed.

Lemma read_head_line f l r : l ≠ [] → "013"%char ∉ l →
  read_head (S f) (l ++ crlf2 ++ r) = '(ls, body) ← read_head f r; Some (l :: ls, body).
Proof. intros Hl Hn. cbn [read_head]. rewrite read_line_app by done. by destruct l. Qed.

Lemma read_head_end f r : read_head (S f) (crlf2 ++ r) = Some ([], r).
Proof. done. Qed.

Lemma no_cr_fmt_d z : "013"%char ∉ fmt_d z.
Proof.
  assert (Hd : ∀ d, 0 ≤ d < 10 → "013"%char ≠ digit d).
  { intros d Hd Heq. apply isdigit_digit in Hd. by rewrite <- Heq in Hd. }
  assert (Hf : ∀ fuel z, 0 ≤ z → "013"%char ∉ fmt_digits fuel z).
  { induction fuel as [|fuel IH]; intros y Hy; cbn [fmt_digits]; [apply not_elem_of_nil|].
    case_bool_decide; rewrite ?elem_of_app, list_elem_of_singleton; [apply Hd; lia|].
    pose proof (Z.mod_pos_bound y 10). intros [H1|H1]; [|by apply (Hd (y mod 10)); [lia|]].
    apply (IH (y / 10)); [apply Z.div_pos; lia|done]. }
  unfold fmt_d. case_bool_decide; [apply not_elem_of_cons; split; [done|]|]; apply Hf; lia.
Qed.

(** The head of a response with one header. *)
Definition status_line (status : Z) (reason : bytes) : bytes := lit "HTTP/1.1 " ++ fmt_d status ++ lit " " ++ reason.
Definition header_line (hdr value : bytes) : bytes := hdr ++ lit ": " ++ value.
Definition length_line (body : bytes) : bytes := header_line (lit "Content-Length") (fmt_d (Z.of_nat (length body))).

Definition response_text (status : Z) (reason hdr value body : bytes) : bytes :=
  status_line status reason ++ crlf2 ++ header_line hdr value ++ crlf2 ++ length_line body ++ crlf2 ++ crlf2 ++ body.

(** Texts that fit together are all appended. *)
Lemma sy_vprintf_all texts sy :
  sy_bufpos sy + Z.of_nat (length (mjoin texts)) < SY_BUFSZ →
  foldl sy_vprintf sy texts = Synth (sy_buf sy ++ mjoin texts).
Proof.
  revert sy; induction texts as [|t texts IH]; intros sy; [destruct sy; by rewrite app_nil_r|].
  change (mjoin (t :: texts)) with (t ++ mjoin texts). rewrite length_app. intros H. cbn [foldl].
  rewrite sy_vprintf_fits by lia. rewrite IH; unfold sy_bufpos in *; cbn [sy_buf]; [by rewrite app_assoc|].
  rewrite length_app. lia.
Qed.

Lemma synth_text status reason hdr value body :
  Z.of_nat (length (response_text status reason hdr value body)) < SY_BUFSZ →
  synth_set_body (synth_add_header (synth_new status reason) hdr value) (Some body) =
    Synth (response_text status reason hdr value body).
Proof.
  set (texts := [status_line status reason ++ crlf2; hdr ++ lit ": "; value; crlf2; length_line body ++ crlf2; crlf2 ++ body]).
  assert (Ht : response_text status reason hdr value body = mjoin texts).
  { unfold response_text, header_line, texts. cbn [mjoin list_join]. rewrite app_nil_r. by rewrite <- !app_assoc. }
  rewrite Ht. intros Hl. rewrite <- (app_nil_l (mjoin texts)). change [] with (sy_buf (Synth [])).
  rewrite <- sy_vprintf_all by done.
  unfold synth_set_body, synth_add_header, synth_new, texts, status_line, length_line, header_line.
  cbn [foldl]. by rewrite <- !app_assoc.
Qed.

(** ** The order of events

    An event is in order if the connection has not ended before it and what it
    uses was set up: the connection by an accept, the write VIO by a
    read-ready. *)
Definition ends (event : sy_event) : bool := match event with SY_WRITE_COMPLETE | SY_OTHER _ => true | _ => false end.

Definition event_ok (before : list sy_event) (event : sy_event) : Prop :=
  Forall (λ e, ends e = false) before ∧
  (event = TS_EVENT_VCONN_READ_READY → TS_EVENT_NET_ACCEPT ∈ before) ∧
  (event = SY_WRITE_READY → TS_EVENT_VCONN_READ_READY ∈ before).

Definition in_order (events : list sy_event) : Prop := ∀ before event after, events = before ++ event :: after → event_ok before event.

Definition calls_of_kind (c : sy_call) (calls : list sy_call) : nat := length (filter (c =.) calls).
Definition accepts (events : list sy_event) : nat :=
  length (filter (TS_EVENT_NET_ACCEPT =.) events).

Lemma calls_of_kind_app c l k : calls_of_kind c (l ++ k) = (calls_of_kind c l + calls_of_kind c k)%nat.
Proof. unfold calls_of_kind. by rewrite filter_app, length_app. Qed.

Lemma accepts_snoc es e : accepts (es ++ [e]) = (accepts es + accepts [e])%nat.
Proof. unfold accepts. by rewrite filter_app, length_app. Qed.

Lemma accepts_elem es : TS_EVENT_NET_ACCEPT ∈ es ↔ (0 < accepts es)%nat.
Proof.
  unfold accepts. induction es as [|e es IH]; [split; [by intros ?%elem_of_nil|cbn; lia]|].
  rewrite elem_of_cons, filter_cons, IH. case_decide; cbn [length]; naive_solver lia.
Qed.

Lemma in_order_snoc es e : in_order (es ++ [e]) ↔ in_order es ∧ event_ok es e.
Proof.
  split.
  - intros Ho. split; [|by apply (Ho es e [])]. intros b ev a ->. apply (Ho b ev (a ++ [e])). by rewrite <- app_assoc.
  - intros [Ho He] b ev a Heq. destruct a as [|x a _] using rev_ind.
    + apply app_inj_tail in Heq as [-> ->]. done.
    + rewrite app_comm_cons, app_assoc in Heq. apply app_inj_tail in Heq as [-> _]. by apply (Ho b ev a).
Qed.

(** What the VIO sends: as many bytes as it was told, from the start of the
    buffer. *)
Definition sent (sc : synth_conn) : option bytes :=
  match sc_write_vio sc with Some (Some n) => Some (take (Z.to_nat n) (sc_resp sc)) | _ => None end.

Lemma synth_run_snoc conn es e :
  synth_run conn (es ++ [e]) =
    '(conn, calls) ← synth_run conn es; '(conn, rest) ← synth_handle e conn; Ok (conn, calls ++ rest).
Proof.
  revert conn; induction es as [|x es IH]; intros conn; cbn [synth_run app].
  - cbn [mbind cres_bind]. destruct (synth_handle e conn) as [[c l]|]; [|done]. cbn [mbind cres_bind]. by rewrite app_nil_r.
  - destruct (synth_handle x conn) as [[c l]|]; [|done]. cbn [mbind cres_bind]. rewrite IH.
    destruct (synth_run c es) as [[c1 l1]|]; [|done]. cbn [mbind cres_bind].
    destruct (synth_handle e c1) as [[c2 l2]|]; [|done]. cbn [mbind cres_bind]. by rewrite app_assoc.
Qed.

(** What the connection and the calls are after events in order. *)
Record follows (sy : synth) (es : list sy_event) (conn : option synth_conn) (calls : list sy_call) : Prop := {
  fo_live : match conn with
            | None => existsb ends es = true
            | Some sc => existsb ends es = false ∧ sc_synth sc = sy ∧ (sc_vc sc = true ↔ TS_EVENT_NET_ACCEPT ∈ es) ∧
                (is_Some (sc_write_vio sc) ↔ TS_EVENT_VCONN_READ_READY ∈ es) ∧ (SY_WRITE_READY ∉ es → sc_resp sc = [])
            end;
  fo_free : calls_of_kind SynthFree calls = (if existsb ends es then 1 else 0)%nat;
  fo_cont : calls_of_kind SynthContDestroy calls = (if existsb ends es then 1 else 0)%nat;
  fo_create : calls_of_kind TSIOBufferCreate calls = (2 * accepts es)%nat;
  fo_destroy : calls_of_kind TSIOBufferDestroy calls = (if existsb ends es && (0 <? accepts es)%nat then 2 else 0)%nat;
}.

Lemma existsb_ends es : existsb ends es = false ↔ Forall (λ e, ends e = false) es.
Proof. induction es as [|e es IH]; cbn; [done|]. rewrite orb_false_iff, Forall_cons, IH. done. Qed.

Lemma synth_handle_follows sy es conn calls e :
  follows sy es conn calls →
  match synth_handle e conn with
  | Ok (conn', calls') => event_ok es e ∧ follows sy (es ++ [e]) conn' (calls ++ calls')
  | Fault _ => ¬ event_ok es e
  end.
Proof.
  intros [Hl Hf Hc Hb Hd]. destruct conn as [sc|].
  2:{ cbn. intros [He _]. apply existsb_ends in He. congruence. }
  destruct Hl as (Hend & Hsy & Hvc & Hvio & Hresp). rewrite Hend in *. cbn [andb] in *. pose proof (proj1 (existsb_ends es) Hend) as Hne.
  assert (Hfin : ends e = true → event_ok es e ∧ follows sy (es ++ [e]) None (calls ++ synth_free sc ++ [SynthContDestroy])).
  { intros He. split; [split_and!; [done|by intros ->..]|].
    assert (Ha : accepts [e] = 0%nat) by by destruct e.
    assert (He' : existsb ends (es ++ [e]) = true) by (rewrite existsb_app, Hend; cbn; by rewrite He).
    split; [done|rewrite ?He', calls_of_kind_app, ?accepts_snoc, ?Ha; cbn [andb]..].
    all: rewrite ?Hf, ?Hc, ?Hb, ?Hd; unfold synth_free.
    - by destruct (sc_vc sc).
    - by destruct (sc_vc sc).
    - destruct (sc_vc sc); change (calls_of_kind TSIOBufferCreate _) with 0%nat; lia.
    - rewrite Nat.add_0_r. destruct (sc_vc sc) eqn:Ev.
      + rewrite (proj2 (Nat.ltb_lt _ _)) by (by apply accepts_elem, Hvc). done.
      + rewrite (proj2 (Nat.ltb_ge _ _)); [done|]. destruct (decide (0 < accepts es)%nat) as [Hp|]; [|lia].
        apply accepts_elem, Hvc in Hp. done. }
  assert (Hgo : ∀ sc' l, ends e = false → sc_synth sc' = sy → (sc_vc sc' = true ↔ TS_EVENT_NET_ACCEPT ∈ es ++ [e]) →
    (is_Some (sc_write_vio sc') ↔ TS_EVENT_VCONN_READ_READY ∈ es ++ [e]) → (SY_WRITE_READY ∉ es ++ [e] → sc_resp sc' = []) →
    calls_of_kind SynthFree l = 0%nat → calls_of_kind SynthContDestroy l = 0%nat → calls_of_kind TSIOBufferDestroy l = 0%nat →
    calls_of_kind TSIOBufferCreate l = (2 * accepts [e])%nat → follows sy (es ++ [e]) (Some sc') (calls ++ l)).
  { intros sc' l He H1 H2 H3 H4 H5 H6 H7 H8.
    assert (He' : existsb ends (es ++ [e]) = false) by (rewrite existsb_app, Hend; cbn; by rewrite He).
    split; [done|rewrite ?He', calls_of_kind_app, ?accepts_snoc; cbn [andb]; lia..]. }
  destruct e; cbn [synth_handle]; [| | |by apply Hfin..].
  - split; [split_and!; done|]. apply Hgo; cbn; try done; rewrite ?Hvio; set_solver.
  - destruct (sc_vc sc) eqn:Ev.
    + split; [split_and!; [done|intros _; by apply Hvc|done]|]. apply Hgo; cbn; try done.
      * rewrite Hvc. set_solver.
      * split; [set_solver|by eexists].
      * intros Hw. apply Hresp. set_solver.
    + intros (_ & Ha & _). specialize (Ha eq_refl). apply Hvc in Ha. done.
  - destruct (sc_write_vio sc) as [v|] eqn:Ev.
    + split; [split_and!; [done|done|intros _; apply Hvio; by eexists]|].
      apply Hgo; cbn; try done; [rewrite Hvc; set_solver| |set_solver].
      split; [intros _|by eexists]. apply elem_of_app. left. apply Hvio. by eexists.
    + intros (_ & _ & Hr). specialize (Hr eq_refl). apply Hvio in Hr as [? [=]].
Qed.

Lemma synth_run_follows sy es :
  match synth_run (Some (synth_intercept sy)) es with
  | Ok (conn, calls) => in_order es ∧ follows sy es conn calls
  | Fault _ => ¬ in_order es
  end.
Proof.
  induction es as [|e es IH] using rev_ind.
  - cbn. split; [by intros [|??] ? ?|]. split; cbn; try done. split_and!; try done; split; try done.
    all: try (by intros ?%elem_of_nil).
  - rewrite synth_run_snoc. destruct (synth_run _ es) as [[conn calls]|]; cbn [mbind cres_bind].
    2:{ rewrite in_order_snoc. by intros [? _]. }
    destruct IH as [Ho Hf]. pose proof (synth_handle_follows sy es conn calls e Hf) as Hs.
    destruct (synth_handle e conn) as [[conn' calls']|]; cbn [mbind cres_bind]; rewrite in_order_snoc; naive_solver.
Qed.

(** Every write-ready copies the response once more. *)
Lemma synth_writes sy vc r vio k :
  synth_run (Some (SynthConn sy vc (sy_buf sy ++ r) (Some vio))) (replicate k SY_WRITE_READY) =
    Ok (Some (SynthConn sy vc (sy_buf sy ++ r ++ mjoin (replicate k (sy_buf sy))) (Some (if k is O then vio else Some (sy_bufpos sy)))),
        replicate k TSVIOReenable).
Proof.
  revert r vio; induction k as [|k IH]; intros r vio; [by rewrite app_nil_r|]. cbn [replicate synth_run synth_handle sc_write_vio sc_synth sc_vc sc_resp].
  cbn [mbind cres_bind]. rewrite <- app_assoc, IH. cbn [mbind cres_bind app mjoin list_join]. rewrite <- app_assoc. by destruct k.
Qed.

Lemma synth_run_app conn es es' :
  synth_run conn (es ++ es') = '(conn, calls) ← synth_run conn es; '(conn, rest) ← synth_run conn es'; Ok (conn, calls ++ rest).
Proof.
  revert conn; induction es as [|x es IH]; intros conn; cbn [synth_run app].
  - cbn [mbind cres_bind]. by destruct (synth_run conn es') as [[]|].
  - destruct (synth_handle x conn) as [[c l]|]; [|done]. cbn [mbind cres_bind]. rewrite IH.
    destruct (synth_run c es) as [[c1 l1]|]; [|done]. cbn [mbind cres_bind].
    destruct (synth_run c1 es') as [[c2 l2]|]; [|done]. cbn [mbind cres_bind]. by rewrite app_assoc.
Qed.

(** * Properties *)

(** A generated response that fits the buffer reads back as what it was
    built from: the status line, the header, a Content-Length that is the
    length of the body, an empty line and the body, with nothing lost or
    added; and whatever the texts, the buffer is never overrun. *)
Theorem synth_roundtrip (status : Z) (reason hdr value body : bytes) :
  "013"%char ∉ reason → "013"%char ∉ hdr → "013"%char ∉ value → 
  let sy := synth_set_body (synth_add_header (synth_new status reason) hdr value) (Some body) in
  sy_bufpos sy ≤ SY_BUFSZ ∧
  (Z.of_nat (length (response_text status reason hdr value body)) < SY_BUFSZ →
   read_head 4 (sy_buf sy) = Some ([status_line status reason; header_line hdr value; length_line body], body)).
Proof.
  intros Hr Hh Hv sy. split.
  - unfold sy, synth_set_body, synth_add_header, synth_new. by repeat apply sy_vprintf_bound.
  - intros Hl. unfold sy. rewrite synth_text by done. cbn [sy_buf]. unfold response_text.
    rewrite !read_head_line; [by rewrite read_head_end| |..]; try done;
      unfold status_line, header_line, length_line, header_line; rewrite ?not_elem_of_app;
      (split_and! || idtac); try done; try (apply no_cr_fmt_d); try (by apply (bool_decide_unpack _));
      intros Hn; apply app_eq_nil in Hn as [_ Hn]; discriminate Hn.
Qed.

Lemma synth_roundtrip_witness :
  let sy := synth_set_body (synth_add_header (synth_new 403 (lit "Forbidden")) (lit "Content-Type") (lit "text/plain;charset=UTF-8"))
              (Some (lit "Access denied.")) in
  read_head 4 (sy_buf sy) = Some ([lit "HTTP/1.1 403 Forbidden"; lit "Content-Type: text/plain;charset=UTF-8";
    lit "Content-Length: 14"], lit "Access denied.").
Proof.
  apply (synth_roundtrip 403 (lit "Forbidden") (lit "Content-Type") (lit "text/plain;charset=UTF-8") (lit "Access denied."));
    [by compute_done..|reflexivity].
Defined.

(** Without a body, the head is not ended by an empty line. *)
Example synth_no_body :
  let sy := synth_set_body (synth_add_header (synth_new 200 (lit "OK")) (lit "Content-Type") (lit "text/plain")) None in
  ∀ fuel, read_head fuel (sy_buf sy) = None.
Proof. intros sy fuel. do 4 (destruct fuel as [|fuel]; [reflexivity|]). reflexivity. Qed.

(** C35. The life of a generated response, for every sequence of events Traffic
    Server may report: the handler faults exactly when an event comes out of
    order, that is after the connection has ended, a read-ready before any
    accept or a write-ready before any read-ready; otherwise it returns.  Then
    the response and its continuation are freed once if the connection has
    ended (all was written, or an event came that is not expected) and are
    there otherwise; two buffers are created by every accept and two destroyed
    at the end, so that none is left if there was one accept (or none); and
    when write-ready is reported, once or any number of times, after a first
    read-ready, what is sent is the response and nothing else. *)
Theorem synth_delivers (sy : synth) (events : list sy_event) :
  match synth_run (Some (synth_intercept sy)) events with
  | Fault _ => ¬ in_order events
  | Ok (conn, calls) =>
      in_order events ∧
      (conn = None ↔ existsb ends events = true) ∧
      calls_of_kind SynthFree calls = (if existsb ends events then 1 else 0)%nat ∧
      calls_of_kind SynthContDestroy calls = calls_of_kind SynthFree calls ∧
      calls_of_kind TSIOBufferCreate calls = (2 * accepts events)%nat ∧
      (existsb ends events = true → (accepts events ≤ 1)%nat →
         calls_of_kind TSIOBufferDestroy calls = calls_of_kind TSIOBufferCreate calls) ∧
      (∀ before k, events = before ++ TS_EVENT_VCONN_READ_READY :: replicate (S k) SY_WRITE_READY → SY_WRITE_READY ∉ before →
         ∃ sc, conn = Some sc ∧ sent sc = Some (sy_buf sy))
  end.
Proof.
  pose proof (synth_run_follows sy events) as Hf. destruct (synth_run _ events) as [[conn calls]|] eqn:Er; [|done].
  destruct Hf as [Ho [Hl Hfree Hcont Hcr Hd]]. split_and!; try done.
  - destruct conn as [sc|]; [|done]. destruct Hl as (Hl & _). rewrite Hl. done.
  - congruence.
  - intros He Ha. rewrite Hd, Hcr, He. destruct (accepts events) as [|[|]]; [done..|lia].
  - intros before k -> Hw. pose proof (synth_run_follows sy before) as Hb. rewrite synth_run_app in Er.
    destruct (synth_run _ before) as [[cb lb]|]; [|done]. cbn [mbind cres_bind] in Er. destruct Hb as [_ [Hb _ _ _ _]].
    destruct cb as [[sy' vc r vio]|]; [|done]. destruct Hb as (_ & Hsy & _ & _ & Hr). cbn in Hsy, Hr. subst sy'. rewrite Hr in Er by done.
    cbn [replicate synth_run synth_handle sc_vc sc_synth sc_resp sc_write_vio] in Er. destruct vc; [|done].
    cbn [mbind cres_bind app synth_handle sc_write_vio sc_synth sc_vc sc_resp] in Er.
    rewrite <- (app_nil_r (sy_buf sy)) in Er at 1. rewrite synth_writes in Er. cbn [mbind cres_bind] in Er. injection Er as <- _.
    eexists. split; [done|]. unfold sent. cbn [sc_write_vio sc_resp app].
    destruct k; cbn [sc_write_vio]; unfold sy_bufpos; by rewrite Nat2Z.id, take_app_length.
Qed.

(** Events in order, out of order and after the end. *)
Definition delivery : list sy_event :=
  [TS_EVENT_NET_ACCEPT; TS_EVENT_VCONN_READ_READY; SY_WRITE_READY; SY_WRITE_READY; SY_WRITE_COMPLETE].

Lemma synth_delivers_witness :
  let forbidden := synth_new 403 (lit "Forbidden") in
  in_order delivery ∧ ¬ in_order [TS_EVENT_NET_ACCEPT; SY_WRITE_READY] ∧ ¬ in_order (delivery ++ [SY_OTHER 0]) ∧
  match synth_run (Some (synth_intercept forbidden)) (take 4 delivery) with
  | Ok (Some sc, _) => sent sc = Some (sy_buf forbidden)
  | _ => False
  end.
Proof.
  intros forbidden. split; [exact (proj1 (synth_delivers forbidden delivery))|].
  split; [exact (synth_delivers forbidden [TS_EVENT_NET_ACCEPT; SY_WRITE_READY])|].
  split; [exact (synth_delivers forbidden (delivery ++ [SY_OTHER 0]))|].
  destruct (proj2 (proj2 (proj2 (proj2 (proj2 (proj2 (synth_delivers forbidden (take 4 delivery))))))) [TS_EVENT_NET_ACCEPT] 1%nat eq_refl)
    as (sc & [= <-] & Hs); [by compute_done|exact Hs].
Defined.
