(* ===== verification/Compress.v ===== *)
(** [tsapi/compress.c]: whether a response is compressed, and how.

    Header fields are what the Traffic Server calls return for them.  The calls
    on headers are in [TsHeaders], the transformation of the body in
    [Stream]. *)

From S2P Require Import Prelude CString Hash Env RemapPath Crypt RemapDb.

(** * Data *)
Inductive comp_type := COMP_NONE | COMP_GZIP | COMP_DEFLATE | COMP_BROTLI.

#[global] Instance comp_type_eq_dec : EqDecision comp_type.
Proof. solve_decision. Defined.

(** [cs_done_init] and [cs_output_len] belong to the transformation. *)
Record comp_state := CompState {
  cs_type : comp_type;
  cs_types : hashset;
  cs_done_init : bool;
  cs_output_len : Z;
}.

(** What is read of a response: whether it has a Content-Encoding, and the
    Content-Type with its first value, which may be missing. *)
Record response_hdr := ResponseHdr {
  has_content_encoding : bool;
  content_type : option (option bytes);
}.

(** * Operations *)

(** The tests on one value of Accept-Encoding. *)
Definition accept_is (name : string) (value : bytes) : bool :=
  streq value (lit name) || has_prefix (lit name ++ lit ";") value.

(** The values are visited from the last to the first. *)
Definition request_can_compress (aenc : option (list bytes)) : comp_type :=
  match aenc with
  | None => COMP_NONE
  | Some values =>
      let '(has_gzip, has_deflate, has_br) :=
        foldl (λ '(g, d, b) v, (g || accept_is "gzip" v, d || accept_is "deflate" v, b || accept_is "br" v))
          (false, false, false) (reverse values) in
      if (has_br : bool) then COMP_BROTLI
      else if (has_gzip : bool) then COMP_GZIP
      else if (has_deflate : bool) then COMP_DEFLATE
      else COMP_NONE
  end.

(** The media type: what is before the first ";". *)
Definition media_type (cs : bytes) : bytes :=
  c_str (match cut ";"%char cs with Some (s, _) => s | None => cs end).

Definition response_can_compress (state : comp_state) (resp : response_hdr) : bool :=
  if has_content_encoding resp then false
  else match content_type resp with
       | None => false
       | Some None => false
       | Some (Some cs) => bool_decide (hash_get (cs_types state) (media_type cs) = HASH_PRESENT)
       end.

(** The value [comp_set_content_encoding] adds. *)
Definition content_encoding (state : comp_state) : option bytes :=
  match cs_type state with
  | COMP_NONE => None
  | COMP_GZIP => Some (lit "gzip")
  | COMP_DEFLATE => Some (lit "deflate")
  | COMP_BROTLI => Some (lit "br")
  end.

(** The stream the encoder writes: zlib's [deflateInit2] with its level and
    window bits, or brotli with its quality. *)
Inductive encoder := Zlib (level window_bits : Z) | Brotli (quality : Z).

Definition gzip_init : encoder := Zlib 3 (15 + 16).
Definition deflate_init : encoder := Zlib 3 15.
Definition br_init : encoder := Brotli 2.

(** The encoder the [cs_init] callback sets up that [compress_init] installs. *)
Definition encoder_of (state : comp_state) : option encoder :=
  match cs_type state with
  | COMP_NONE => None
  | COMP_GZIP => Some gzip_init
  | COMP_DEFLATE => Some deflate_init
  | COMP_BROTLI => Some br_init
  end.

Definition tsi_compress `{Posix} (rp : remap_path) (aenc : option (list bytes)) : option comp_state :=
  let type := request_can_compress aenc in
  if bool_decide (type = COMP_NONE) then None
  else Some (CompState type (foldl hashset_add (hash_new 127 false) (pattern_list (rp_compress_types rp))) false 0).

(** * Lemmas *)

(** The encoding chosen for a list of accepted ones. *)
Definition accepts (aenc : option (list bytes)) (name : string) : Prop :=
  ∃ values v, aenc = Some values ∧ v ∈ values ∧ accept_is name v = true.

Lemma accept_flags values g d b :
  foldl (λ '(g, d, b) v, (g || accept_is "gzip" v, d || accept_is "deflate" v, b || accept_is "br" v)) (g, d, b) values =
  (g || existsb (accept_is "gzip") values, d || existsb (accept_is "deflate") values, b || existsb (accept_is "br") values).
Proof.
  revert g d b; induction values as [|v values IH]; intros g d b; simpl; [by rewrite !orb_false_r|].
  by rewrite IH, !orb_assoc.
Qed.

Lemma existsb_reverse {A} (f : A → bool) l : existsb f (reverse l) = true ↔ ∃ v, v ∈ l ∧ f v = true.
Proof.
  rewrite existsb_exists. split; intros (v & Hv & Hf); exists v; (split; [|done]).
  - by rewrite <- elem_of_reverse, list_elem_of_In.
  - by rewrite <- list_elem_of_In, elem_of_reverse.
Qed.

(** The flag of an encoding is whether a value of the field asks for it. *)
Lemma accepts_flag values name : existsb (accept_is name) (reverse values) = true ↔ accepts (Some values) name.
Proof. rewrite existsb_reverse. unfold accepts. naive_solver. Qed.

(** The preference: brotli, then gzip, then deflate. *)
Definition preferred (aenc : option (list bytes)) (enc : bytes) : Prop :=
  (enc = lit "br" ∧ accepts aenc "br") ∨
  (enc = lit "gzip" ∧ accepts aenc "gzip" ∧ ¬ accepts aenc "br") ∨
  (enc = lit "deflate" ∧ accepts aenc "deflate" ∧ ¬ accepts aenc "gzip" ∧ ¬ accepts aenc "br").

Lemma request_can_compress_spec aenc types enc :
  content_encoding (CompState (request_can_compress aenc) types false 0) = Some enc ↔ preferred aenc enc.
Proof.
  unfold preferred. destruct aenc as [values|]; [|unfold accepts; naive_solver].
  rewrite <- !accepts_flag. unfold request_can_compress, content_encoding. rewrite accept_flags. cbn [orb cs_type].
  destruct (existsb (accept_is "br") _), (existsb (accept_is "gzip") _), (existsb (accept_is "deflate") _); naive_solver.
Qed.

(** The format a stream is in, by the documentation of zlib and brotli: with
    16 added to the window bits, zlib writes a gzip header and trailer. *)
Definition stream_format (e : encoder) : bytes :=
  match e with
  | Zlib _ bits => if bool_decide (15 < bits)%Z then lit "gzip" else lit "deflate"
  | Brotli _ => lit "br"
  end.

Lemma encoder_format st : stream_format <$> encoder_of st = content_encoding st.
Proof. by destruct st as [[] types done len]. Qed.

(** * Properties *)

(** The encoding of the answer to a request, from the fields of the request
    and of the response. *)
Definition response_encoding `{Posix} (rp : remap_path) (aenc : option (list bytes)) (resp : response_hdr)
    : option (option bytes * option encoder) :=
  match tsi_compress rp aenc with
  | None => None
  | Some st => if response_can_compress st resp
               then Some (content_encoding st, encoder_of st) else None
  end.

(** A response is transformed exactly when the client accepts one of the
    three encodings, the response is not encoded yet and its media type is
    one of the path's; it is then labelled with the preferred encoding the
    client accepts, and the encoder that is set up writes that format. *)
Theorem compress_decision `{Posix} (rp : remap_path) (aenc : option (list bytes)) (resp : response_hdr) (enc : bytes) :
  hash_wf (rp_compress_types rp) →
  (∃ e, response_encoding rp aenc resp = Some (Some enc, Some e) ∧ stream_format e = enc) ↔
  preferred aenc enc ∧ has_content_encoding resp = false ∧
  ∃ cs, content_type resp = Some (Some cs) ∧ hash_get (rp_compress_types rp) (media_type cs) = HASH_PRESENT.
Proof.
  intros Hwf. set (types := foldl hashset_add (hash_new 127 false) (pattern_list (rp_compress_types rp))).
  assert (Ht : ∀ k, hash_get types k = HASH_PRESENT ↔ hash_get (rp_compress_types rp) k = HASH_PRESENT).
  { intros k. unfold types. rewrite <- (pattern_list_get (rp_compress_types rp)) by done. by apply hashset_of_get; lia. }
  rewrite <- (request_can_compress_spec aenc types enc). unfold response_encoding, tsi_compress. fold types.
  case_bool_decide as Hn.
  - split; [by intros (e & ? & _)|]. rewrite Hn. by intros [? _].
  - set (st := CompState (request_can_compress aenc) types false 0). pose proof (encoder_format st) as Hf.
    unfold response_can_compress. cbn [cs_types st].
    destruct (has_content_encoding resp); [naive_solver|].
    destruct (content_type resp) as [[cs|]|]; [|naive_solver..].
    case_bool_decide as Hg; [|split; [naive_solver|]; intros (_ & _ & cs' & Hcs & Hg'); simplify_eq; by rewrite <- Ht in Hg'].
    rewrite Ht in Hg. split.
    + intros (e & He & Hs). simplify_eq. naive_solver.
    + intros (Hc & _). rewrite Hc in *. destruct (encoder_of st) as [e|]; [|done]. exists e.
      split; [done|]. by apply (inj Some) in Hf.
Qed.

(** * Examples *)
Module Examples.
#[local] Existing Instance posix_literal.

Lemma compress_decision_witness :
  let rp := path_defaults None in
  ∃ e, response_encoding rp (Some [lit "gzip"; lit "br;q=0.5"]) (ResponseHdr false (Some (Some (lit "text/css; charset=utf-8"))))
       = Some (Some (lit "br"), Some e) ∧ stream_format e = lit "br".
Proof.
  intros rp. apply (compress_decision rp).
  - apply hashset_of_wf. lia.
  - split; [left; split; [done|]; exists [lit "gzip"; lit "br;q=0.5"], (lit "br;q=0.5"); split; [done|]; split; [by compute_done|reflexivity]|].
    split; [done|]. exists (lit "text/css; charset=utf-8"). split; [done|]. apply hashset_of_get; [lia|by compute_done].
Defined.

(** An encoding the client rules out with a zero weight counts as accepted. *)
Example compress_zero_weight : request_can_compress (Some [lit "gzip"; lit "br;q=0"]) = COMP_BROTLI.
Proof. reflexivity. Qed.
End Examples.
