(* ===== verification/DebugLog.v ===== *)
(** [tsapi/debug.c]: the lines of the debug log, and the log of a client
    request, which the request hook writes.

    A line is what one call of [TSError] writes.  [txn] is the transaction as
    "%p" prints it.  Characters come with their number and are printed with
    "%.*s", up to a terminator. *)

From S2P Require Import Prelude CString.

Local Open Scope Z_scope.

(** "%.*s" of [n] characters at the start of [s], which has no terminator of its
    own: reading past its end is a fault. *)
Definition print_n (n : nat) (s : bytes) : cres bytes :=
  if (n <=? length s)%nat then Ok (c_str (take n s))
  else if bool_decide (NUL ∈ s) then Ok (c_str s) else Fault OutOfBounds.

Section ops.
Context (txn : bytes).

Definition prefix_line (text : bytes) : bytes := lit "[kubernetes] txn " ++ txn ++ lit ": " ++ text.

(** One value of a field, and all of them. *)
Definition value_line (j jend : nat) (name value : bytes) : bytes :=
  prefix_line (lit "[" ++ fmt_d (Z.of_nat (j + 1)) ++ lit "/" ++ fmt_d (Z.of_nat jend) ++ lit "] " ++ c_str name ++ lit ": " ++ c_str value).

Definition field_lines (field : bytes * list bytes) : list bytes :=
  imap (λ j v, value_line j (length field.2) field.1 v) field.2.

(** A header between its two markers. *)
Definition between (what : bytes) (lines : list bytes) : list bytes :=
  prefix_line (lit "--- dump " ++ what ++ lit " ---") :: lines ++ [prefix_line (lit "--- end " ++ what ++ lit " ---")].

(** [TSHttpTxnClientReqGet]: the version, the method, the text of the URL and
    the fields with their values. *)
Record client_req := ClientReq { cr_version : Z; cr_method : bytes; cr_url : bytes; cr_fields : list (bytes * list bytes) }.
Definition TS_HTTP_MAJOR (v : Z) : Z := Z.land (Z.shiftr v 16) 0xffff.
Definition TS_HTTP_MINOR (v : Z) : Z := Z.land v 0xffff.

(** The line for the URL has the length of the URL and the characters of the
    method. *)
Definition debug_log_read_request_hdr (req : option client_req) : cres (list bytes) :=
  match req with
  | None => Ok [lit "kubernetes: debug_log_request: can't get req?"]
  | Some req =>
      method ← print_n (length (cr_method req)) (cr_method req);
      url ← print_n (length (cr_url req)) (cr_method req);
      Ok (prefix_line (lit "read request method " ++ method ++ lit " version " ++
            fmt_d (TS_HTTP_MAJOR (cr_version req)) ++ lit "." ++ fmt_d (TS_HTTP_MINOR (cr_version req))) ::
          prefix_line (lit "req url: " ++ url) ::
          between (lit "request header") (mjoin (field_lines <$> cr_fields req)))
  end.
End ops.

(** * Lemmas *)
Lemma print_own s : print_n (length s) s = Ok (c_str s).
Proof. unfold print_n. by rewrite (proj2 (Nat.leb_le _ _)), take_ge. Qed.

Lemma print_short n s : (n ≤ length s)%nat → print_n n s = Ok (c_str (take n s)).
Proof. intros Hn. unfold print_n. by rewrite (proj2 (Nat.leb_le _ _)). Qed.

Lemma print_past n s : no_nul s → (length s < n)%nat → print_n n s = Fault OutOfBounds.
Proof. intros Hs Hn. unfold print_n. rewrite (proj2 (Nat.leb_gt _ _)) by done. by rewrite bool_decide_eq_false_2. Qed.

(** * Properties *)

(** The log of a request prints the method in the place of the URL: a URL that
    is not longer is cut out of the method, and a longer one makes the call read
    past the end of the method. *)
Theorem debug_request_overread (txn : bytes) (version : Z) (method url : bytes) (fields : list (bytes * list bytes)) :
  no_nul method →
  if bool_decide (length method < length url)%nat
  then debug_log_read_request_hdr txn (Some (ClientReq version method url fields)) = Fault OutOfBounds
  else ∃ first rest, debug_log_read_request_hdr txn (Some (ClientReq version method url fields)) =
         Ok (first :: prefix_line txn (lit "req url: " ++ c_str (take (length url) method)) :: rest).
Proof.
  intros Hm. unfold debug_log_read_request_hdr. cbn [cr_method cr_url]. rewrite print_own, bind_ok. case_bool_decide.
  - by rewrite print_past.
  - rewrite print_short, bind_ok by lia. by eexists _, _.
Qed.

Example debug_request_overread_get :
  debug_log_read_request_hdr (lit "0x1") (Some (ClientReq 0x10001 (lit "GET") (lit "http://example.com/") [])) = Fault OutOfBounds.
Proof. exact (debug_request_overread (lit "0x1") 0x10001 (lit "GET") (lit "http://example.com/") [] ltac:(by compute_done)). Qed.
