(* ===== verification/TsRemap.v ===== *)
(** [tsapi/remap.c] and [tsapi/tls.c]: the hooks Traffic Server calls for a
    request and for a TLS handshake.

    Traffic Server is outside the model.  What its calls return for a
    transaction is a record; what the plugin asks it to do is the list of
    calls, in order. *)

From S2P Require Import Prelude CString Hash Base64 Strmatch Env Api Namespace Cluster RemapPath RemapHost Crypt Auth Config RemapDb Synth Compress DebugLog.

Local Open Scope Z_scope.

(** * Data *)

(** A transaction, as the calls on the client request report it: the parts of
    the URL, the fields with their values, the first value of Cookie, the
    values of Accept-Encoding, whether the connection is encrypted, which
    fields [TSMimeHdrFieldFind] finds, and whether creating a field and a
    continuation succeeds.  For the debug log, the transaction as "%p" prints
    it, the version of the request and the text of its URL. *)
Record ts_txn := TsTxn {
  tx_name : bytes;
  tx_version : Z;
  tx_url : bytes;
  tx_method : bytes;
  tx_scheme : option bytes;
  tx_host : option bytes;
  tx_path : option bytes;
  tx_query : option bytes;
  tx_addr : sockaddr;
  tx_fields : list (bytes * list bytes);
  tx_cookie : option bytes;
  tx_accept_encoding : option (list bytes);
  tx_tls : bool;
  tx_has_field : bytes → bool;
  tx_creates_field : bytes → bool;
  tx_creates_cont : bool;
}.

Inductive ts_hook := TS_HTTP_SEND_REQUEST_HDR_HOOK | TS_HTTP_READ_RESPONSE_HDR_HOOK
  | TS_HTTP_CACHE_LOOKUP_COMPLETE_HOOK | TS_HTTP_SEND_RESPONSE_HDR_HOOK | TS_HTTP_TXN_CLOSE_HOOK.

Inductive ts_config := TS_CONFIG_HTTP_NORMALIZE_AE_GZIP | TS_CONFIG_HTTP_INSERT_RESPONSE_VIA_STR
  | TS_CONFIG_HTTP_INSERT_REQUEST_VIA_STR | TS_CONFIG_HTTP_RESPONSE_SERVER_ENABLED
  | TS_CONFIG_HTTP_ENABLE_REDIRECTION | TS_CONFIG_HTTP_REDIRECT_USE_ORIG_CACHE_KEY
  | TS_CONFIG_SSL_HSTS_MAX_AGE | TS_CONFIG_SSL_HSTS_INCLUDE_SUBDOMAINS
  | TS_CONFIG_HTTP_CONNECT_ATTEMPTS_TIMEOUT | TS_CONFIG_HTTP_POST_CONNECT_ATTEMPTS_TIMEOUT
  | TS_CONFIG_HTTP_CACHE_HTTP | TS_CONFIG_HTTP_CACHE_GENERATION.

(** The calls that change the transaction.  [TSMimeHdrFieldAppend] stands for
    the creation of a field with one value and its addition to the request,
    [TSMimeHdrFieldValueStringSet] for the replacement of all its values. *)
Inductive ts_action :=
  | TSError (line : bytes)
  | TSHttpTxnHookAdd (hook : ts_hook)
  | TSHttpTxnConfigIntSet (key : ts_config) (value : Z)
  | TSHttpHdrUrlSet (scheme path query : option bytes)
  | TSMimeHdrFieldRemove (name : bytes)
  | TSMimeHdrFieldAppend (name value : bytes)
  | TSMimeHdrFieldValueStringSet (name value : bytes)
  | TSCacheUrlSet (key : bytes)
  | TSSkipRemappingSet (flag : Z)
  | TSHttpTxnServerAddrSet (addr : bytes) (port : Z)
  | TSHostLookup (host : bytes)
  | TSHttpTxnIntercept (response : bytes)
  | TSHttpTxnReenable.

(** [rq_compress_transform] is whether the handle is set. *)
Record request_ctx := RequestCtx {
  rq_compress : bool;
  rq_comp_state : option comp_state;
  rq_compress_transform : bool;
  rq_server_push : bool;
  rq_cache_enabled : bool;
  rq_can_cache : bool;
  rq_debug_log : bool;
  rq_response_headers : hash bytes;
}.

(** * Operations *)

(** [request_from_txn]; [xstrndup] makes a string that ends at its first NUL. *)
Definition host_without_port (host : bytes) : bytes :=
  match cut ":"%char (c_str host) with Some (name, _) => name | None => c_str host end.

Definition add_field (h : hash remap_hdrfield) (f : bytes * list bytes) : hash remap_hdrfield :=
  hash_set h (c_str (tolower <$> f.1)) (RemapHdrfield (c_str <$> f.2)).

Definition request_from_txn (txn : ts_txn) : remap_request := {|
  rr_proto := option_map c_str (tx_scheme txn);
  rr_method := c_str (tx_method txn);
  rr_host := option_map host_without_port (tx_host txn);
  rr_path := option_map c_str (tx_path txn);
  rr_query := option_map c_str (tx_query txn);
  rr_hdrfields := foldl add_field (hash_new 127 true) (tx_fields txn);
  rr_addr := tx_addr txn;
|}.

Definition set_host_field (txn : ts_txn) (host : bytes) : list ts_action :=
  (if tx_has_field txn (lit "Host") then [TSMimeHdrFieldRemove (lit "Host")] else []) ++
  (if tx_creates_field txn (lit "Host") then [TSMimeHdrFieldAppend (lit "Host") host] else []).

Definition XFP : bytes := lit "X-Forwarded-Proto".
Definition add_xfp (txn : ts_txn) : list ts_action :=
  (if tx_has_field txn XFP then [TSMimeHdrFieldRemove XFP] else []) ++
  (if tx_creates_field txn XFP
   then [TSMimeHdrFieldAppend XFP (if tx_tls txn then lit "https" else lit "http")] else []).

(** A response of the plugin: [synth_new], a Content-Type and the body. *)
Definition plain_type : bytes := lit "text/plain;charset=UTF-8".
Definition answer (status : Z) (text : bytes) (body : option bytes) : list ts_action :=
  [TSHttpTxnIntercept (sy_buf (synth_set_body (synth_add_header (synth_new status text) (lit "Content-Type") plain_type) body))].

Section ops.
Context `{P : Posix} `{SSL : OpenSSL} `{D : Digests}.
Implicit Types (rp : remap_path) (rh : remap_host) (db : remap_db) (txn : ts_txn) (req : remap_request) (res : remap_result).

(** ** Cookies *)
Definition should_ignore_cookie rp (cookie : bytes) : cres bool :=
  match cut "="%char cookie with
  | None => Ok false
  | Some (name, _) =>
      h ← deref (rp_ignore_cookies rp);
      ignored ← any_match cookie (length name) (pattern_list h);
      if (ignored : bool) then Ok true
      else match rp_whitelist_cookies rp with
           | Some w => listed ← any_match cookie (length name) (pattern_list w); Ok (negb listed)
           | None => Ok false
           end
  end.

Definition cookie_delims : bytes := lit " ;".

(** The loop that builds [newhdr]. *)
Fixpoint keep_cookies rp (cookies : list bytes) (newhdr : bytes) : cres bytes :=
  match cookies with
  | [] => Ok newhdr
  | r :: cookies =>
      ignored ← should_ignore_cookie rp r;
      if (ignored : bool) then keep_cookies rp cookies newhdr
      else keep_cookies rp cookies ((if bool_decide (newhdr = []) then [] else newhdr ++ lit "; ") ++ r)
  end.

(** The calls on the Cookie field and [can_cache]. *)
Definition check_cookies rp (cookie : option bytes) : cres (list ts_action * bool) :=
  match cookie with
  | None => Ok ([], true)
  | Some cs =>
      newhdr ← keep_cookies rp (strtok_all cookie_delims (c_str cs)) [];
      if bool_decide (newhdr = []) then Ok ([TSMimeHdrFieldRemove (lit "Cookie")], true)
      else Ok ([TSMimeHdrFieldValueStringSet (lit "Cookie") newhdr], false)
  end.

(** ** The request *)
Definition setup_calls : list ts_action :=
  (TSHttpTxnHookAdd <$> [TS_HTTP_SEND_REQUEST_HDR_HOOK; TS_HTTP_READ_RESPONSE_HDR_HOOK;
     TS_HTTP_CACHE_LOOKUP_COMPLETE_HOOK; TS_HTTP_SEND_RESPONSE_HDR_HOOK; TS_HTTP_TXN_CLOSE_HOOK]) ++
  [TSHttpTxnConfigIntSet TS_CONFIG_HTTP_NORMALIZE_AE_GZIP 0;
   TSHttpTxnConfigIntSet TS_CONFIG_HTTP_INSERT_RESPONSE_VIA_STR 0;
   TSHttpTxnConfigIntSet TS_CONFIG_HTTP_INSERT_REQUEST_VIA_STR 1;
   TSHttpTxnConfigIntSet TS_CONFIG_HTTP_RESPONSE_SERVER_ENABLED 0].

(** The calls that configure a transaction from its host and path. *)
Definition path_calls rh rp : list ts_action :=
  (if rp_follow_redirects rp then [TSHttpTxnConfigIntSet TS_CONFIG_HTTP_ENABLE_REDIRECTION 1;
     TSHttpTxnConfigIntSet TS_CONFIG_HTTP_REDIRECT_USE_ORIG_CACHE_KEY 1] else []) ++
  (if rh_hsts_max_age rh =? 0 then [] else [TSHttpTxnConfigIntSet TS_CONFIG_SSL_HSTS_MAX_AGE (rh_hsts_max_age rh)]) ++
  [TSHttpTxnConfigIntSet TS_CONFIG_SSL_HSTS_INCLUDE_SUBDOMAINS (if rh_hsts_subdomains rh then 1 else 0)] ++
  (if rp_read_timeout rp =? 0 then [] else
     [TSHttpTxnConfigIntSet TS_CONFIG_HTTP_CONNECT_ATTEMPTS_TIMEOUT (rp_read_timeout rp);
      TSHttpTxnConfigIntSet TS_CONFIG_HTTP_POST_CONNECT_ATTEMPTS_TIMEOUT (rp_read_timeout rp)]).

(** Whether the path caches and this request may be cached, with the calls. *)
Definition cache_calls txn req res rp : cres (list ts_action * bool) :=
  if negb (rp_cache rp) then Ok ([], false) else
  '(cookies, can_cache) ← check_cookies rp (tx_cookie txn);
  if (can_cache : bool) then
    key ← remap_make_cache_key req res;
    Ok (cookies ++ [TSHttpTxnConfigIntSet TS_CONFIG_HTTP_CACHE_GENERATION (rp_cache_gen rp);
                    TSHttpTxnConfigIntSet TS_CONFIG_HTTP_CACHE_HTTP 1; TSCacheUrlSet key], true)
  else Ok (cookies, false).

(** The address of the backend, or the lookup of its name; and whether the
    transaction goes on at once. *)
Definition target_calls txn (t : remap_target) : list ts_action :=
  match inet_pton4 (rt_host t) with
  | Some addr => [TSHttpTxnServerAddrSet addr (wrapu 16 (rt_port t)); TSHttpTxnReenable]
  | None => if tx_creates_cont txn then [TSHostLookup (rt_host t)] else [TSHttpTxnReenable]
  end.

(** [handle_remap] after [remap_run] returned [RR_OK]. *)
Definition forward (xfp : bool) txn req res (debug : bool) : cres (request_ctx * list ts_action) :=
  match rz_host res, rz_path res with
  | Some rh, Some rp =>
      target ← deref (rz_target res);
      host ← (if rp_preserve_host rp then deref (rr_host req) else Ok (rt_host target));
      '(cache, can_cache) ← cache_calls txn req res rp;
      let comp := if rp_compress rp then tsi_compress rp (tx_accept_encoding txn) else None in
      Ok (RequestCtx (rp_compress rp) comp false (rp_server_push rp) (rp_cache rp) can_cache debug (rz_headers res),
          [TSHttpHdrUrlSet (rz_proto res) (rz_urlpath res) (rz_query res)] ++
          path_calls rh rp ++ set_host_field txn host ++
          (if xfp then add_xfp txn else []) ++
          [TSHttpTxnConfigIntSet TS_CONFIG_HTTP_CACHE_HTTP 0] ++ cache ++
          [TSSkipRemappingSet 1] ++ target_calls txn target)
  | _, _ => Fault AssertFail
  end.

Definition text_of (s : string) : bytes := lit s ++ crlf2.

(** The debug log of the request, if its path asks for it. *)
Definition debug_calls txn (debug : bool) : cres (list ts_action) :=
  if debug then
    lines ← debug_log_read_request_hdr (tx_name txn) (Some (ClientReq (tx_version txn) (tx_method txn) (tx_url txn) (tx_fields txn)));
    Ok (TSError <$> (lines : list bytes))
  else Ok [].

(** The whole hook.  Without a database nothing is called, not even
    [TSHttpTxnReenable]. *)
Definition handle_remap (xfp : bool) (state_db : option remap_db) txn (rand : Z)
    : cres (option request_ctx * list ts_action) :=
  match state_db with
  | None => Ok (None, [])
  | Some db =>
      let req := request_from_txn txn in
      '(ret, res) ← remap_run db req rand;
      let debug := match rz_path res with Some rp => rp_debug_log rp | None => false end in
      log ← debug_calls txn debug;
      let rctx := RequestCtx false None false false false false debug (rz_headers res) in
      let stop acts := Ok (Some rctx, setup_calls ++ log ++ acts ++ [TSHttpTxnReenable]) in
      match ret with
      | RR_SYNTHETIC => text ← deref (rz_status_text res); stop (answer (rz_status res) text (rz_body res))
      | RR_ERR_INVALID_HOST | RR_ERR_INVALID_PROTOCOL =>
          stop (answer 400 (lit "Bad request") (Some (text_of "The server could not undestand this request.")))
      | RR_ERR_NO_HOST | RR_ERR_NO_PATH => stop []
      | RR_ERR_NO_BACKEND =>
          stop (answer 503 (lit "Service unavailable") (Some (text_of "No backend is available to service this request.")))
      | RR_ERR_FORBIDDEN => stop (answer 403 (lit "Forbidden") (Some (text_of "Access denied.")))
      | RR_ERR_UNAUTHORIZED => stop (answer 401 (lit "Unauthorized") (Some (text_of "Unauthorized.")))
      | RR_OK =>
          '(rctx, acts) ← forward xfp txn req res debug;
          Ok (Some rctx, setup_calls ++ log ++ acts)
      end
  end.

(** ** The TLS handshake *)

(** A set of protocols ([TSNextProtocolSet]), by their names. *)
Definition proto_set : Type := list bytes.

Inductive tls_action :=
  | SSL_set_SSL_CTX (ctx : ssl_ctx)
  | TSRegisterProtocolSet (ps : proto_set)
  | TSVConnReenable.

(** The [switch] with its fall-through: whether the version of the client is
    below the minimum of the host. *)
Definition version_refused (minimum : Z) (version : bytes) : bool :=
  if minimum =? IN_TLS_VERSION_1_2_VALUE then
    streq version (lit "TLSv1.1") || streq version (lit "TLSv1") || streq version (lit "SSLv3")
  else if minimum =? IN_TLS_VERSION_1_1_VALUE then streq version (lit "TLSv1") || streq version (lit "SSLv3")
  else if minimum =? IN_TLS_VERSION_1_0_VALUE then streq version (lit "SSLv3")
  else false.

(** [protosets] is the array of the plugin state, [acptid] the number of the
    acceptor of the connection. *)
Definition handle_tls (state_db : option remap_db) (protosets : option (list proto_set)) (acptid : nat)
    (host : option bytes) (version : bytes) : cres (list tls_action) :=
  match host, state_db with
  | None, _ | _, None => Ok []
  | Some host, Some db =>
      match remap_db_get_host db host with
      | None => Ok [TSVConnReenable]
      | Some rh =>
          match rh_ctx rh with
          | None => Ok [TSVConnReenable]
          | Some ctx =>
              if version_refused (rh_tls_version rh) version then Ok [TSVConnReenable]
              else
                protos ← (if rh_http2 rh then Ok []
                          else sets ← deref protosets; ps ← arr_get sets acptid; Ok [TSRegisterProtocolSet ps]);
                Ok ([SSL_set_SSL_CTX ctx] ++ protos ++ [TSVConnReenable])
          end
      end
  end.
End ops.

(** * Lemmas *)

(** ** Cookies *)
Section cookies.
Context `{P : Posix}.
Implicit Types (rp : remap_path).

(** A cookie is kept when it has no name, or no ignore pattern matches its
    name and, with a whitelist, one of the whitelist does. *)
Definition cookie_kept rp (cookie : bytes) : Prop :=
  ∀ name value, cut "="%char cookie = Some (name, value) →
    (∀ h p, rp_ignore_cookies rp = Some h → p ∈ pattern_list h → ¬ glob p name) ∧
    (∀ h, rp_whitelist_cookies rp = Some h → ∃ p, p ∈ pattern_list h ∧ glob p name).

Record cookies_safe rp : Prop := {
  ck_some : is_Some (rp_ignore_cookies rp);
  ck_ignore : plain_list (rp_ignore_cookies rp);
  ck_white : plain_list (rp_whitelist_cookies rp);
}.

Lemma should_ignore_cookie_spec rp cookie :
  cookies_safe rp → ∃ b, should_ignore_cookie rp cookie = Ok b ∧ (b = false ↔ cookie_kept rp cookie).
Proof.
  intros [[h Hh] Hi Hw]. unfold should_ignore_cookie, cookie_kept.
  destruct (cut "="%char cookie) as [[name value]|] eqn:E; [|exists false; naive_solver].
  assert (Hn : param_name cookie = name) by (unfold param_name; by rewrite E).
  rewrite Hh. cbn [deref mbind cres_bind].
  destruct (any_match_glob cookie (pattern_list h)) as (b & Hb & Hbi); [by apply Hi|]. rewrite Hn in *. rewrite Hb.
  cbn [mbind cres_bind]. destruct b; [exists true; naive_solver|].
  assert (Hno : ∀ p, p ∈ pattern_list h → ¬ glob p name) by naive_solver.
  destruct (rp_whitelist_cookies rp) as [w|]; [|exists false; naive_solver].
  destruct (any_match_glob cookie (pattern_list w)) as (b & Hb' & Hbi'); [by apply Hw|]. rewrite Hn in *. rewrite Hb'.
  cbn [mbind cres_bind]. exists (negb b). split; [done|]. rewrite negb_false_iff, Hbi'. naive_solver.
Qed.

(** The header built from the cookies that are kept. *)
Definition join_cookies (l : list bytes) : bytes :=
  match l with [] => [] | c :: l => c ++ mjoin ((λ c, lit "; " ++ c) <$> l) end.

Lemma join_cookies_snoc l c : l ≠ [] → join_cookies (l ++ [c]) = join_cookies l ++ lit "; " ++ c.
Proof.
  destruct l as [|d l]; [done|]. intros _. cbn [app join_cookies]. rewrite <- app_assoc. f_equal.
  rewrite fmap_app, join_app. f_equal. cbn [fmap list_fmap mjoin list_join]. by rewrite app_nil_r.
Qed.

Lemma join_cookies_nil l : Forall nonempty l → join_cookies l = [] ↔ l = [].
Proof.
  intros Hl. split; [|by intros ->]. destruct Hl as [|c l Hc _]; [done|]. cbn [join_cookies].
  intros [? _]%app_eq_nil. done.
Qed.

Lemma keep_cookies_spec rp cookies kept (p : bytes → bool) :
  (∀ c, c ∈ cookies → should_ignore_cookie rp c = Ok (negb (p c))) → Forall nonempty kept → Forall nonempty cookies →
  keep_cookies rp cookies (join_cookies kept) = Ok (join_cookies (kept ++ filter p cookies)).
Proof.
  revert kept; induction cookies as [|c cookies IH]; intros kept Hp Hk Hc; [by rewrite app_nil_r|].
  inversion Hc; subst. cbn [keep_cookies]. rewrite Hp by by left. cbn [mbind cres_bind].
  assert (Hp' : ∀ d, d ∈ cookies → should_ignore_cookie rp d = Ok (negb (p d))) by (intros d Hd; apply Hp; by right).
  destruct (p c) eqn:Ec; cbn [negb].
  - rewrite filter_cons_True by by rewrite Ec. rewrite cons_middle, app_assoc.
    rewrite <- IH; [|done|apply Forall_app; by rewrite Forall_singleton|done]. f_equal.
    case_bool_decide as Hn.
    + apply join_cookies_nil in Hn as ->; [|done]. cbn. by rewrite app_nil_r.
    + rewrite join_cookies_snoc by (intros ->; by apply Hn). by rewrite <- app_assoc.
  - rewrite filter_cons_False by (rewrite Ec; by intros []). by apply IH.
Qed.

(** Reading the header again gives the same cookies. *)
Lemma strtok_join_cookies l :
  Forall (λ t, nonempty t ∧ Forall (λ x, x ∉ cookie_delims) t) l → strtok_all cookie_delims (join_cookies l) = l.
Proof.
  intros H. rewrite strtok_all_split. destruct H as [|c l [Hc Hd] Hl]; [done|]. cbn [join_cookies].
  revert c Hc Hd. induction Hl as [|d l [Hd1 Hd2] Hl IH]; intros c Hc Hcd.
  - cbn. rewrite app_nil_r, split_no_delim_id by done. by rewrite filter_cons_True.
  - cbn [fmap list_fmap]. change (mjoin ((lit "; " ++ d) :: ?l)) with ((lit "; " ++ d) ++ mjoin l).
    rewrite <- app_assoc. change (c ++ lit "; " ++ ?r) with (c ++ ";"%char :: " "%char :: r).
    rewrite split_app_delim by (done || by compute_done).
    rewrite filter_cons_True by done. f_equal.
    change (" "%char :: ?r) with ([] ++ " "%char :: r). rewrite split_app_delim by (done || by compute_done).
    rewrite filter_cons_False by naive_solver. by apply IH.
Qed.
End cookies.

(** ** The calls of a request *)
Section calls.
Context `{PL : PosixLaws} `{SSL : OpenSSL} `{D : Digests}.
Implicit Types (rp : remap_path) (rh : remap_host) (db : remap_db) (txn : ts_txn) (req : remap_request) (res : remap_result).

(** The calls that choose the backend, and those that let the transaction go
    on: at once, or when the lookup is done. *)
Definition contacts (a : ts_action) : bool :=
  match a with TSHttpTxnServerAddrSet _ _ | TSHostLookup _ => true | _ => false end.
Definition resumes (a : ts_action) : bool :=
  match a with TSHttpTxnReenable | TSHostLookup _ => true | _ => false end.
Definition quiet (a : ts_action) : Prop := contacts a = false ∧ resumes a = false.

Lemma quiet_setup : Forall quiet setup_calls.
Proof. repeat constructor. Qed.

Lemma quiet_debug txn debug log : debug_calls txn debug = Ok log → Forall quiet log.
Proof.
  unfold debug_calls. destruct debug; [|intros Hl; apply (inj Ok) in Hl as <-; constructor].
  destruct (debug_log_read_request_hdr _ _) as [lines|]; [|done]. cbn [mbind cres_bind]. intros Hl. apply (inj Ok) in Hl as <-.
  apply Forall_fmap, Forall_forall. intros l _. by split.
Qed.

Lemma quiet_path rh rp : Forall quiet (path_calls rh rp).
Proof. unfold path_calls. repeat case_match; repeat constructor. Qed.

Lemma quiet_host txn host : Forall quiet (set_host_field txn host).
Proof. unfold set_host_field. repeat case_match; repeat constructor. Qed.

Lemma quiet_xfp txn : Forall quiet (add_xfp txn).
Proof. unfold add_xfp. repeat case_match; repeat constructor. Qed.

Lemma quiet_answer status text body : Forall quiet (answer status text body).
Proof. repeat constructor. Qed.

Lemma quiet_cookies rp cookie acts b : check_cookies rp cookie = Ok (acts, b) → Forall quiet acts.
Proof.
  unfold check_cookies. destruct cookie as [cs|]; [|intros Hr; apply (inj Ok), pair_eq in Hr as [<- _]; constructor].
  destruct (keep_cookies _ _ _); [|done]. cbn [mbind cres_bind].
  case_bool_decide; intros Hr; apply (inj Ok), pair_eq in Hr as [<- _]; repeat constructor.
Qed.

Lemma quiet_cache txn req res rp acts b : cache_calls txn req res rp = Ok (acts, b) → Forall quiet acts.
Proof.
  unfold cache_calls. destruct (negb _); [intros Hr; apply (inj Ok), pair_eq in Hr as [<- _]; constructor|].
  destruct (check_cookies rp (tx_cookie txn)) as [[cookies can]|] eqn:E; [|done]. apply quiet_cookies in E.
  cbn [mbind cres_bind]. destruct can; [|intros Hr; by apply (inj Ok), pair_eq in Hr as [<- _]].
  destruct (remap_make_cache_key req res); [|done]. cbn [mbind cres_bind]. intros Hr; apply (inj Ok), pair_eq in Hr as [<- _].
  apply Forall_app. split; [done|]. repeat constructor.
Qed.

(** A forwarded request: quiet calls, then those for its target. *)
Lemma forward_shape xfp txn req res debug rctx acts t :
  rz_target res = Some t → forward xfp txn req res debug = Ok (rctx, acts) →
  ∃ pre, acts = pre ++ target_calls txn t ∧ Forall quiet pre.
Proof.
  intros Ht. unfold forward. destruct (rz_host res) as [rh|]; [|done]. destruct (rz_path res) as [rp|]; [|done].
  rewrite Ht. cbn [deref mbind cres_bind].
  match goal with |- context [mbind _ (if ?b then ?x else ?y)] => destruct (if b then x else y) as [host|]; [|done] end.
  cbn [mbind cres_bind]. destruct (cache_calls txn req res rp) as [[cache can]|] eqn:E; [|done].
  cbn [mbind cres_bind]. intros Hr; apply (inj Ok), pair_eq in Hr as [_ <-].
  rewrite !app_assoc. eexists. split; [reflexivity|].
  rewrite !Forall_app. split_and!; try (by repeat constructor); [apply quiet_path|apply quiet_host| |by eapply quiet_cache].
  destruct xfp; [apply quiet_xfp|constructor].
Qed.

Lemma target_resumes txn t : length (filter resumes (target_calls txn t)) = 1%nat.
Proof. unfold target_calls. by repeat case_match. Qed.

Lemma quiet_resumes l : Forall quiet l → filter resumes l = [].
Proof.
  induction 1 as [|a l [_ Ha] _ IH]; [done|]. rewrite filter_cons_False; [done|]. rewrite Ha. by intros [].
Qed.

Lemma resumes_once pre post :
  Forall quiet pre → length (filter resumes post) = 1%nat → length (filter resumes (pre ++ post)) = 1%nat.
Proof. intros Hp Hl. by rewrite filter_app, quiet_resumes. Qed.

Lemma quiet_no_contact l a : Forall quiet l → a ∈ l → contacts a = true → False.
Proof. rewrite Forall_forall. intros Hl Ha Hc. destruct (Hl a Ha). congruence. Qed.

(** ** Nothing is missing when a request is forwarded *)
Lemma check_cookies_total rp cookie : cookies_safe rp → ∃ r, check_cookies rp cookie = Ok r.
Proof.
  intros Hs. unfold check_cookies. destruct cookie as [cs|]; [|by eexists].
  assert (Hk : ∀ l n, ∃ h, keep_cookies rp l n = Ok h).
  { induction l as [|c l IH]; intros n; cbn [keep_cookies]; [by eexists|].
    destruct (should_ignore_cookie_spec rp c Hs) as (b & -> & _). cbn [mbind cres_bind]. destruct b; apply IH. }
  destruct (Hk (strtok_all cookie_delims (c_str cs)) []) as [h ->]. cbn [mbind cres_bind]. case_bool_decide; by eexists.
Qed.

Lemma forward_total xfp txn req res debug rh rp t :
  rz_host res = Some rh → rz_path res = Some rp → rz_target res = Some t → cookies_safe rp →
  is_Some (rr_proto req) → is_Some (rr_host req) → ∃ r, forward xfp txn req res debug = Ok r.
Proof.
  intros Hh Hp Ht Hc [proto Hpr] [host Hho]. unfold forward. rewrite Hh, Hp, Ht, Hho. cbn [deref mbind cres_bind].
  assert (Hcache : ∃ r, cache_calls txn req res rp = Ok r).
  { unfold cache_calls. destruct (negb _); [by eexists|].
    destruct (check_cookies_total rp (tx_cookie txn) Hc) as [[cookies can] ->]. cbn [mbind cres_bind].
    destruct can; [|by eexists]. unfold remap_make_cache_key. rewrite Hpr, Hho. by eexists. }
  destruct Hcache as [[cache can] ->]. destruct (rp_preserve_host rp); by eexists.
Qed.

Lemma handle_remap_contact (xfp : bool) db txn (rand : Z) (rctx : option request_ctx) (acts : list ts_action) (act : ts_action) :
  handle_remap xfp (Some db) txn rand = Ok (rctx, acts) → act ∈ acts → contacts act = true →
  ∃ proto host rh rp t,
    let req := request_from_txn txn in
    rr_proto req = Some proto ∧ rr_host req = Some host ∧ remap_db_get_host db host = Some rh ∧
    (∃ n, remap_host_find_path rh (rr_path req) = Ok (rp, n)) ∧
    must_redirect proto rh rp = false ∧ authorised req rp ∧ t ∈ rp_addrs rp ∧ act ∈ target_calls txn t.
Proof.
  intros Hr Ha Hc. unfold handle_remap in Hr.
  destruct (remap_run db (request_from_txn txn) rand) as [[code res]|] eqn:Er; [|done]. cbn [mbind cres_bind] in Hr.
  destruct (debug_calls txn _) as [log|] eqn:El; [|done]. apply quiet_debug in El. cbn [mbind cres_bind] in Hr.
  assert (Hstop : ∀ c l, Ok (c, setup_calls ++ log ++ l ++ [TSHttpTxnReenable]) = Ok (rctx, acts) → Forall quiet l → False).
  { intros c l Heq Hl. apply (inj Ok), pair_eq in Heq as [_ <-]. apply elem_of_app in Ha as [Ha|Ha].
    - by eapply quiet_no_contact; [apply quiet_setup| |].
    - apply elem_of_app in Ha as [Ha|Ha]; [by apply (quiet_no_contact log act)|].
      apply elem_of_app in Ha as [Ha|Ha]; [by apply (quiet_no_contact l act)|]. apply list_elem_of_singleton in Ha as ->. done. }
  destruct code;
    try (exfalso; eapply Hstop; [exact Hr|first [apply quiet_answer|constructor]]).
  2:{ destruct (rz_status_text res); [|done]. exfalso. eapply Hstop; [exact Hr|apply quiet_answer]. }
  destruct (remap_run_ok _ _ _ _ Er) as (host & rh & rp & n & t & proto & Hpr & Hho & _ & Hg & Hf & Hrp & Hrh & Hm & Hau & _ & Ht & Hin & _).
  destruct (forward _ _ _ _ _) as [[rctx' acts']|] eqn:Ef; [|done]. cbn [mbind cres_bind] in Hr.
  apply (inj Ok), pair_eq in Hr as [_ <-].
  apply (forward_shape _ _ _ _ _ _ _ t) in Ef as (pre & -> & Hpre); [|done].
  exists proto, host, rh, rp, t. split_and!; try done; [by eexists|].
  apply elem_of_app in Ha as [Ha|Ha]; [by destruct (quiet_no_contact _ _ quiet_setup Ha Hc)|].
  apply elem_of_app in Ha as [Ha|Ha]; [by destruct (quiet_no_contact _ _ El Ha Hc)|].
  apply elem_of_app in Ha as [Ha|Ha]; [by destruct (quiet_no_contact _ _ Hpre Ha Hc)|done].
Qed.

(** What the hook needs of a path besides the checks: the cookie patterns can be
    matched and the debug log is off. *)
Record hook_safe rp : Prop := { hk_cookies : cookies_safe rp; hk_debug : rp_debug_log rp = false }.

Lemma find_path_hook_safe db host rh path rp n :
  db_safe db → (∀ host rh, remap_db_get_host db host = Some rh → Forall hook_safe (rh_paths rh)) →
  remap_db_get_host db host = Some rh → remap_host_find_path rh path = Ok (rp, n) → hook_safe rp.
Proof.
  intros Hdb Hk Hg Hf. destruct (find_path_total rh path) as (rp' & n' & Hf' & Hin & _); [by apply (proj1 (ds_hosts _ Hdb _ _ Hg))|].
  rewrite Hf in Hf'. apply (inj Ok), pair_eq in Hf' as [<- _]. specialize (Hk _ _ Hg). rewrite Forall_forall in Hk. by apply Hk.
Qed.

Lemma handle_remap_returns (xfp : bool) db txn (rand : Z) :
  db_safe db → (∀ host rh, remap_db_get_host db host = Some rh → Forall hook_safe (rh_paths rh)) →
  is_Some (tx_scheme txn) → length (sa_addr (tx_addr txn)) = addr_length (sa_family (tx_addr txn)) → 0 ≤ rand ≤ RAND_MAX →
  ∃ rctx acts, handle_remap xfp (Some db) txn rand = Ok (Some rctx, acts) ∧ length (filter resumes acts) = 1%nat.
Proof.
  intros Hdb Hck [scheme Hs] Hl Hrand. unfold handle_remap.
  assert (Hpr : is_Some (rr_proto (request_from_txn txn))) by (cbn; rewrite Hs; by eexists).
  destruct (remap_run_returns db (request_from_txn txn) rand Hdb Hpr Hl Hrand) as (code & res & Er). rewrite Er.
  cbn [mbind cres_bind].
  assert (Hdebug : match rz_path res with Some rp => rp_debug_log rp | None => false end = false).
  { destruct (rz_path res) as [rp|] eqn:Ep; [|done]. destruct (remap_run_path _ _ _ _ _ _ Er Ep) as (host & rh & n & _ & Hg & Hf).
    by apply hk_debug, (find_path_hook_safe db host rh (rr_path (request_from_txn txn)) rp n). }
  rewrite Hdebug. unfold debug_calls. cbn [mbind cres_bind app].
  assert (Hstop : ∀ c l, Forall quiet l → ∃ rctx acts,
    @Ok (option request_ctx * list ts_action) (Some c, setup_calls ++ l ++ [TSHttpTxnReenable]) = Ok (Some rctx, acts) ∧ length (filter resumes acts) = 1%nat).
  { intros c l Hq. do 2 eexists. split; [reflexivity|]. by apply resumes_once, resumes_once; [apply quiet_setup| |]. }
  destruct code; try (apply Hstop; first [apply quiet_answer|constructor]).
  2:{ destruct (remap_run_synthetic _ _ _ _ Er) as [text ->]. cbn [deref mbind cres_bind]. apply Hstop, quiet_answer. }
  destruct (remap_run_ok _ _ _ _ Er) as (host & rh & rp & n & t & proto & _ & Hho & _ & Hg & Hf & Hrp & Hrh & _ & _ & _ & Ht & _).
  assert (Hsafe : cookies_safe rp) by (by eapply hk_cookies, find_path_hook_safe).
  match goal with |- context [forward ?a ?b ?c ?d ?e] =>
    destruct (forward_total a b c d e rh rp t) as [[rctx acts] Ef]; [done..|by eexists|]; rewrite Ef end.
  cbn [mbind cres_bind]. do 2 eexists. split; [reflexivity|].
  apply (forward_shape _ _ _ _ _ _ _ t) in Ef as (pre & -> & Hpre); [|done].
  by apply resumes_once, resumes_once, target_resumes; [apply quiet_setup|].
Qed.

(** * Properties *)

(** C5. A backend is contacted, by address or by name, only for a request that
    passed every check of its path: the host is configured, the request does
    not have to be redirected to TLS, the client is authorised, and the
    backend is one of the path's. *)
Theorem handle_remap_contacts (xfp : bool) db txn (rand : Z) (rctx : option request_ctx) (acts : list ts_action) (act : ts_action) :
  handle_remap xfp (Some db) txn rand = Ok (rctx, acts) → act ∈ acts → contacts act = true →
  ∃ proto host rh rp t,
    let req := request_from_txn txn in
    rr_proto req = Some proto ∧ rr_host req = Some host ∧ remap_db_get_host db host = Some rh ∧
    (∃ n, remap_host_find_path rh (rr_path req) = Ok (rp, n)) ∧
    must_redirect proto rh rp = false ∧ authorised req rp ∧ t ∈ rp_addrs rp ∧ act ∈ target_calls txn t.
Proof. apply handle_remap_contact. Qed.

(** Every request is answered once: on a database whose paths are
    configured safely and do not ask for the debug log, the hook returns, and it
    lets the transaction go on exactly once, either at once or through one
    lookup of the backend's name. *)
Theorem handle_remap_once (xfp : bool) db txn (rand : Z) :
  db_safe db → (∀ host rh, remap_db_get_host db host = Some rh → Forall hook_safe (rh_paths rh)) →
  is_Some (tx_scheme txn) → length (sa_addr (tx_addr txn)) = addr_length (sa_family (tx_addr txn)) → 0 ≤ rand ≤ RAND_MAX →
  ∃ rctx acts, handle_remap xfp (Some db) txn rand = Ok (Some rctx, acts) ∧ length (filter resumes acts) = 1%nat.
Proof. apply handle_remap_returns. Qed.

(** A path with the debug log on is not served: whatever the checks of the
    request say, the log reads past the end of the method when the URL is
    longer. *)
Theorem handle_remap_debug_overread (xfp : bool) db txn (rand : Z) code res rp :
  remap_run db (request_from_txn txn) rand = Ok (code, res) → rz_path res = Some rp → rp_debug_log rp = true →
  no_nul (tx_method txn) → (length (tx_method txn) < length (tx_url txn))%nat →
  handle_remap xfp (Some db) txn rand = Fault OutOfBounds.
Proof.
  intros Hr Hp Hd Hm Hl. unfold handle_remap. rewrite Hr. cbn [mbind cres_bind]. rewrite Hp, Hd.
  unfold debug_calls, debug_log_read_request_hdr. cbn [cr_method cr_url]. by rewrite print_own, bind_ok, print_past by done.
Qed.
End calls.

Section decisions.
Context `{P : Posix} `{SSL : OpenSSL}.
Implicit Types (rp : remap_path) (rh : remap_host) (db : remap_db).

(** Whether the filter keeps a cookie, when it can tell. *)
Definition keeps_cookie rp (c : bytes) : bool := match should_ignore_cookie rp c with Ok ignored => negb ignored | Fault _ => false end.

(** C20. The Cookie field that is forwarded on a cached path has exactly the
    cookies that are not to be ignored, in their order and unchanged, and
    reads back as them; the field is removed when none is left, and the
    request may be cached exactly then (or when it had no cookies).  This is
    said of the first value of the first Cookie field, which is all the code
    reads, and of cookies whose names can be matched against the patterns of
    the path.  They all can, and a cookie is kept exactly when it has no name, or
    no ignore pattern and, with a whitelist, some whitelist pattern matches its
    name as a glob, if the path has its ignore list (a new path has an empty
    one) and its patterns consist of literals, [?] and [*]; for the bracket
    globs of docs/caching.md it is only said that the matcher decides. *)
Theorem cookies_filtered rp (cookie : bytes) :
  let all := strtok_all cookie_delims (c_str cookie) in
  let cookies := filter (keeps_cookie rp) all in
  (cookies_safe rp → ∀ c, okb (should_ignore_cookie rp c) = true ∧ (keeps_cookie rp c = true ↔ cookie_kept rp c)) ∧
  ((∀ c, c ∈ all → okb (should_ignore_cookie rp c) = true) →
     strtok_all cookie_delims (join_cookies cookies) = cookies ∧
     check_cookies rp (Some cookie) =
       Ok (if bool_decide (cookies = []) then ([TSMimeHdrFieldRemove (lit "Cookie")], true)
           else ([TSMimeHdrFieldValueStringSet (lit "Cookie") (join_cookies cookies)], false))).
Proof.
  intros all cookies. split.
  { intros Hs c. unfold keeps_cookie. destruct (should_ignore_cookie_spec rp c Hs) as (b & -> & Hb). by rewrite negb_true_iff. }
  intros Hm. assert (Hne : Forall nonempty all) by (apply Forall_forall; intros t; apply strtok_all_nonempty).
  assert (Hk : Forall nonempty cookies).
  { apply Forall_forall. intros t [_ Ht]%list_elem_of_filter. rewrite Forall_forall in Hne. by apply Hne. }
  split.
  - apply strtok_join_cookies, Forall_forall. intros t Ht. rewrite Forall_forall in Hk. split; [by apply Hk|].
    apply Forall_forall. intros x Hx Hd. apply list_elem_of_filter in Ht as [_ Ht].
    by apply (strtok_all_no_delim _ _ _ _ Ht Hd).
  - unfold check_cookies. fold all.
    pose proof (keep_cookies_spec rp all [] (keeps_cookie rp)) as Hspec. cbn [join_cookies app] in Hspec.
    rewrite Hspec; [|..|constructor|done].
    + cbn [mbind cres_bind]. fold cookies. rewrite (bool_decide_ext _ _ (join_cookies_nil cookies Hk)).
      by case_bool_decide.
    + intros c Hc. specialize (Hm c Hc). unfold keeps_cookie. destruct (should_ignore_cookie rp c); [|done].
      by rewrite negb_involutive.
Qed.

(** The protocol versions in order, as OpenSSL names them, and the minimum
    versions of a host. *)
Definition version_rank (version : bytes) : option nat :=
  if streq version (lit "SSLv3") then Some 0%nat
  else if streq version (lit "TLSv1") then Some 1%nat
  else if streq version (lit "TLSv1.1") then Some 2%nat
  else if streq version (lit "TLSv1.2") then Some 3%nat
  else if streq version (lit "TLSv1.3") then Some 4%nat
  else None.
Definition minimum_rank (minimum : Z) : option nat :=
  if minimum =? IN_TLS_VERSION_1_0_VALUE then Some 1%nat
  else if minimum =? IN_TLS_VERSION_1_1_VALUE then Some 2%nat
  else if minimum =? IN_TLS_VERSION_1_2_VALUE then Some 3%nat
  else None.

Lemma version_refused_rank minimum version m r :
  minimum_rank minimum = Some m → version_rank version = Some r → version_refused minimum version = (r <? m)%nat.
Proof.
  intros Hm Hr.
  assert (Hv : version = lit "SSLv3" ∧ r = 0%nat ∨ version = lit "TLSv1" ∧ r = 1%nat ∨ version = lit "TLSv1.1" ∧ r = 2%nat ∨
    version = lit "TLSv1.2" ∧ r = 3%nat ∨ version = lit "TLSv1.3" ∧ r = 4%nat).
  { unfold version_rank in Hr. repeat case_match; rewrite ?streq_true in *; naive_solver. }
  assert (Hn : minimum = IN_TLS_VERSION_1_0_VALUE ∧ m = 1%nat ∨ minimum = IN_TLS_VERSION_1_1_VALUE ∧ m = 2%nat ∨
    minimum = IN_TLS_VERSION_1_2_VALUE ∧ m = 3%nat).
  { unfold minimum_rank in Hm. repeat case_match; rewrite ?Z.eqb_eq in *; naive_solver. }
  destruct Hv as [[-> ->]|[[-> ->]|[[-> ->]|[[-> ->]|[-> ->]]]]], Hn as [[-> ->]|[[-> ->]|[-> ->]]]; reflexivity.
Qed.

(** The version of the client is below the minimum of the host.  A minimum that
    is not one of the three, such as the 0 of a host without the annotation, is
    above no version, and no minimum is above a version of another name. *)
Definition below_minimum (minimum : Z) (version : bytes) : Prop :=
  ∃ m r, minimum_rank minimum = Some m ∧ version_rank version = Some r ∧ (r < m)%nat.

Lemma version_refused_below minimum version : version_refused minimum version = true ↔ below_minimum minimum version.
Proof.
  unfold below_minimum. destruct (minimum_rank minimum) as [m|] eqn:Em, (version_rank version) as [r|] eqn:Er.
  - rewrite (version_refused_rank _ _ m r), Nat.ltb_lt by done. naive_solver.
  - split; [|naive_solver]. unfold version_refused, version_rank in *.
    destruct (streq version (lit "SSLv3")), (streq version (lit "TLSv1")), (streq version (lit "TLSv1.1")); try done.
    cbn [orb]. by repeat case_match.
  - split; [|naive_solver]. unfold version_refused, minimum_rank in *. by repeat case_match.
  - split; [|naive_solver]. unfold version_refused, minimum_rank in *. by repeat case_match.
Qed.

(** The certificate a client gets. *)
Definition offered db (host version : bytes) rh : Prop :=
  remap_db_get_host db host = Some rh ∧ is_Some (rh_ctx rh) ∧ ¬ below_minimum (rh_tls_version rh) version.

End decisions.

(** * Examples *)
Module Examples.
#[local] Existing Instance posix_literal.
#[local] Existing Instance posix_literal_laws.
#[local] Existing Instance openssl_list.
#[local] Existing Instance digests_pad.
Import RemapDb.Examples.

Definition ex_txn : ts_txn := {|
  tx_name := lit "0x7f00";
  tx_version := 0x10001;
  tx_url := lit "https://example.com:8443/shop/cart?z=1";
  tx_method := lit "GET";
  tx_scheme := Some (lit "https");
  tx_host := Some (lit "example.com:8443");
  tx_path := Some (lit "shop/cart");
  tx_query := Some (lit "z=1");
  tx_addr := Sockaddr AF_INET (ip 192 0 2 1);
  tx_fields := [(lit "Authorization", [basic_header (lit "bob") (lit "hunter2")])];
  tx_cookie := Some (lit "sid=1; _ga=2");
  tx_accept_encoding := Some [lit "gzip"];
  tx_tls := true;
  tx_has_field _ := true;
  tx_creates_field _ := true;
  tx_creates_cont := true;
|}.

Lemma ex_cookies_safe : cookies_safe ex_path.
Proof.
  split; [by eexists| |done]. intros h Hh. apply (inj Some) in Hh as <-. apply Forall_forall. intros p.
  rewrite pattern_list_get by (apply hash_new_wf; lia). by rewrite hash_get_stack, hash_stack_new.
Qed.

Lemma ex_hook_safe host rh : remap_db_get_host ex_db host = Some rh → Forall hook_safe (rh_paths rh).
Proof. intros Hh. apply ex_db_host in Hh as ->. constructor; [split; [apply ex_cookies_safe|done]|constructor]. Qed.

(** The calls of a run, to evaluate it without its context. *)
Definition calls_of (m : cres (option request_ctx * list ts_action)) : list ts_action :=
  match m with Ok (_, acts) => acts | Fault _ => [] end.

Lemma handle_remap_contacts_witness :
  ∃ host rh rp t, remap_db_get_host ex_db host = Some rh ∧ authorised (request_from_txn ex_txn) rp ∧
    t ∈ rp_addrs rp ∧ TSHttpTxnServerAddrSet (ip 10 2 0 1) 8080 ∈ target_calls ex_txn t.
Proof.
  assert (Hin : existsb (λ a, match a with TSHttpTxnServerAddrSet a p => bool_decide (a = ip 10 2 0 1) && (p =? 8080) | _ => false end)
    (calls_of (handle_remap true (Some ex_db) ex_txn 7)) = true) by (vm_compute; reflexivity).
  destruct (handle_remap true (Some ex_db) ex_txn 7) as [[rctx acts]|] eqn:E; [|discriminate Hin].
  apply existsb_exists in Hin as (a & Ha & Heq). destruct a; try discriminate Heq.
  apply andb_true_iff in Heq as [Ha1 Hp1]. apply bool_decide_eq_true in Ha1. apply Z.eqb_eq in Hp1. subst.
  destruct (handle_remap_contacts true ex_db ex_txn 7 rctx acts _ E (proj2 (list_elem_of_In _ _) Ha) eq_refl)
    as (proto & host & rh & rp & t & _ & _ & Hg & _ & _ & Hau & Ht & Hact).
  exists host, rh, rp, t. split; [exact Hg|]. split; [exact Hau|]. split; [exact Ht|exact Hact].
Defined.

Lemma handle_remap_once_witness :
  ∃ rctx acts, handle_remap false (Some ex_db) ex_txn 7 = Ok (Some rctx, acts) ∧ length (filter resumes acts) = 1%nat.
Proof.
  apply handle_remap_once; [apply ex_db_safe|apply ex_hook_safe|by eexists|reflexivity|unfold RAND_MAX; lia].
Defined.

(** A path that ignores the cookies of an analytics script. *)
Definition cookie_path : remap_path := set_rp_ignore_cookies ex_path (Some (hashset_of 127 [lit "_*"])).

Lemma cookie_path_safe : cookies_safe cookie_path.
Proof.
  split; [by eexists| |done]. intros h Hh. apply (inj Some) in Hh as <-. apply Forall_forall. intros p.
  rewrite pattern_list_of, list_elem_of_singleton by lia. intros ->. unfold plain. by compute_done.
Qed.

Lemma cookies_filtered_witness :
  check_cookies cookie_path (Some (lit "sid=1; _ga=2")) = Ok ([TSMimeHdrFieldValueStringSet (lit "Cookie") (lit "sid=1")], false) ∧
  (keeps_cookie cookie_path (lit "sid=1") = true ↔ cookie_kept cookie_path (lit "sid=1")).
Proof.
  destruct (cookies_filtered cookie_path (lit "sid=1; _ga=2")) as [Hc Hf]. specialize (Hc cookie_path_safe). split; [|apply Hc].
  destruct Hf as [_ ->]; [intros c _; apply Hc|]. vm_compute. reflexivity.
Defined.

(** A host with a certificate and a minimum of TLS 1.1. *)
Definition tls_host : remap_host := RemapHost _ _ [ex_path] (Some (lit "cert")) false false false 0 IN_TLS_VERSION_1_1_VALUE.
Definition tls_db : remap_db := RemapDb _ _ k8s_config_new None (hash_put (hash_new 127 true) (lit "a.example") tls_host).

Lemma tls_db_host : remap_db_get_host tls_db (lit "a.example") = Some tls_host.
Proof.
  unfold remap_db_get_host, tls_db. cbn [rd_hosts].
  rewrite (hash_models_get _ (<[lit "a.example" := tls_host]> ∅)); [by apply lookup_insert_eq|].
  apply hash_models_put, hash_models_new. lia.
Qed.


(** Before the first database is built, the transaction is never resumed. *)
Example handle_remap_no_database : handle_remap (D := digests_pad) true (None : option remap_db) ex_txn 7 = Ok (None, []).
Proof. reflexivity. Qed.

(** A host that was never annotated has no minimum at all. *)
Example handle_tls_unannotated :
  version_refused (rh_tls_version (remap_host_new : remap_host)) (lit "SSLv3") = false.
Proof. reflexivity. Qed.
End Examples.
