(* ===== verification/EndToEnd.v ===== *)
(** The whole chain: from the objects of the cluster to the answer of a request
    ([rebuild_maps] of [tsapi/remap.c] over [remap/remap_build.c] and the
    request hook).

    The safety conditions that the theorems on requests ask of a database are
    derived here from conditions on the objects an API server delivers. *)

From S2P Require Import Prelude CString Hash Base64 Strmatch Env Api Namespace Cluster RemapPath RemapHost Crypt Auth Config RemapDb RemapBuild Synth Compress TsRemap.

Local Open Scope Z_scope.

(** * The state of the plugin *)
Section ops.
Context `{P : Posix} `{SSL : OpenSSL}.

Record state := State {
  st_config : k8s_config;
  st_cluster : cluster;
  st_db : option remap_db;
}.

(** The new database replaces the old one; building it may add namespaces to
    the cluster. *)
Definition rebuild_maps (st : state) : cres state :=
  '(newdb, cs) ← remap_db_from_cluster (st_config st) (st_cluster st);
  Ok (State (st_config st) cs (Some newdb)).
End ops.

(** * Conditions on the objects *)

(** Every user of the secret has a hash of a format that can be checked. *)
Definition secret_ok (se : secret) : Prop :=
  ∀ authdata buf, hash_get (se_data se) (lit "auth") = Some authdata → base64_decode authdata = Some buf →
    Forall (λ e, ∀ p, entry_password e = Some p → format_ok p = true) (strsep_all crlf (c_str buf)).

Definition pattern_keys : list bytes :=
  [IN_CACHE_IGNORE_PARAMS; IN_CACHE_WHITELIST_PARAMS; IN_CACHE_IGNORE_COOKIES; IN_CACHE_WHITELIST_COOKIES].

(** One annotation, apart from the others. *)
Definition annotation_ok `{Posix} (ns : namespace) (k v : bytes) : Prop :=
  (k = IN_WHITELIST_SOURCE_RANGE → Forall entry_ok (remap_path_get_addresses v)) ∧
  (k ∈ pattern_keys → Forall plain (strtok_all blanks v)) ∧
  (k = IN_DEBUG_LOG → truefalse v = false) ∧
  (k = IN_AUTH_SECRET → ∀ se, namespace_get_secret ns v = Some se → secret_ok se).

(** The annotations of an Ingress: authentication comes with a realm. *)
Record annotations_ok `{Posix} (ns : namespace) (m : gmap bytes bytes) : Prop := {
  ao_each k v : m !! k = Some v → annotation_ok ns k v;
  ao_realm v : m !! IN_AUTH_TYPE = Some v → v = lit "basic" ∨ v = lit "digest" → is_Some (m !! IN_AUTH_REALM);
}.

Definition ingress_ok `{Posix} (ns : namespace) (ing : ingress) : Prop :=
  ∃ m, hash_models (in_annotations ing) m ∧ annotations_ok ns m.

(** * Lemmas *)
Section proofs.
Context `{PL : PosixLaws} `{SL : OpenSSLLaws} `{D : Digests}.
Implicit Types (rp : remap_path) (rh : remap_host) (db : remap_db) (cs : cluster) (ns : namespace).

(** ** Users *)
Definition users_ok (users : hash bytes) : Prop :=
  hash_wf users ∧ ∀ u h, hash_get users u = Some h → format_ok h = true.

Lemma strip_crlf_id fuel p p' : Forall (λ c, c ∉ crlf) p → strip_crlf fuel p = Ok p' → p' = p.
Proof.
  destruct fuel as [|fuel]; simpl; [done|]. intros Hp. destruct (last p) as [c|] eqn:E; [|done].
  apply last_Some_elem_of in E. rewrite Forall_forall in Hp.
  rewrite bool_decide_eq_false_2 by (by apply Hp). by intros [= <-].
Qed.

Lemma add_user_ok users e users' :
  users_ok users → Forall (λ c, c ∉ crlf) e → (∀ p, entry_password e = Some p → format_ok p = true) →
  add_user users e = Ok users' → users_ok users'.
Proof.
  intros [Hwf Hu] He Hp. unfold add_user, entry_password in *. destruct (cut _ e) as [[user pw]|] eqn:Ec.
  2:{ intros Hr. by apply (inj Ok) in Hr as <-. }
  set (p := match cut _ pw with Some (q, _) => q | None => pw end) in *.
  assert (Hpc : Forall (λ c, c ∉ crlf) p) by (apply (entry_password_plain e); [done|]; unfold entry_password; by rewrite Ec).
  destruct (strip_crlf _ p) as [p'|] eqn:Es; [|done]. cbn [mbind cres_bind].
  apply strip_crlf_id in Es as ->; [|done]. intros Hr. apply (inj Ok) in Hr as <-.
  split; [by apply hash_set_wf|]. intros u h. rewrite hash_get_set by done.
  case_decide; [intros [= <-]; by apply Hp|by apply Hu].
Qed.

Lemma add_users_ok rp se rp' us :
  secret_ok se → remap_path_add_users rp (hash_new 127 true) se = Ok rp' → rp_users rp' = Some us → users_ok us.
Proof.
  intros Hs. unfold remap_path_add_users.
  assert (Hnew : users_ok (hash_new 127 true)).
  { split; [apply hash_new_wf; lia|]. intros u h. by rewrite hash_get_stack, hash_stack_new. }
  destruct (hash_get (se_data se) (lit "auth")) as [data|] eqn:Ed.
  2:{ intros Hr. apply (inj Ok) in Hr as <-. cbn. by intros [= <-]. }
  destruct (base64_decode data) as [buf|] eqn:Eb.
  2:{ intros Hr. apply (inj Ok) in Hr as <-. cbn. by intros [= <-]. }
  specialize (Hs _ _ Ed Eb). destruct (foldC _ _ _) as [users|] eqn:Ef; [|done]. cbn [mbind cres_bind].
  intros Hr. apply (inj Ok) in Hr as <-. cbn. intros [= <-].
  revert Ef. apply (foldC_post users_ok); [done|]. intros b e b' He Hb.
  rewrite Forall_forall in Hs. apply add_user_ok; [done| |by apply Hs].
  by eapply strsep_lines_plain.
Qed.

(** ** Paths *)

(** What a path needs apart from the realm. *)
Record rest_ok rp : Prop := {
  ro_addrs : Forall entry_ok (rp_auth_addr_list rp);
  ro_ignore : plain_list (rp_ignore_params rp);
  ro_white : plain_list (rp_whitelist_params rp);
  ro_some : is_Some (rp_ignore_cookies rp);
  ro_ignore_cookies : plain_list (rp_ignore_cookies rp);
  ro_white_cookies : plain_list (rp_whitelist_cookies rp);
  ro_debug : rp_debug_log rp = false;
  ro_users us : rp_users rp = Some us → users_ok us;
}.
Definition realm_ok rp : Prop := rp_auth_type rp ≠ REMAP_AUTH_NONE → is_Some (rp_auth_realm rp).
Definition path_ok rp : Prop := rest_ok rp ∧ realm_ok rp.

Lemma path_ok_safe rp : path_ok rp → path_safe rp ∧ hook_safe rp.
Proof.
  intros [[] Hr]. split; repeat constructor; try done.
  intros users u h Hu Hh pass Hp. apply crypt_check_ok; [|lia]. by eapply ro_users0.
Qed.

Lemma plain_list_words v : Forall plain (strtok_all blanks v) → plain_list (Some (hashset_of 127 (strtok_all blanks v))).
Proof.
  intros Hv h [= <-]. apply Forall_forall. intros p. rewrite pattern_list_of by lia.
  rewrite Forall_forall in Hv. apply Hv.
Qed.

Lemma path_defaults_ok re : path_ok (path_defaults re).
Proof.
  split; [constructor; try done|by intros Hn; destruct Hn].
  intros h [= <-]. apply Forall_forall. intros p.
  rewrite pattern_list_get by (apply hash_new_wf; lia). by rewrite hash_get_stack, hash_stack_new.
Qed.

Lemma annotate_one_rest ns rp k v rp' :
  annotation_ok ns k v → rest_ok rp → annotate_one ns rp k v = Ok rp' → rest_ok rp'.
Proof.
  intros (Ha & Hp & Hd & Hs) [] Hr. unfold annotate_one in Hr. cbv zeta in Hr.
  repeat match type of Hr with
  | (if streq k ?K then _ else _) = Ok _ => destruct (streq k K) eqn:?; [str_tests; subst k|]
  | (if streq k ?K && ?b then _ else _) = Ok _ => destruct (streq k K && b)
  end.
  all: try (apply (inj Ok) in Hr; subst rp'; repeat case_match; constructor;
    first [done|by apply Ha|by apply Hd|apply plain_list_words, Hp; by compute_done]).
  destruct (namespace_get_secret ns v) as [se|] eqn:Es; [|by apply (inj Ok) in Hr; subst].
  destruct (add_users_only _ _ _ _ Hr) as [u Hu]. subst rp'. constructor; try done.
  intros us Hus. by eapply add_users_ok; [apply (Hs eq_refl se)| |].
Qed.

(** The annotations that set the type and the realm. *)
Lemma annotate_type_realm ns rp rp' ann m :
  hash_models ann m → remap_path_annotate ns rp ann = Ok rp' →
  rp_auth_type rp' = match m !! IN_AUTH_TYPE with
                     | Some v => if streq v (lit "basic") then REMAP_AUTH_BASIC
                                 else if streq v (lit "digest") then REMAP_AUTH_DIGEST else rp_auth_type rp
                     | None => rp_auth_type rp
                     end ∧
  rp_auth_realm rp' = match m !! IN_AUTH_REALM with Some v => Some v | None => rp_auth_realm rp end.
Proof.
  intros Hm Ha. pose proof (annotate_policy_eq ns rp rp' ann m Hm Ha) as Hp.
  exact (conj (f_equal ap_type Hp) (f_equal ap_realm Hp)).
Qed.

Lemma annotate_ok ns rp ing rp' :
  ingress_ok ns ing → path_ok rp → remap_path_annotate ns rp (in_annotations ing) = Ok rp' → path_ok rp'.
Proof.
  intros (m & Hm & Hok) [Hrest Hrealm] Hr. split.
  - rewrite (annotate_bindings ns rp _ m Hm) in Hr. revert Hr. apply (foldC_post rest_ok); [done|].
    intros b [k v] b' Hin Hb. apply annotate_one_rest; [|done]. apply (ao_each _ _ Hok).
    rewrite (hash_models_bindings _ _ Hm) in Hin. by apply elem_of_map_to_list in Hin.
  - unfold realm_ok. pose proof (annotate_type_realm ns rp rp' _ m Hm Hr) as [-> ->].
    pose proof (ao_realm _ _ Hok) as Ho. unfold realm_ok in Hrealm.
    destruct (m !! IN_AUTH_REALM) as [r|]; [by eexists|].
    destruct (m !! IN_AUTH_TYPE) as [t|]; [|done]. specialize (Ho t eq_refl).
    destruct (streq t (lit "basic")) eqn:E1; [str_tests; subst; destruct Ho as [? ?]; [by left|done]|].
    destruct (streq t (lit "digest")) eqn:E2; [str_tests; subst; destruct Ho as [? ?]; [by right|done]|done].
Qed.

Lemma add_address_ok rp host port : path_ok rp → path_ok (remap_path_add_address rp host port).
Proof. intros [[] Hr]. by split; [constructor|]. Qed.

Lemma add_subset_ok name rp es rp' : path_ok rp → add_subset name rp es = Ok rp' → path_ok rp'.
Proof.
  intros Hrp. unfold add_subset. destruct (hash_get _ _); [|by intros Hr; apply (inj Ok) in Hr as <-].
  apply (foldC_post path_ok); [done|]. intros r a r' _ Hr0. destruct (ea_ip a); [|done]. cbn [deref mbind cres_bind].
  intros Hr; apply (inj Ok) in Hr as <-. by apply add_address_ok.
Qed.

Lemma add_endpoints_ok ns rp svc port rp' : path_ok rp → build_add_endpoints ns rp svc port = Ok rp' → path_ok rp'.
Proof.
  intros Hrp. unfold build_add_endpoints. destruct (sv_type svc) as [t|]; [|done]. cbn [deref mbind cres_bind].
  destruct (streq t SV_TYPE_EXTERNALNAME).
  - destruct (sv_external_name svc); [|done]. cbn [deref mbind cres_bind]. destruct port; [|done].
    cbn [deref mbind cres_bind]. intros Hr; apply (inj Ok) in Hr as <-. by apply add_address_ok.
  - destruct port as [name|]; [|done]. cbn [deref mbind cres_bind].
    destruct (service_find_port _ _ _) as [[p|]|]; cbn [mbind cres_bind]; [|by intros Hr; apply (inj Ok) in Hr as <-|done].
    destruct (namespace_get_endpoints _ _); [|by intros Hr; apply (inj Ok) in Hr as <-].
    apply (foldC_post path_ok); [done|]. intros r a r' _. apply add_subset_ok.
Qed.

(** ** Hosts *)
Definition host_ok rh : Prop := host_wf rh ∧ Forall path_ok (rh_paths rh).

Lemma build_path_at_ok ns ing rh i svc port rh' :
  ingress_ok ns ing → Forall path_ok (rh_paths rh) → build_path_at ns ing rh i svc port = Ok rh' → Forall path_ok (rh_paths rh').
Proof.
  intros Hing Hrh. unfold build_path_at. destruct (rh_paths rh !! i) as [rp|] eqn:Ei; [|done].
  destruct (remap_path_annotate ns rp _) as [rp1|] eqn:E1; [|done]. cbn [mbind cres_bind].
  destruct (build_add_endpoints ns rp1 svc port) as [rp2|] eqn:E2; [|done]. cbn [mbind cres_bind].
  intros Hr. apply (inj Ok) in Hr as <-. cbn [rh_paths set_rh_paths]. apply Forall_insert; [done|].
  apply add_endpoints_ok in E2; [done|]. apply annotate_ok in E1; [done|done|].
  rewrite Forall_forall in Hrh. apply Hrh. by eapply list_elem_of_lookup_2.
Qed.

Lemma build_rule_path_ok cs ns ing rh path rh' :
  ingress_ok ns ing → host_ok rh → build_rule_path cs ns ing rh path = Ok rh' → host_ok rh'.
Proof.
  intros Hing [Hwf Hp] Hr. split; [by eapply build_rule_path_wf|]. revert Hr. unfold build_rule_path.
  destruct (ip_service_name path); [|done]. cbn [deref mbind cres_bind].
  destruct (namespace_get_service ns _) as [svc|]; [|by intros Hr; apply (inj Ok) in Hr as <-].
  destruct (ip_path path) as [p|].
  - destruct (remap_host_new_path rh (Some p)) as [[rh1 i]|] eqn:En; [|by intros Hr; apply (inj Ok) in Hr as <-].
    apply build_path_at_ok; [done|].
    destruct (remap_host_new_path_wf rh p rh1 i Hwf En) as (_ & (rp & Hrp & ->) & _).
    apply Forall_app. split; [done|]. constructor; [|done].
    unfold remap_path_new in Hrp. repeat case_match; simplify_eq; apply path_defaults_ok.
  - by apply build_path_at_ok.
Qed.

(** A host of the database was asked for by a namespace that may use it, and
    its paths can be served. *)
Lemma built_hosts cfg cs db cs' host rh :
  hash_wf (cs_namespaces cs) → (∀ ns ing, ingress_of cs ns ing → ingress_ok ns ing) →
  remap_db_from_cluster cfg cs = Ok (db, cs') → remap_db_get_host db host = Some rh →
  host_ok rh ∧ granted cfg cs host ∧ rd_healthcheck db = Some (cc_healthcheck (cs_config cs)).
Proof.
  intros Hwf Hok. unfold remap_db_from_cluster.
  destruct (build_namespaces _ _ _) as [[db1 cs1]|] eqn:E; [|done]. cbn [mbind cres_bind].
  intros Hr Hh. apply (inj Ok), pair_eq in Hr as [<- <-].
  assert (HP : HostProperty cs host_ok).
  { split.
    - split; [apply remap_host_new_wf|]. constructor; [apply path_defaults_ok|constructor].
    - intros r ctx [(rp0 & rps & Hp) Ha]. split; [by exists rp0, rps|done].
    - intros ns ing rule path cs2 r r' Hof _ _. apply build_rule_path_ok. by apply Hok. }
  apply (build_namespaces_inv cfg cs host_ok) in E; [|by apply build_inv_start|by intros b Hb%elem_of_nil].
  destruct E as [_ Hcs _ (m & Hm & Hall)]. unfold remap_db_get_host in Hh; simpl in *.
  rewrite (hash_models_get _ _ _ Hm) in Hh. destruct (Hall _ _ Hh) as [??]. by rewrite Hcs.
Qed.

Lemma built_healthcheck cfg cs db cs' :
  hash_wf (cs_namespaces cs) → remap_db_from_cluster cfg cs = Ok (db, cs') →
  rd_healthcheck db = Some (cc_healthcheck (cs_config cs)).
Proof.
  intros Hwf. unfold remap_db_from_cluster.
  destruct (build_namespaces _ _ _) as [[db1 cs1]|] eqn:E; [|done]. cbn [mbind cres_bind].
  intros Hr. apply (inj Ok), pair_eq in Hr as [<- <-].
  apply (build_namespaces_inv cfg cs host_wf) in E; [|by apply build_inv_start|by intros b Hb%elem_of_nil].
  pose proof (bi_cluster _ _ _ _ E) as Hc. cbn [snd] in Hc. cbn [rd_healthcheck]. by rewrite Hc.
Qed.

(** The conditions on a cluster. *)
Record cluster_ok cs : Prop := {
  co_wf : hash_wf (cs_namespaces cs);
  co_objects b : b ∈ hash_foreach (cs_namespaces cs) → ns_safe (hb_value b);
  co_ingresses ns ing : ingress_of cs ns ing → ingress_ok ns ing;
  co_healthcheck : cc_healthcheck (cs_config cs) ≠ [];
}.

Lemma built_db_ok cfg cs db cs' :
  cluster_ok cs → remap_db_from_cluster cfg cs = Ok (db, cs') →
  db_safe db ∧ ∀ host rh, remap_db_get_host db host = Some rh → Forall hook_safe (rh_paths rh).
Proof.
  intros [Hwf _ Hing Hhc] Hr. split; [split|].
  - rewrite (built_healthcheck _ _ _ _ Hwf Hr). by intros [= ?].
  - intros host rh Hh. destruct (built_hosts _ _ _ _ _ _ Hwf Hing Hr Hh) as ([Hw Hp] & _). split; [done|].
    eapply Forall_impl; [done|]. intros rp Hrp. by apply path_ok_safe.
  - intros host rh Hh. destruct (built_hosts _ _ _ _ _ _ Hwf Hing Hr Hh) as ([Hw Hp] & _).
    eapply Forall_impl; [done|]. intros rp Hrp. by apply path_ok_safe.
Qed.

(** * Properties *)

(** C7. The database built from a cluster of valid objects serves every request
    without a fault, whatever the order in which the objects are processed and
    also on a path that several Ingresses share: every path of every host has
    what the checks and the hook use ([path_safe], [hook_safe]), and the request
    hook returns and resumes the transaction exactly once, for every request
    that has a scheme and a client address of the length of its family.  Valid
    ([cluster_ok]) means: the table of namespaces is well formed; the objects
    are complete ([ns_safe], as for [build_total]); the annotations of every
    Ingress are valid one by one, that is authentication comes with a realm
    (which docs/auth.md makes optional), the IPv4 networks of a whitelist have
    prefix lengths between -31 and 32, query and cookie patterns have no
    brackets or escapes, the users of an auth secret have hashes in a supported
    format, and debug-log is not "true", since the debug log of a request reads
    out of bounds ([handle_remap_debug_overread]); and the healthcheck path is
    not empty. *)
Theorem built_db_safe (cfg : k8s_config) cs db cs' :
  cluster_ok cs → remap_db_from_cluster cfg cs = Ok (db, cs') →
  db_safe db ∧ (∀ host rh, remap_db_get_host db host = Some rh → Forall (λ rp, path_safe rp ∧ hook_safe rp) (rh_paths rh)) ∧
  ∀ xfp txn rand, is_Some (tx_scheme txn) → length (sa_addr (tx_addr txn)) = addr_length (sa_family (tx_addr txn)) →
    0 ≤ rand ≤ RAND_MAX →
    ∃ rctx acts, handle_remap xfp (Some db) txn rand = Ok (Some rctx, acts) ∧ length (filter resumes acts) = 1%nat.
Proof.
  intros Hok Hb. destruct (built_db_ok _ _ _ _ Hok Hb) as [Hdb Hk]. split_and!; [done| |].
  - intros host rh Hh. apply Forall_and. split; [by apply (ds_hosts _ Hdb _ _ Hh)|by apply (Hk host)].
  - intros xfp txn rand. by apply handle_remap_returns.
Qed.

(** From the objects of the cluster to the answer: after [rebuild_maps] on a
    cluster with valid objects ([cluster_ok]), every request is answered and resumed exactly
    once, and a backend is contacted only if the request names a host that
    some Ingress of a handled class asks for, in a namespace that may use that
    host, and the client is authorised for the path. *)
Theorem rebuilt_requests (xfp : bool) (st : state) txn (rand : Z) :
  cluster_ok (st_cluster st) → is_Some (tx_scheme txn) →
  length (sa_addr (tx_addr txn)) = addr_length (sa_family (tx_addr txn)) → 0 ≤ rand ≤ RAND_MAX →
  ∃ st' rctx acts, rebuild_maps st = Ok st' ∧ handle_remap xfp (st_db st') txn rand = Ok (Some rctx, acts) ∧
    length (filter resumes acts) = 1%nat ∧
    ∀ act, act ∈ acts → contacts act = true →
      ∃ host ns ing rp, rr_host (request_from_txn txn) = Some host ∧
        ingress_of (st_cluster st) ns ing ∧ class_accepted (st_config st) ing = true ∧ names_host ing host ∧
        cluster_domain_for_ns (st_cluster st) host (ns_name ns) = true ∧
        authorised (request_from_txn txn) rp ∧ ∃ t, t ∈ rp_addrs rp ∧ act ∈ target_calls txn t.
Proof.
  intros Hok Hs Hl Hrand. destruct (build_returns (st_config st) (st_cluster st)) as (db & cs' & Hb);
    [apply Hok|apply (co_objects _ Hok)|].
  destruct (built_db_ok _ _ _ _ Hok Hb) as [Hdb Hck].
  destruct (handle_remap_returns xfp db txn rand Hdb Hck Hs Hl Hrand) as (rctx & acts & Hh & Hone).
  exists (State (st_config st) cs' (Some db)), rctx, acts. unfold rebuild_maps. rewrite Hb. cbn [mbind cres_bind st_db].
  split; [done|]. split; [exact Hh|]. split; [done|]. intros act Ha Hc.
  destruct (handle_remap_contact xfp db txn rand _ _ _ Hh Ha Hc)
    as (proto & host & rh & rp & t & _ & Hho & Hg & _ & _ & Hau & Ht & Hact).
  destruct (built_hosts _ _ _ _ _ _ (co_wf _ Hok) (co_ingresses _ Hok) Hb Hg) as (_ & (ns & ing & Hof & Hcl & Hn & Hd) & _).
  exists host, ns, ing, rp. eauto 10.
Qed.
End proofs.

(** * Examples *)
Module Examples.
#[local] Existing Instance posix_literal.
#[local] Existing Instance posix_literal_laws.
#[local] Existing Instance openssl_list.
#[local] Existing Instance openssl_list_laws.
#[local] Existing Instance digests_pad.
Import RemapBuild.Examples.

Lemma annotation_plain ns k v :
  k ∉ IN_WHITELIST_SOURCE_RANGE :: IN_AUTH_SECRET :: IN_DEBUG_LOG :: pattern_keys → annotation_ok ns k v.
Proof. rewrite !not_elem_of_cons. intros (Hw & Hs & Hd & Hp). split_and!; intros ?; by exfalso. Qed.

Lemma ex_ingress_ok ns : ingress_ok ns ex_ingress.
Proof.
  exists (<[IN_CACHE_IGNORE_PARAMS := lit "utm_* fbclid"]> (<[IN_AUTH_REALM := lit "staff"]>
    (<[IN_AUTH_TYPE := lit "basic"]> (<[IN_APP_ROOT := lit "/app"]> ∅)))).
  split; [do 4 apply hash_models_put; apply hash_models_new; lia|]. split.
  - intros k v Hk. apply lookup_insert_Some in Hk as [[<- <-]|[_ Hk]].
    { split_and!; [by intros ?|intros _; unfold plain; by compute_done|by intros ?..]. }
    repeat (apply lookup_insert_Some in Hk as [[<- <-]|[_ Hk]]; [apply annotation_plain; by compute_done|]).
    by apply lookup_empty_Some in Hk.
  - intros v _ _. eexists. reflexivity.
Qed.

Lemma ex_cluster_ok : cluster_ok ex_cluster.
Proof.
  assert (Hc : bool_decide (cc_healthcheck (cs_config ex_cluster) = []) = false) by (vm_compute; reflexivity).
  apply bool_decide_eq_false in Hc. refine (Build_cluster_ok ex_cluster ex_cluster_wf ex_cluster_safe _ Hc).
  intros ns ing [(b & Hb & <-) Hing]. rewrite (ex_ingress_only b ing Hb Hing). apply ex_ingress_ok.
Qed.

Definition ex_state : state := {| st_config := k8s_config_new; st_cluster := ex_cluster; st_db := None |}.
Definition ex_get : ts_txn := {|
  tx_name := lit "0x7f00"; tx_version := 0x10001; tx_url := lit "http://www.example.com/app/x"; tx_method := lit "GET"; tx_scheme := Some (lit "http"); tx_host := Some (lit "www.example.com");
  tx_path := Some (lit "app/x"); tx_query := None; tx_addr := Sockaddr AF_INET (lit "abcd");
  tx_fields := []; tx_cookie := None; tx_accept_encoding := None; tx_tls := false;
  tx_has_field _ := true; tx_creates_field _ := true; tx_creates_cont := true;
|}.

Lemma built_db_safe_witness :
  match remap_db_from_cluster k8s_config_new ex_cluster with
  | Ok (db, _) => db_safe db ∧ ∃ rctx acts, handle_remap true (Some db) ex_get 7 = Ok (Some rctx, acts) ∧ length (filter resumes acts) = 1%nat
  | Fault _ => False
  end.
Proof.
  assert (Hok : okb (remap_db_from_cluster k8s_config_new ex_cluster) = true) by (vm_compute; reflexivity).
  destruct (remap_db_from_cluster k8s_config_new ex_cluster) as [[db cs']|] eqn:E; [|discriminate Hok].
  destruct (built_db_safe k8s_config_new ex_cluster db cs' ex_cluster_ok E) as (Hdb & _ & Hr). split; [exact Hdb|].
  apply Hr; [by eexists|reflexivity|unfold RAND_MAX; lia].
Defined.

Lemma rebuilt_requests_witness :
  ∃ st' rctx acts, rebuild_maps ex_state = Ok st' ∧ handle_remap false (st_db st') ex_get 7 = Ok (Some rctx, acts) ∧
    length (filter resumes acts) = 1%nat.
Proof.
  destruct (rebuilt_requests false ex_state ex_get 7) as (st' & rctx & acts & H1 & H2 & H3 & _);
    [apply ex_cluster_ok|by eexists|reflexivity|unfold RAND_MAX; lia|].
  exists st', rctx, acts. split; [exact H1|]. split; [exact H2|exact H3].
Defined.
End Examples.
