(* ===== verification/WatchLoop.v ===== *)
(** [api/watcher.c]: the polling loops of the full fetch and of the watch and
    the thread around them, with the callback that rebuilds the database.

    libcurl and the clock are outside the model: what they report in each round
    of a loop is a record, and a run is a list of rounds.  The callback is a
    parameter: it takes the cluster, which it may extend, and returns what it
    built from it. *)

From S2P Require Import Prelude CString Hash Env Api Namespace Cluster RemapPath RemapHost Config RemapDb RemapBuild Watcher.

Local Open Scope Z_scope.

(** * Data *)
Definition RESYNC_INTERVAL : Z := 300.
Definition NRESOURCES : nat := length resources.

(** The fields of [fetcher_ctx] that each watch keeps. *)
Record slot := Slot { sl_changed : bool; sl_buf : option bytes }.

(** The state of the watcher: the cluster, the resources with their versions,
    and what the callback built last. *)
Record watcher (D : Type) := Watcher {
  wt_cluster : cluster;
  wt_resources : list resource;
  wt_built : option D;
}.
Arguments Watcher {D}.
Arguments wt_cluster {D}.
Arguments wt_resources {D}.
Arguments wt_built {D}.

(** One round of [fetcher_watch]: the blocks [curl_multi_perform] hands to the
    callbacks, its code and the number of running transfers, the timeout, the
    code of [curl_multi_wait], and the time after it. *)
Record poll := Poll {
  rd_data : list (nat * bytes);
  rd_perform : bool;
  rd_running : nat;
  rd_timeout : Z;
  rd_wait : bool;
  rd_time : Z;
}.

(** One round of the loop in [fetcher_get_all]. *)
Record fetch_poll := FetchPoll {
  fp_data : list (nat * bytes);
  fp_perform : bool;
  fp_running : nat;
  fp_timeout : Z;
  fp_wait : bool;
}.

(** How the loop ends: with the buffers of the transfers, with an error, or not
    within the rounds given. *)
Inductive fetch_end := FetchDone (bufs : list (option bytes)) | FetchError | FetchRunning.

(** A message of [curl_multi_info_read]: whether it is CURLMSG_DONE, the
    transfer it is about, and whether that succeeded. *)
Record curl_msg := CurlMsg { cm_done : bool; cm_handle : nat; cm_ok : bool }.

(** How a watch ends: with -1, with 0, or not within the rounds given. *)
Inductive watch_end := WatchFailed | WatchTimeout | WatchRunning.

#[global] Instance watch_end_eq_dec : EqDecision watch_end.
Proof. solve_decision. Defined.

(** * Operations *)
Section ops.
Context `{J : JsonC} (package_version : bytes) (config : k8s_config) {D : Type} (cs_callback : option (cluster → cres (D * cluster))).
Implicit Types (wt : watcher D).

Definition run_callback wt : cres (watcher D) :=
  match cs_callback with
  | None => Ok wt
  | Some cb => '(d, cs) ← cb (wt_cluster wt); Ok (Watcher cs (wt_resources wt) (Some d))
  end.

(** The write callback of the watch [i]. *)
Definition deliver (st : watcher D * list slot) (d : nat * bytes) : cres (watcher D * list slot) :=
  let '(wt, slots) := st in
  match slots !! d.1 with
  | None => Fault OutOfBounds
  | Some sl =>
      fe ← fe_watch_read config (Fetcher (WState (wt_cluster wt) (sl_changed sl)) (sl_buf sl)) d.2;
      Ok (Watcher (ws_cluster (fe_state fe)) (wt_resources wt) (wt_built wt),
          <[d.1 := Slot (ws_changed (fe_state fe)) (fe_buf fe)]> slots)
  end.

Definition watch_round (deadline : Z) (st : watcher D * list slot) (r : poll) : cres (watcher D * list slot * option watch_end) :=
  '(wt, slots) ← foldC deliver (rd_data r) st;
  if negb (rd_perform r) then Ok (wt, slots, Some WatchFailed)
  else if negb (rd_running r =? NRESOURCES)%nat then Ok (wt, slots, Some WatchFailed)
  else if rd_timeout r =? 0 then Ok (wt, slots, None)
  else if negb (rd_wait r) then Ok (wt, slots, Some WatchFailed)
  else if deadline <=? rd_time r then Ok (wt, slots, Some WatchTimeout)
  else
    let anychanged := existsb sl_changed slots in
    let slots := (λ sl, Slot false (sl_buf sl)) <$> slots in
    wt ← (if anychanged then run_callback wt else Ok wt);
    Ok (wt, slots, None).

Fixpoint watch_rounds (deadline : Z) (rounds : list poll) (st : watcher D * list slot) : cres (watcher D * list slot * watch_end) :=
  match rounds with
  | [] => Ok (st, WatchRunning)
  | r :: rounds =>
      '(st, e) ← watch_round deadline st r;
      match e with
      | Some e => Ok (st, e)
      | None => watch_rounds deadline rounds st
      end
  end.

(** [fetcher_make] or [fetcher_watch_make] for each resource, [curls] telling
    whether its [curl_easy_init] succeeds; [None] when one of them fails. *)
Fixpoint make_all (make : bool → resource → cres (option (list curl_opt))) (vs : list resource) (curls : list bool)
    : cres (option (list (list curl_opt))) :=
  match vs with
  | [] => Ok (Some [])
  | res :: vs =>
      opts ← make (default false (head curls)) res;
      match opts with
      | None => Ok None
      | Some opts => r ← make_all make vs (tail curls); Ok (option_map (cons opts) r)
      end
  end.

(** [fetcher_watch], started at the time [now]; [multi] is whether
    [curl_multi_init] succeeds. *)
Definition fetcher_watch (now : Z) (multi : bool) (curls : list bool) (rounds : list poll) wt : cres (watcher D * watch_end) :=
  if negb multi then Ok (wt, WatchFailed) else
  made ← make_all (fetcher_watch_make package_version config) (wt_resources wt) curls;
  if bool_decide (made = None) then Ok (wt, WatchFailed) else
  '(wt, _, e) ← watch_rounds (now + RESYNC_INTERVAL) rounds (wt, replicate NRESOURCES (Slot false None));
  Ok (wt, e).

(** ** The full fetch *)

(** The write callback of the transfer [i]. *)
Definition receive (bufs : list (option bytes)) (d : nat * bytes) : cres (list (option bytes)) :=
  match bufs !! d.1 with
  | None => Fault OutOfBounds
  | Some buf => Ok (<[d.1 := fe_read buf d.2]> bufs)
  end.

Fixpoint fetch_rounds (rounds : list fetch_poll) (bufs : list (option bytes)) : cres fetch_end :=
  match rounds with
  | [] => Ok FetchRunning
  | r :: rounds =>
      bufs ← foldC receive (fp_data r) bufs;
      if negb (fp_perform r) then Ok FetchError
      else if (fp_running r =? 0)%nat then Ok (FetchDone bufs)
      else if fp_timeout r =? 0 then fetch_rounds rounds bufs
      else if negb (fp_wait r) then Ok FetchError
      else fetch_rounds rounds bufs
  end.

(** The finished transfers with what they received. *)
Definition finished (bufs : list (option bytes)) (msgs : list curl_msg) : list (nat * option (option bytes)) :=
  omap (λ m, if cm_done m then Some (cm_handle m, if cm_ok m then Some (default None (bufs !! cm_handle m)) else None) else None) msgs.

(** The result is [None] while the transfers run. *)
Definition fetcher_get_all (multi : bool) (curls : list bool) (rounds : list fetch_poll) (msgs : list curl_msg) wt
    : cres (watcher D * option bool) :=
  if negb multi then Ok (wt, Some false) else
  made ← make_all (fetcher_make package_version config) (wt_resources wt) curls;
  if bool_decide (made = None) then Ok (wt, Some false) else
  e ← fetch_rounds rounds (replicate NRESOURCES None);
  match e with
  | FetchError => Ok (wt, Some false)
  | FetchRunning => Ok (wt, None)
  | FetchDone bufs =>
      '(ok, vs, cs) ← fetch_replace config (wt_cluster wt) (wt_resources wt) (finished bufs msgs);
      let wt := Watcher cs vs (wt_built wt) in
      if (ok : bool) then wt ← run_callback wt; Ok (wt, Some true) else Ok (wt, Some false)
  end.

(** ** The thread *)

(** What happens in one turn of [watcher_thread]: in the full fetch, and in the
    watch that starts at [tu_now]. *)
Record turn := Turn {
  tu_fetch_multi : bool;
  tu_fetch_curls : list bool;
  tu_fetch_rounds : list fetch_poll;
  tu_msgs : list curl_msg;
  tu_now : Z;
  tu_multi : bool;
  tu_curls : list bool;
  tu_rounds : list poll;
}.

(** Where the thread is: in the fetch, after a fetch that failed, or in or after
    the watch. *)
Inductive turn_end := Fetching | FetchFailed | Watching (e : watch_end).
Definition turn_over (e : turn_end) : bool :=
  match e with Fetching | Watching WatchRunning => false | _ => true end.

Definition watcher_turn wt (tu : turn) : cres (watcher D * turn_end) :=
  '(wt, r) ← fetcher_get_all (tu_fetch_multi tu) (tu_fetch_curls tu) (tu_fetch_rounds tu) (tu_msgs tu) wt;
  match r with
  | None => Ok (wt, Fetching)
  | Some false => Ok (wt, FetchFailed)
  | Some true =>
      '(wt, e) ← fetcher_watch (tu_now tu) (tu_multi tu) (tu_curls tu) (tu_rounds tu) wt;
      Ok (wt, Watching e)
  end.

(** The turns that are over, and the one the thread is in; it does not get past
    a turn that is not over.  The result of [fetcher_watch] is ignored. *)
Definition watcher_thread (turns : list turn) (tu : turn) wt : cres (watcher D * turn_end) :=
  wt ← foldC (λ wt tu, '(wt, e) ← watcher_turn wt tu; if turn_over e then Ok wt else Fault Diverges) turns wt;
  watcher_turn wt tu.
End ops.

(** * Lemmas *)

(** ** Objects *)
#[global] Instance same_objects_equiv : Equivalence same_objects.
Proof. split; [by intros ??|by intros ????|]. intros m1 m2 m3 H1 H2 ns. by rewrite H1. Qed.

(** Two clusters with the same objects and the same configuration; the first one
    holds [m0]. *)
Definition up_to_date (m0 : gmap bytes ns_view) (cc0 : cluster_config) (cs : cluster) : Prop :=
  ∃ m, ws_models (WState cs false) m ∧ same_objects m0 m ∧ cs_config cs = cc0.

Section lines.
Context `{J : JsonC} (config : k8s_config).

Lemma ws_models_flag cs b b' m : ws_models (WState cs b) m → ws_models (WState cs b') m.
Proof. intros [??]. by split. Qed.

(** What a step leaves: a change of the objects sets the flag, which stays. *)
Definition tracked (ws : wstate) m (ws' : wstate) m' : Prop :=
  ws_models ws' m' ∧ (ws_changed ws = true → ws_changed ws' = true) ∧
  (ws_changed ws' = false → same_objects m m' ∧ cs_config (ws_cluster ws') = cs_config (ws_cluster ws)).

Lemma tracked_refl ws m : ws_models ws m → tracked ws m ws m.
Proof. done. Qed.

Lemma tracked_trans ws1 m1 ws2 m2 ws3 m3 : tracked ws1 m1 ws2 m2 → tracked ws2 m2 ws3 m3 → tracked ws1 m1 ws3 m3.
Proof.
  intros (_ & Hf1 & Hs1) (Hm & Hf2 & Hs2). split_and!; [done|auto|]. intros Hf.
  assert (Hf' : ws_changed ws2 = false) by (destruct (ws_changed ws2); [by rewrite Hf2 in Hf|done]).
  destruct (Hs2 Hf) as [Hs Hc], (Hs1 Hf') as [Hs' Hc']. split; [by etransitivity|congruence].
Qed.

Lemma watch_line_tracked ws m line ws' :
  ws_models ws m → fe_watch_line config ws line = Ok ws' → ∃ m', tracked ws m ws' m'.
Proof.
  intros Hm Hl. pose proof (watch_line_spec config ws ws' m line Hm Hl) as Hw.
  destruct (decode_event line) as [[e|]|]; [|subst; exists m; by apply tracked_refl|done].
  destruct Hw as (eff & _ & Hs & _ & Hf & Hsame). eexists. by split_and!.
Qed.

Lemma watch_lines_tracked fuel ws m buf ws' rest :
  ws_models ws m → watch_lines config fuel ws buf = Ok (ws', rest) → ∃ m', tracked ws m ws' m'.
Proof.
  revert ws m buf. induction fuel as [|fuel IH]; intros ws m buf Hm; [done|]. cbn [watch_lines].
  destruct (cut newline buf) as [[line tl]|]; [|intros Hr; apply (inj Ok), pair_eq in Hr as [<- _]; exists m; by apply tracked_refl].
  destruct (fe_watch_line config ws (c_str line)) as [ws1|] eqn:El; [|done]. cbn [mbind cres_bind]. intros Hr.
  destruct (watch_line_tracked _ _ _ _ Hm El) as (m1 & H1). destruct (IH ws1 m1 tl (proj1 H1) Hr) as (m2 & H2).
  exists m2. by eapply tracked_trans.
Qed.

Lemma watch_read_tracked fe m data fe' :
  ws_models (fe_state fe) m → fe_watch_read config fe data = Ok fe' → ∃ m', tracked (fe_state fe) m (fe_state fe') m'.
Proof.
  intros Hm. unfold fe_watch_read. case_match; [intros Hr; apply (inj Ok) in Hr as <-; exists m; by apply tracked_refl|].
  destruct (watch_lines _ _ _ _) as [[ws rest]|] eqn:E; [|done]. cbn [mbind cres_bind]. intros Hr. apply (inj Ok) in Hr as <-.
  by eapply watch_lines_tracked.
Qed.
End lines.

(** ** The rounds *)
Section rounds.
Context `{J : JsonC} (config : k8s_config) {D : Type} (cs_callback : option (cluster → cres (D * cluster))).
Implicit Types (wt : watcher D).

(** Relative to the objects [m0] and the configuration [cc0] that were reported
    last: the cluster still has them, unless a flag is set. *)
Definition reported (m0 : gmap bytes ns_view) (cc0 : cluster_config) (st : watcher D * list slot) : Prop :=
  ∃ m, ws_models (WState (wt_cluster st.1) false) m ∧
    (existsb sl_changed st.2 = false → same_objects m0 m ∧ cs_config (wt_cluster st.1) = cc0).

Lemma existsb_insert (slots : list slot) i sl sl' :
  slots !! i = Some sl → existsb sl_changed (<[i := sl']> slots) = false → (sl_changed sl = true → sl_changed sl' = true) →
  sl_changed sl' = false ∧ existsb sl_changed slots = false.
Proof.
  revert i. induction slots as [|s slots IH]; intros [|i] Hi; try done; cbn.
  - apply (inj Some) in Hi as ->. intros [Hs' Hs]%orb_false_iff Himp. split; [done|]. apply orb_false_iff. split; [|done].
    destruct (sl_changed sl); [by rewrite Himp in Hs'|done].
  - intros [Hs Hr]%orb_false_iff Himp. destruct (IH i Hi Hr Himp) as [H1 H2]. split; [done|]. by rewrite Hs, H2.
Qed.

Lemma deliver_reported m0 cc0 st d st' :
  reported m0 cc0 st → deliver config st d = Ok st' → reported m0 cc0 st' ∧ wt_built st'.1 = wt_built st.1.
Proof.
  destruct st as [wt slots], d as [i data]. intros (m & Hm & Hr). unfold deliver. cbn [fst snd] in *.
  destruct (slots !! i) as [sl|] eqn:Ei; [|done].
  destruct (fe_watch_read _ _ _) as [fe|] eqn:E; [|done]. cbn [mbind cres_bind]. intros Hst. apply (inj Ok) in Hst as <-.
  apply (watch_read_tracked _ _ m) in E as (m' & Hm' & Hf & Hs); [|by apply (ws_models_flag _ false)]. cbn [fe_state ws_changed ws_cluster] in *.
  split; [|done]. exists m'. split; [by destruct fe as [[cs b] buf]; apply (ws_models_flag _ b)|]. cbn [fst snd wt_cluster]. intros Hno.
  destruct (existsb_insert _ _ _ _ Ei Hno Hf) as [Hc Hold]. cbn [sl_changed] in Hc.
  destruct (Hs Hc) as [Hs1 Hc1], (Hr Hold) as [Hs0 Hc0]. split; [by etransitivity|congruence].
Qed.

Lemma delivers_reported m0 cc0 ds st st' :
  reported m0 cc0 st → foldC (deliver config) ds st = Ok st' → reported m0 cc0 st' ∧ wt_built st'.1 = wt_built st.1.
Proof.
  intros Hr. apply (foldC_post (λ s, reported m0 cc0 s ∧ wt_built s.1 = wt_built st.1)); [done|].
  intros b a b' _ [Hb He] Hd. destruct (deliver_reported _ _ _ _ _ Hb Hd) as [Hb' He']. split; [done|congruence].
Qed.
End rounds.

(** ** After a full fetch, Endpoints are as they are parsed *)
Section fetched.
Context `{J : JsonC} (config : k8s_config).

Definition eff_canon (eff : bytes * effect) : Prop := ∀ e, eff.2 = Change (PutEndpoints e) → endpoints_canon e.

Lemma effects_canon effs m :
  Forall eff_canon effs → (∀ n v, m !! n = Some v → map_Forall (λ _, endpoints_canon) (nv_endpointses v)) →
  ∀ n v, effects_views effs m !! n = Some v → map_Forall (λ _, endpoints_canon) (nv_endpointses v).
Proof.
  intros Hf. revert m. induction Hf as [|[ns eff] effs He _ IH]; intros m Hm; [done|].
  apply IH. destruct eff as [|ev|cm]; cbn [effect_views]; [by apply canon_touch| |by apply canon_touch].
  apply canon_apply; [done|]. intros e ->. by apply He.
Qed.

Lemma item_effect_canon kind item eff : item_effect config kind item = Ok (Some eff) → eff_canon eff.
Proof.
  unfold item_effect. destruct (get_typed item "metadata" _); [|done]. destruct (get_typed _ "namespace" _); [|done].
  destruct (deref _) as [ns|]; [|done]. cbn [mbind cres_bind]. intros Hr e He.
  assert (Hend : ∀ x : cres effect, (eff ← x; Ok (Some (ns, eff))) = Ok (Some eff) → x = Ok (Change (PutEndpoints e))).
  { intros [x|] Hx; [|done]. cbn [mbind cres_bind] in Hx. apply (inj Ok), (inj Some) in Hx as <-. cbn [snd] in He. by rewrite He. }
  apply Hend in Hr. clear Hend He.
  destruct (streq kind (lit "IngressList")); [by destruct (ingress_make item) as [[|]|]|].
  destruct (streq kind (lit "ServiceList")); [by destruct (service_make item) as [[|]|]|].
  destruct (streq kind (lit "SecretList")); [by destruct (secret_make item) as [[|]|]|].
  destruct (streq kind (lit "EndpointsList")).
  - destruct (endpoints_make item) as [[eps|]|] eqn:Em; [|done..]. cbn in Hr. simplify_eq. by eapply endpoints_make_canon.
  - destruct (streq kind (lit "ConfigMapList")); [|done]. destruct (configmap_make item) as [[cm|]|]; [|done..]. cbn in Hr.
    by destruct (our_configmap _ _ _).
Qed.

Lemma fetch_effects_canon msgs effs : fetch_effects config msgs = Ok (Some effs) → Forall eff_canon effs.
Proof.
  revert effs. induction msgs as [|[i [buf|]] msgs IH]; intros effs; cbn [fetch_effects]; [| |done].
  { intros Hr. by apply (inj Ok), (inj Some) in Hr as <-. }
  destruct (response_effects config buf) as [effs1|] eqn:E; [|done]. cbn [mbind cres_bind].
  destruct (fetch_effects config msgs) as [[effs2|]|]; [|done..]. cbn [mbind cres_bind option_map].
  intros Hr. apply (inj Ok), (inj Some) in Hr as <-. apply Forall_app. split; [|by apply IH].
  clear -E. unfold response_effects in E. destruct (response_items buf) as [items|]; [|done]. cbn [mbind cres_bind] in E.
  destruct (mapC _ items) as [l|] eqn:El; [|done]. cbn [mbind cres_bind] in E. apply (inj Ok) in E as <-.
  revert l El. induction items as [|[kind item] items IH]; intros l; cbn [mapC]; [intros Hr; by apply (inj Ok) in Hr as <-|].
  destruct (item_effect config kind item) as [eff|] eqn:Ee; [|done]. cbn [mbind cres_bind].
  destruct (mapC _ items) as [rest|]; [|done]. cbn [mbind cres_bind]. intros Hr. apply (inj Ok) in Hr as <-.
  specialize (IH rest eq_refl). destruct eff as [eff|]; [|done]. constructor; [by eapply item_effect_canon|done].
Qed.

Lemma get_all_models live live' vs vs' msgs :
  fetch_replace config live vs msgs = Ok (true, vs', live') → ∃ m, ws_models (WState live' false) m.
Proof.
  intros Hg. destruct (resync_spec config _ _ _ _ _ _ Hg) as ([effs|] & He & Hr); [|by destruct Hr].
  destruct Hr as (_ & Hm & _). exists (effects_views effs ∅). split; [done|].
  apply (effects_canon effs ∅); [by eapply fetch_effects_canon|]. intros n v. by rewrite lookup_empty.
Qed.
End fetched.

(** ** What was received *)

(** The blocks of the transfer [i], in a row. *)
Definition received (i : nat) (ds : list (nat * bytes)) : bytes := mjoin (snd <$> filter (λ d, d.1 = i) ds).

(** The blocks up to the round in which no transfer runs any more. *)
Fixpoint fetched_data (rounds : list fetch_poll) : list (nat * bytes) :=
  match rounds with
  | [] => []
  | r :: rounds => fp_data r ++ if (fp_running r =? 0)%nat then [] else fetched_data rounds
  end.

(** The response to each request, [None] if nothing came. *)
Definition responses (rounds : list fetch_poll) : list (option bytes) :=
  (λ i, let b := received i (fetched_data rounds) in if decide (b = []) then None else Some b) <$> seq 0 NRESOURCES.

Lemma received_app i ds1 ds2 : received i (ds1 ++ ds2) = received i ds1 ++ received i ds2.
Proof. unfold received. by rewrite filter_app, fmap_app, join_app. Qed.

(** A buffer is a null pointer as long as it is empty. *)
Definition grown (b b' : option bytes) (new : bytes) : Prop :=
  default [] b' = default [] b ++ new ∧ (b' = Some [] → b = Some []).

Lemma grown_trans b1 b2 b3 n1 n2 : grown b1 b2 n1 → grown b2 b3 n2 → grown b1 b3 (n1 ++ n2).
Proof. intros [H1 H1'] [H2 H2']. split; [|auto]. by rewrite H2, H1, app_assoc. Qed.

Lemma fe_read_grown b data : grown b (fe_read b data) data.
Proof.
  unfold fe_read. destruct data as [|c data]; cbn [length Nat.eqb]; [split; [by rewrite app_nil_r|done]|].
  split; [done|]. intros H. apply (inj Some), app_eq_nil in H as [_ ?]. done.
Qed.

Lemma receive_all ds bufs bufs' i b :
  foldC receive ds bufs = Ok bufs' → bufs !! i = Some b →
  ∃ b', bufs' !! i = Some b' ∧ grown b b' (received i ds).
Proof.
  revert bufs b. induction ds as [|[j data] ds IH]; intros bufs b Hf Hb; cbn [foldC] in Hf.
  { apply (inj Ok) in Hf as <-. exists b. split; [done|]. split; [by rewrite app_nil_r|done]. }
  destruct (receive bufs (j, data)) as [bufs1|] eqn:E; [|done]. rewrite bind_ok in Hf. unfold receive in E. cbn [fst snd] in E.
  destruct (bufs !! j) as [bj|] eqn:Ej; [|done]. apply (inj Ok) in E as <-.
  change (received i ((j, data) :: ds)) with (received i ([(j, data)] ++ ds)). rewrite received_app.
  destruct (decide (j = i)) as [->|Hne].
  - assert (bj = b) as -> by congruence. destruct (IH _ (fe_read b data) Hf) as (b' & Hb' & Hg).
    { apply list_lookup_insert_eq. by eapply lookup_lt_Some. }
    exists b'. split; [done|]. refine (grown_trans _ _ _ _ _ _ Hg). unfold received.
    rewrite filter_cons_True by done. cbn. rewrite app_nil_r. apply fe_read_grown.
  - destruct (IH _ b Hf) as (b' & Hb' & Hg); [by rewrite list_lookup_insert_ne|]. exists b'. split; [done|].
    unfold received at 1. rewrite filter_cons_False by done. exact Hg.
Qed.

Lemma receive_length ds bufs bufs' : foldC receive ds bufs = Ok bufs' → length bufs' = length bufs.
Proof.
  apply (foldC_post (λ l, length l = length bufs)); [done|]. intros l d l' _ Hl. unfold receive.
  destruct (l !! d.1); [|done]. intros H. apply (inj Ok) in H as <-. by rewrite length_insert.
Qed.

Lemma fetch_rounds_received rounds bufs bufs' :
  fetch_rounds rounds bufs = Ok (FetchDone bufs') →
  length bufs' = length bufs ∧
  ∀ i b, bufs !! i = Some b → ∃ b', bufs' !! i = Some b' ∧ grown b b' (received i (fetched_data rounds)).
Proof.
  revert bufs. induction rounds as [|r rounds IH]; intros bufs; cbn [fetch_rounds fetched_data]; [done|].
  destruct (foldC receive (fp_data r) bufs) as [bufs1|] eqn:E; [|done]. rewrite bind_ok. pose proof (receive_length _ _ _ E) as Hl.
  destruct (negb (fp_perform r)); [done|]. destruct (fp_running r =? 0)%nat.
  { intros H. apply (inj Ok) in H. injection H as <-. split; [done|]. intros i b Hb. rewrite app_nil_r. by eapply receive_all. }
  intros H. assert (Hrest : fetch_rounds rounds bufs1 = Ok (FetchDone bufs')).
  { destruct (fp_timeout r =? 0)%Z; [done|]. by destruct (negb (fp_wait r)). }
  destruct (IH _ Hrest) as [Hl' Hr]. split; [congruence|]. intros i b Hb. destruct (receive_all _ _ _ _ _ E Hb) as (b1 & Hb1 & Hg1).
  destruct (Hr i b1 Hb1) as (b2 & Hb2 & Hg2). exists b2. split; [done|]. rewrite received_app. by eapply grown_trans.
Qed.

Lemma fetch_rounds_responses rounds bufs :
  fetch_rounds rounds (replicate NRESOURCES None) = Ok (FetchDone bufs) → bufs = responses rounds.
Proof.
  intros H. apply fetch_rounds_received in H as [Hl Hr]. rewrite length_replicate in Hl. apply list_eq. intros i.
  unfold responses. rewrite list_lookup_fmap. destruct (decide (i < NRESOURCES)%nat) as [Hi|Hi].
  - rewrite lookup_seq_lt by done. cbn [fmap option_fmap option_map Nat.add].
    destruct (Hr i None) as (b' & -> & Hd & Hn); [by apply lookup_replicate_2|]. cbn [default from_option] in Hd. cbv zeta.
    f_equal. destruct b' as [b'|]; cbn in Hd; rewrite <- Hd; [|by rewrite decide_True].
    rewrite decide_False; [done|]. intros ->. specialize (Hn eq_refl). done.
  - by rewrite lookup_seq_ge, lookup_ge_None_2 by lia.
Qed.

(** ** The thread *)

(** What the watcher relies on of its callback: it may add namespaces, but no
    objects. *)
Class KeepsObjects {D} (cb : cluster → cres (D * cluster)) : Prop :=
  keeps_objects cs m d cs' : ws_models (WState cs false) m → cb cs = Ok (d, cs') → up_to_date m (cs_config cs) cs'.

Section thread.
Context `{J : JsonC} (package_version : bytes) (config : k8s_config) {D : Type} (cb : cluster → cres (D * cluster)) `{!KeepsObjects cb}.
Implicit Types (wt : watcher D).

(** The callback built [d] from a cluster with the objects [m] and the
    configuration [cc]. *)
Definition built_from (m : gmap bytes ns_view) (cc : cluster_config) (d : D) : Prop :=
  ∃ cs cs', cb cs = Ok (d, cs') ∧ ws_models (WState cs false) m ∧ cs_config cs = cc.

(** What was built last, and what has changed since. *)
Definition watch_inv (st : watcher D * list slot) : Prop :=
  ∃ m cc d, wt_built st.1 = Some d ∧ built_from m cc d ∧ reported m cc st.

Lemma run_callback_inv wt slots m wt' :
  ws_models (WState (wt_cluster wt) false) m → run_callback (Some cb) wt = Ok wt' → watch_inv (wt', slots).
Proof.
  intros Hm. unfold run_callback. destruct (cb (wt_cluster wt)) as [[d cs']|] eqn:E; [|done]. cbn [mbind cres_bind].
  intros Hr. apply (inj Ok) in Hr as <-. exists m, (cs_config (wt_cluster wt)), d. split; [done|]. split; [by exists (wt_cluster wt), cs'|].
  destruct (keeps_objects _ _ _ _ Hm E) as (m' & Hm' & Hs & Hc). by exists m'.
Qed.

Lemma watch_round_inv deadline st r st' e :
  watch_inv st → watch_round config (Some cb) deadline st r = Ok (st', e) →
  watch_inv st' ∧ (e = None → rd_timeout r ≠ 0 → existsb sl_changed st'.2 = false).
Proof.
  intros (m & cc & d & Hd & Hb & Hr). unfold watch_round.
  destruct (foldC (deliver config) (rd_data r) st) as [[wt slots]|] eqn:E; [|done]. cbn [mbind cres_bind].
  destruct (delivers_reported config m cc _ _ _ Hr E) as [Hr' Hd'].
  assert (Hinv : watch_inv (wt, slots)) by (exists m, cc, d; split; [by rewrite <- Hd|done]).
  destruct (negb (rd_perform r)); [intros Hx; by apply (inj Ok), pair_eq in Hx as [<- <-]|].
  destruct (negb _); [intros Hx; by apply (inj Ok), pair_eq in Hx as [<- <-]|].
  destruct (Z.eqb_spec (rd_timeout r) 0); [intros Hx; by apply (inj Ok), pair_eq in Hx as [<- <-]|].
  destruct (negb (rd_wait r)); [intros Hx; by apply (inj Ok), pair_eq in Hx as [<- <-]|].
  destruct (deadline <=? rd_time r); [intros Hx; by apply (inj Ok), pair_eq in Hx as [<- <-]|].
  assert (Hclear : existsb sl_changed ((λ sl, Slot false (sl_buf sl)) <$> slots) = false) by (clear; by induction slots).
  destruct (existsb sl_changed slots) eqn:Ec.
  - destruct Hr' as (m' & Hm' & _). destruct (run_callback (Some cb) wt) as [wt'|] eqn:Ecb; [|done]. cbn [mbind cres_bind].
    intros Hx. apply (inj Ok), pair_eq in Hx as [<- _]. split; [by apply (run_callback_inv wt _ m')|done].
  - cbn [mbind cres_bind]. intros Hx. apply (inj Ok), pair_eq in Hx as [<- _]. split; [|done].
    exists m, cc, d. split; [by rewrite <- Hd|]. split; [done|]. destruct Hr' as (m' & Hm' & Hs). exists m'. split; [done|]. intros _. by apply Hs.
Qed.

Lemma watch_rounds_inv deadline rounds st st' e :
  watch_inv st → watch_rounds config (Some cb) deadline rounds st = Ok (st', e) →
  watch_inv st' ∧ (e = WatchRunning → ∀ r, last rounds = Some r → rd_timeout r ≠ 0 → existsb sl_changed st'.2 = false).
Proof.
  revert st. induction rounds as [|r rounds IH]; intros st Hinv; cbn [watch_rounds].
  { intros Hx. by apply (inj Ok), pair_eq in Hx as [<- _]. }
  destruct (watch_round config (Some cb) deadline st r) as [[st1 e1]|] eqn:E; [|done]. cbn [mbind cres_bind].
  destruct (watch_round_inv _ _ _ _ _ Hinv E) as [Hinv1 Hpoll].
  destruct e1 as [e1|].
  - intros Hx. apply (inj Ok), pair_eq in Hx as [<- <-]. split; [done|]. intros ->. exfalso.
    revert E. unfold watch_round. destruct (foldC _ _ _) as [[wt slots]|]; [|done]. cbn [mbind cres_bind].
    repeat case_match; try (intros Hx; apply (inj Ok), pair_eq in Hx as [_ ?]; done).
    all: match goal with |- mbind _ ?x = _ → _ => destruct x; [|done] end; cbn [mbind cres_bind]; intros Hx; by apply (inj Ok), pair_eq in Hx as [_ ?].
  - intros Hx. destruct (IH st1 Hinv1 Hx) as [Hinv' Hlast]. split; [done|]. intros He r' Hr' Ht.
    destruct rounds as [|r2 rounds]; [|by apply (Hlast He r')]. apply (inj Some) in Hr' as <-.
    cbn [watch_rounds] in Hx. apply (inj Ok), pair_eq in Hx as [<- _]. by apply Hpoll.
Qed.

(** A turn of the thread that got as far as its watch. *)
Lemma fetcher_get_all_inv multi curls rounds msgs wt wt' slots :
  fetcher_get_all package_version config (Some cb) multi curls rounds msgs wt = Ok (wt', Some true) → watch_inv (wt', slots).
Proof.
  unfold fetcher_get_all. destruct (negb multi); [intros Hx; by apply (inj Ok), pair_eq in Hx as [_ ?]|].
  destruct (make_all _ _ _) as [made|]; [|done]. cbn [mbind cres_bind].
  destruct (bool_decide _); [intros Hx; by apply (inj Ok), pair_eq in Hx as [_ ?]|].
  destruct (fetch_rounds _ _) as [[bufs| |]|]; cbn [mbind cres_bind]; [|intros Hx; by apply (inj Ok), pair_eq in Hx as [_ ?]..|done].
  destruct (fetch_replace config _ _ _) as [[[ok vs] cs]|] eqn:Eg; [|done]. cbn [mbind cres_bind].
  destruct ok; [|intros Hx; by apply (inj Ok), pair_eq in Hx as [_ ?]]. destruct (get_all_models config _ _ _ _ _ Eg) as [m Hm].
  destruct (run_callback (Some cb) _) as [wt1|] eqn:Ecb; [|done]. cbn [mbind cres_bind]. intros Hx. apply (inj Ok), pair_eq in Hx as [<- _].
  by apply (run_callback_inv (Watcher cs vs (wt_built wt)) slots m).
Qed.

Lemma watcher_turn_inv wt tu wt' r :
  watcher_turn package_version config (Some cb) wt tu = Ok (wt', Watching WatchRunning) → last (tu_rounds tu) = Some r → rd_timeout r ≠ 0 →
  ∃ m d, wt_built wt' = Some d ∧ built_from m (cs_config (wt_cluster wt')) d ∧ up_to_date m (cs_config (wt_cluster wt')) (wt_cluster wt').
Proof.
  intros Ht Hlast Hpoll. revert Ht. unfold watcher_turn.
  destruct (fetcher_get_all _ _ _ _ _ _ _ _) as [[wt1 [[|]|]]|] eqn:Eg; cbn [mbind cres_bind];
    [|intros Hx; by apply (inj Ok), pair_eq in Hx as [_ ?]..|done].
  apply (fetcher_get_all_inv _ _ _ _ _ _ (replicate NRESOURCES (Slot false None))) in Eg.
  unfold fetcher_watch. destruct (negb (tu_multi tu)); [cbn [mbind cres_bind]; intros Hx; by apply (inj Ok), pair_eq in Hx as [_ [=]]|].
  destruct (make_all _ _ _) as [made|]; [|done]. cbn [mbind cres_bind].
  destruct (bool_decide _); [cbn [mbind cres_bind]; intros Hx; by apply (inj Ok), pair_eq in Hx as [_ [=]]|].
  destruct (watch_rounds _ _ _ _ _) as [[[wt2 slots] e2]|] eqn:Er; [|done]. cbn [mbind cres_bind].
  intros Hx. apply (inj Ok), pair_eq in Hx as [<- He]. injection He as ->.
  destruct (watch_rounds_inv _ _ _ _ _ Eg Er) as [(m' & cc & d & Hd & Hb & m2 & Hm2 & Hs) Hflag].
  destruct (Hs (Hflag eq_refl r Hlast Hpoll)) as [Hs' Hc]. cbn [fst snd] in *. exists m', d. rewrite Hc. split; [done|]. split; [done|]. by exists m2.
Qed.
End thread.

(** ** The build as a callback

    Building the database looks namespaces up, which may add empty ones. *)
Section build.
Context `{P : Posix} `{SSL : OpenSSL}.

Definition touched (cs0 cs : cluster) : Prop :=
  ∃ names, cs = foldl (λ cs n, (cluster_get_namespace cs n).1) cs0 names.

Lemma touched_refl cs : touched cs cs.
Proof. by exists []. Qed.

Lemma touched_get cs0 cs n : touched cs0 cs → touched cs0 (cluster_get_namespace cs n).1.
Proof. intros [names ->]. exists (names ++ [n]). by rewrite foldl_snoc. Qed.

Lemma touched_models cs0 cs m : touched cs0 cs → ws_models (WState cs0 false) m → up_to_date m (cs_config cs0) cs.
Proof.
  intros [names ->] Hm. induction names as [|n names IH] using rev_ind; [by exists m|]. rewrite foldl_snoc.
  destruct IH as (m1 & [Hc Hcan] & Hs & Hcc). exists (view_touch m1 n). split; [|split].
  - split; [by apply cluster_get_namespace_models|by apply canon_touch].
  - etransitivity; [done|apply same_objects_touch].
  - by rewrite get_namespace_config.
Qed.

Lemma attach_default_tls_touched cs0 rh cs host cs' rh' :
  touched cs0 cs → remap_host_attach_default_tls rh cs host = Ok (cs', rh') → touched cs0 cs'.
Proof.
  intros Ht. unfold remap_host_attach_default_tls. destruct (cluster_get_cert_for_hostname cs host) as [crt|].
  2:{ intros Hr. by apply (inj Ok), pair_eq in Hr as [<- _]. }
  pose proof (touched_get _ _ (cr_namespace crt) Ht) as Ht'. destruct (cluster_get_namespace cs _) as [cs1 ns].
  destruct (namespace_get_secret _ _) as [s|]; [|intros Hr; by apply (inj Ok), pair_eq in Hr as [<- _]].
  destruct (secret_make_ssl_ctx s); [|done]. cbn [mbind cres_bind]. intros Hr. by apply (inj Ok), pair_eq in Hr as [<- _].
Qed.

Lemma build_rule_touched cs0 ns ing st rule st' :
  touched cs0 st.2 → build_ingress_rule ns ing st rule = Ok st' → touched cs0 st'.2.
Proof.
  destruct st as [db cs]. cbn [snd]. intros Ht. unfold build_ingress_rule.
  destruct (ir_host rule) as [host|]; [|intros Hr; by apply (inj Ok) in Hr as <-].
  destruct (negb _); [intros Hr; by apply (inj Ok) in Hr as <-|].
  destruct (remap_db_get_or_create_host db host) as [db1 rh].
  destruct (remap_host_attach_default_tls rh cs host) as [[cs1 rh1]|] eqn:E; [|done]. cbn [mbind cres_bind].
  destruct (foldC _ _ rh1); [|done]. cbn [mbind cres_bind]. intros Hr. apply (inj Ok) in Hr as <-. by eapply attach_default_tls_touched.
Qed.

Lemma build_tls_same ns st t st' : build_ingress_tls ns st t = Ok st' → st'.2 = st.2.
Proof.
  destruct st as [db cs]. unfold build_ingress_tls. destruct (deref _); [|done]. cbn [mbind cres_bind].
  destruct (namespace_get_secret _ _); [|intros Hr; by apply (inj Ok) in Hr as <-].
  destruct (tls_hosts _ _ _ _ _); [|done]. cbn [mbind cres_bind]. intros Hr. by apply (inj Ok) in Hr as <-.
Qed.

Lemma build_ingress_touched cs0 ns st ing st' : touched cs0 st.2 → build_ingress ns st ing = Ok st' → touched cs0 st'.2.
Proof.
  intros Ht. unfold build_ingress. destruct (negb _); [intros Hr; by apply (inj Ok) in Hr as <-|].
  destruct (foldC (build_ingress_rule ns ing) _ st) as [st1|] eqn:E1; [|done]. cbn [mbind cres_bind].
  apply (foldC_post (λ s, touched cs0 s.2)) in E1; [|done|intros b r b' _; apply build_rule_touched].
  apply (foldC_post (λ s, touched cs0 s.2)); [done|]. intros b t b' _ Hb Hr. by rewrite (build_tls_same _ _ _ _ Hr).
Qed.

Lemma build_namespaces_touched cs0 fuel st it st' :
  touched cs0 st.2 → build_namespaces fuel st it = Ok st' → touched cs0 st'.2.
Proof.
  revert st it. induction fuel as [|fuel IH]; intros st it Ht; [done|]. cbn [build_namespaces].
  destruct (hash_iterate _ _) as [[b|] it']; [|intros Hr; by apply (inj Ok) in Hr as <-].
  destruct (build_namespace st (hb_value b)) as [st1|] eqn:E; [|done]. cbn [mbind cres_bind]. apply IH.
  revert E. apply (foldC_post (λ s, touched cs0 s.2)); [done|]. intros s ing s' _. apply build_ingress_touched.
Qed.

#[global] Instance build_keeps_objects (cfg : k8s_config) : KeepsObjects (remap_db_from_cluster cfg).
Proof.
  intros cs m db cs' Hm. unfold remap_db_from_cluster.
  destruct (build_namespaces _ _ _) as [[db1 cs1]|] eqn:E; [|done]. cbn [mbind cres_bind].
  intros Hr. apply (inj Ok), pair_eq in Hr as [_ <-]. apply (build_namespaces_touched cs) in E; [|apply touched_refl].
  by apply touched_models.
Qed.
End build.

(** The database of a thread whose watch waits. *)
Lemma watcher_thread_built `{JsonC} `{Posix} `{OpenSSL} version config turns tu r (wt0 wt : watcher remap_db) :
  watcher_thread version config (Some (remap_db_from_cluster config)) turns tu wt0 = Ok (wt, Watching WatchRunning) →
  last (tu_rounds tu) = Some r → rd_timeout r ≠ 0 →
  ∃ db cs cs' m m', wt_built wt = Some db ∧ remap_db_from_cluster config cs = Ok (db, cs') ∧
    cluster_models cs m ∧ cluster_models (wt_cluster wt) m' ∧ same_objects m m' ∧ cs_config (wt_cluster wt) = cs_config cs.
Proof.
  unfold watcher_thread. destruct (foldC _ turns wt0) as [wt1|]; [|done]. cbn [mbind cres_bind]. intros Ht Hl Hp.
  destruct (watcher_turn_inv version config (remap_db_from_cluster config) wt1 tu wt r Ht Hl Hp)
    as (m & db & Hd & (cs & cs' & Hb & [Hm _] & Hc) & (m' & [Hm' _] & Hs & _)).
  exists db, cs, cs', m, m'. by rewrite Hc.
Qed.

(** * Properties *)

(** C14. A full fetch, however libcurl cuts the responses into blocks and however
    often it is called: when it succeeds, the namespaces of the cluster are
    replaced by exactly the objects of the responses of the transfers that
    finished, in the order they are reported, whatever was there before, the
    ConfigMap of the plugin is applied, if it is listed, and the callback is
    run on the result; when it fails or goes on, the namespaces and what was
    built stay as they were. *)
Theorem resync_refines `{JsonC} (version : bytes) (config : k8s_config) {D : Type} (cb : option (cluster → cres (D * cluster)))
    (multi : bool) (curls : list bool) (rounds : list fetch_poll) (msgs : list curl_msg) (wt wt' : watcher D) (r : option bool) :
  fetcher_get_all version config cb multi curls rounds msgs wt = Ok (wt', r) →
  match r with
  | Some true => ∃ cs vs effs, fetch_effects config (finished (responses rounds) msgs) = Ok (Some effs) ∧
      cluster_models cs (effects_views effs ∅) ∧ cs_config cs = effects_config effs (cs_config (wt_cluster wt)) ∧
      run_callback cb (Watcher cs vs (wt_built wt)) = Ok wt'
  | _ => cs_namespaces (wt_cluster wt') = cs_namespaces (wt_cluster wt) ∧ wt_built wt' = wt_built wt
  end.
Proof.
  unfold fetcher_get_all. destruct (negb multi); [intros Hx; by apply (inj Ok), pair_eq in Hx as [<- <-]|].
  destruct (make_all _ _ _) as [made|]; [|done]. rewrite bind_ok.
  destruct (bool_decide _); [intros Hx; by apply (inj Ok), pair_eq in Hx as [<- <-]|].
  destruct (fetch_rounds _ _) as [[bufs| |]|] eqn:Ef; [|intros Hx; by apply (inj Ok), pair_eq in Hx as [<- <-]..|done].
  apply fetch_rounds_responses in Ef as ->. rewrite bind_ok.
  destruct (fetch_replace config _ _ _) as [[[ok vs] cs]|] eqn:Eg; [|done]. rewrite bind_ok.
  destruct (resync_spec config _ _ _ _ _ _ Eg) as ([effs|] & He & Hr); destruct Hr as [-> Hr].
  - destruct (run_callback cb _) as [wt1|] eqn:Ecb; [|done]. rewrite bind_ok. intros Hx. apply (inj Ok), pair_eq in Hx as [<- <-].
    destruct Hr as [Hm Hc]. by exists cs, vs, effs.
  - intros Hx. by apply (inj Ok), pair_eq in Hx as [<- <-].
Qed.

(** C12. The database follows the cluster: whatever the thread did before, once
    its full fetch succeeded and as long as its watch runs, after every round
    that was waited for, the database is one that was built from a cluster
    with exactly the objects and the configuration the watcher has now; no
    change that was received is left out. *)
Theorem watcher_up_to_date `{JsonC} `{Posix} `{OpenSSL} (version : bytes) (config : k8s_config) (turns : list turn) (tu : turn) (r : poll)
    (wt0 wt : watcher remap_db) :
  watcher_thread version config (Some (remap_db_from_cluster config)) turns tu wt0 = Ok (wt, Watching WatchRunning) →
  last (tu_rounds tu) = Some r → rd_timeout r ≠ 0 →
  ∃ db cs cs' m m', wt_built wt = Some db ∧ remap_db_from_cluster config cs = Ok (db, cs') ∧
    cluster_models cs m ∧ cluster_models (wt_cluster wt) m' ∧ same_objects m m' ∧ cs_config (wt_cluster wt) = cs_config cs.
Proof.
  apply watcher_thread_built.
Qed.

(** * Examples *)
Module Examples.
#[local] Existing Instance posix_literal.
#[local] Existing Instance openssl_list.
Import Watcher.Examples.
#[local] Existing Instance two_texts.

Definition ex_config : k8s_config := set_co_server k8s_config_new (Some (lit "http://api")).
Definition ex_resources : list resource := (λ res, Resource (res_url res) (Some (lit "1"))) <$> resources.
Definition ex_round (running : nat) : poll := Poll [(1%nat, lit "eve"); (1%nat, lit "nt" ++ [newline])] true running 1000 true 10.
Definition ex_curls : list bool := [true; true; true; true; true].
Definition ex_fetch : list fetch_poll :=
  [FetchPoll [(0%nat, lit "oth")] true 5 0 true; FetchPoll [(0%nat, lit "er")] true 0 1000 true].
Definition ex_turn (running : nat) : turn :=
  Turn true ex_curls ex_fetch [CurlMsg true 0 true] 0 true ex_curls [ex_round running].

Lemma watcher_up_to_date_witness :
  ∃ wt db cs cs', watcher_thread (lit "1.0") ex_config (Some (remap_db_from_cluster ex_config)) [] (ex_turn 5) (Watcher cluster_make ex_resources None)
      = Ok (wt, Watching WatchRunning) ∧ wt_built wt = Some db ∧ remap_db_from_cluster ex_config cs = Ok (db, cs').
Proof.
  assert (Hr : match watcher_thread (lit "1.0") ex_config (Some (remap_db_from_cluster ex_config)) [] (ex_turn 5) (Watcher cluster_make ex_resources None) with
               | Ok (_, Watching WatchRunning) => true | _ => false end = true) by (vm_compute; reflexivity).
  destruct (watcher_thread _ _ _ _ _) as [[wt [| |[| |]]]|] eqn:E; try discriminate Hr.
  destruct (watcher_up_to_date (lit "1.0") ex_config [] (ex_turn 5) (ex_round 5) _ wt E) as (db & cs & cs' & m & m' & Hd & Hb & _); [reflexivity|by compute_done|].
  exists wt, db, cs, cs'. split; [reflexivity|]. split; [exact Hd|exact Hb].
Defined.

Definition list_fetch : list fetch_poll :=
  [FetchPoll [(1%nat, lit "li")] true 5 0 true; FetchPoll [(1%nat, lit "st")] true 0 1000 true].

Lemma resync_refines_witness :
  ∃ wt, fetcher_get_all (lit "1.0") ex_config (None : option (cluster → cres (unit * cluster))) true ex_curls list_fetch [CurlMsg true 1 true]
      (Watcher cluster_make ex_resources None) = Ok (wt, Some true) ∧
    ∃ effs, fetch_effects ex_config [(1%nat, Some (Some (lit "list")))] = Ok (Some effs) ∧ length effs = 1%nat ∧
      cluster_models (wt_cluster wt) (effects_views effs ∅).
Proof.
  destruct (fetcher_get_all (lit "1.0") ex_config (None : option (cluster → cres (unit * cluster))) true ex_curls list_fetch [CurlMsg true 1 true]
      (Watcher cluster_make ex_resources None)) as [[wt r]|] eqn:E; [|discriminate E].
  assert (r = Some true) as -> by (apply (f_equal (λ x, match x with Ok (_, r) => r | _ => None end)) in E; vm_compute in E; by symmetry).
  destruct (resync_refines (lit "1.0") ex_config None true ex_curls list_fetch [CurlMsg true 1 true] _ wt (Some true) E)
    as (cs & vs & effs & Hf & Hm & _ & Hc). exists wt. split; [done|]. exists effs. split; [exact Hf|].
  assert (Hl : option_map length (match fetch_effects ex_config (finished (responses list_fetch) [CurlMsg true 1 true]) with Ok (Some l) => Some l | _ => None end) = Some 1%nat)
    by (vm_compute; reflexivity).
  rewrite Hf in Hl. split; [by injection Hl|]. cbn in Hc. by injection Hc as <-.
Defined.

(** A change that arrives in the round in which a watch ends is not reported,
    and stays unreported as long as the full fetch that follows fails: with a
    callback that keeps the cluster it was given, the Endpoints of the event are
    in the cluster of the watcher and not in what was built. *)
Definition knows_web (cs : cluster) : bool :=
  bool_decide (is_Some (namespace_get_endpoints (cluster_get_namespace cs (lit "default")).2 (lit "web"))).

Example late_change :
  match watcher_thread (lit "1.0") ex_config (Some (λ cs, Ok (cs, cs))) [ex_turn 4] (Turn true ex_curls ex_fetch [CurlMsg true 0 false] 0 true [] []) (Watcher cluster_make ex_resources None) with
  | Ok (wt, FetchFailed) => knows_web (wt_cluster wt) = true ∧ knows_web <$> wt_built wt = Some false
  | _ => False
  end.
Proof. vm_compute. split; reflexivity. Qed.
End Examples.
