(* ===== verification/TsMime.v ===== *)
(** Traffic Server's calls on the fields of a message header, as an interface.

    A header is a value of [mhdr], a field a handle of [mloc] into it; every
    call is an operation of the class [TsMime] and the documented behaviour of
    the calls is the class [TsMimeLaws].  Clients reason about a header through
    [named h n]: the values of each of its fields of the name [n], in order. *)

From S2P Require Import Prelude CString.

Local Open Scope Z_scope.

(** * The calls *)
Class TsMime := {
  mhdr : Type;
  mloc : Type;
  mloc_eq_dec : EqDecision mloc;
  TSMimeHdrFieldsCount : mhdr → nat;
  TSMimeHdrFieldGet : mhdr → nat → option mloc;
  TSMimeHdrFieldFind : mhdr → bytes → option mloc;
  TSMimeHdrFieldNameGet : mhdr → mloc → bytes;
  TSMimeHdrFieldValuesCount : mhdr → mloc → nat;
  TSMimeHdrFieldValueStringGet : mhdr → mloc → nat → option bytes;
  (* [None] when the call does not return TS_SUCCESS *)
  TSMimeHdrFieldCreateNamed : mhdr → bytes → option (mhdr * mloc);
  TSMimeHdrFieldValuesClear : mhdr → mloc → mhdr;
  TSMimeHdrFieldValueStringSet : mhdr → mloc → Z → bytes → mhdr;
  TSMimeHdrFieldValueStringInsert : mhdr → mloc → Z → bytes → mhdr;
  TSMimeHdrFieldAppend : mhdr → mloc → mhdr;
  TSMimeHdrFieldRemove : mhdr → mloc → mhdr;
  TSMimeHdrFieldDestroy : mhdr → mloc → mhdr;
  (* how the text of a field is divided into values *)
  field_split : bytes → list bytes;
}.
#[global] Existing Instance mloc_eq_dec.

Section view.
Context `{M : TsMime}.
Implicit Types (h : mhdr) (l : mloc) (n : bytes).

(** The fields of a header, and the values of a field. *)
Definition hdr_fields h : list mloc := omap (TSMimeHdrFieldGet h) (seq 0 (TSMimeHdrFieldsCount h)).
Definition field_values h l : list bytes :=
  omap (TSMimeHdrFieldValueStringGet h l) (seq 0 (TSMimeHdrFieldValuesCount h l)).

(** Names of fields are compared without case. *)
Definition same_name (a b : bytes) : Prop := tolower <$> a = tolower <$> b.
#[global] Instance same_name_dec a b : Decision (same_name a b).
Proof. unfold same_name. apply _. Defined.

Definition has_name h n l : Prop := same_name (TSMimeHdrFieldNameGet h l) n.
#[global] Instance has_name_dec h n l : Decision (has_name h n l).
Proof. unfold has_name. apply _. Defined.

Definition named h n : list (list bytes) := field_values h <$> filter (has_name h n) (hdr_fields h).

(** What a call leaves alone: the name and the values of a field. *)
Definition same_field h h' l : Prop :=
  TSMimeHdrFieldNameGet h' l = TSMimeHdrFieldNameGet h l ∧ field_values h' l = field_values h l.
End view.

(** * Their documented behaviour *)
Class TsMimeLaws `{TsMime} := {
  hdr_fields_nodup h : NoDup (hdr_fields h);
  mime_get h i l : TSMimeHdrFieldGet h i = Some l ↔ hdr_fields h !! i = Some l;
  mime_fields_count h : TSMimeHdrFieldsCount h = length (hdr_fields h);
  mime_value_get h l i : TSMimeHdrFieldValueStringGet h l i = field_values h l !! i;
  mime_values_count h l : TSMimeHdrFieldValuesCount h l = length (field_values h l);
  mime_find h n : TSMimeHdrFieldFind h n = head (filter (has_name h n) (hdr_fields h));
  mime_create h n h' l : TSMimeHdrFieldCreateNamed h n = Some (h', l) →
    l ∉ hdr_fields h ∧ hdr_fields h' = hdr_fields h ∧ TSMimeHdrFieldNameGet h' l = n ∧ field_values h' l = [] ∧
    ∀ k, k ∈ hdr_fields h → same_field h h' k;
  mime_append h l : let h' := TSMimeHdrFieldAppend h l in
    hdr_fields h' = (if decide (l ∈ hdr_fields h) then hdr_fields h else hdr_fields h ++ [l]) ∧ ∀ k, same_field h h' k;
  mime_remove h l : let h' := TSMimeHdrFieldRemove h l in
    hdr_fields h' = filter (.≠ l) (hdr_fields h) ∧ ∀ k, same_field h h' k;
  mime_destroy h l : let h' := TSMimeHdrFieldDestroy h l in
    hdr_fields h' = filter (.≠ l) (hdr_fields h) ∧ ∀ k, k ≠ l → same_field h h' k;
  (* the values of a field change, and nothing else: the index -1 stands for
     all values in [Set] and for the end in [Insert] *)
  mime_clear h l : let h' := TSMimeHdrFieldValuesClear h l in
    hdr_fields h' = hdr_fields h ∧ (∀ k, k ≠ l → same_field h h' k) ∧
    TSMimeHdrFieldNameGet h' l = TSMimeHdrFieldNameGet h l ∧ field_values h' l = [];
  mime_set h l v : let h' := TSMimeHdrFieldValueStringSet h l (-1) v in
    hdr_fields h' = hdr_fields h ∧ (∀ k, k ≠ l → same_field h h' k) ∧
    TSMimeHdrFieldNameGet h' l = TSMimeHdrFieldNameGet h l ∧ field_values h' l = field_split v;
  mime_insert h l i v : i = 0 ∨ i = -1 → let h' := TSMimeHdrFieldValueStringInsert h l i v in
    hdr_fields h' = hdr_fields h ∧ (∀ k, k ≠ l → same_field h h' k) ∧
    TSMimeHdrFieldNameGet h' l = TSMimeHdrFieldNameGet h l ∧
    field_values h' l = if i =? 0 then field_split v ++ field_values h l else field_values h l ++ field_split v;
  mime_split_value h l v : v ∈ field_values h l → field_split v = [v];
}.

(** * Lemmas *)
#[global] Instance same_name_equiv : Equivalence same_name.
Proof. unfold same_name. split; [by intros ?|by intros ??|intros ???; apply transitivity]. Qed.

Lemma filter_all_id {A} (P : A → Prop) `{∀ x, Decision (P x)} (l : list A) : (∀ x, x ∈ l → P x) → filter P l = l.
Proof.
  induction l as [|x l IH]; intros Hl; [done|]. rewrite filter_cons_True by (apply Hl; by left). f_equal.
  apply IH. intros y Hy. apply Hl. by right.
Qed.

Lemma filter_comm {A} (P Q : A → Prop) `{∀ x, Decision (P x)} `{∀ x, Decision (Q x)} (l : list A) :
  filter P (filter Q l) = filter Q (filter P l).
Proof. rewrite !list_filter_filter. apply list_filter_iff. naive_solver. Qed.

Lemma filter_ext_in {A} (P Q : A → Prop) `{∀ x, Decision (P x)} `{∀ x, Decision (Q x)} (l : list A) :
  (∀ x, x ∈ l → P x ↔ Q x) → filter P l = filter Q l.
Proof.
  induction l as [|x l IH]; intros Hl; [done|]. rewrite !filter_cons, IH by (intros y Hy; apply Hl; by right).
  assert (Hx : P x ↔ Q x) by (apply Hl; by left). by repeat case_decide; naive_solver.
Qed.

Section lemmas.
Context `{ML : TsMimeLaws}.
Implicit Types (h : mhdr) (l : mloc) (n : bytes).

Lemma has_name_iff h l a b : same_name a b → has_name h a l ↔ has_name h b l.
Proof. unfold has_name. intros Hab. by split; intros ->. Qed.

#[global] Instance named_proper h : Proper (same_name ==> eq) (named h).
Proof. intros a b Hab. unfold named. f_equal. apply list_filter_iff. intros l. by apply has_name_iff. Qed.

Lemma has_name_eq h l a b : has_name h a l → has_name h b l → same_name b a.
Proof. unfold has_name. intros <- <-. reflexivity. Qed.

(** ** Finding a field *)
Lemma find_named_None h n : TSMimeHdrFieldFind h n = None ↔ named h n = [].
Proof. rewrite mime_find. unfold named. by destruct (filter _ _). Qed.

Lemma find_named_Some h n l :
  TSMimeHdrFieldFind h n = Some l → named h n = field_values h l :: tail (named h n) ∧ l ∈ hdr_fields h ∧ has_name h n l.
Proof.
  rewrite mime_find. unfold named. destruct (filter _ _) as [|k ks] eqn:E; [done|]. intros [= ->].
  split; [done|]. apply and_comm. rewrite <- list_elem_of_filter, E. by left.
Qed.

Lemma find_filter h n l : TSMimeHdrFieldFind h n = Some l →
  ∃ ls, filter (has_name h n) (hdr_fields h) = l :: ls ∧ l ∉ ls.
Proof.
  rewrite mime_find. destruct (filter _ _) as [|k ks] eqn:E; [done|]. intros [= ->]. exists ks. split; [done|].
  pose proof (NoDup_filter (has_name h n) _ (hdr_fields_nodup h)) as Hnd. rewrite E in Hnd. by inversion Hnd.
Qed.

(** ** What the calls do to the values of every name *)
Lemma named_same h h' n :
  hdr_fields h' = hdr_fields h → (∀ k, k ∈ hdr_fields h → same_field h h' k) → named h' n = named h n.
Proof.
  intros Hf Hk. unfold named. rewrite Hf.
  rewrite (filter_ext_in (has_name h' n) (has_name h n)) by (intros k Hin; unfold has_name; by rewrite (proj1 (Hk k Hin))).
  apply list_fmap_ext. intros i k Hi. apply list_elem_of_lookup_2, list_elem_of_filter in Hi as [_ Hin]. apply (Hk k Hin).
Qed.

(** The values of the first field of a name change. *)
Lemma named_update h h' l n m :
  TSMimeHdrFieldFind h n = Some l → hdr_fields h' = hdr_fields h → (∀ k, k ≠ l → same_field h h' k) →
  TSMimeHdrFieldNameGet h' l = TSMimeHdrFieldNameGet h l →
  named h' m = if decide (same_name m n) then field_values h' l :: tail (named h m) else named h m.
Proof.
  intros Hl Hf Hk Hn. destruct (find_named_Some h n l Hl) as (_ & _ & Hname).
  assert (Hsame : ∀ k, has_name h' m k ↔ has_name h m k).
  { intros k. unfold has_name. destruct (decide (k = l)) as [->|Hne]; [by rewrite Hn|by rewrite (proj1 (Hk k Hne))]. }
  unfold named at 1. rewrite Hf, (list_filter_iff _ _ _ Hsame).
  assert (Hother : ∀ ls : list mloc, l ∉ ls → field_values h' <$> ls = field_values h <$> ls).
  { intros ls Hls. apply list_fmap_ext. intros i k Hi. apply Hk. intros ->. apply Hls. by eapply list_elem_of_lookup_2. }
  case_decide as Hm.
  - destruct (find_filter h n l Hl) as (ls & Hls & Hnin). unfold named.
    rewrite (list_filter_iff (has_name h m) (has_name h n)) by (intros k; by apply has_name_iff).
    rewrite Hls. cbn [fmap list_fmap tail]. f_equal. by apply Hother.
  - apply Hother. rewrite list_elem_of_filter. intros [Hm' _]. apply Hm. by eapply has_name_eq.
Qed.

(** The first field of a name is taken out. *)
Lemma named_delete h h' l n m :
  TSMimeHdrFieldFind h n = Some l → hdr_fields h' = filter (.≠ l) (hdr_fields h) → (∀ k, k ≠ l → same_field h h' k) →
  named h' m = if decide (same_name m n) then tail (named h m) else named h m.
Proof.
  intros Hl Hf Hk. destruct (find_named_Some h n l Hl) as (_ & _ & Hname).
  assert (Hv : named h' m = field_values h <$> filter (.≠ l) (filter (has_name h m) (hdr_fields h))).
  { unfold named. rewrite Hf.
    rewrite (filter_ext_in (has_name h' m) (has_name h m)), filter_comm.
    - apply list_fmap_ext. intros i k Hi. apply list_elem_of_lookup_2, list_elem_of_filter in Hi as [Hne _].
      by apply Hk. 
    - intros k [Hne _]%list_elem_of_filter. unfold has_name. by rewrite (proj1 (Hk k Hne)). }
  rewrite Hv. case_decide as Hm.
  - destruct (find_filter h n l Hl) as (ls & Hls & Hnin). unfold named.
    rewrite (list_filter_iff (has_name h m) (has_name h n)) by (intros k; by apply has_name_iff).
    rewrite Hls, filter_cons_False by naive_solver. cbn [fmap list_fmap tail]. f_equal.
    apply filter_all_id. intros k Hk' ->. done.
  - unfold named. f_equal. apply filter_all_id. intros k [Hn' _]%list_elem_of_filter ->. apply Hm. by eapply has_name_eq.
Qed.

(** A field is added at the end. *)
Lemma named_add h h' l n m :
  hdr_fields h' = hdr_fields h ++ [l] → TSMimeHdrFieldNameGet h' l = n → (∀ k, k ∈ hdr_fields h → same_field h h' k) →
  named h' m = named h m ++ if decide (same_name m n) then [field_values h' l] else [].
Proof.
  intros Hf Hn Hk. unfold named. rewrite Hf, filter_app, fmap_app. f_equal.
  - rewrite (filter_ext_in (has_name h' m) (has_name h m)) by (intros k Hin; unfold has_name; by rewrite (proj1 (Hk k Hin))).
    apply list_fmap_ext. intros i k Hi. apply list_elem_of_lookup_2, list_elem_of_filter in Hi as [_ Hin]. apply (Hk k Hin).
  - rewrite filter_cons, filter_nil. subst n.
    by case_decide; case_decide.
Qed.
End lemmas.

(** * A concrete header *)

(** Fields by number, with their names and texts. *)
Record mime := Mime { mm_live : list nat; mm_field : gmap nat (bytes * list bytes) }.

Definition comma_split (v : bytes) : list bytes := split (lit ",") v.
Definition mm_name (h : mime) (l : nat) : bytes := default [] (fst <$> mm_field h !! l).
Definition mm_texts (h : mime) (l : nat) : list bytes := default [] (snd <$> mm_field h !! l).
Definition mm_values (h : mime) (l : nat) : list bytes := concat (comma_split <$> mm_texts h l).
Definition mm_fields (h : mime) : list nat := remove_dups (mm_live h).
Definition mm_set (h : mime) (l : nat) (texts : list bytes) : mime := Mime (mm_live h) (<[l := (mm_name h l, texts)]> (mm_field h)).
Definition mm_without (h : mime) (l : nat) : mime := Mime (filter (.≠ l) (mm_live h)) (mm_field h).
Definition mm_with (h : mime) (l : nat) : mime := if decide (l ∈ mm_live h) then h else Mime (mm_live h ++ [l]) (mm_field h).
Definition mm_new (h : mime) : nat := S (sum_list (mm_live h)).

#[local] Instance mime_list : TsMime := {|
  mhdr := mime;
  mloc := nat;
  mloc_eq_dec := Nat.eq_dec;
  TSMimeHdrFieldsCount h := length (mm_fields h);
  TSMimeHdrFieldGet h i := mm_fields h !! i;
  TSMimeHdrFieldFind h n := head (filter (λ l, same_name (mm_name h l) n) (mm_fields h));
  TSMimeHdrFieldNameGet := mm_name;
  TSMimeHdrFieldValuesCount h l := length (mm_values h l);
  TSMimeHdrFieldValueStringGet h l i := mm_values h l !! i;
  TSMimeHdrFieldCreateNamed h n := Some (Mime (mm_live h) (<[mm_new h := (n, [])]> (mm_field h)), mm_new h);
  TSMimeHdrFieldValuesClear h l := mm_set h l [];
  TSMimeHdrFieldValueStringSet h l i v := mm_set h l [v];
  TSMimeHdrFieldValueStringInsert h l i v := mm_set h l (if i =? 0 then v :: mm_texts h l else mm_texts h l ++ [v]);
  TSMimeHdrFieldAppend := mm_with;
  TSMimeHdrFieldRemove := mm_without;
  TSMimeHdrFieldDestroy := mm_without;
  field_split := comma_split;
|}.

Lemma omap_lookup_seq {A} (l : list A) : omap (λ i, l !! i) (seq 0 (length l)) = l.
Proof.
  induction l as [|x l IH]; [done|]. cbn [length seq omap list_omap lookup list_lookup].
  assert (Hs : ∀ n k, omap (λ i, (x :: l) !! i) (seq (S k) n) = omap (λ i, l !! i) (seq k n)).
  { induction n as [|n IHn]; intros k; [done|]. cbn [seq omap list_omap]. change ((x :: l) !! S k) with (l !! k).
    destruct (l !! k); [f_equal|]; apply IHn. }
  f_equal. by rewrite Hs.
Qed.

Lemma mm_fields_view (h : mime) : hdr_fields h = mm_fields h.
Proof. apply omap_lookup_seq. Qed.
Lemma mm_values_view (h : mime) l : field_values h l = mm_values h l.
Proof. apply omap_lookup_seq. Qed.

Lemma mm_new_fresh h : mm_new h ∉ mm_fields h.
Proof.
  unfold mm_fields, mm_new. rewrite elem_of_remove_dups. assert (Hs : ∀ l x, x ∈ l → (x ≤ sum_list l)%nat).
  { induction 1; simpl in *; lia. }
  intros Hin. apply Hs in Hin. lia.
Qed.

Lemma remove_dups_filter {A} `{EqDecision A} (P : A → Prop) `{∀ x, Decision (P x)} (l : list A) :
  remove_dups (filter P l) = filter P (remove_dups l).
Proof.
  induction l as [|x l IH]; [done|]. rewrite filter_cons. cbn [remove_dups].
  destruct (decide (P x)) as [Hp|Hp]; cbn [remove_dups].
  - destruct (decide_rel elem_of x (filter P l)) as [Hx|Hx], (decide_rel elem_of x l) as [Hy|Hy];
      rewrite ?list_elem_of_filter in Hx; try naive_solver. by rewrite filter_cons_True, IH.
  - destruct (decide_rel elem_of x l); [done|]. by rewrite filter_cons_False, IH.
Qed.

Lemma remove_dups_snoc {A} `{EqDecision A} (l : list A) x : x ∉ l → remove_dups (l ++ [x]) = remove_dups l ++ [x].
Proof.
  induction l as [|y l IH]; intros Hx; [done|]. apply not_elem_of_cons in Hx as [Hne Hx]. cbn [app remove_dups].
  rewrite IH by done. destruct (decide_rel elem_of y (l ++ [x])) as [Hy|Hy], (decide_rel elem_of y l) as [Hz|Hz]; try done;
    rewrite elem_of_app, list_elem_of_singleton in Hy; naive_solver.
Qed.

Lemma mm_set_other h l texts k : k ≠ l → mm_name (mm_set h l texts) k = mm_name h k ∧ mm_values (mm_set h l texts) k = mm_values h k.
Proof. intros Hk. unfold mm_values, mm_name, mm_texts, mm_set. cbn [mm_field]. by rewrite lookup_insert_ne. Qed.
Lemma mm_set_self h l texts : mm_name (mm_set h l texts) l = mm_name h l ∧ mm_texts (mm_set h l texts) l = texts.
Proof. unfold mm_name, mm_texts, mm_set. cbn [mm_field]. by rewrite lookup_insert_eq. Qed.

#[local] Instance mime_list_laws : TsMimeLaws.
Proof.
  assert (Hset : ∀ h l texts vs, concat (comma_split <$> texts) = vs →
    let h' := mm_set h l texts in hdr_fields h' = hdr_fields h ∧ (∀ k, k ≠ l → same_field h h' k) ∧
    TSMimeHdrFieldNameGet h' l = TSMimeHdrFieldNameGet h l ∧ field_values h' l = vs).
  { intros h l texts vs Hvs h'. rewrite !mm_fields_view, mm_values_view. split; [done|]. split.
    - intros k Hk. unfold same_field. rewrite !mm_values_view. by apply mm_set_other.
    - destruct (mm_set_self h l texts) as [Hn Ht]. split; [exact Hn|]. unfold mm_values, h'. by rewrite Ht. }
  split.
  - intros h. rewrite mm_fields_view. apply NoDup_remove_dups.
  - intros h i l. by rewrite mm_fields_view.
  - intros h. by rewrite mm_fields_view.
  - intros h l i. by rewrite mm_values_view.
  - intros h l. by rewrite mm_values_view.
  - intros h n. rewrite mm_fields_view. done.
  - intros h n h' l [= <- <-]. rewrite !mm_fields_view, mm_values_view. split_and!; [apply mm_new_fresh|done| | |].
    + cbn. unfold mm_name. cbn [mm_field]. by rewrite lookup_insert_eq.
    + unfold mm_values, mm_texts. cbn [mm_field]. by rewrite lookup_insert_eq.
    + intros k Hk. unfold same_field. rewrite !mm_values_view. cbn. unfold mm_values, mm_name, mm_texts. cbn [mm_field].
      rewrite lookup_insert_ne; [done|]. intros <-. by apply mm_new_fresh in Hk.
  - intros h l h'. rewrite !mm_fields_view. change h' with (mm_with h l). unfold mm_with, mm_fields.
    assert (Hd := elem_of_remove_dups (mm_live h) l). destruct (decide (l ∈ mm_live h)) as [Hl|Hl].
    + rewrite !decide_True by (done || by apply Hd). done.
    + rewrite !decide_False by (done || by rewrite Hd). split; [by apply remove_dups_snoc|].
      intros k. unfold same_field. by rewrite !mm_values_view.
  - intros h l h'. rewrite !mm_fields_view. split; [apply remove_dups_filter|]. intros k. unfold same_field. by rewrite !mm_values_view.
  - intros h l h'. rewrite !mm_fields_view. split; [apply remove_dups_filter|]. intros k _. unfold same_field. by rewrite !mm_values_view.
  - intros h l. by apply Hset.
  - intros h l v. apply Hset. cbn. by rewrite app_nil_r.
  - intros h l i v _. apply Hset. rewrite mm_values_view. unfold mm_values. destruct (i =? 0); [done|].
    rewrite fmap_app, concat_app. cbn. by rewrite app_nil_r.
  - intros h l v. rewrite mm_values_view. unfold mm_values. rewrite list_elem_of_In, in_concat.
    intros (vs & Hvs & Hv). apply list_elem_of_In, list_elem_of_fmap in Hvs as (t & -> & _). apply list_elem_of_In in Hv.
    apply split_no_delim_id, Forall_forall. intros c Hc Hd. by apply (split_no_delim _ _ _ _ Hv Hd).
Qed.
