(* ===== verification/TsHeaders.v ===== *)
(** The functions of [tsapi/remap.c] and [tsapi/compress.c] that read and change
    the headers of a transaction after the request was remapped: the fields
    added to a response, server push, the cache status, and the fields that go
    with compression. *)

From S2P Require Import Prelude CString Hash Env RemapPath Crypt RemapDb Synth Compress TsMime.

Local Open Scope Z_scope.

(** * Data *)

(** The globals [TSPluginInit] sets. *)
Record plugin := Plugin { via_name : bytes; myhostname : bytes }.

Definition plugin_init (ts_version ingress_version : bytes) (gethostname : option bytes) : plugin := {|
  via_name := lit "ATS/" ++ ts_version ++ lit " Ingress/" ++ ingress_version;
  myhostname := default (lit "unknown") gethostname;
|}.

(** A URL that is pushed: the URL of the request with another path and, for an
    encrypted client, another scheme. *)
Record push := Push { pu_scheme : option bytes; pu_path : bytes }.

Definition TS_CACHE_LOOKUP_HIT_FRESH : Z := 2.

(** * Operations *)
Section ops.
Context `{M : TsMime}.
Implicit Types (resp hdrs : mhdr) (field : mloc).

(** ** [set_headers] *)
Definition put_header resp (kv : bytes * bytes) : mhdr :=
  match TSMimeHdrFieldCreateNamed resp kv.1 with
  | Some (resp, field) => TSMimeHdrFieldAppend (TSMimeHdrFieldValueStringInsert resp field 0 kv.2) field
  | None => resp
  end.

(** [snprintf] into 256 bytes. *)
Definition via_text (pl : plugin) (stack : list bytes) : bytes :=
  take 255 (default (lit "http/1.0") (head stack) ++ lit " " ++ myhostname pl ++ lit " (" ++ via_name pl ++ lit ")").

Definition set_via (pl : plugin) (stack : list bytes) resp : cres mhdr :=
  '(resp, field) ← match TSMimeHdrFieldFind resp (lit "Via") with
                   | Some field => Ok (resp, field)
                   | None => '(resp, field) ← deref (TSMimeHdrFieldCreateNamed resp (lit "Via"));
                             Ok (TSMimeHdrFieldAppend resp field, field)
                   end;
  Ok (TSMimeHdrFieldValueStringInsert resp field 0 (via_text pl stack)).

Definition set_server (pl : plugin) resp : cres mhdr :=
  '(resp, field) ← match TSMimeHdrFieldFind resp (lit "Server") with
                   | Some field => Ok (TSMimeHdrFieldValuesClear resp field, field)
                   | None => '(resp, field) ← deref (TSMimeHdrFieldCreateNamed resp (lit "Server"));
                             Ok (TSMimeHdrFieldAppend resp field, field)
                   end;
  Ok (TSMimeHdrFieldValueStringSet resp field (-1) (via_name pl)).

Definition CACHE_CONTROL : bytes := lit "Cache-Control".
Definition NEXT_HOP : bytes := lit "X-Next-Hop-Cache-Control".

(** The loop over the values of [field], with [i] from 0 to [end]. *)
Fixpoint copy_values resp field (cc : mloc) (n i : nat) : cres mhdr :=
  match n with
  | O => Ok resp
  | S n => cs ← deref (TSMimeHdrFieldValueStringGet resp field i);
           copy_values (TSMimeHdrFieldValueStringInsert resp cc (-1) cs) field cc n (S i)
  end.

Definition next_hop_cache_control resp : cres mhdr :=
  match TSMimeHdrFieldFind resp NEXT_HOP with
  | None => Ok resp
  | Some field =>
      let resp := match TSMimeHdrFieldFind resp CACHE_CONTROL with
                  | Some cc => TSMimeHdrFieldRemove resp cc
                  | None => resp
                  end in
      match TSMimeHdrFieldCreateNamed resp CACHE_CONTROL with
      | None => Ok resp
      | Some (resp, cc) =>
          resp ← copy_values resp field cc (TSMimeHdrFieldValuesCount resp field) 0;
          Ok (TSMimeHdrFieldRemove (TSMimeHdrFieldAppend resp cc) field)
      end
  end.

Definition set_headers (pl : plugin) (headers : hash bytes) (stack : list bytes) resp : cres mhdr :=
  let resp := foldl put_header resp (hash_bindings headers) in
  resp ← set_via pl stack resp;
  resp ← set_server pl resp;
  next_hop_cache_control resp.

(** ** [add_cache_status] *)
Definition status_names : list bytes := [lit "miss"; lit "hit-stale"; lit "hit-fresh"; lit "skipped"; lit "unknown"].
Definition X_CACHE_STATUS : bytes := lit "X-Cache-Status".

Definition cache_status_text (status gen : Z) : bytes :=
  let status := if (status <? 0) || (4 <? status) then 4 else status in
  take 63 (default [] (status_names !! Z.to_nat status) ++ lit " (" ++ fmt_d gen ++ lit ")").

Definition add_cache_status (status gen : Z) resp : cres mhdr :=
  '(resp, field) ← match TSMimeHdrFieldFind resp X_CACHE_STATUS with
                   | Some field => Ok (resp, field)
                   | None => deref (TSMimeHdrFieldCreateNamed resp X_CACHE_STATUS)
                   end;
  Ok (TSMimeHdrFieldAppend (TSMimeHdrFieldValueStringInsert resp field 0 (cache_status_text status gen)) field).

(** [check_response_cache]: whether [TSHttpTxnServerRespNoStoreSet] is called. *)
Definition check_response_cache (resp : option mhdr) : bool :=
  match resp with
  | None => false
  | Some resp => bool_decide (is_Some (TSMimeHdrFieldFind resp (lit "Set-Cookie")))
  end.

(** ** [server_push] *)

(** [</path>] in a token: [len >= 3 && t[0] == '<' && t[1] == '/' && t[len-1] == '>']. *)
Definition link_path (t : bytes) : option bytes :=
  if (3 <=? length t)%nat && bool_decide (t !! 0%nat = Some "<"%char) && bool_decide (t !! 1%nat = Some "/"%char) &&
     bool_decide (t !! (length t - 1)%nat = Some ">"%char)
  then Some (take (length t - 3) (drop 2 t)) else None.

(** [nopush], [relpreload] and [url] after one more token. *)
Definition link_token (st : bool * bool * option bytes) (t : bytes) : bool * bool * option bytes :=
  let '(nopush, relpreload, url) := st in
  if streq t (lit "nopush") then (true, relpreload, url)
  else if streq t (lit "rel=preload") then (nopush, true, url)
  else match link_path t with
       | Some path => (nopush, relpreload, Some path)
       | None => (nopush, relpreload, url)
       end.

Definition link_delims : bytes := lit "; ".

Definition link_push (cs : bytes) : option bytes :=
  let '(nopush, relpreload, url) := foldl link_token (false, false, None) (strtok_all link_delims (c_str cs)) in
  if (nopush : bool) || negb relpreload then None else url.

(** The values of one field, [i] from 0 to [n]. *)
Fixpoint push_values resp field (tls : bool) (n i : nat) : cres (list push) :=
  match n with
  | O => Ok []
  | S n => cs ← deref (TSMimeHdrFieldValueStringGet resp field i);
           rest ← push_values resp field tls n (S i);
           Ok (match link_push cs with
               | Some url => [Push (if tls then Some (lit "https") else None) url]
               | None => []
               end ++ rest)
  end.

(** The fields of the header, [i] from 0 to [n]. *)
Fixpoint push_fields resp (tls : bool) (n i : nat) : cres (list push) :=
  match n with
  | O => Ok []
  | S n => field ← deref (TSMimeHdrFieldGet resp i);
           here ← (if streq (TSMimeHdrFieldNameGet resp field) (lit "Link")
                   then push_values resp field tls (TSMimeHdrFieldValuesCount resp field) 0 else Ok []);
           rest ← push_fields resp tls n (S i);
           Ok (here ++ rest)
  end.

(** The response depends on the event: that of the server, or the cached one
    on a fresh hit. *)
Definition push_response (read_response : bool) (server cached : option mhdr) (status : Z) : option mhdr :=
  if read_response then server else if status =? TS_CACHE_LOOKUP_HIT_FRESH then cached else None.

Definition server_push (read_response : bool) (server cached : option mhdr) (status : Z) (tls : bool) : cres (list push) :=
  match push_response read_response server cached status with
  | None => Ok []
  | Some resp => push_fields resp tls (TSMimeHdrFieldsCount resp) 0
  end.

(** ** Compression *)
Definition comp_remove_aenc hdrs : mhdr :=
  match TSMimeHdrFieldFind hdrs (lit "Accept-Encoding") with
  | Some aenc => TSMimeHdrFieldDestroy hdrs aenc
  | None => hdrs
  end.

Definition comp_set_compress_headers resp : cres mhdr :=
  match TSMimeHdrFieldFind resp (lit "Vary") with
  | Some field => Ok (TSMimeHdrFieldValueStringInsert resp field (-1) (lit "Accept-Encoding"))
  | None => '(resp, field) ← deref (TSMimeHdrFieldCreateNamed resp (lit "Vary"));
            Ok (TSMimeHdrFieldAppend (TSMimeHdrFieldValueStringInsert resp field (-1) (lit "Accept-Encoding")) field)
  end.

Definition comp_set_content_encoding (state : comp_state) resp : cres mhdr :=
  match content_encoding state with
  | None => Ok resp
  | Some enc =>
      match TSMimeHdrFieldCreateNamed resp (lit "Content-Encoding") with
      | None => Fault Uninitialised
      | Some (resp, field) => Ok (TSMimeHdrFieldAppend (TSMimeHdrFieldValueStringInsert resp field 0 enc) field)
      end
  end.

(** What [response_can_compress] reads of a response. *)
Definition read_response resp : response_hdr := {|
  has_content_encoding := bool_decide (is_Some (TSMimeHdrFieldFind resp (lit "Content-Encoding")));
  content_type := (λ field, TSMimeHdrFieldValueStringGet resp field 0) <$> TSMimeHdrFieldFind resp (lit "Content-Type");
|}.

(** Whether [comp_check_server_response] and [comp_check_cached_response]
    install the transformation. *)
Definition comp_check_server_response (state : comp_state) (server : option mhdr) : bool :=
  match server with
  | None => false
  | Some resp => response_can_compress state (read_response resp)
  end.

Definition comp_check_cached_response (state : comp_state) (status : Z) (cached : option mhdr) : bool :=
  if status =? TS_CACHE_LOOKUP_HIT_FRESH then comp_check_server_response state cached else false.
End ops.

(** * Lemmas *)
Section lemmas.
Context `{ML : TsMimeLaws}.
Implicit Types (h resp : mhdr) (l field : mloc) (n m : bytes).

(** Creating a field of a name succeeds. *)
Definition creates_named n : Prop := ∀ h, is_Some (TSMimeHdrFieldCreateNamed h n).
(** Creating a field always succeeds. *)
Definition creates : Prop := ∀ n, creates_named n.
(** The fields whose creation the code does not check. *)
Definition unchecked : list bytes := [lit "Via"; lit "Server"; lit "Vary"; lit "Content-Encoding"; X_CACHE_STATUS].
Definition creates_unchecked : Prop := ∀ n, n ∈ unchecked → creates_named n.

(** ** New fields *)

(** A field that is created, given a value and appended. *)
Lemma named_new_field h h1 l n v i m :
  TSMimeHdrFieldCreateNamed h n = Some (h1, l) → i = 0 ∨ i = -1 →
  named (TSMimeHdrFieldAppend (TSMimeHdrFieldValueStringInsert h1 l i v) l) m =
    named h m ++ if decide (same_name m n) then [field_split v] else [].
Proof.
  intros Hc Hi. destruct (mime_create _ _ _ _ Hc) as (Hnin & Hf & Hn & Hv & Hk).
  set (h2 := TSMimeHdrFieldValueStringInsert h1 l i v). destruct (mime_insert h1 l i v Hi) as (Hf2 & Hk2 & Hn2 & Hv2). fold h2 in Hf2, Hk2, Hn2, Hv2.
  set (h3 := TSMimeHdrFieldAppend h2 l). destruct (mime_append h2 l) as (Hf3 & Hk3). fold h3 in Hf3, Hk3.
  rewrite Hf2, Hf, decide_False in Hf3 by done.
  rewrite (named_add h h3 l n m Hf3).
  - do 2 f_equal. case_decide; [|done]. rewrite (proj2 (Hk3 l)), Hv2, Hv, app_nil_r, app_nil_l. by case_match.
  - by rewrite (proj1 (Hk3 l)), Hn2.
  - intros k Hin. assert (Hne : k ≠ l) by (intros ->; done).
    destruct (Hk k Hin), (Hk2 k Hne), (Hk3 k). split; congruence.
Qed.

(** A field that is created and appended, to be given values afterwards: it is
    the one a search finds when there was none. *)
Lemma named_empty_field h h1 l n :
  TSMimeHdrFieldFind h n = None → TSMimeHdrFieldCreateNamed h n = Some (h1, l) →
  let h2 := TSMimeHdrFieldAppend h1 l in
  TSMimeHdrFieldFind h2 n = Some l ∧ field_values h2 l = [] ∧
  ∀ m, named h2 m = named h m ++ if decide (same_name m n) then [[]] else [].
Proof.
  intros Hnone Hc h2. destruct (mime_create _ _ _ _ Hc) as (Hnin & Hf & Hn & Hv & Hk).
  destruct (mime_append h1 l) as (Hf2 & Hk2). fold h2 in Hf2, Hk2. rewrite Hf, decide_False in Hf2 by done.
  assert (Hsame : ∀ k, k ∈ hdr_fields h → same_field h h2 k).
  { intros k Hin. destruct (Hk k Hin), (Hk2 k). split; congruence. }
  assert (Hn2 : TSMimeHdrFieldNameGet h2 l = n) by (by rewrite (proj1 (Hk2 l))).
  assert (Hv2 : field_values h2 l = []) by (by rewrite (proj2 (Hk2 l))).
  split_and!; [|done|].
  - rewrite mime_find, Hf2, filter_app. rewrite mime_find in Hnone.
    rewrite (filter_ext_in (has_name h2 n) (has_name h n)) by (intros k Hin; unfold has_name; by rewrite (proj1 (Hsame k Hin))).
    destruct (filter _ (hdr_fields h)); [|done]. by rewrite filter_cons_True by (unfold has_name; by rewrite Hn2).
  - intros m. by rewrite (named_add h h2 l n m Hf2 Hn2 Hsame), Hv2.
Qed.

(** ** The steps of [set_headers] *)
Lemma put_header_named h kv :
  ∃ b : bool, (creates → b = true) ∧
    ∀ m, named (put_header h kv) m = named h m ++ if decide (b = true ∧ same_name m kv.1) then [field_split kv.2] else [].
Proof.
  unfold put_header. destruct (TSMimeHdrFieldCreateNamed h kv.1) as [[h1 l]|] eqn:Hc.
  - exists true. split; [done|]. intros m. rewrite (named_new_field _ _ _ _ _ _ _ Hc) by by left. f_equal.
    repeat case_decide; naive_solver.
  - exists false. split; [intros Hcr; destruct (Hcr kv.1 h) as [? ?]; congruence|]. intros m.
    by rewrite decide_False, app_nil_r by naive_solver.
Qed.

(** The fields a list of headers adds to those of a name. *)
Definition added (headers : list (bytes * bytes)) m : list (list bytes) :=
  (λ kv, field_split kv.2) <$> filter (λ kv, same_name m kv.1) headers.

(** Those that can be created are added. *)
Lemma put_headers_named headers h :
  ∃ hs, hs `sublist_of` headers ∧ (creates → hs = headers) ∧ ∀ m, named (foldl put_header h headers) m = named h m ++ added hs m.
Proof.
  revert h; induction headers as [|kv headers IH]; intros h; [exists []; split_and!; [done..|]; intros m; by rewrite app_nil_r|].
  cbn [foldl]. destruct (put_header_named h kv) as (b & Hb & Hn). destruct (IH (put_header h kv)) as (hs & Hsub & Hall & Hns).
  exists (if b then kv :: hs else hs). split_and!.
  - destruct b; [by apply sublist_skip|by apply sublist_cons].
  - intros Hcr. by rewrite Hb, Hall.
  - intros m. rewrite Hns, Hn, <- app_assoc. f_equal. unfold added. destruct b.
    + rewrite filter_cons. repeat case_decide; naive_solver.
    + by rewrite decide_False by naive_solver.
Qed.

Lemma set_via_named pl stack h :
  creates_named (lit "Via") → ∃ h', set_via pl stack h = Ok h' ∧ ∀ m,
    named h' m = if decide (same_name m (lit "Via"))
                 then (field_split (via_text pl stack) ++ default [] (head (named h m))) :: tail (named h m) else named h m.
Proof.
  intros Hcr. unfold set_via. destruct (TSMimeHdrFieldFind h (lit "Via")) as [l|] eqn:El.
  - cbn [mbind cres_bind]. eexists. split; [reflexivity|]. intros m.
    destruct (mime_insert h l 0 (via_text pl stack)) as (Hf & Hk & Hn & Hv); [by left|].
    rewrite (named_update _ _ _ _ m El Hf Hk Hn). case_decide as Hm; [|done]. rewrite Hv.
    destruct (find_named_Some _ _ _ El) as (Hnm & _). rewrite (named_proper h _ _ Hm), Hnm. done.
  - destruct (Hcr h) as [[h1 l] Hc]. rewrite Hc. cbn [deref mbind cres_bind].
    eexists. split; [reflexivity|]. intros m. set (h2 := TSMimeHdrFieldAppend h1 l).
    destruct (named_empty_field _ _ _ _ El Hc) as (Hl & Hv0 & Hnm). fold h2 in Hl, Hv0, Hnm.
    destruct (mime_insert h2 l 0 (via_text pl stack)) as (Hf & Hk & Hn & Hv); [by left|].
    rewrite (named_update _ _ _ _ m Hl Hf Hk Hn), Hnm, Hv, Hv0. apply find_named_None in El. case_decide as Hm; [|by rewrite app_nil_r].
    by rewrite (named_proper h _ _ Hm), El.
Qed.

Lemma set_server_named pl h :
  creates_named (lit "Server") → ∃ h', set_server pl h = Ok h' ∧ ∀ m,
    named h' m = if decide (same_name m (lit "Server")) then field_split (via_name pl) :: tail (named h m) else named h m.
Proof.
  intros Hcr. unfold set_server. destruct (TSMimeHdrFieldFind h (lit "Server")) as [l|] eqn:El.
  - cbn [mbind cres_bind]. eexists. split; [reflexivity|]. intros m.
    destruct (mime_clear h l) as (Hf & Hk & Hn & Hv). set (h1 := TSMimeHdrFieldValuesClear h l) in *.
    destruct (mime_set h1 l (via_name pl)) as (Hf1 & Hk1 & Hn1 & Hv1).
    rewrite (named_update h _ l _ m El), Hv1; [done|congruence| |congruence].
    intros k Hne. destruct (Hk k Hne), (Hk1 k Hne). split; congruence.
  - destruct (Hcr h) as [[h1 l] Hc]. rewrite Hc. cbn [deref mbind cres_bind].
    eexists. split; [reflexivity|]. intros m. set (h2 := TSMimeHdrFieldAppend h1 l).
    destruct (named_empty_field _ _ _ _ El Hc) as (Hl & Hv0 & Hnm). fold h2 in Hl, Hv0, Hnm.
    destruct (mime_set h2 l (via_name pl)) as (Hf & Hk & Hn & Hv).
    rewrite (named_update _ _ _ _ m Hl Hf Hk Hn), Hnm, Hv. apply find_named_None in El. case_decide as Hm; [|by rewrite app_nil_r].
    by rewrite (named_proper h _ _ Hm), El.
Qed.

Lemma copy_values_spec field cc (n i : nat) h :
  field ≠ cc → (i + n = length (field_values h field))%nat →
  ∃ h', copy_values h field cc n i = Ok h' ∧ hdr_fields h' = hdr_fields h ∧ (∀ k, k ≠ cc → same_field h h' k) ∧
    TSMimeHdrFieldNameGet h' cc = TSMimeHdrFieldNameGet h cc ∧
    field_values h' cc = field_values h cc ++ drop i (field_values h field).
Proof.
  intros Hne. revert i h; induction n as [|n IH]; intros i h Hl; cbn [copy_values].
  - exists h. split_and!; [done..|]. by rewrite drop_ge, app_nil_r by lia.
  - rewrite mime_value_get. destruct (lookup_lt_is_Some_2 (field_values h field) i) as [v Hv]; [lia|].
    rewrite Hv. cbn [deref mbind cres_bind].
    destruct (mime_insert h cc (-1) v) as (Hf & Hk & Hn & Hvs); [by right|]. cbn in Hvs.
    set (h1 := TSMimeHdrFieldValueStringInsert h cc (-1) v) in *.
    rewrite (mime_split_value h field v) in Hvs by (by eapply list_elem_of_lookup_2).
    destruct (IH (S i) h1) as (h' & Hc & Hf' & Hk' & Hn' & Hv'); [rewrite (proj2 (Hk field Hne)); lia|].
    exists h'. split_and!; [done|congruence| |congruence|].
    + intros k Hkc. destruct (Hk k Hkc), (Hk' k Hkc). split; congruence.
    + rewrite Hv', Hvs, (proj2 (Hk field Hne)), (drop_S _ _ _ Hv), <- app_assoc. done.
Qed.

(** The first field of a name is removed if there is one; those of another name
    are as they were. *)
Lemma remove_first h n m (h1 := match TSMimeHdrFieldFind h n with Some l => TSMimeHdrFieldRemove h l | None => h end) :
  (∀ k, named h1 k = if decide (same_name k n) then tail (named h k) else named h k) ∧
  (∀ l, same_field h h1 l) ∧
  (¬ same_name m n → filter (has_name h1 m) (hdr_fields h1) = filter (has_name h m) (hdr_fields h)).
Proof.
  unfold h1. clear h1. destruct (TSMimeHdrFieldFind h n) as [l|] eqn:El.
  - destruct (mime_remove h l) as (Hf & Hk). destruct (find_named_Some _ _ _ El) as (_ & _ & Hl).
    split_and!; [intros k; by apply (named_delete h _ l)|done|]. intros Hne.
    rewrite Hf, (filter_ext_in _ (has_name h m)) by (intros k _; unfold has_name; by rewrite (proj1 (Hk k))).
    rewrite filter_comm. apply filter_all_id. intros k [Hkn _]%list_elem_of_filter ->. apply Hne. by eapply has_name_eq.
  - split_and!; [|done..]. intros k. apply find_named_None in El. case_decide as Hm; [|done].
    by rewrite (named_proper h _ _ Hm), El.
Qed.

(** A new field with the values of another one of the header. *)
Lemma copied_field h h1 field cc n :
  TSMimeHdrFieldCreateNamed h n = Some (h1, cc) → field ∈ hdr_fields h →
  ∃ h2, copy_values h1 field cc (TSMimeHdrFieldValuesCount h1 field) 0 = Ok h2 ∧
    let h3 := TSMimeHdrFieldAppend h2 cc in
    hdr_fields h3 = hdr_fields h ++ [cc] ∧ (∀ k, k ∈ hdr_fields h → same_field h h3 k) ∧
    ∀ m, named h3 m = named h m ++ if decide (same_name m n) then [field_values h field] else [].
Proof.
  intros Hc Hin. destruct (mime_create _ _ _ _ Hc) as (Hnin & Hf1 & Hn1 & Hv1 & Hk1).
  assert (Hne : field ≠ cc) by (intros ->; done).
  destruct (copy_values_spec field cc (TSMimeHdrFieldValuesCount h1 field) 0 h1) as (h2 & Hcp & Hf2 & Hk2 & Hn2 & Hv2);
    [done|by rewrite mime_values_count|]. rewrite Hv1, drop_0, app_nil_l in Hv2.
  exists h2. split; [done|]. intros h3. destruct (mime_append h2 cc) as (Hf3 & Hk3). fold h3 in Hf3, Hk3.
  rewrite Hf2, Hf1, decide_False in Hf3 by done.
  assert (Hs : ∀ k, k ∈ hdr_fields h → same_field h h3 k).
  { intros k Hk. assert (k ≠ cc) as Hkc by (intros ->; done).
    destruct (Hk1 k Hk), (Hk2 k Hkc), (Hk3 k). split; congruence. }
  split_and!; [done..|]. intros m. rewrite (named_add h h3 cc n m Hf3); [|by rewrite (proj1 (Hk3 cc)), Hn2|done].
  by rewrite (proj2 (Hk3 cc)), Hv2, (proj2 (Hk1 field Hin)).
Qed.

(** What becomes of the fields of a name when the first X-Next-Hop-Cache-Control
    field is to take the place of the first Cache-Control field; [cc] tells
    whether the new Cache-Control field could be created. *)
Definition next_hop_result (base : bytes → list (list bytes)) (cc : bool) m : list (list bytes) :=
  match base NEXT_HOP with
  | [] => base m
  | vs :: _ => if decide (same_name m NEXT_HOP) then (if cc then tail (base m) else base m)
               else if decide (same_name m CACHE_CONTROL) then tail (base m) ++ (if cc then [vs] else []) else base m
  end.

Lemma next_hop_named h :
  ∃ h' cc, next_hop_cache_control h = Ok h' ∧ (creates → cc = true) ∧ ∀ m, named h' m = next_hop_result (named h) cc m.
Proof.
  unfold next_hop_cache_control, next_hop_result. destruct (TSMimeHdrFieldFind h NEXT_HOP) as [field|] eqn:Ef.
  2:{ exists h, true. split_and!; [done..|]. apply find_named_None in Ef. by rewrite Ef. }
  destruct (find_named_Some _ _ _ Ef) as (Hnf & Hin & Hname). rewrite Hnf.
  destruct (remove_first h CACHE_CONTROL NEXT_HOP) as (Hn1 & Hs1 & Hfil1). specialize (Hfil1 ltac:(done)).
  set (h1 := match TSMimeHdrFieldFind h CACHE_CONTROL with Some cc => _ | None => h end) in *. clearbody h1.
  destruct (TSMimeHdrFieldCreateNamed h1 CACHE_CONTROL) as [[h2 cc]|] eqn:Hc.
  2:{ exists h1, false. split_and!; [done|intros Hcr; destruct (Hcr CACHE_CONTROL h1) as [? ?]; congruence|].
      intros m. rewrite Hn1, app_nil_r. destruct (decide (same_name m NEXT_HOP)) as [Hm|Hm]; [|done].
      rewrite decide_False; [done|]. intros Hm'. by rewrite Hm in Hm'. }
  assert (Hin1 : field ∈ hdr_fields h1).
  { apply (list_elem_of_filter (has_name h1 NEXT_HOP) _ _). by rewrite Hfil1, list_elem_of_filter. }
  destruct (copied_field _ _ field _ _ Hc Hin1) as (h3 & Hcp & Hf4 & Hs4 & Hn4). rewrite Hcp. cbn [mbind cres_bind].
  set (h4 := TSMimeHdrFieldAppend h3 cc) in *.
  assert (Hfind : TSMimeHdrFieldFind h4 NEXT_HOP = Some field).
  { rewrite mime_find, Hf4, filter_app.
    rewrite (filter_ext_in _ (has_name h1 NEXT_HOP)) by (intros k Hk; unfold has_name; by rewrite (proj1 (Hs4 k Hk))).
    rewrite Hfil1. rewrite mime_find in Ef. by destruct (filter _ (hdr_fields h)). }
  destruct (mime_remove h4 field) as (Hf5 & Hk5). eexists _, true. split; [reflexivity|]. split; [done|]. intros m.
  rewrite (named_delete h4 _ field NEXT_HOP m Hfind Hf5) by (intros k _; apply Hk5).
  rewrite Hn4, Hn1, (proj2 (Hs1 field)).
  destruct (decide (same_name m NEXT_HOP)) as [Hm|Hm]; [|by case_decide; rewrite ?app_nil_r].
  assert (Hne : ¬ same_name m CACHE_CONTROL) by (intros Hm'; by rewrite Hm in Hm').
  by rewrite !decide_False, app_nil_r by done.
Qed.

(** [set_headers] as a whole: what becomes of the fields of each name. *)
Definition headers_result (pl : plugin) (stack : list bytes) (base : bytes → list (list bytes)) (cc : bool) m : list (list bytes) :=
  if decide (same_name m (lit "Via")) then (field_split (via_text pl stack) ++ default [] (head (base m))) :: tail (base m)
  else if decide (same_name m (lit "Server")) then field_split (via_name pl) :: tail (base m)
  else next_hop_result base cc m.

(** The fields that can be created, and whether Cache-Control can. *)
Record created (headers hs : list (bytes * bytes)) (cc : bool) : Prop := {
  created_some : hs `sublist_of` headers;
  created_all : creates → hs = headers ∧ cc = true;
}.

Lemma set_headers_named pl headers stack h :
  creates_unchecked → ∃ h' hs cc, set_headers pl headers stack h = Ok h' ∧ created (hash_bindings headers) hs cc ∧ ∀ m,
    named h' m = headers_result pl stack (λ m, named h m ++ added hs m) cc m.
Proof.
  intros Hcr. unfold set_headers. set (h0 := foldl put_header h (hash_bindings headers)).
  destruct (put_headers_named (hash_bindings headers) h) as (hs & Hsub & Hall & H0). fold h0 in H0.
  destruct (set_via_named pl stack h0) as (h1 & -> & H1); [apply Hcr; by left|]. cbn [mbind cres_bind].
  destruct (set_server_named pl h1) as (h2 & -> & H2); [apply Hcr; right; by left|]. cbn [mbind cres_bind].
  destruct (next_hop_named h2) as (h3 & cc & -> & Hcc & H3). exists h3, hs, cc. split; [done|]. split; [by split; [|auto]|].
  intros m. rewrite H3. unfold next_hop_result. rewrite !H2, !H1, !H0. unfold headers_result, next_hop_result.
  rewrite (decide_False (P := same_name NEXT_HOP (lit "Server"))), (decide_False (P := same_name NEXT_HOP (lit "Via"))) by done.
  assert (Hexcl : ∀ a b, same_name m a → ¬ same_name a b → ¬ same_name m b) by (intros a b Ha Hn Hm; apply Hn; by transitivity m).
  destruct (decide (same_name m (lit "Via"))) as [Hv|Hv].
  { rewrite decide_False by (by apply (Hexcl _ _ Hv)). destruct (_ ++ added _ NEXT_HOP); [done|].
    by rewrite !decide_False by (by apply (Hexcl _ _ Hv)). }
  destruct (decide (same_name m (lit "Server"))) as [Hs|Hs]; [|done].
  destruct (_ ++ added _ NEXT_HOP); [done|]. by rewrite !decide_False by (by apply (Hexcl _ _ Hs)).
Qed.

(** ** The other fields *)
Lemma comp_remove_aenc_named h m :
  named (comp_remove_aenc h) m = if decide (same_name m (lit "Accept-Encoding")) then tail (named h m) else named h m.
Proof.
  unfold comp_remove_aenc. destruct (TSMimeHdrFieldFind h (lit "Accept-Encoding")) as [l|] eqn:El.
  - destruct (mime_destroy h l) as (Hf & Hk). by apply (named_delete h _ l).
  - apply find_named_None in El. case_decide as Hm; [|done]. by rewrite (named_proper h _ _ Hm), El.
Qed.

Lemma comp_set_compress_headers_named h :
  creates_named (lit "Vary") → ∃ h', comp_set_compress_headers h = Ok h' ∧ ∀ m,
    named h' m = if decide (same_name m (lit "Vary"))
                 then (default [] (head (named h m)) ++ field_split (lit "Accept-Encoding")) :: tail (named h m) else named h m.
Proof.
  intros Hcr. unfold comp_set_compress_headers. destruct (TSMimeHdrFieldFind h (lit "Vary")) as [l|] eqn:El.
  - eexists. split; [reflexivity|]. intros m.
    destruct (mime_insert h l (-1) (lit "Accept-Encoding")) as (Hf & Hk & Hn & Hv); [by right|].
    rewrite (named_update _ _ _ _ m El Hf Hk Hn). case_decide as Hm; [|done]. rewrite Hv.
    destruct (find_named_Some _ _ _ El) as (Hnm & _). by rewrite (named_proper h _ _ Hm), Hnm.
  - destruct (Hcr h) as [[h1 l] Hc]. rewrite Hc. cbn [deref mbind cres_bind].
    eexists. split; [reflexivity|]. intros m. rewrite (named_new_field _ _ _ _ _ _ _ Hc) by by right.
    apply find_named_None in El. case_decide as Hm; [|by rewrite app_nil_r]. by rewrite (named_proper h _ _ Hm), El.
Qed.

Lemma comp_set_content_encoding_named st h :
  creates_named (lit "Content-Encoding") → ∃ h', comp_set_content_encoding st h = Ok h' ∧ ∀ m,
    named h' m = named h m ++ match content_encoding st with
                              | Some enc => if decide (same_name m (lit "Content-Encoding")) then [field_split enc] else []
                              | None => []
                              end.
Proof.
  intros Hcr. unfold comp_set_content_encoding. destruct (content_encoding st) as [enc|]; [|exists h; split; [done|]; intros m; by rewrite app_nil_r].
  destruct (Hcr h) as [[h1 l] Hc]. rewrite Hc. eexists. split; [reflexivity|]. intros m.
  apply (named_new_field _ _ _ _ _ _ _ Hc). by left.
Qed.

Lemma add_cache_status_named status gen h :
  creates_named X_CACHE_STATUS → ∃ h', add_cache_status status gen h = Ok h' ∧ ∀ m,
    named h' m = if decide (same_name m X_CACHE_STATUS)
                 then (field_split (cache_status_text status gen) ++ default [] (head (named h m))) :: tail (named h m) else named h m.
Proof.
  intros Hcr. unfold add_cache_status. set (v := cache_status_text status gen).
  destruct (TSMimeHdrFieldFind h X_CACHE_STATUS) as [l|] eqn:El.
  - cbn [mbind cres_bind]. eexists. split; [reflexivity|]. intros m.
    destruct (mime_insert h l 0 v) as (Hf & Hk & Hn & Hv); [by left|]. set (h1 := TSMimeHdrFieldValueStringInsert h l 0 v) in *.
    destruct (mime_append h1 l) as (Hf1 & Hk1). destruct (find_named_Some _ _ _ El) as (Hnm & Hin & _).
    rewrite decide_True in Hf1 by by rewrite Hf.
    rewrite (named_same h1 _ m Hf1) by (intros k _; apply Hk1). rewrite (named_update _ _ _ _ m El Hf Hk Hn).
    case_decide as Hm; [|done]. by rewrite Hv, (named_proper h _ _ Hm), Hnm.
  - destruct (Hcr h) as [[h1 l] Hc]. rewrite Hc. cbn [deref mbind cres_bind].
    eexists. split; [reflexivity|]. intros m. rewrite (named_new_field _ _ _ _ _ _ _ Hc) by by left.
    apply find_named_None in El. case_decide as Hm; [|by rewrite app_nil_r]. by rewrite (named_proper h _ _ Hm), El, app_nil_r.
Qed.
End lemmas.

(** ** Link fields *)
Definition link_ref (p : bytes) : bytes := "<"%char :: "/"%char :: p ++ [">"%char].

Lemma link_ref_last (a b c : ascii) t : (a :: b :: t ++ [c]) !! (length (a :: b :: t ++ [c]) - 1)%nat = Some c.
Proof. apply (list_lookup_middle (a :: b :: t)). cbn [length]. rewrite length_app. cbn [length]. lia. Qed.

Lemma link_ref_path (a b c : ascii) t : take (length (a :: b :: t ++ [c]) - 3) (drop 2 (a :: b :: t ++ [c])) = t.
Proof.
  replace (length (a :: b :: t ++ [c]) - 3)%nat with (length t) by (cbn [length]; rewrite length_app; cbn [length]; lia).
  apply take_app_length.
Qed.

Lemma link_path_spec t p : link_path t = Some p ↔ t = link_ref p.
Proof.
  unfold link_path, link_ref. split.
  - intros Hl. destruct t as [|a [|b t]]; [done..|]. destruct t as [|c t _] using rev_ind; [done|].
    rewrite link_ref_last, link_ref_path in Hl.
    destruct (_ && _) eqn:E; [|done]. apply (inj Some) in Hl as ->. rewrite !andb_true_iff, !bool_decide_eq_true in E.
    by destruct E as [[[_ [= ->]] [= ->]] [= ->]].
  - intros ->. rewrite link_ref_last, link_ref_path. rewrite !bool_decide_true, !andb_true_r by done.
    cbn [length]. rewrite length_app. cbn [length]. by rewrite (proj2 (Nat.leb_le 3 _)) by lia.
Qed.

Lemma link_tokens ts :
  foldl link_token (false, false, None) ts =
    (bool_decide (lit "nopush" ∈ ts), bool_decide (lit "rel=preload" ∈ ts), last (omap link_path ts)).
Proof.
  induction ts as [|t ts IH] using rev_ind; [done|]. rewrite foldl_snoc, IH. unfold link_token.
  rewrite omap_app. cbn [omap list_omap].
  assert (Hin : ∀ x, bool_decide (x ∈ ts ++ [t]) = bool_decide (x ∈ ts) || streq t x).
  { intros x. unfold streq. rewrite <- bool_decide_or. apply bool_decide_ext. rewrite elem_of_app, list_elem_of_singleton. naive_solver. }
  rewrite !Hin. destruct (streq t (lit "nopush")) eqn:E1; [apply streq_true in E1 as ->; by rewrite orb_true_r, orb_false_r, app_nil_r|].
  destruct (streq t (lit "rel=preload")) eqn:E2; [apply streq_true in E2 as ->; by rewrite orb_true_r, orb_false_r, app_nil_r|].
  rewrite !orb_false_r. destruct (link_path t); [by rewrite last_snoc|by rewrite app_nil_r].
Qed.

Lemma last_omap {A B} (f : A → option B) ts p :
  last (omap f ts) = Some p ↔ ∃ pre t post, ts = pre ++ t :: post ∧ f t = Some p ∧ ∀ u, u ∈ post → f u = None.
Proof.
  split.
  - induction ts as [|t ts IH] using rev_ind; [done|]. rewrite omap_app. cbn [omap list_omap].
    destruct (f t) as [q|] eqn:E.
    + rewrite last_snoc. intros [= <-]. exists ts, t, []. split_and!; [done..|]. by intros u Hu%elem_of_nil.
    + rewrite app_nil_r. intros (pre & u & post & -> & Hu & Hp)%IH. exists pre, u, (post ++ [t]).
      split_and!; [by rewrite <- app_assoc|done|]. intros x [Hx|Hx]%elem_of_app; [by apply Hp|]. by apply list_elem_of_singleton in Hx as ->.
  - intros (pre & t & post & -> & Ht & Hp). rewrite omap_app. cbn [omap list_omap]. rewrite Ht.
    replace (omap f post) with ([] : list B); [by rewrite last_snoc|].
    clear Ht. induction post as [|u post IH]; [done|]. cbn [omap list_omap]. rewrite (Hp u) by by left.
    apply IH. intros x Hx. apply Hp. by right.
Qed.

(** A value of a Link field asks for a path to be pushed: it has the parameter
    [rel=preload] and not [nopush], and the path is that of its last token of
    the form [</path>]. *)
Definition link_pushes (v p : bytes) : Prop :=
  let ts := strtok_all link_delims (c_str v) in
  lit "rel=preload" ∈ ts ∧ lit "nopush" ∉ ts ∧
  ∃ pre post, ts = pre ++ link_ref p :: post ∧ ∀ q, link_ref q ∉ post.

Lemma link_push_spec v p : link_push v = Some p ↔ link_pushes v p.
Proof.
  unfold link_push, link_pushes. rewrite link_tokens. set (ts := strtok_all _ _).
  assert (Hlast : last (omap link_path ts) = Some p ↔ ∃ pre post, ts = pre ++ link_ref p :: post ∧ ∀ q, link_ref q ∉ post).
  { rewrite last_omap. split.
    - intros (pre & t & post & Hts & Ht%link_path_spec & Hp). subst t. exists pre, post. split; [done|].
      intros q Hq. apply Hp in Hq. by rewrite (proj2 (link_path_spec _ q) eq_refl) in Hq.
    - intros (pre & post & Hts & Hp). exists pre, (link_ref p), post. split_and!; [done|by apply link_path_spec|].
      intros u Hu. destruct (link_path u) as [q|] eqn:E; [|done]. apply link_path_spec in E as ->. by apply Hp in Hu. }
  rewrite <- Hlast. repeat case_bool_decide; cbn [orb negb]; naive_solver.
Qed.

Section push.
Context `{ML : TsMimeLaws}.

Definition pushed_as (tls : bool) (p : bytes) : push := Push (if tls then Some (lit "https") else None) p.

Lemma push_values_spec resp field tls n i :
  (i + n = length (field_values resp field))%nat →
  push_values resp field tls n i = Ok (pushed_as tls <$> omap link_push (drop i (field_values resp field))).
Proof.
  revert i; induction n as [|n IH]; intros i Hl; cbn [push_values]; [by rewrite drop_ge by lia|].
  rewrite mime_value_get. destruct (lookup_lt_is_Some_2 (field_values resp field) i) as [v Hv]; [lia|].
  rewrite Hv. cbn [deref mbind cres_bind]. rewrite IH by lia. cbn [mbind cres_bind]. rewrite (drop_S _ _ _ Hv).
  cbn [omap list_omap]. by destruct (link_push v).
Qed.

(** The values of the Link fields, in order; the name of a field has no case. *)
Definition link_values (resp : mhdr) (fields : list mloc) : list bytes :=
  concat (field_values resp <$> filter (has_name resp (lit "Link")) fields).

(** The values of those that are spelled with a capital and small letters. *)
Definition spelled_values (resp : mhdr) (fields : list mloc) : list bytes :=
  concat (field_values resp <$> filter (λ l, TSMimeHdrFieldNameGet resp l = lit "Link") fields).

Lemma spelled_link_values resp fields :
  (∀ l, l ∈ fields → has_name resp (lit "Link") l → TSMimeHdrFieldNameGet resp l = lit "Link") →
  spelled_values resp fields = link_values resp fields.
Proof.
  intros Hs. unfold spelled_values, link_values. do 2 f_equal.
  induction fields as [|l fields IH]; [done|]. rewrite !filter_cons.
  rewrite IH by (intros k Hk; apply Hs; by right). specialize (Hs l ltac:(by left)).
  destruct (decide (has_name resp (lit "Link") l)) as [Hn|Hn]; [by rewrite decide_True by (by apply Hs)|].
  rewrite decide_False; [done|]. intros Hl. apply Hn. unfold has_name. by rewrite Hl.
Qed.

Lemma push_fields_spec resp tls n i :
  (i + n = length (hdr_fields resp))%nat →
  push_fields resp tls n i = Ok (pushed_as tls <$> omap link_push (spelled_values resp (drop i (hdr_fields resp)))).
Proof.
  revert i; induction n as [|n IH]; intros i Hl; cbn [push_fields]; [by rewrite drop_ge by lia|].
  destruct (lookup_lt_is_Some_2 (hdr_fields resp) i) as [l Hi]; [lia|].
  rewrite (proj2 (mime_get resp i l) Hi). cbn [deref mbind cres_bind]. rewrite IH by lia. rewrite (drop_S _ _ _ Hi).
  unfold spelled_values. rewrite filter_cons. unfold streq. case_bool_decide as Hn; [rewrite decide_True by done|by rewrite decide_False by done].
  rewrite push_values_spec by (by rewrite mime_values_count). cbn [mbind cres_bind fmap list_fmap concat].
  by rewrite omap_app, fmap_app, drop_0.
Qed.

(** * Properties *)

(** C22. Server push sends exactly what the response asks for: for each value of
    each Link field, in order, the path of its [</path>] reference when it has
    [rel=preload] and not [nopush], with the scheme https for an encrypted
    client; and it never fails.  This holds of responses whose Link fields are
    all spelled "Link": the name of a field has no case, but the code compares
    it with case, and what is pushed is what the fields of that spelling ask
    for, so that those of a field spelled "link" are not pushed
    ([push_lower_case]). *)
Theorem push_exact (read_response : bool) (server cached : option mhdr) (status : Z) (tls : bool) (resp : mhdr) :
  push_response read_response server cached status = Some resp →
  ∃ pushed : bytes → option bytes, (∀ v p, pushed v = Some p ↔ link_pushes v p) ∧
    server_push read_response server cached status tls =
      Ok (pushed_as tls <$> omap pushed (spelled_values resp (hdr_fields resp))) ∧
    ((∀ l, l ∈ hdr_fields resp → has_name resp (lit "Link") l → TSMimeHdrFieldNameGet resp l = lit "Link") →
     server_push read_response server cached status tls =
       Ok (pushed_as tls <$> omap pushed (link_values resp (hdr_fields resp)))).
Proof.
  intros Hr. exists link_push. split; [apply link_push_spec|].
  assert (Hp : server_push read_response server cached status tls =
    Ok (pushed_as tls <$> omap link_push (spelled_values resp (hdr_fields resp)))).
  { unfold server_push. rewrite Hr. rewrite push_fields_spec by (by rewrite mime_fields_count). by rewrite drop_0. }
  split; [done|]. intros Hs. by rewrite Hp, spelled_link_values.
Qed.
End push.

(** * Examples *)
Module Examples.
#[local] Existing Instance mime_list.
#[local] Existing Instance mime_list_laws.

Definition mime_of (fields : list (bytes * list bytes)) : mhdr :=
  Mime (seq 0 (length fields)) (list_to_map (zip (seq 0 (length fields)) fields)).

(** The two examples of docs/serverpush.md. *)
Definition ex_links : mhdr :=
  mime_of [(lit "Content-Type", [lit "text/html"]);
           (lit "Link", [lit "</path/to/my.css>; rel=preload; as=style"; lit "</path/to/my/image.jpeg>; rel=preload; as=image; nopush"])].

Lemma push_exact_witness :
  server_push true (Some ex_links) None 0 true = Ok [Push (Some (lit "https")) (lit "path/to/my.css")] ∧
  link_pushes (lit "</path/to/my.css>; rel=preload; as=style") (lit "path/to/my.css").
Proof.
  destruct (push_exact true (Some ex_links) None 0 true ex_links eq_refl) as (pushed & Hp & _ & Hs).
  specialize (Hs ltac:(intros l Hl Hn; repeat (apply elem_of_cons in Hl as [->|Hl]; [first [reflexivity|discriminate Hn]|]); by apply elem_of_nil in Hl)).
  assert (Hl : link_values ex_links (hdr_fields ex_links) =
    [lit "</path/to/my.css>; rel=preload; as=style"; lit "</path/to/my/image.jpeg>; rel=preload; as=image; nopush"])
    by (vm_compute; reflexivity).
  assert (H1 : pushed (lit "</path/to/my.css>; rel=preload; as=style") = Some (lit "path/to/my.css"))
    by (apply Hp, link_push_spec; vm_compute; reflexivity).
  assert (H2 : pushed (lit "</path/to/my/image.jpeg>; rel=preload; as=image; nopush") = None).
  { match goal with |- ?x = None => destruct x as [p|] eqn:E; [|done] end. apply Hp, link_push_spec in E. vm_compute in E. discriminate E. }
  rewrite Hl in Hs. cbn [omap list_omap] in Hs. rewrite H1, H2 in Hs. split; [exact Hs|by apply Hp].
Defined.

(** The name of the field is compared with case. *)
Example push_lower_case :
  server_push true (Some (mime_of [(lit "link", [lit "</a.css>; rel=preload"])])) None 0 true = Ok [].
Proof. vm_compute. reflexivity. Qed.
End Examples.
