(* ===== verification/Debug.v ===== *)
(** [tsapi/debug.c]: the debug log of a transaction after the request hook, as
    the list of lines it writes with [TSError].

    What Traffic Server says of the transaction is a record; a header that the
    call for it does not return is [None].  [txn] is the transaction as "%p"
    prints it. *)

From S2P Require Import Prelude CString DebugLog TsMime TsHeaders.

Local Open Scope Z_scope.

Section ops.
Context `{M : TsMime} (txn : bytes).
Implicit Types (h : mhdr).

Definition dump_field h (lines : list bytes) (i : nat) : cres (list bytes) :=
  field ← deref (TSMimeHdrFieldGet h i);
  let name := TSMimeHdrFieldNameGet h field in
  let jend := TSMimeHdrFieldValuesCount h field in
  foldC (λ lines j,
    value ← deref (TSMimeHdrFieldValueStringGet h field j);
    Ok (lines ++ [value_line txn j jend name value])) (seq 0 jend) lines.

Definition debug_dump_header h : cres (list bytes) := foldC (dump_field h) (seq 0 (TSMimeHdrFieldsCount h)) [].

(** A header between its two markers. *)
Definition dump_between (what : bytes) h : cres (list bytes) := lines ← debug_dump_header h; Ok (between txn what lines).

(** ** The hooks *)
Definition debug_log_cache_lookup_complete (cache_gen status : Z) (cached : option mhdr) : cres (list bytes) :=
  let lookup := prefix_line txn (lit "cache lookup complete, generation " ++ fmt_d cache_gen) in
  let state :=
    if (status <? 0) || (4 <? status) then prefix_line txn (lit "cache status " ++ fmt_d status ++ lit "?")
    else prefix_line txn (lit "cache status " ++ default [] (status_names !! Z.to_nat status)) in
  if negb (status =? 2) then Ok [lookup; state]
  else match cached with
       | None => Ok [lookup; state; lit "kubernetes: debug_log_cache_looked_complete: can't get resp?"]
       | Some h => dump ← dump_between (lit "cached header") h; Ok (lookup :: state :: dump)
       end.

(** [TSHttpTxnServerReqGet]: the header and the text of the URL. *)
Definition debug_log_send_request_hdr (req : option (mhdr * bytes)) : cres (list bytes) :=
  match req with
  | None => Ok [lit "kubernetes: debug_log_send_request_hdr: can't get req?"]
  | Some (h, url) =>
      text ← print_n (length url) url;
      dump ← dump_between (lit "origin request header") h;
      Ok (prefix_line txn (lit "origin send request url " ++ text) :: dump)
  end.

(** A response: the header, the status and the reason. *)
Definition log_response (what who failed : bytes) (resp : option (mhdr * Z * bytes)) : cres (list bytes) :=
  match resp with
  | None => Ok [failed]
  | Some (h, status, reason) =>
      text ← print_n (length reason) reason;
      dump ← dump_between what h;
      Ok (prefix_line txn (who ++ lit " response status " ++ fmt_d status ++ lit " reason " ++ text) :: dump)
  end.
Definition debug_log_read_response_hdr : option (mhdr * Z * bytes) → cres (list bytes) :=
  log_response (lit "origin response header") (lit "origin read") (lit "kubernetes: debug_log_read_response_hdr: can't get resp?").
Definition debug_log_send_response_hdr : option (mhdr * Z * bytes) → cres (list bytes) :=
  log_response (lit "client response header") (lit "client send") (lit "kubernetes: debug_log_send_response_hdr: can't get resp?").
End ops.

(** * Lemmas *)
Section proofs.
Context `{ML : TsMimeLaws} (txn : bytes).
Implicit Types (h : mhdr).

(** A field with its values. *)
Definition field_view h (l : mloc) : bytes * list bytes := (TSMimeHdrFieldNameGet h l, field_values h l).

Lemma dump_field_lines h lines i l :
  hdr_fields h !! i = Some l → dump_field txn h lines i = Ok (lines ++ field_lines txn (field_view h l)).
Proof.
  intros Hi. unfold dump_field, field_lines, field_view. rewrite (proj2 (mime_get h i l) Hi). cbn [deref]. rewrite bind_ok. cbv zeta.
  rewrite mime_values_count. set (vs := field_values h l). set (line := λ j v, value_line txn j (length vs) (TSMimeHdrFieldNameGet h l) v).
  assert (Hn : ∀ n, (n ≤ length vs)%nat →
    foldC (λ lines j, value ← deref (TSMimeHdrFieldValueStringGet h l j); Ok (lines ++ [line j value])) (seq 0 n) lines =
      Ok (lines ++ imap line (take n vs))).
  { induction n as [|n IH]; intros Hl; [by rewrite app_nil_r|].
    rewrite seq_S, foldC_app, IH, bind_ok by lia. cbn [foldC Nat.add]. destruct (lookup_lt_is_Some_2 vs n) as [v Hv]; [lia|].
    rewrite mime_value_get. fold vs. rewrite Hv. cbn [deref]. rewrite !bind_ok, (take_S_r _ _ v Hv), imap_app. cbn.
    by rewrite Nat.add_0_r, length_take_le, app_assoc by lia. }
  etransitivity; [exact (Hn (length vs) (le_n _))|]. by rewrite take_ge.
Qed.

(** The dump of a header is all its fields with all their values, in order. *)
Lemma dump_header_lines h : debug_dump_header txn h = Ok (mjoin ((field_lines txn ∘ field_view h) <$> hdr_fields h)).
Proof.
  unfold debug_dump_header. rewrite mime_fields_count. set (ls := hdr_fields h).
  assert (Hn : ∀ n, (n ≤ length ls)%nat → foldC (dump_field txn h) (seq 0 n) [] = Ok (mjoin ((field_lines txn ∘ field_view h) <$> take n ls))).
  { induction n as [|n IH]; intros Hl; [done|]. rewrite seq_S, foldC_app, IH, bind_ok by lia. cbn [foldC Nat.add].
    destruct (lookup_lt_is_Some_2 ls n) as [l Hl']; [lia|]. rewrite (dump_field_lines h _ n l Hl'), bind_ok.
    rewrite (take_S_r _ _ l Hl'), fmap_app, join_app. cbn. by rewrite app_nil_r. }
  rewrite (Hn (length ls)) by done. by rewrite take_ge.
Qed.

Lemma dump_between_lines what h :
  dump_between txn what h = Ok (between txn what (mjoin ((field_lines txn ∘ field_view h) <$> hdr_fields h))).
Proof. unfold dump_between. by rewrite dump_header_lines. Qed.

Lemma log_response_lines what who failed resp : ∃ lines, log_response txn what who failed resp = Ok lines.
Proof.
  destruct resp as [[[h status] reason]|]; [|by eexists]. unfold log_response.
  rewrite print_own, bind_ok, dump_between_lines, bind_ok. by eexists.
Qed.

Lemma log_lookup_lines gen status cached : ∃ lines, debug_log_cache_lookup_complete txn gen status cached = Ok lines.
Proof.
  unfold debug_log_cache_lookup_complete. cbv zeta. case_match; [by eexists|]. destruct cached; [|by eexists].
  rewrite dump_between_lines, bind_ok. by eexists.
Qed.

Lemma log_request_lines req : ∃ lines, debug_log_send_request_hdr txn req = Ok lines.
Proof.
  destruct req as [[h url]|]; [|by eexists]. unfold debug_log_send_request_hdr.
  rewrite print_own, bind_ok, dump_between_lines, bind_ok. by eexists.
Qed.

(** * Properties *)

(** A debug log of a response lists the status and every value of every field,
    and cannot fail. *)
Theorem debug_response_complete h (status : Z) (reason what who failed : bytes) :
  ∃ first last, log_response txn what who failed (Some (h, status, reason)) =
    Ok (prefix_line txn (who ++ lit " response status " ++ fmt_d status ++ lit " reason " ++ c_str reason) ::
        first :: mjoin ((field_lines txn ∘ field_view h) <$> hdr_fields h) ++ [last]).
Proof.
  unfold log_response. rewrite print_own, bind_ok, dump_between_lines, !bind_ok. by eexists _, _.
Qed.
End proofs.
