(* ===== verification/TsEvents.v ===== *)
(** [tsapi/remap.c]: the continuation of a transaction, [tsi_event], which
    Traffic Server calls at each stage of a remapped request, and the life of
    the request context from [handle_remap] to the end of the transaction. *)

From S2P Require Import Prelude CString Hash Env RemapPath RemapHost Crypt RemapDb Compress TsMime TsHeaders Debug TsRemap.

Local Open Scope Z_scope.

(** * Data *)
Inductive ts_event := TS_EVENT_HTTP_CACHE_LOOKUP_COMPLETE | TS_EVENT_HTTP_SEND_REQUEST_HDR
  | TS_EVENT_HTTP_READ_RESPONSE_HDR | TS_EVENT_HTTP_SEND_RESPONSE_HDR | TS_EVENT_HTTP_TXN_CLOSE
  | TS_EVENT_OTHER (code : Z).

#[global] Instance push_eq_dec : EqDecision push.
Proof. solve_decision. Defined.

(** The calls other than those on headers.  [TransformHookAdd] stands for the
    creation of the transformation, its data and its hook; [EncoderInit] and
    [EncoderFree] for the callbacks [cs_init] and [cs_free]; [TxnError] is a
    line of the debug log. *)
Inductive txn_call :=
  | TxnError (line : bytes)
  | TSHttpTxnServerPush (url : push)
  | TSHttpTxnServerRespNoStoreSet
  | TSHttpTxnTransformedRespCache (flag : Z)
  | TSHttpTxnUntransformedRespCache (flag : Z)
  | TransformHookAdd
  | TransformDestroy
  | EncoderInit
  | EncoderFree
  | CtxFree
  | TSContDestroy
  | TxnAddrSet (addr : bytes)
  | TxnReenable.

#[global] Instance txn_call_eq_dec : EqDecision txn_call.
Proof. solve_decision. Defined.

(** What the calls of an event report, and the headers they change: for the
    debug log also the transaction as "%p" prints it, the URL of the request to
    the server, and the status and reason of the two responses. *)
Record exchange `{TsMime} := Exchange {
  ex_name : bytes;
  ex_server_url : bytes;
  ex_server_status : Z;
  ex_server_reason : bytes;
  ex_client_status : Z;
  ex_client_reason : bytes;
  ex_server_req : mhdr;
  ex_server_resp : option mhdr;
  ex_cached_resp : option mhdr;
  ex_client_resp : mhdr;
  ex_cache_status : Z;
  ex_cache_gen : Z;
  ex_stack : list bytes;
  ex_tls : bool;
}.

(** * Operations *)
Section ops.
Context `{M : TsMime}.
Implicit Types (rctx : request_ctx) (ex : exchange).

Definition set_server_req ex (h : mhdr) : exchange :=
  Exchange _ (ex_name ex) (ex_server_url ex) (ex_server_status ex) (ex_server_reason ex) (ex_client_status ex) (ex_client_reason ex)
    h (ex_server_resp ex) (ex_cached_resp ex) (ex_client_resp ex) (ex_cache_status ex) (ex_cache_gen ex) (ex_stack ex) (ex_tls ex).
Definition set_client_resp ex (h : mhdr) : exchange :=
  Exchange _ (ex_name ex) (ex_server_url ex) (ex_server_status ex) (ex_server_reason ex) (ex_client_status ex) (ex_client_reason ex)
    (ex_server_req ex) (ex_server_resp ex) (ex_cached_resp ex) h (ex_cache_status ex) (ex_cache_gen ex) (ex_stack ex) (ex_tls ex).
Definition set_comp_state rctx (cs : option comp_state) (transform : bool) : request_ctx :=
  RequestCtx (rq_compress rctx) cs transform (rq_server_push rctx) (rq_cache_enabled rctx) (rq_can_cache rctx)
    (rq_debug_log rctx) (rq_response_headers rctx).

(** [if (c) f ()] for a function that may fail. *)
Definition when {A} (c : bool) (f : A → cres A) (a : A) : cres A := if c then f a else Ok a.

(** A debug log, if the path asked for it. *)
Definition log_calls rctx (log : cres (list bytes)) : cres (list txn_call) :=
  if rq_debug_log rctx then lines ← log; Ok (TxnError <$> (lines : list bytes)) else Ok [].

Definition push_calls (read_response : bool) rctx ex : cres (list txn_call) :=
  if rq_server_push rctx then
    urls ← server_push read_response (ex_server_resp ex) (ex_cached_resp ex) (ex_cache_status ex) (ex_tls ex);
    Ok (TSHttpTxnServerPush <$> (urls : list push))
  else Ok [].

(** [comp_check_server_response] and [comp_check_cached_response], called when
    there is a compression state. *)
Definition check_compress (check : comp_state → bool) rctx : request_ctx * list txn_call :=
  match rq_comp_state rctx with
  | None => (rctx, [])
  | Some cs => if check cs
               then (set_comp_state rctx (Some cs) true,
                     [TSHttpTxnTransformedRespCache 0; TSHttpTxnUntransformedRespCache 1; TransformHookAdd])
               else (rctx, [])
  end.

Definition comp_state_free (cs : comp_state) : list txn_call := if cs_done_init cs then [EncoderFree] else [].

Definition request_ctx_free rctx : list txn_call :=
  match rq_comp_state rctx with Some cs => comp_state_free cs | None => [] end ++ [CtxFree].

(** [tsi_event].  The context is [None] once it was freed. *)
Definition tsi_event (pl : plugin) (event : ts_event) (ctx : option request_ctx) ex
    : cres (option request_ctx * exchange * list txn_call) :=
  match ctx with
  | None => Fault UseAfterFree
  | Some req =>
      match event with
      | TS_EVENT_HTTP_CACHE_LOOKUP_COMPLETE =>
          log ← log_calls req (debug_log_cache_lookup_complete (ex_name ex) (ex_cache_gen ex) (ex_cache_status ex) (ex_cached_resp ex));
          pushes ← push_calls false req ex;
          let '(req, comp) := check_compress (λ cs, comp_check_cached_response cs (ex_cache_status ex) (ex_cached_resp ex)) req in
          Ok (Some req, ex, log ++ pushes ++ comp ++ [TxnReenable])
      | TS_EVENT_HTTP_SEND_REQUEST_HDR =>
          let ex := if rq_compress req then set_server_req ex (comp_remove_aenc (ex_server_req ex)) else ex in
          log ← log_calls req (debug_log_send_request_hdr (ex_name ex) (Some (ex_server_req ex, ex_server_url ex)));
          Ok (Some req, ex, log ++ [TxnReenable])
      | TS_EVENT_HTTP_READ_RESPONSE_HDR =>
          log ← log_calls req (debug_log_read_response_hdr (ex_name ex)
                  ((λ h, (h, ex_server_status ex, ex_server_reason ex)) <$> ex_server_resp ex));
          let nostore := if rq_can_cache req && check_response_cache (ex_server_resp ex) then [TSHttpTxnServerRespNoStoreSet] else [] in
          pushes ← push_calls true req ex;
          let '(req, comp) := check_compress (λ cs, comp_check_server_response cs (ex_server_resp ex)) req in
          Ok (Some req, ex, log ++ nostore ++ pushes ++ comp ++ [TxnReenable])
      | TS_EVENT_HTTP_SEND_RESPONSE_HDR =>
          resp ← set_headers pl (rq_response_headers req) (ex_stack ex) (ex_client_resp ex);
          resp ← when (rq_compress req) comp_set_compress_headers resp;
          resp ← when (rq_compress_transform req)
                   (λ resp, state ← deref (rq_comp_state req); comp_set_content_encoding state resp) resp;
          resp ← when (rq_cache_enabled req) (add_cache_status (ex_cache_status ex) (ex_cache_gen ex)) resp;
          log ← log_calls req (debug_log_send_response_hdr (ex_name ex) (Some (resp, ex_client_status ex, ex_client_reason ex)));
          Ok (Some req, set_client_resp ex resp, log ++ [TxnReenable])
      | TS_EVENT_HTTP_TXN_CLOSE =>
          Ok (None, ex, (if rq_compress_transform req then [TransformDestroy] else []) ++ request_ctx_free req ++
                        [TSContDestroy; TxnReenable])
      | TS_EVENT_OTHER _ => Fault AssertFail
      end
  end.

(** [external_lookup]: the end of the lookup [handle_remap] started. *)
Definition external_lookup (data : option bytes) : list txn_call :=
  match data with Some addr => [TxnAddrSet addr] | None => [] end ++ [TxnReenable; TSContDestroy].

(** ** A transaction

    Besides the hooks, Traffic Server calls the transformation, which sets up
    the encoder the first time and does nothing once its connection is
    closed. *)
Inductive stage := Hook (event : ts_event) (ex : exchange) | Transform.

Definition transform_start (ctx : option request_ctx) : option request_ctx * list txn_call :=
  match ctx with
  | Some req =>
      match rq_comp_state req with
      | Some cs => if rq_compress_transform req && negb (cs_done_init cs)
                   then (Some (set_comp_state req (Some (CompState (cs_type cs) (cs_types cs) true (cs_output_len cs))) true), [EncoderInit])
                   else (ctx, [])
      | None => (ctx, [])
      end
  | None => (ctx, [])
  end.

Definition txn_step (pl : plugin) (ctx : option request_ctx) (st : stage) : cres (option request_ctx * list txn_call) :=
  match st with
  | Hook event ex => '(ctx, _, calls) ← tsi_event pl event ctx ex; Ok (ctx, calls)
  | Transform => Ok (transform_start ctx)
  end.

Fixpoint txn_run (pl : plugin) (ctx : option request_ctx) (stages : list stage) : cres (option request_ctx * list txn_call) :=
  match stages with
  | [] => Ok (ctx, [])
  | st :: stages =>
      '(ctx, calls) ← txn_step pl ctx st;
      '(ctx, rest) ← txn_run pl ctx stages;
      Ok (ctx, calls ++ rest)
  end.
End ops.

(** * Lemmas *)
Definition times (c : txn_call) (calls : list txn_call) : nat := length (filter (c =.) calls).

Lemma times_app c l k : times c (l ++ k) = (times c l + times c k)%nat.
Proof. unfold times. by rewrite filter_app, length_app. Qed.

(** The calls that only the end of the transaction, the encoder or the return
    of an event make. *)
Definition special (c : txn_call) : Prop :=
  c = TransformDestroy ∨ c = EncoderInit ∨ c = EncoderFree ∨ c = CtxFree ∨ c = TSContDestroy ∨ c = TxnReenable.

Lemma times_none c calls : special c → Forall (λ d, ¬ special d) calls → times c calls = 0%nat.
Proof.
  intros Hc Hl. unfold times. induction Hl as [|d calls Hd _ IH]; [done|]. rewrite filter_cons_False; [done|].
  intros ->. done.
Qed.

Section lemmas.
Context `{ML : TsMimeLaws}.
Implicit Types (rctx req : request_ctx) (ex : exchange).

Definition is_close (event : ts_event) : bool := match event with TS_EVENT_HTTP_TXN_CLOSE => true | _ => false end.
(** The events [handle_remap] asks for before the close. *)
Definition live (event : ts_event) : bool :=
  match event with TS_EVENT_HTTP_TXN_CLOSE | TS_EVENT_OTHER _ => false | _ => true end.

Definition ctx_ok rctx : Prop := rq_compress_transform rctx = true → is_Some (rq_comp_state rctx).
Definition done_init rctx : bool := match rq_comp_state rctx with Some cs => cs_done_init cs | None => false end.

(** The debug log cannot fail. *)
Definition is_line (c : txn_call) : Prop := match c with TxnError _ => True | _ => False end.

Lemma log_calls_ok req m :
  (∃ lines, m = Ok lines) → ∃ log, log_calls req m = Ok log ∧ Forall is_line log ∧ (rq_debug_log req = false → log = []).
Proof.
  intros [lines ->]. unfold log_calls. destruct (rq_debug_log req); [|by exists []]. eexists. split; [reflexivity|].
  split; [|done]. apply Forall_fmap, Forall_forall. by intros.
Qed.

Tactic Notation "log_step" "as" ident(log) ident(Hline) ident(Hoff) :=
  match goal with |- context [log_calls ?r ?m] =>
    let Hm := fresh in
    assert (Hm : ∃ lines, m = Ok lines)
      by first [apply log_lookup_lines|apply log_request_lines|apply (log_response_lines _ _ _ _ _)];
    destruct (log_calls_ok r m Hm) as (log & -> & Hline & Hoff); cbn [mbind cres_bind]; clear Hm
  end.

Lemma lines_quiet log : Forall is_line log → Forall (λ c, ¬ special c) log ∧ times TransformHookAdd log = 0%nat.
Proof.
  intros Hl. split; [eapply Forall_impl; [exact Hl|]; intros [] Hc; try done; unfold special; naive_solver|].
  induction Hl as [|[] log Hc _ IH]; done.
Qed.

Lemma push_calls_ok b req ex :
  ∃ calls, push_calls b req ex = Ok calls ∧ Forall (λ c, ¬ special c) calls ∧ times TransformHookAdd calls = 0%nat.
Proof.
  unfold push_calls. destruct (rq_server_push req); [|by exists []].
  unfold server_push. destruct (push_response _ _ _ _) as [resp|]; [|by exists []].
  rewrite push_fields_spec by (by rewrite mime_fields_count). cbn [mbind cres_bind].
  match goal with |- context [_ <$> (pushed_as _ <$> ?l)] => set (urls := pushed_as (ex_tls ex) <$> l) end.
  eexists. split; [reflexivity|]. split.
  - apply Forall_fmap, Forall_forall. intros u _. unfold special. naive_solver.
  - by induction urls.
Qed.

Lemma check_compress_ok check req req' calls :
  check_compress check req = (req', calls) → ctx_ok req →
  ctx_ok req' ∧ Forall (λ c, ¬ special c) calls ∧ done_init req' = done_init req ∧
  rq_compress_transform req' = rq_compress_transform req || (0 <? times TransformHookAdd calls)%nat ∧
  rq_response_headers req' = rq_response_headers req.
Proof.
  unfold check_compress. intros Hc Hok. destruct (rq_comp_state req) as [cs|] eqn:Ecs.
  2:{ apply pair_eq in Hc as [<- <-]. split_and!; [done|constructor|done|by rewrite orb_false_r|done]. }
  destruct (check cs); apply pair_eq in Hc as [<- <-].
  - split_and!; [by eexists|repeat constructor; unfold special; naive_solver| |by rewrite orb_true_r|done].
    unfold done_init. by rewrite Ecs.
  - split_and!; [done|constructor|done|by rewrite orb_false_r|done].
Qed.

(** The fields of each name after the response header was sent through
    [tsi_event], when the fields [hs] of the remap result could be created and
    [cc] tells whether Cache-Control could. *)
Definition response_result pl req ex (hs : list (bytes * bytes)) (cc : bool) (m : bytes) : list (list bytes) :=
  let r := headers_result pl (ex_stack ex) (λ m, named (ex_client_resp ex) m ++ added hs m) cc m in
  if decide (same_name m (lit "Vary")) then
    if rq_compress req then (default [] (head r) ++ field_split (lit "Accept-Encoding")) :: tail r else r
  else if decide (same_name m (lit "Content-Encoding")) then
    match rq_comp_state req with
    | Some cs => if rq_compress_transform req then r ++ (field_split <$> option_list (content_encoding cs)) else r
    | None => r
    end
  else if decide (same_name m X_CACHE_STATUS) then
    if rq_cache_enabled req
    then (field_split (cache_status_text (ex_cache_status ex) (ex_cache_gen ex)) ++ default [] (head r)) :: tail r else r
  else r.

(** A step that is taken or not. *)
Lemma when_named (c : bool) (f : mhdr → cres mhdr) h (R : bytes → list (list bytes) → list (list bytes)) :
  (c = true → ∃ h', f h = Ok h' ∧ ∀ m, named h' m = R m (named h m)) →
  ∃ h', when c f h = Ok h' ∧ ∀ m, named h' m = if c then R m (named h m) else named h m.
Proof. destruct c; intros Hf; [by apply Hf|by exists h]. Qed.

Lemma send_response pl req ex :
  creates_unchecked → ctx_ok req →
  ∃ h' hs cc log, tsi_event pl TS_EVENT_HTTP_SEND_RESPONSE_HDR (Some req) ex =
      Ok (Some req, set_client_resp ex h', log ++ [TxnReenable]) ∧
    Forall is_line log ∧ (rq_debug_log req = false → log = []) ∧
    created (hash_bindings (rq_response_headers req)) hs cc ∧ ∀ m, named h' m = response_result pl req ex hs cc m.
Proof.
  intros Hcr Hok. cbn [tsi_event].
  assert (Hvary : creates_named (lit "Vary")) by (apply Hcr; by compute_done).
  assert (Henc : creates_named (lit "Content-Encoding")) by (apply Hcr; by compute_done).
  assert (Hstatus : creates_named X_CACHE_STATUS) by (apply Hcr; by compute_done).
  destruct (set_headers_named pl (rq_response_headers req) (ex_stack ex) (ex_client_resp ex) Hcr) as (h1 & hs & cc & -> & Hmade & H1).
  cbn [mbind cres_bind].
  destruct (when_named (rq_compress req) comp_set_compress_headers h1
    (λ m r, if decide (same_name m (lit "Vary")) then (default [] (head r) ++ field_split (lit "Accept-Encoding")) :: tail r else r)
    (λ _, comp_set_compress_headers_named h1 Hvary)) as (h2 & -> & H2).
  cbn [mbind cres_bind].
  destruct (when_named (rq_compress_transform req) (λ resp, state ← deref (rq_comp_state req); comp_set_content_encoding state resp) h2
    (λ m r, r ++ if decide (same_name m (lit "Content-Encoding"))
                 then field_split <$> match rq_comp_state req with Some cs => option_list (content_encoding cs) | None => [] end else []))
    as (h3 & -> & H3).
  { intros Ht. destruct (Hok Ht) as [cs ->]. destruct (comp_set_content_encoding_named cs h2 Henc) as (h & Hh & Hn).
    exists h. split; [exact Hh|]. intros m. rewrite Hn. destruct (content_encoding cs); by case_decide. }
  cbn [mbind cres_bind].
  destruct (when_named (rq_cache_enabled req) (add_cache_status (ex_cache_status ex) (ex_cache_gen ex)) h3
    (λ m r, if decide (same_name m X_CACHE_STATUS)
            then (field_split (cache_status_text (ex_cache_status ex) (ex_cache_gen ex)) ++ default [] (head r)) :: tail r else r)
    (λ _, add_cache_status_named (ex_cache_status ex) (ex_cache_gen ex) h3 Hstatus)) as (h4 & -> & H4).
  cbn [mbind cres_bind]. log_step as log Hline Hoff.
  exists h4, hs, cc, log. split_and!; [done..|]. intros m. rewrite H4, H3, H2, H1. unfold response_result.
  set (r := headers_result pl (ex_stack ex) _ _ m). clearbody r.
  assert (Hexcl : ∀ a b, same_name m a → ¬ same_name a b → ¬ same_name m b) by (intros a b Ha Hn Hm; apply Hn; by transitivity m).
  destruct (decide (same_name m (lit "Vary"))) as [Hv|Hv].
  { rewrite !decide_False by (by apply (Hexcl _ _ Hv)). by repeat case_match; rewrite ?app_nil_r. }
  destruct (decide (same_name m (lit "Content-Encoding"))) as [Hc|Hc].
  { rewrite decide_False by (by apply (Hexcl _ _ Hc)). by repeat case_match; rewrite ?app_nil_r. }
  by repeat case_match; rewrite ?app_nil_r.
Qed.

(** One event before the close: it returns, resumes the transaction at the end
    and only there, and keeps the context. *)
Lemma tsi_event_live pl event req ex :
  creates_unchecked → ctx_ok req → live event = true →
  ∃ req' ex' calls, tsi_event pl event (Some req) ex = Ok (Some req', ex', calls ++ [TxnReenable]) ∧
    ctx_ok req' ∧ Forall (λ c, ¬ special c) calls ∧ done_init req' = done_init req ∧
    rq_compress_transform req' = rq_compress_transform req || (0 <? times TransformHookAdd calls)%nat.
Proof.
  intros Hcr Hok Hlive. destruct event; try discriminate Hlive.
  - cbn [tsi_event]. log_step as log Hlq Hoff. apply lines_quiet in Hlq as [Hlq Hlt].
    destruct (push_calls_ok false req ex) as (pushes & -> & Hp & Hc). cbn [mbind cres_bind].
    destruct (check_compress _ req) as [req' comp] eqn:Ec. destruct (check_compress_ok _ _ _ _ Ec Hok) as (H1 & H2 & H3 & H4 & _).
    exists req', ex, (log ++ pushes ++ comp). split_and!; [by rewrite <- !app_assoc|done| |done|].
    + by rewrite !Forall_app.
    + by rewrite !times_app, Hlt, Hc.
  - cbn [tsi_event]. log_step as log Hlq Hoff. apply lines_quiet in Hlq as [Hlq Hlt].
    eexists req, _, log. split_and!; [done..|]. by rewrite Hlt, orb_false_r.
  - cbn [tsi_event]. log_step as log Hlq Hoff. apply lines_quiet in Hlq as [Hlq Hlt].
    destruct (push_calls_ok true req ex) as (pushes & -> & Hp & Hc). cbn [mbind cres_bind].
    destruct (check_compress _ req) as [req' comp] eqn:Ec. destruct (check_compress_ok _ _ _ _ Ec Hok) as (H1 & H2 & H3 & H4 & _).
    set (nostore := if rq_can_cache req && _ then _ else []).
    exists req', ex, (log ++ nostore ++ pushes ++ comp). split_and!; [by rewrite <- !app_assoc|done| |done|].
    + rewrite !Forall_app. split_and!; [done| |done..].
      unfold nostore. destruct (_ && _); repeat constructor. unfold special. naive_solver.
    + rewrite !times_app, Hlt, Hc. by replace (times TransformHookAdd nostore) with 0%nat by (unfold nostore; by destruct (_ && _)).
  - destruct (send_response pl req ex Hcr Hok) as (h' & hs & cc & log & Hs & [Hlq Hlt]%lines_quiet & _). rewrite Hs.
    eexists req, _, log. split_and!; [done..|]. by rewrite Hlt, orb_false_r.
Qed.

(** The start of the transformation, before the close. *)
Lemma transform_start_live req :
  ctx_ok req → ∃ req' calls, transform_start (Some req) = (Some req', calls) ∧ ctx_ok req' ∧
    rq_compress_transform req' = rq_compress_transform req ∧ (∀ c, c ≠ EncoderInit → times c calls = 0%nat) ∧
    Nat.b2n (done_init req') = (Nat.b2n (done_init req) + times EncoderInit calls)%nat.
Proof.
  intros Hok. unfold transform_start, done_init. destruct (rq_comp_state req) as [cs|] eqn:Ecs.
  2:{ exists req, []. by rewrite Ecs. }
  destruct (rq_compress_transform req) eqn:Et; cbn [andb]; [|exists req, []; rewrite Ecs; by rewrite Nat.add_0_r].
  destruct (cs_done_init cs) eqn:Ed; cbn [negb]; [exists req, []; by rewrite Ecs, Ed|].
  do 2 eexists. split; [reflexivity|]. split_and!; [by eexists|done| |done].
  intros c Hc. unfold times. by rewrite filter_cons_False.
Qed.

Definition stage_live (st : stage) : bool := match st with Hook event _ => live event | Transform => true end.
Definition is_hook (st : stage) : bool := match st with Hook _ _ => true | Transform => false end.
Definition hooks (stages : list stage) : nat := length (filter is_hook stages).

(** A run before the close. *)
Lemma txn_run_live pl stages req :
  creates_unchecked → ctx_ok req → Forall (λ st, stage_live st = true) stages →
  ∃ req' calls, txn_run pl (Some req) stages = Ok (Some req', calls) ∧ ctx_ok req' ∧
    times TxnReenable calls = hooks stages ∧
    (∀ c, c = TransformDestroy ∨ c = EncoderFree ∨ c = CtxFree ∨ c = TSContDestroy → times c calls = 0%nat) ∧
    rq_compress_transform req' = rq_compress_transform req || (0 <? times TransformHookAdd calls)%nat ∧
    Nat.b2n (done_init req') = (Nat.b2n (done_init req) + times EncoderInit calls)%nat.
Proof.
  intros Hcr. revert req. induction stages as [|st stages IH]; intros req Hok Hl.
  { exists req, []. split_and!; [done..|by rewrite orb_false_r|by rewrite Nat.add_0_r]. }
  apply Forall_cons in Hl as [Hst Hl]. cbn [txn_run]. destruct st as [event ex|]; cbn [txn_step].
  - destruct (tsi_event_live pl event req ex Hcr Hok Hst) as (req1 & ex1 & calls & -> & Hok1 & Hsp & Hd & Ht).
    cbn [mbind cres_bind]. destruct (IH req1 Hok1 Hl) as (req' & rest & -> & Hok' & Hre & Hno & Ht' & Hd').
    cbn [mbind cres_bind]. do 2 eexists. split; [reflexivity|].
    assert (Hz : ∀ c, special c → times c calls = 0%nat) by (intros c Hc; by apply times_none).
    unfold hooks. rewrite filter_cons_True by done. cbn [length]. split_and!; [done|..].
    + rewrite !times_app, Hz, Hre by (unfold special; tauto). done.
    + intros c Hc. rewrite !times_app, Hz, Hno by (unfold special; tauto). by destruct Hc as [->|[->|[->| ->]]].
    + rewrite Ht', Ht, !times_app. destruct (rq_compress_transform req); [done|]. cbn [orb].
      destruct (0 <? times TransformHookAdd calls)%nat eqn:E; cbn [orb]; rewrite ?Nat.ltb_lt, ?Nat.ltb_ge in *;
        symmetry; [apply Nat.ltb_lt; lia|]. replace (times TransformHookAdd calls) with 0%nat by lia. done.
    + rewrite Hd', Hd, !times_app, Hz by (unfold special; tauto). done.
  - destruct (transform_start_live req Hok) as (req1 & calls & -> & Hok1 & Ht & Hno1 & Hd).
    cbn [mbind cres_bind]. destruct (IH req1 Hok1 Hl) as (req' & rest & -> & Hok' & Hre & Hno & Ht' & Hd').
    cbn [mbind cres_bind]. do 2 eexists. split; [reflexivity|].
    unfold hooks. rewrite filter_cons_False by (by intros []). split_and!; [done|..].
    + by rewrite times_app, Hno1, Hre.
    + intros c Hc. rewrite times_app, Hno, Hno1 by naive_solver. done.
    + by rewrite Ht', Ht, times_app, Hno1.
    + rewrite Hd', Hd, times_app. lia.
Qed.

Lemma txn_run_app pl ctx stages1 stages2 :
  txn_run pl ctx (stages1 ++ stages2) =
    '(ctx, calls) ← txn_run pl ctx stages1; '(ctx, rest) ← txn_run pl ctx stages2; Ok (ctx, calls ++ rest).
Proof.
  revert ctx. induction stages1 as [|st stages1 IH]; intros ctx; cbn [app txn_run].
  - cbn [mbind cres_bind]. by destruct (txn_run pl ctx stages2) as [[]|].
  - destruct (txn_step pl ctx st) as [[ctx1 calls]|]; [|done]. cbn [mbind cres_bind]. rewrite IH.
    destruct (txn_run pl ctx1 stages1) as [[ctx2 calls2]|]; [|done]. cbn [mbind cres_bind].
    destruct (txn_run pl ctx2 stages2) as [[ctx3 calls3]|]; [|done]. cbn [mbind cres_bind]. by rewrite app_assoc.
Qed.
End lemmas.

Section properties.
Context `{PL : PosixLaws} `{SSL : OpenSSL} `{D : Digests} `{ML : TsMimeLaws}.

(** The context [handle_remap] creates has no transformation yet. *)
Lemma handle_remap_ctx (xfp : bool) db txn (rand : Z) rctx acts :
  handle_remap xfp db txn rand = Ok (Some rctx, acts) → rq_compress_transform rctx = false ∧ done_init rctx = false.
Proof.
  unfold handle_remap. destruct db as [db|]; [|done]. destruct (remap_run _ _ _) as [[ret res]|]; [|done]. cbn [mbind cres_bind].
  destruct (debug_calls _ _) as [log|]; [|done]. cbn [mbind cres_bind].
  destruct ret; try (intros Hr; apply (inj Ok), pair_eq in Hr as [Hr _]; by apply (inj Some) in Hr as <-).
  - unfold forward. destruct (rz_host res) as [rh|]; [|done]. destruct (rz_path res) as [rp|]; [|done].
    destruct (rz_target res) as [t|]; [|done]. cbn [deref mbind cres_bind].
    match goal with |- context [mbind _ (if ?b then ?x else ?y)] => destruct (if b then x else y) as [host|]; [|done] end.
    cbn [mbind cres_bind]. destruct (cache_calls _ _ _ _) as [[cache can]|]; [|done]. cbn [mbind cres_bind].
    intros Hr; apply (inj Ok), pair_eq in Hr as [Hr _]. apply (inj Some) in Hr as <-. split; [done|].
    unfold done_init. cbn [rq_comp_state]. destruct (rp_compress rp); [|done]. unfold tsi_compress. by case_bool_decide.
  - destruct (rz_status_text res); [|done]. cbn [deref mbind cres_bind].
    intros Hr; apply (inj Ok), pair_eq in Hr as [Hr _]. by apply (inj Some) in Hr as <-.
Qed.

(** * Properties *)

(** C10. The life of a request context: whatever events Traffic Server delivers
    between the remapping and the close of the transaction, and wherever the
    transformation of the body starts, each event returns and resumes the
    transaction exactly once; nothing is freed before the close; and the close
    frees the context, its continuation and the encoder that was set up, each
    exactly once, and the transformation that was installed last.  If one was
    installed before, because the response header was read more than once, as
    when a redirection is followed, it is not freed ([transform_leaked]).  It is
    assumed that the fields Via, Server, Vary, Content-Encoding and
    X-Cache-Status can be created where they are missing, since the code uses
    the handle without looking at the result of the call; the fields it does
    check may fail. *)
Theorem txn_lifecycle (xfp : bool) db txn (rand : Z) rctx acts (pl : plugin) (stages : list stage) (ex : exchange) :
  creates_unchecked → handle_remap xfp db txn rand = Ok (Some rctx, acts) → Forall (λ st, stage_live st = true) stages →
  ∃ req pre post,
    txn_run pl (Some rctx) stages = Ok (Some req, pre) ∧
    txn_run pl (Some rctx) (stages ++ [Hook TS_EVENT_HTTP_TXN_CLOSE ex]) = Ok (None, pre ++ post) ∧
    times TxnReenable pre = hooks stages ∧ times TxnReenable post = 1%nat ∧
    (∀ c, c = TransformDestroy ∨ c = EncoderFree ∨ c = CtxFree ∨ c = TSContDestroy → times c pre = 0%nat) ∧
    times CtxFree post = 1%nat ∧ times TSContDestroy post = 1%nat ∧
    times TransformDestroy post = Nat.min 1 (times TransformHookAdd pre) ∧
    times EncoderFree post = times EncoderInit pre.
Proof.
  intros Hcr Hh Hl. destruct (handle_remap_ctx _ _ _ _ _ _ Hh) as [Ht0 Hd0].
  assert (Hok : ctx_ok rctx) by (intros Ht; congruence).
  destruct (txn_run_live pl stages rctx Hcr Hok Hl) as (req & pre & Hrun & _ & Hre & Hno & Ht & Hd).
  set (post := (if rq_compress_transform req then [TransformDestroy] else []) ++ request_ctx_free req ++ [TSContDestroy; TxnReenable]).
  exists req, pre, post. split; [done|]. split.
  { rewrite txn_run_app, Hrun. cbn [mbind cres_bind txn_run txn_step tsi_event]. by rewrite app_nil_r. }
  rewrite Ht0 in Ht. rewrite Hd0 in Hd. cbn [orb] in Ht. cbn [Nat.b2n Nat.add] in Hd.
  assert (Hpost : post = (if rq_compress_transform req then [TransformDestroy] else []) ++
    (if done_init req then [EncoderFree] else []) ++ [CtxFree; TSContDestroy; TxnReenable]).
  { unfold post, request_ctx_free, comp_state_free, done_init. destruct (rq_comp_state req) as [cs|]; [|done]. by rewrite <- app_assoc. }
  rewrite Hpost, <- Hd. split_and!; [done|..|by destruct (rq_compress_transform req), (done_init req)]; rewrite ?Ht;
    destruct (0 <? times TransformHookAdd pre)%nat eqn:E, (done_init req); try done;
    rewrite ?Nat.ltb_lt, ?Nat.ltb_ge in E; first [by rewrite Nat.min_l by lia|by replace (times TransformHookAdd pre) with 0%nat by lia].
Qed.

(** C21. The response that goes to the client: for every name of a field, what
    its fields are after the event.  The fields of the remap result are added;
    the first Via field, or a new one, gets the name of this server in front;
    the first Server field is replaced, or one is added; if there is an
    X-Next-Hop-Cache-Control field, the first one is taken out, and so is the
    first Cache-Control field, and a Cache-Control field with its values is
    added; the first Vary field, or a new one, names Accept-Encoding where the
    path compresses; the encoding of the transformation is added as
    Content-Encoding if there is one; the first X-Cache-Status field, or a new
    one, gets the status in front where the path caches; every other field is
    as it was.  Further Server, Cache-Control and X-Next-Hop-Cache-Control
    fields stay ([second_cache_control]), although docs/caching.md says the
    header is replaced.  A field of the remap result, or the new Cache-Control
    field, is left out if it cannot be created; that Via, Server, Vary,
    Content-Encoding and X-Cache-Status can be created where they are missing
    is assumed, since the code does not check. *)
Theorem send_response_headers (pl : plugin) (req : request_ctx) (ex : exchange) :
  creates_unchecked → ctx_ok req →
  ∃ h' hs cc log, tsi_event pl TS_EVENT_HTTP_SEND_RESPONSE_HDR (Some req) ex =
      Ok (Some req, set_client_resp ex h', log ++ [TxnReenable]) ∧
    Forall is_line log ∧ (rq_debug_log req = false → log = []) ∧
    created (hash_bindings (rq_response_headers req)) hs cc ∧ ∀ m, named h' m = response_result pl req ex hs cc m.
Proof. apply send_response. Qed.
End properties.

(** * Examples *)
Module Examples.
#[local] Existing Instance posix_literal.
#[local] Existing Instance posix_literal_laws.
#[local] Existing Instance openssl_list.
#[local] Existing Instance digests_pad.
#[local] Existing Instance mime_list.
#[local] Existing Instance mime_list_laws.
Import RemapDb.Examples TsRemap.Examples TsHeaders.Examples.

Lemma mime_creates : creates.
Proof. intros n h. by eexists. Qed.
Lemma mime_creates_unchecked : creates_unchecked.
Proof. intros n _. apply mime_creates. Qed.

Definition ex_plugin : plugin := plugin_init (lit "7.1.2") (lit "1.0") (Some (lit "ts0")).

Definition ex_exchange : exchange := {|
  ex_name := lit "0x7f00";
  ex_server_url := lit "http://10.2.0.1/shop";
  ex_server_status := 200;
  ex_server_reason := lit "OK";
  ex_client_status := 200;
  ex_client_reason := lit "OK";
  ex_server_req := mime_of [(lit "Accept-Encoding", [lit "gzip"])];
  ex_server_resp := Some (mime_of [(lit "Content-Type", [lit "text/css"])]);
  ex_cached_resp := None;
  ex_client_resp := mime_of [(lit "Content-Type", [lit "text/css"]); (lit "server", [lit "nginx"]); (lit "Cache-Control", [lit "private"]);
                             (lit "X-Next-Hop-Cache-Control", [lit "public"; lit "max-age=60"])];
  ex_cache_status := 0;
  ex_cache_gen := 3;
  ex_stack := [lit "h2"; lit "tls/1.2"];
  ex_tls := true;
|}.

Definition ex_stages : list stage :=
  [Hook TS_EVENT_HTTP_CACHE_LOOKUP_COMPLETE ex_exchange; Hook TS_EVENT_HTTP_SEND_REQUEST_HDR ex_exchange;
   Hook TS_EVENT_HTTP_READ_RESPONSE_HDR ex_exchange; Transform; Hook TS_EVENT_HTTP_SEND_RESPONSE_HDR ex_exchange; Transform].

Lemma txn_lifecycle_witness :
  ∃ rctx acts calls, handle_remap true (Some ex_db) ex_txn 7 = Ok (Some rctx, acts) ∧
    txn_run ex_plugin (Some rctx) (ex_stages ++ [Hook TS_EVENT_HTTP_TXN_CLOSE ex_exchange]) = Ok (None, calls) ∧
    times TxnReenable calls = 5%nat ∧ times CtxFree calls = 1%nat.
Proof.
  destruct (handle_remap_returns true ex_db ex_txn 7 ex_db_safe ex_hook_safe) as (rctx & acts & Hh & _);
    [by eexists|reflexivity|unfold RAND_MAX; lia|].
  destruct (txn_lifecycle true (Some ex_db) ex_txn 7 rctx acts ex_plugin ex_stages ex_exchange mime_creates_unchecked Hh)
    as (req & pre & post & _ & Hrun & Hpre & Hpost & Hno & Hfree & _); [by repeat constructor|].
  exists rctx, acts, (pre ++ post). split; [exact Hh|]. split; [exact Hrun|]. rewrite !times_app, Hpre, Hpost, Hfree, (Hno CtxFree) by tauto.
  split; reflexivity.
Defined.

(** A context whose response is compressed with gzip. *)
Definition ex_ctx (transform : bool) : request_ctx :=
  RequestCtx true (Some (CompState COMP_GZIP (hashset_of 127 [lit "text/css"]) false 0)) transform false true true false
    (hash_set (hash_new 127 true) (lit "X-Powered-By") (lit "Ingress")).

Lemma send_response_headers_witness :
  ∃ h', tsi_event ex_plugin TS_EVENT_HTTP_SEND_RESPONSE_HDR (Some (ex_ctx true)) ex_exchange =
          Ok (Some (ex_ctx true), set_client_resp ex_exchange h', [TxnReenable]) ∧
    named h' (lit "Server") = [[lit "ATS/7.1.2 Ingress/1.0"]] ∧ named h' (lit "Via") = [[lit "h2 ts0 (ATS/7.1.2 Ingress/1.0)"]] ∧
    named h' (lit "Cache-Control") = [[lit "public"; lit "max-age=60"]] ∧ named h' (lit "Content-Encoding") = [[lit "gzip"]] ∧
    named h' (lit "Vary") = [[lit "Accept-Encoding"]] ∧ named h' (lit "X-Cache-Status") = [[lit "miss (3)"]] ∧
    named h' (lit "x-powered-by") = [[lit "Ingress"]] ∧ named h' (lit "X-Next-Hop-Cache-Control") = [].
Proof.
  destruct (send_response_headers ex_plugin (ex_ctx true) ex_exchange mime_creates_unchecked)
    as (h' & hs & cc & log & Hs & _ & Hoff & Hmade & Hn); [by eexists|].
  destruct (created_all _ _ _ Hmade mime_creates) as [-> ->]. rewrite (Hoff eq_refl) in Hs.
  exists h'. split; [exact Hs|]. rewrite !Hn. vm_compute. repeat split.
Defined.

(** Only the first Cache-Control field gives way to the one for clients. *)
Example second_cache_control :
  match next_hop_cache_control (mime_of [(lit "Cache-Control", [lit "private"]); (lit "Cache-Control", [lit "no-store"]);
                                         (lit "X-Next-Hop-Cache-Control", [lit "public"])]) with
  | Ok h => named h CACHE_CONTROL = [[lit "no-store"]; [lit "public"]]
  | Fault _ => False
  end.
Proof. vm_compute. reflexivity. Qed.

(** When the response header is read twice, as when a redirection is followed,
    a second transformation is installed and only one is destroyed. *)
Example transform_leaked :
  match txn_run ex_plugin (Some (ex_ctx false)) [Hook TS_EVENT_HTTP_READ_RESPONSE_HDR ex_exchange;
          Hook TS_EVENT_HTTP_READ_RESPONSE_HDR ex_exchange; Hook TS_EVENT_HTTP_TXN_CLOSE ex_exchange] with
  | Ok (_, calls) => times TransformHookAdd calls = 2%nat ∧ times TransformDestroy calls = 1%nat
  | Fault _ => False
  end.
Proof. vm_compute. split; reflexivity. Qed.

(** Only the first Accept-Encoding field is taken out of the request. *)
Example second_accept_encoding :
  named (comp_remove_aenc (mime_of [(lit "Accept-Encoding", [lit "gzip"]); (lit "Accept-Encoding", [lit "br"])])) (lit "Accept-Encoding")
    = [[lit "br"]].
Proof. vm_compute. reflexivity. Qed.
End Examples.
