(* ===== verification/Stream.v ===== *)
(** [tsapi/compress.c]: the transformation that compresses the body of a
    response, between the buffers of Traffic Server and the encoders zlib and
    brotli.

    The encoders are interfaces: the calls as classes of operations, their
    documented behaviour as classes of laws.  Blocks of a Traffic Server buffer
    are lists of bytes. *)

From S2P Require Import Prelude CString Hash Env RemapPath Crypt RemapDb Compress.

Local Open Scope Z_scope.

(** * Interfaces *)
Inductive z_flush := Z_NO_FLUSH | Z_FINISH.
Inductive z_ret := Z_OK | Z_STREAM_END | Z_BUF_ERROR | Z_STREAM_ERROR.

#[global] Instance z_ret_eq_dec : EqDecision z_ret.
Proof. solve_decision. Defined.

(** [deflate] with the input and the room for output: the stream, the number of
    bytes consumed, the output and the code. *)
Class ZlibFns := {
  z_stream : Type;
  deflateInit2 : Z → Z → z_stream;
  deflate : z_stream → z_flush → bytes → nat → z_stream * nat * bytes * z_ret;
}.

Inductive br_op := BROTLI_OPERATION_PROCESS | BROTLI_OPERATION_FINISH.

Class BrotliFns := {
  br_stream : Type;
  BrotliEncoderCreateInstance : br_stream;
  BrotliEncoderSetQuality : br_stream → Z → br_stream;
  BrotliEncoderCompressStream : br_stream → br_op → bytes → nat → br_stream * nat * bytes;
  BrotliEncoderHasMoreOutput : br_stream → bool;
}.

(** The space of the block [TSIOBufferStart] returns for a buffer with the given
    contents. *)
Class TsIo := { write_avail : bytes → nat }.
Class TsIoLaws `{TsIo} := { write_avail_pos b : (0 < write_avail b)%nat }.

(** What a stream was given and what it wrote ([z_in], [z_out]), and a bound on
    what it may still write: [z_bound] for what it holds back, [z_rate] for each
    byte of input. *)
Class ZlibLaws `{ZlibFns} := {
  z_bits : z_stream → Z;
  z_in : z_stream → bytes;
  z_out : z_stream → bytes;
  z_bound : z_stream → nat;
  z_rate : nat;
  z_accepting : z_stream → Prop;
  z_valid : z_stream → Prop;
  z_decode : Z → bytes → option bytes;
  z_accepting_valid z : z_accepting z → z_valid z;
  deflateInit2_new level bits : let z := deflateInit2 level bits in
    z_accepting z ∧ z_bits z = bits ∧ z_in z = [] ∧ z_out z = [];
  (* it consumes some of the input, writes into the room, and expands by a
     bounded factor *)
  deflate_step z flush inp room z' n out ret :
    deflate z flush inp room = (z', n, out, ret) → z_valid z → (flush = Z_NO_FLUSH → z_accepting z) →
    (n ≤ length inp)%nat ∧ (length out ≤ room)%nat ∧ z_bits z' = z_bits z ∧
    z_in z' = z_in z ++ take n inp ∧ z_out z' = z_out z ++ out ∧
    (z_bound z' + length out ≤ z_bound z + z_rate * n)%nat;
  (* compresses until the input is empty or the output full; Z_BUF_ERROR when
     no progress is possible *)
  deflate_no_flush z inp room z' n out ret :
    deflate z Z_NO_FLUSH inp room = (z', n, out, ret) → z_accepting z → (0 < room)%nat →
    z_accepting z' ∧ (ret = Z_OK ∧ (n ≠ 0%nat ∨ out ≠ []) ∨ ret = Z_BUF_ERROR ∧ inp = [] ∧ out = []);
  (* writes until Z_STREAM_END, when the output is a complete stream *)
  deflate_finish z room z' n out ret :
    deflate z Z_FINISH [] room = (z', n, out, ret) → z_valid z → (0 < room)%nat →
    ret = Z_STREAM_END ∧ z_decode (z_bits z') (z_out z') = Some (z_in z') ∨
    ret = Z_OK ∧ out ≠ [] ∧ z_valid z';
}.

Class BrotliLaws `{BrotliFns} := {
  br_in : br_stream → bytes;
  br_out : br_stream → bytes;
  br_bound : br_stream → nat;
  br_rate : nat;
  br_accepting : br_stream → Prop;
  br_valid : br_stream → Prop;
  br_decode : bytes → option bytes;
  br_accepting_valid b : br_accepting b → br_valid b;
  br_new q : let b := BrotliEncoderSetQuality BrotliEncoderCreateInstance q in br_accepting b ∧ br_in b = [] ∧ br_out b = [];
  br_step b op inp room b' n out :
    BrotliEncoderCompressStream b op inp room = (b', n, out) → br_valid b → (op = BROTLI_OPERATION_PROCESS → br_accepting b) →
    (n ≤ length inp)%nat ∧ (length out ≤ room)%nat ∧ br_in b' = br_in b ++ take n inp ∧ br_out b' = br_out b ++ out ∧
    (br_bound b' + length out ≤ br_bound b + br_rate * n)%nat;
  br_process b inp room b' n out :
    BrotliEncoderCompressStream b BROTLI_OPERATION_PROCESS inp room = (b', n, out) → br_accepting b →
    (0 < room)%nat → inp ≠ [] → br_accepting b' ∧ (n ≠ 0%nat ∨ out ≠ []);
  br_finished b room b' n out :
    BrotliEncoderCompressStream b BROTLI_OPERATION_FINISH [] room = (b', n, out) → br_valid b → (0 < room)%nat →
    br_valid b' ∧ if BrotliEncoderHasMoreOutput b' then out ≠ [] else br_decode (br_out b') = Some (br_in b');
}.

(** * Data *)

(** The encoder of a compression state, the union of [comp_state_t]. *)
Inductive enc_state `{ZlibFns} `{BrotliFns} := EncZlib (z : z_stream) | EncBrotli (b : br_stream).

(** The transformation: the compression state, its encoder once it is set up,
    the contents of the output buffer and the length [TSVIONBytesSet] gave. *)
Record transform `{ZlibFns} `{BrotliFns} := TransformState {
  tr_cs : comp_state;
  tr_enc : option enc_state;
  tr_out : bytes;
  tr_nbytes : option Z;
}.

(** The input VIO: its buffer may be gone; the blocks that can be read, the
    number of bytes to expect and the number done. *)
Record vio := Vio {
  vio_buffer : bool;
  vio_blocks : list bytes;
  vio_nbytes : Z;
  vio_ndone : Z;
}.
Definition vio_ntodo (v : vio) : Z := vio_nbytes v - vio_ndone v.

Inductive tr_event := TS_EVENT_ERROR | TS_EVENT_VCONN_WRITE_COMPLETE | TS_EVENT_VCONN_WRITE_READY
  | TS_EVENT_IMMEDIATE | TS_EVENT_UNKNOWN (code : Z).

(** Calls to the input's continuation and on the output. *)
Inductive tr_call := InputCall (event : tr_event) | OutputReenable | OutputShutdown.

#[global] Instance tr_event_eq_dec : EqDecision tr_event.
Proof. solve_decision. Defined.
#[global] Instance tr_call_eq_dec : EqDecision tr_call.
Proof. solve_decision. Defined.

(** * Operations *)
Section ops.
Context `{Zf : ZlibFns} `{Bf : BrotliFns} `{Io : TsIo}.
Implicit Types (t : transform).

(** ** The encoders.  A result is the encoder, the output buffer and [written];
    a loop that does not end within [fuel] rounds is a fault. *)
Fixpoint gzip_produce (fuel : nat) (z : z_stream) (inp obuf : bytes) (written : Z) : cres (z_stream * bytes * Z) :=
  match fuel with
  | O => Fault Diverges
  | S fuel =>
      let '(z, n, out, ret) := deflate z Z_NO_FLUSH inp (write_avail obuf) in
      let obuf := obuf ++ out in
      let written := written + Z.of_nat (length out) in
      if bool_decide (ret = Z_OK) then gzip_produce fuel z (drop n inp) obuf written else Ok (z, obuf, written)
  end.

Fixpoint gzip_finish (fuel : nat) (z : z_stream) (obuf : bytes) (written : Z) : cres (z_stream * bytes * Z) :=
  match fuel with
  | O => Fault Diverges
  | S fuel =>
      let '(z, _, out, ret) := deflate z Z_FINISH [] (write_avail obuf) in
      let obuf := obuf ++ out in
      let written := written + Z.of_nat (length out) in
      if bool_decide (ret = Z_OK ∨ ret = Z_BUF_ERROR) then gzip_finish fuel z obuf written else Ok (z, obuf, written)
  end.

Fixpoint br_produce (fuel : nat) (b : br_stream) (inp obuf : bytes) (written : Z) : cres (br_stream * bytes * Z) :=
  if bool_decide (inp = []) then Ok (b, obuf, written)
  else match fuel with
       | O => Fault Diverges
       | S fuel =>
           let '(b, n, out) := BrotliEncoderCompressStream b BROTLI_OPERATION_PROCESS inp (write_avail obuf) in
           br_produce fuel b (drop n inp) (obuf ++ out) (written + Z.of_nat (length out))
       end.

Fixpoint br_finish (fuel : nat) (b : br_stream) (obuf : bytes) (written : Z) : cres (br_stream * bytes * Z) :=
  match fuel with
  | O => Fault Diverges
  | S fuel =>
      let '(b, _, out) := BrotliEncoderCompressStream b BROTLI_OPERATION_FINISH [] (write_avail obuf) in
      let obuf := obuf ++ out in
      let written := written + Z.of_nat (length out) in
      if BrotliEncoderHasMoreOutput b then br_finish fuel b obuf written else Ok (b, obuf, written)
  end.

(** The callbacks [compress_init] installs for a type: [cs_init], and
    [cs_produce] and [cs_finish] on the encoder it made. *)
Definition enc_init (e : encoder) : enc_state :=
  match e with
  | Zlib level bits => EncZlib (deflateInit2 level bits)
  | Brotli q => EncBrotli (BrotliEncoderSetQuality BrotliEncoderCreateInstance q)
  end.

Definition cs_produce (fuel : nat) (e : enc_state) (inp obuf : bytes) : cres (enc_state * bytes * Z) :=
  match e with
  | EncZlib z => '(z, obuf, written) ← gzip_produce fuel z inp obuf 0; Ok (EncZlib z, obuf, written)
  | EncBrotli b => '(b, obuf, written) ← br_produce fuel b inp obuf 0; Ok (EncBrotli b, obuf, written)
  end.

Definition cs_finish (fuel : nat) (e : enc_state) (obuf : bytes) : cres (enc_state * bytes * Z) :=
  match e with
  | EncZlib z => '(z, obuf, written) ← gzip_finish fuel z obuf 0; Ok (EncZlib z, obuf, written)
  | EncBrotli b => '(b, obuf, written) ← br_finish fuel b obuf 0; Ok (EncBrotli b, obuf, written)
  end.

(** ** The transformation *)
Definition set_output (cs : comp_state) (done : bool) (len : Z) : comp_state := CompState (cs_type cs) (cs_types cs) done len.

Definition compress_init t : transform :=
  TransformState _ _ (set_output (tr_cs t) true (cs_output_len (tr_cs t))) (enc_init <$> encoder_of (tr_cs t)) [] (tr_nbytes t).

(** After a callback: its output and [cs_output_len += written]. *)
Definition after_callback t (r : enc_state * bytes * Z) : transform :=
  let '(e, obuf, written) := r in
  TransformState _ _ (set_output (tr_cs t) (cs_done_init (tr_cs t)) (cs_output_len (tr_cs t) + written)) (Some e) obuf (tr_nbytes t).

(** The loop over the input: [TSIOBufferReaderStart] returns the first block
    with data. *)
Fixpoint read_blocks (fuel : nat) (blocks : list bytes) (toread ndone : Z) t : cres (transform * Z * Z) :=
  match blocks with
  | [] => Ok (t, toread, ndone)
  | [] :: blocks => read_blocks fuel blocks toread ndone t
  | inbuf :: blocks =>
      e ← deref (tr_enc t);
      r ← cs_produce fuel e inbuf (tr_out t);
      let inbuflen := Z.of_nat (length inbuf) in
      read_blocks fuel blocks (toread - inbuflen) (ndone + inbuflen) (after_callback t r)
  end.

Definition compress_do (fuel : nat) t (v : vio) : cres (transform * vio * list tr_call) :=
  let t := if cs_done_init (tr_cs t) then t else compress_init t in
  if negb (vio_buffer v) then
    e ← deref (tr_enc t);
    r ← cs_finish fuel e (tr_out t);
    let t := after_callback t r in
    Ok (TransformState _ _ (tr_cs t) (tr_enc t) (tr_out t) (Some (cs_output_len (tr_cs t))), v, [OutputReenable])
  else
    '(t, toread, ndone) ← read_blocks fuel (vio_blocks v) (vio_ntodo v) (vio_ndone v) t;
    Ok (t, Vio true [] (vio_nbytes v) ndone,
        [InputCall (if toread =? 0 then TS_EVENT_VCONN_WRITE_COMPLETE else TS_EVENT_VCONN_WRITE_READY); OutputReenable]).

(** [transform_event]; an error is passed on to the input, which is only known
    once the state was initialised. *)
Definition transform_event (fuel : nat) (closed : bool) (event : tr_event) t (v : vio) : cres (transform * vio * list tr_call) :=
  if closed then Ok (t, v, [])
  else match event with
       | TS_EVENT_ERROR => if cs_done_init (tr_cs t) then Ok (t, v, [InputCall TS_EVENT_ERROR]) else Fault NullDeref
       | TS_EVENT_VCONN_WRITE_COMPLETE => Ok (t, v, [OutputShutdown])
       | TS_EVENT_VCONN_WRITE_READY | TS_EVENT_IMMEDIATE => compress_do fuel t v
       | TS_EVENT_UNKNOWN _ => Fault AssertFail
       end.

(** The events of a response, in order. *)
Fixpoint transform_run (fuel : nat) t (evs : list (tr_event * vio)) : cres (transform * list tr_call) :=
  match evs with
  | [] => Ok (t, [])
  | (event, v) :: evs =>
      '(t, _, calls) ← transform_event fuel false event t v;
      '(t, rest) ← transform_run fuel t evs;
      Ok (t, calls ++ rest)
  end.
End ops.

(** * Lemmas *)
Section lemmas.
Context `{ZL : ZlibLaws} `{BL : BrotliLaws} `{IL : TsIoLaws}.
Implicit Types (t : transform).

(** ** The loops around the encoders end, with the input consumed *)
Lemma gzip_produce_spec m z inp obuf written :
  z_accepting z → (z_bound z + (z_rate + 1) * length inp < m)%nat →
  ∃ z' out, z_accepting z' ∧ z_bits z' = z_bits z ∧ z_in z' = z_in z ++ inp ∧ z_out z' = z_out z ++ out ∧
    ∀ fuel, (m ≤ fuel)%nat → gzip_produce fuel z inp obuf written = Ok (z', obuf ++ out, written + Z.of_nat (length out)).
Proof.
  revert z inp obuf written. induction m as [|m IH]; intros z inp obuf written Ha Hm; [lia|].
  destruct (deflate z Z_NO_FLUSH inp (write_avail obuf)) as [[[z1 n] out] ret] eqn:E.
  destruct (deflate_step _ _ _ _ _ _ _ _ E) as (Hn & _ & Hb & Hi & Ho & Hbd); [by apply z_accepting_valid|done|].
  destruct (deflate_no_flush _ _ _ _ _ _ _ E Ha (write_avail_pos _)) as (Ha1 & [[-> Hprog]|(-> & -> & ->)]).
  - assert (Hlt : (z_bound z1 + (z_rate + 1) * length (drop n inp) < m)%nat).
    { rewrite length_drop. assert (0 < n + length out)%nat by (destruct Hprog, out; simpl; (done || lia)). nia. }
    destruct (IH z1 (drop n inp) (obuf ++ out) (written + Z.of_nat (length out)) Ha1 Hlt) as (z' & out' & Ha' & Hb' & Hi' & Ho' & Hrun).
    exists z', (out ++ out'). split_and!; [done|congruence|by rewrite Hi', Hi, <- app_assoc, take_drop|by rewrite Ho', Ho, app_assoc|].
    intros [|fuel] Hf; [lia|]. cbn [gzip_produce]. rewrite E, bool_decide_true by done. rewrite Hrun by lia.
    by rewrite length_app, Nat2Z.inj_add, app_assoc, Z.add_assoc.
  - rewrite take_nil in Hi. exists z1, []. split_and!; [done..|]. intros [|fuel] Hf; [lia|]. cbn [gzip_produce]. by rewrite E, bool_decide_false.
Qed.

Lemma gzip_finish_spec m z obuf written :
  z_valid z → (z_bound z < m)%nat →
  ∃ z' out, z_decode (z_bits z) (z_out z ++ out) = Some (z_in z) ∧
    ∀ fuel, (m ≤ fuel)%nat → gzip_finish fuel z obuf written = Ok (z', obuf ++ out, written + Z.of_nat (length out)).
Proof.
  revert z obuf written. induction m as [|m IH]; intros z obuf written Ha Hm; [lia|].
  destruct (deflate z Z_FINISH [] (write_avail obuf)) as [[[z1 n] out] ret] eqn:E.
  destruct (deflate_step _ _ _ _ _ _ _ _ E) as (Hn & _ & Hb & Hi & Ho & Hbd); [done..|].
  cbn [length] in Hn. replace n with 0%nat in * by lia. rewrite take_nil, app_nil_r in Hi.
  destruct (deflate_finish _ _ _ _ _ _ E Ha (write_avail_pos _)) as [[-> Hd]|(-> & Hne & Hv)].
  - exists z1, out. split; [by rewrite <- Ho, <- Hb, <- Hi|]. intros [|fuel] Hf; [lia|]. cbn [gzip_finish].
    by rewrite E, bool_decide_false by naive_solver.
  - destruct (IH z1 (obuf ++ out) (written + Z.of_nat (length out)) Hv) as (z' & out' & Hd & Hrun); [destruct out; simpl in *; (done || lia)|].
    exists z', (out ++ out'). split; [by rewrite app_assoc, <- Ho, <- Hb, <- Hi|].
    intros [|fuel] Hf; [lia|]. cbn [gzip_finish]. rewrite E, bool_decide_true by naive_solver. rewrite Hrun by lia.
    by rewrite length_app, Nat2Z.inj_add, app_assoc, Z.add_assoc.
Qed.

Lemma br_produce_spec m b inp obuf written :
  br_accepting b → (br_bound b + (br_rate + 1) * length inp < m)%nat →
  ∃ b' out, br_accepting b' ∧ br_in b' = br_in b ++ inp ∧ br_out b' = br_out b ++ out ∧
    ∀ fuel, (m ≤ fuel)%nat → br_produce fuel b inp obuf written = Ok (b', obuf ++ out, written + Z.of_nat (length out)).
Proof.
  revert b inp obuf written. induction m as [|m IH]; intros b inp obuf written Ha Hm; [lia|].
  destruct (decide (inp = [])) as [->|Hne].
  { exists b, []. rewrite !app_nil_r. split_and!; [done..|]. intros [|fuel] _; cbn; by rewrite Z.add_0_r. }
  destruct (BrotliEncoderCompressStream b BROTLI_OPERATION_PROCESS inp (write_avail obuf)) as [[b1 n] out] eqn:E.
  destruct (br_step _ _ _ _ _ _ _ E) as (Hn & _ & Hi & Ho & Hbd); [by apply br_accepting_valid|done|].
  destruct (br_process _ _ _ _ _ _ E Ha (write_avail_pos _) Hne) as (Ha1 & Hprog).
  assert (Hlt : (br_bound b1 + (br_rate + 1) * length (drop n inp) < m)%nat).
  { rewrite length_drop. assert (0 < n + length out)%nat by (destruct Hprog, out; simpl; (done || lia)). nia. }
  destruct (IH b1 (drop n inp) (obuf ++ out) (written + Z.of_nat (length out)) Ha1 Hlt) as (b' & out' & Ha' & Hi' & Ho' & Hrun).
  exists b', (out ++ out'). split_and!; [done|by rewrite Hi', Hi, <- app_assoc, take_drop|by rewrite Ho', Ho, app_assoc|].
  intros [|fuel] Hf; [lia|]. cbn [br_produce]. rewrite bool_decide_false, E by done. rewrite Hrun by lia.
  by rewrite length_app, Nat2Z.inj_add, app_assoc, Z.add_assoc.
Qed.

Lemma br_finish_spec m b obuf written :
  br_valid b → (br_bound b < m)%nat →
  ∃ b' out, br_decode (br_out b ++ out) = Some (br_in b) ∧
    ∀ fuel, (m ≤ fuel)%nat → br_finish fuel b obuf written = Ok (b', obuf ++ out, written + Z.of_nat (length out)).
Proof.
  revert b obuf written. induction m as [|m IH]; intros b obuf written Ha Hm; [lia|].
  destruct (BrotliEncoderCompressStream b BROTLI_OPERATION_FINISH [] (write_avail obuf)) as [[b1 n] out] eqn:E.
  destruct (br_step _ _ _ _ _ _ _ E) as (Hn & _ & Hi & Ho & Hbd); [done..|].
  cbn [length] in Hn. replace n with 0%nat in * by lia. rewrite take_nil, app_nil_r in Hi.
  destruct (br_finished _ _ _ _ _ E Ha (write_avail_pos _)) as [Hv Hd].
  destruct (BrotliEncoderHasMoreOutput b1) eqn:Em.
  - destruct (IH b1 (obuf ++ out) (written + Z.of_nat (length out)) Hv) as (b' & out' & Hd' & Hrun); [destruct out; simpl in *; (done || lia)|].
    exists b', (out ++ out'). split; [by rewrite app_assoc, <- Ho, <- Hi|].
    intros [|fuel] Hf; [lia|]. cbn [br_finish]. rewrite E, Em, Hrun by lia.
    by rewrite length_app, Nat2Z.inj_add, app_assoc, Z.add_assoc.
  - exists b1, out. split; [by rewrite <- Ho, <- Hi|]. intros [|fuel] Hf; [lia|]. cbn [br_finish]. by rewrite E, Em.
Qed.

(** ** What an encoder promises, whichever it is *)

(** An encoder of kind [d] that was given [fed] and wrote [out]. *)
Definition enc_ok (e : enc_state) (d : encoder) (fed out : bytes) : Prop :=
  match e, d with
  | EncZlib z, Zlib _ bits => z_accepting z ∧ z_bits z = bits ∧ z_in z = fed ∧ z_out z = out
  | EncBrotli b, Brotli _ => br_accepting b ∧ br_in b = fed ∧ br_out b = out
  | _, _ => False
  end.

(** The stream [out] decodes to [data]. *)
Definition decodes (d : encoder) (out data : bytes) : Prop :=
  match d with Zlib _ bits => z_decode bits out = Some data | Brotli _ => br_decode out = Some data end.

Lemma enc_init_ok d : enc_ok (enc_init d) d [] [].
Proof. destruct d as [level bits|q]; [apply (deflateInit2_new level bits)|apply (br_new q)]. Qed.

Lemma cs_produce_ok e d fed out inp obuf :
  enc_ok e d fed out →
  ∃ m e' o, enc_ok e' d (fed ++ inp) (out ++ o) ∧
    ∀ fuel, (m ≤ fuel)%nat → cs_produce fuel e inp obuf = Ok (e', obuf ++ o, Z.of_nat (length o)).
Proof.
  destruct e as [z|b], d as [level bits|q]; try done; cbn [enc_ok cs_produce].
  - intros (Ha & Hb & <- & <-). destruct (gzip_produce_spec (S (z_bound z + (z_rate + 1) * length inp)) z inp obuf 0 Ha)
      as (z' & o & Ha' & Hb' & Hi & Ho & Hrun); [lia|]. eexists _, (EncZlib z'), o. split; [split_and!; [done|congruence|done..]|].
    intros fuel Hf. by rewrite Hrun.
  - intros (Ha & <- & <-). destruct (br_produce_spec (S (br_bound b + (br_rate + 1) * length inp)) b inp obuf 0 Ha)
      as (b' & o & Ha' & Hi & Ho & Hrun); [lia|]. eexists _, (EncBrotli b'), o. split; [done|].
    intros fuel Hf. by rewrite Hrun.
Qed.

Lemma cs_finish_ok e d fed out obuf :
  enc_ok e d fed out →
  ∃ m e' o, decodes d (out ++ o) fed ∧
    ∀ fuel, (m ≤ fuel)%nat → cs_finish fuel e obuf = Ok (e', obuf ++ o, Z.of_nat (length o)).
Proof.
  destruct e as [z|b], d as [level bits|q]; try done; cbn [enc_ok cs_finish decodes].
  - intros (Ha & <- & <- & <-). destruct (gzip_finish_spec (S (z_bound z)) z obuf 0) as (z' & o & Hd & Hrun); [by apply z_accepting_valid|lia|].
    eexists _, (EncZlib z'), o. split; [done|]. intros fuel Hf. by rewrite Hrun.
  - intros (Ha & <- & <-). destruct (br_finish_spec (S (br_bound b)) b obuf 0) as (b' & o & Hd & Hrun); [by apply br_accepting_valid|lia|].
    eexists _, (EncBrotli b'), o. split; [done|]. intros fuel Hf. by rewrite Hrun.
Qed.

(** ** The transformation *)

(** A transformation that was given [fed]. *)
Record tr_live t (d : encoder) (fed : bytes) : Prop := {
  tl_init : cs_done_init (tr_cs t) = true;
  tl_enc : ∃ e, tr_enc t = Some e ∧ enc_ok e d fed (tr_out t);
  tl_len : cs_output_len (tr_cs t) = Z.of_nat (length (tr_out t));
}.

Lemma compress_init_live t d :
  encoder_of (tr_cs t) = Some d → cs_output_len (tr_cs t) = 0 → tr_live (compress_init t) d [].
Proof. intros He Hl. split; [done| |done]. exists (enc_init d). split; [cbn; by rewrite He|apply enc_init_ok]. Qed.

Lemma read_blocks_ok blocks t d fed toread ndone :
  tr_live t d fed →
  ∃ m t', tr_live t' d (fed ++ concat blocks) ∧ ∀ fuel, (m ≤ fuel)%nat →
    read_blocks fuel blocks toread ndone t =
      Ok (t', toread - Z.of_nat (length (concat blocks)), ndone + Z.of_nat (length (concat blocks))).
Proof.
  revert t fed toread ndone. induction blocks as [|blk blocks IH]; intros t fed toread ndone Ht.
  { exists 0%nat, t. rewrite app_nil_r. split; [done|]. intros fuel _. cbn. by rewrite Z.sub_0_r, Z.add_0_r. }
  destruct blk as [|c blk]; [apply (IH t fed toread ndone Ht)|]. set (inp := c :: blk).
  destruct (tl_enc _ _ _ Ht) as (e & He & Hok).
  destruct (cs_produce_ok e d fed (tr_out t) inp (tr_out t) Hok) as (m1 & e' & o & Hok' & Hrun).
  set (t1 := after_callback t (e', tr_out t ++ o, Z.of_nat (length o))).
  destruct (IH t1 (fed ++ inp) (toread - Z.of_nat (length inp)) (ndone + Z.of_nat (length inp))) as (m2 & t' & Ht' & Hrest).
  { split; [apply (tl_init _ _ _ Ht)|by exists e'|]. cbn. rewrite (tl_len _ _ _ Ht), length_app. lia. }
  exists (Nat.max m1 m2), t'. split; [cbn [concat]; by rewrite app_assoc|]. intros fuel Hf.
  change (read_blocks fuel (inp :: blocks) toread ndone t) with
    (e ← deref (tr_enc t); r ← cs_produce fuel e inp (tr_out t);
     read_blocks fuel blocks (toread - Z.of_nat (length inp)) (ndone + Z.of_nat (length inp)) (after_callback t r)).
  rewrite He. cbn [deref mbind cres_bind]. rewrite Hrun by lia. cbn [mbind cres_bind]. fold t1. rewrite Hrest by lia.
  cbn [concat]. rewrite length_app, Nat2Z.inj_add, Z.sub_add_distr, Z.add_assoc. done.
Qed.

(** The state before the first event, or one that was given [fed]. *)
Definition tr_ready t (d : encoder) (fed : bytes) : Prop :=
  tr_live t d fed ∨ cs_done_init (tr_cs t) = false ∧ encoder_of (tr_cs t) = Some d ∧ cs_output_len (tr_cs t) = 0 ∧ fed = [].

Lemma ready_init t d fed :
  tr_ready t d fed → tr_live (if cs_done_init (tr_cs t) then t else compress_init t) d fed.
Proof.
  intros [Ht|(Hd & He & Hl & ->)]; [by rewrite (tl_init _ _ _ Ht)|]. rewrite Hd. by apply compress_init_live.
Qed.

(** The calls for a VIO with data. *)
Definition data_calls (v : vio) : list tr_call :=
  [InputCall (if vio_ntodo v =? Z.of_nat (length (concat (vio_blocks v))) then TS_EVENT_VCONN_WRITE_COMPLETE
              else TS_EVENT_VCONN_WRITE_READY); OutputReenable].

Lemma compress_do_data t d fed v :
  tr_ready t d fed → vio_buffer v = true →
  ∃ m t', tr_live t' d (fed ++ concat (vio_blocks v)) ∧ ∀ fuel, (m ≤ fuel)%nat →
    compress_do fuel t v =
      Ok (t', Vio true [] (vio_nbytes v) (vio_ndone v + Z.of_nat (length (concat (vio_blocks v)))), data_calls v).
Proof.
  intros Ht%ready_init Hv. unfold compress_do. set (t1 := if cs_done_init (tr_cs t) then t else compress_init t) in *.
  destruct (read_blocks_ok (vio_blocks v) t1 d fed (vio_ntodo v) (vio_ndone v) Ht) as (m & t' & Ht' & Hrun).
  exists m, t'. split; [done|]. intros fuel Hf. rewrite Hv. cbn [negb]. rewrite Hrun by done. cbn [mbind cres_bind].
  unfold data_calls. do 4 f_equal. replace (_ - _ =? 0) with (vio_ntodo v =? Z.of_nat (length (concat (vio_blocks v)))); [done|].
  apply eq_true_iff_eq. rewrite !Z.eqb_eq. lia.
Qed.

Lemma compress_do_end t d fed v :
  tr_ready t d fed → vio_buffer v = false →
  ∃ m t', decodes d (tr_out t') fed ∧ tr_nbytes t' = Some (Z.of_nat (length (tr_out t'))) ∧
    ∀ fuel, (m ≤ fuel)%nat → compress_do fuel t v = Ok (t', v, [OutputReenable]).
Proof.
  intros Ht%ready_init Hv. unfold compress_do. set (t1 := if cs_done_init (tr_cs t) then t else compress_init t) in *.
  destruct (tl_enc _ _ _ Ht) as (e & He & Hok). destruct (cs_finish_ok e d fed (tr_out t1) (tr_out t1) Hok) as (m & e' & o & Hd & Hrun).
  eexists m, _. split; [|split; [|intros fuel Hf; rewrite Hv; cbn [negb]; rewrite He; cbn [deref mbind cres_bind];
    rewrite Hrun by done; reflexivity]]; cbn; [done|]. rewrite (tl_len _ _ _ Ht), length_app. f_equal. lia.
Qed.

(** An event that starts or continues the compression. *)
Definition starts (event : tr_event) : bool :=
  match event with TS_EVENT_VCONN_WRITE_READY | TS_EVENT_IMMEDIATE => true | _ => false end.
Definition data_event (ev : tr_event * vio) : bool := starts ev.1 && vio_buffer ev.2.
Definition body_of (evs : list (tr_event * vio)) : bytes := concat ((λ ev, concat (vio_blocks ev.2)) <$> evs).

Lemma transform_event_starts fuel event t v : starts event = true → transform_event fuel false event t v = compress_do fuel t v.
Proof. by destruct event. Qed.

Lemma transform_run_ok evs last t d fed :
  tr_ready t d fed → Forall (λ ev, data_event ev = true) evs → starts last.1 = true → vio_buffer last.2 = false →
  ∃ m t', decodes d (tr_out t') (fed ++ body_of evs) ∧ tr_nbytes t' = Some (Z.of_nat (length (tr_out t'))) ∧
    ∀ fuel, (m ≤ fuel)%nat →
      transform_run fuel t (evs ++ [last]) = Ok (t', concat ((λ ev, data_calls ev.2) <$> evs) ++ [OutputReenable]).
Proof.
  intros Ht Hevs Hl Hv. revert t fed Ht. induction Hevs as [|[event v] evs Hev _ IH]; intros t fed Ht.
  - destruct last as [event v]. destruct (compress_do_end t d fed v Ht Hv) as (m & t' & Hd & Hn & Hrun).
    exists m, t'. rewrite app_nil_r. split_and!; [done..|]. intros fuel Hf. cbn [app transform_run].
    rewrite transform_event_starts, Hrun by done. done.
  - apply andb_true_iff in Hev as [Hs Hb]. cbn [fst snd] in Hs, Hb.
    destruct (compress_do_data t d fed v Ht Hb) as (m1 & t1 & Ht1 & Hrun1).
    destruct (IH t1 (fed ++ concat (vio_blocks v)) (or_introl Ht1)) as (m2 & t' & Hd & Hn & Hrun2).
    exists (Nat.max m1 m2), t'. split_and!; [by rewrite <- app_assoc in Hd|done|]. intros fuel Hf. cbn [app transform_run].
    rewrite transform_event_starts, Hrun1 by (done || lia). cbn [mbind cres_bind]. rewrite Hrun2 by lia.
    cbn [mbind cres_bind fmap list_fmap concat]. by rewrite app_assoc.
Qed.
End lemmas.

(** * Properties *)
Section properties.
Context `{P : Posix} `{ZL : ZlibLaws} `{BL : BrotliLaws} `{IL : TsIoLaws}.

(** C11. The body of a compressed response: however the input is cut into events
    and blocks and whatever space the output blocks have, the transformation
    ends, and what it wrote is a complete stream, in the encoding the response
    is labelled with, that decodes to the bytes of the input in order; the
    length announced for the output is the number of bytes written; and the
    writer is told that its data is complete exactly when nothing is left to
    do. *)
Theorem stream_roundtrip (rp : remap_path) (aenc : option (list bytes)) (cs : comp_state) (evs : list (tr_event * vio)) (last : tr_event * vio) :
  tsi_compress rp aenc = Some cs → Forall (λ ev, data_event ev = true) evs → starts last.1 = true → vio_buffer last.2 = false →
  ∃ d m t', content_encoding cs = Some (stream_format d) ∧ decodes d (tr_out t') (body_of evs) ∧
    tr_nbytes t' = Some (Z.of_nat (length (tr_out t'))) ∧
    ∀ fuel, (m ≤ fuel)%nat → transform_run fuel (TransformState _ _ cs None [] None) (evs ++ [last]) =
      Ok (t', concat ((λ ev, data_calls ev.2) <$> evs) ++ [OutputReenable]).
Proof.
  intros Hc Hevs Hl Hv.
  assert (Hcs : cs_done_init cs = false ∧ cs_output_len cs = 0 ∧ ∃ d, encoder_of cs = Some d).
  { unfold tsi_compress in Hc. case_bool_decide as Hn; [done|]. apply (inj Some) in Hc as <-.
    unfold encoder_of. cbn [cs_done_init cs_output_len cs_type]. by destruct (request_can_compress aenc); eauto. }
  destruct Hcs as (Hd & Hlen & d & He). exists d.
  destruct (transform_run_ok evs last (TransformState _ _ cs None [] None) d []) as (m & t' & Hdec & Hn & Hrun); [by right|done..|].
  exists m, t'. split_and!; [|done..]. by rewrite <- encoder_format, He.
Qed.
End properties.

(** * Examples *)
Module Examples.
#[local] Existing Instance posix_literal.

(** An encoder that copies its input and holds back what does not fit. *)
Record store := Store { st_bits : Z; st_in : bytes; st_out : bytes; st_rest : bytes }.
Definition store_ok (z : store) : Prop := st_in z = st_out z ++ st_rest z.
Definition store_step (z : store) (inp : bytes) (room : nat) : store * bytes :=
  let all := st_rest z ++ inp in
  (Store (st_bits z) (st_in z ++ inp) (st_out z ++ take room all) (drop room all), take room all).

Lemma store_step_ok z inp room : store_ok z → store_ok (store_step z inp room).1.
Proof. unfold store_ok. cbn. intros ->. by rewrite <- !app_assoc, take_drop. Qed.

Lemma take_nonempty {A} room (l : list A) : (0 < room)%nat → take room l = [] → l = [].
Proof. destruct room, l; simpl; (done || lia). Qed.

#[local] Instance zlib_store : ZlibFns := {|
  z_stream := store;
  deflateInit2 _ bits := Store bits [] [] [];
  deflate z flush inp room :=
    let '(z', out) := store_step z inp room in
    (z', length inp, out,
     match flush with
     | Z_NO_FLUSH => if bool_decide (inp = [] ∧ out = []) then Z_BUF_ERROR else Z_OK
     | Z_FINISH => if bool_decide (st_rest z' = []) then Z_STREAM_END else Z_OK
     end);
|}.

#[local] Instance zlib_store_laws : ZlibLaws.
Proof.
  refine (Build_ZlibLaws zlib_store st_bits st_in st_out (λ z, length (st_rest z)) 1 store_ok store_ok (λ _ o, Some o) _ _ _ _ _).
  - done.
  - done.
  - intros z flush inp room z' n out ret [= <- <- <- _] _ _. rewrite firstn_all, length_take. cbn [st_rest st_bits st_in st_out].
    rewrite length_drop, length_app. split_and!; [done|lia|done..|]. lia.
  - intros z inp room z' n out ret [= <- <- <- <-] Ha Hr. split; [by apply (store_step_ok z inp room)|].
    case_bool_decide as Hn; [right; naive_solver|left; split; [done|]].
    destruct inp; [right; naive_solver|by left].
  - intros z room z' n out ret [= <- <- <- <-] Ha Hr. pose proof (store_step_ok z [] room Ha) as Hok.
    cbn [store_step fst st_rest] in *. unfold store_ok in Hok. cbn [st_in st_out st_rest] in *. case_bool_decide as Hn.
    + left. split; [done|]. cbn. f_equal. rewrite Hok, Hn. by rewrite (app_nil_r (_ ++ take _ _)).
    + right. split_and!; [done| |done]. intros Ht. apply Hn. apply take_nonempty in Ht as ->; [by rewrite drop_nil|done].
Defined.

#[local] Instance brotli_store : BrotliFns := {|
  br_stream := store;
  BrotliEncoderCreateInstance := Store 0 [] [] [];
  BrotliEncoderSetQuality b _ := b;
  BrotliEncoderCompressStream b op inp room := let '(b', out) := store_step b inp room in (b', length inp, out);
  BrotliEncoderHasMoreOutput b := bool_decide (st_rest b ≠ []);
|}.

#[local] Instance brotli_store_laws : BrotliLaws.
Proof.
  refine (Build_BrotliLaws brotli_store st_in st_out (λ b, length (st_rest b)) 1 store_ok store_ok (λ o, Some o) _ _ _ _ _).
  - done.
  - done.
  - intros b op inp room b' n out [= <- <- <-] _ _. rewrite firstn_all, length_take. cbn [st_rest st_in st_out].
    rewrite length_drop, length_app. split_and!; [done|lia|done..|]. lia.
  - intros b inp room b' n out [= <- <- <-] Ha Hr Hne. split; [by apply (store_step_ok b inp room)|]. left. by destruct inp.
  - intros b room b' n out [= <- <- <-] Ha Hr. pose proof (store_step_ok b [] room Ha) as Hok.
    cbn [store_step fst] in *. split; [done|]. unfold store_ok in Hok. cbn in *. case_bool_decide as Hn.
    + intros Ht. apply Hn. apply take_nonempty in Ht as ->; [by rewrite drop_nil|done].
    + f_equal. rewrite Hok, Hn. by rewrite (app_nil_r (_ ++ take _ _)).
Defined.

(** Output blocks of four bytes. *)
#[local] Instance io_four : TsIo := {| write_avail _ := 4%nat |}.
#[local] Instance io_four_laws : TsIoLaws.
Proof. split. intros b. cbn. lia. Qed.

Definition ex_events : list (tr_event * vio) :=
  [(TS_EVENT_IMMEDIATE, Vio true [lit "hello, "; []; lit "wor"] 12 0); (TS_EVENT_VCONN_WRITE_READY, Vio true [lit "ld"] 12 10)].

Lemma stream_roundtrip_witness :
  ∃ cs d m t', tsi_compress (path_defaults None) (Some [lit "deflate"; lit "gzip;q=1"]) = Some cs ∧
    decodes d (tr_out t') (lit "hello, world") ∧
    transform_run m (TransformState _ _ cs None [] None) (ex_events ++ [(TS_EVENT_IMMEDIATE, Vio false [] 12 12)]) =
      Ok (t', [InputCall TS_EVENT_VCONN_WRITE_READY; OutputReenable; InputCall TS_EVENT_VCONN_WRITE_COMPLETE; OutputReenable; OutputReenable]).
Proof.
  destruct (tsi_compress (path_defaults None) (Some [lit "deflate"; lit "gzip;q=1"])) as [cs|] eqn:Ec; [|discriminate Ec].
  destruct (stream_roundtrip (path_defaults None) _ cs ex_events (TS_EVENT_IMMEDIATE, Vio false [] 12 12) Ec)
    as (d & m & t' & _ & Hd & _ & Hrun); [by repeat constructor|reflexivity|reflexivity|].
  exists cs, d, m, t'. split; [reflexivity|]. split; [exact Hd|]. exact (Hrun m (le_n m)).
Defined.

(** An error before the first data finds no input to pass it to. *)
Example error_before_data (cs : comp_state) (v : vio) :
  cs_done_init cs = false →
  transform_event 0 false TS_EVENT_ERROR (TransformState _ _ cs None [] None) v = Fault NullDeref.
Proof. intros Hd. cbn. by rewrite Hd. Qed.
End Examples.
