(* ===== verification/Plugin.v ===== *)
(** [tsapi/plugin.c]: the start of the plugin, and the whole program: the hooks
    it installs, the watcher thread it starts and the database both share.

    Traffic Server is outside the model: start-up is the list of calls it
    makes.  [state->cluster] and [state->db] are the cluster and the database of
    the watcher ([WatchLoop]); a request sees the database the last callback
    installed. *)

From S2P Require Import Prelude CString Hash Env Api Namespace Cluster RemapPath RemapHost Crypt Auth Config RemapDb RemapBuild Watcher Synth Compress TsRemap EndToEnd WatchLoop TsMime TsHeaders.

Local Open Scope Z_scope.

(** * Data *)
Inductive ts_hook := TS_SSL_SNI_HOOK | TS_HTTP_READ_REQUEST_HDR_HOOK.
Inductive ts_handler := HandleTls | HandleRemap.

Inductive init_call :=
  | SSL_library_init
  | SSL_load_error_strings
  | curl_global_init
  | TSThreadCreate                              (* of [watcher_thread] *)
  | TSHttpHookAdd (hook : ts_hook) (h : ts_handler)
  | TSLifecycleHookAdd                          (* of [tsi_setup_acceptors] *)
  | TSPluginRegister (plugin_name vendor_name support_email : bytes).

(** * Operations *)
Section ops.
Context `{P : Posix} `{SSL : OpenSSL}.

(** The globals of the plugin and [struct state]. *)
Record plugin_state := PluginState {
  pl_names : plugin;
  pl_config : k8s_config;
  pl_watcher : watcher remap_db;
  pl_protosets : option (list proto_set);
}.

(** [cluster_cb] is [rebuild_maps]: the database is built here, and [run_callback]
    stores it ([cluster_cb_rebuilds]). *)
Definition cluster_cb (cfg : k8s_config) (cs : cluster) : cres (remap_db * cluster) := remap_db_from_cluster cfg cs.

Definition watcher_create (cs : cluster) : watcher remap_db := Watcher cs resources None.

Definition ingress_version (package_version : bytes) (build_id : option bytes) : bytes :=
  match build_id with Some id => package_version ++ lit "#" ++ id | None => package_version end.

(** [None] when the plugin gives up: no hook is installed then. *)
Definition TSPluginInit (package_version : bytes) (build_id : option bytes) (ts_version : bytes) (hostname : option bytes)
    (env : environment) : cres (option plugin_state * list init_call) :=
  let names := plugin_init ts_version (ingress_version package_version build_id) hostname in
  let start := [SSL_library_init; SSL_load_error_strings; curl_global_init] in
  config ← k8s_config_load env;
  match config with
  | None => Ok (None, start)
  | Some cfg =>
      Ok (Some (PluginState names cfg (watcher_create cluster_make) None),
          start ++ [TSThreadCreate] ++
          (if co_tls cfg then [TSHttpHookAdd TS_SSL_SNI_HOOK HandleTls] else []) ++
          (if co_remap cfg then [TSHttpHookAdd TS_HTTP_READ_REQUEST_HDR_HOOK HandleRemap] else []) ++
          [TSLifecycleHookAdd;
           TSPluginRegister (lit "Kubernetes Ingress plugin") (lit "Torchbox, Ltd.") (lit "sysadmin@torchbox.com")])
  end.

(** ** Protocols *)
Definition TS_ALPN_PROTOCOL_HTTP_2_0 : bytes := lit "h2".

(** [TSUnregisterProtocol] on a copy of the set of each acceptor. *)
Definition without_http2 (ps : proto_set) : proto_set := filter (λ p, p ≠ TS_ALPN_PROTOCOL_HTTP_2_0) ps.

Definition tsi_setup_acceptors (ports_ready : bool) (acceptors : list proto_set) (st : plugin_state) : cres plugin_state :=
  if negb ports_ready then Fault AssertFail
  else Ok (PluginState (pl_names st) (pl_config st) (pl_watcher st) (Some (without_http2 <$> acceptors))).

(** ** The watcher thread of the plugin *)
Definition plugin_thread `{J : JsonC} (package_version : bytes) (turns : list turn) (tu : turn) (st : plugin_state)
    : cres (plugin_state * turn_end) :=
  '(wt, e) ← watcher_thread package_version (pl_config st) (Some (cluster_cb (pl_config st))) turns tu (pl_watcher st);
  Ok (PluginState (pl_names st) (pl_config st) wt (pl_protosets st), e).
End ops.

(** * Lemmas *)
Section proofs.
Context `{PL : PosixLaws} `{SL : OpenSSLLaws} `{D : Digests}.

(** The callback of the watcher does what [rebuild_maps] does. *)
Lemma cluster_cb_rebuilds cfg (wt wt' : watcher remap_db) :
  run_callback (Some (cluster_cb cfg)) wt = Ok wt' →
  rebuild_maps (State cfg (wt_cluster wt) (wt_built wt)) = Ok (State cfg (wt_cluster wt') (wt_built wt')).
Proof.
  unfold run_callback, cluster_cb, rebuild_maps. cbn [st_config st_cluster].
  destruct (remap_db_from_cluster cfg (wt_cluster wt)) as [[db cs]|]; [|done]. cbn [mbind cres_bind].
  intros Hr. by apply (inj Ok) in Hr as <-.
Qed.

(** ** Objects, whatever tables hold them *)

(** The objects of a namespace are valid ([ns_safe], [ingress_ok]). *)
Definition view_ok (v : ns_view) : Prop :=
  ∀ ns, ns_models ns v → ns_safe ns ∧ map_Forall (λ _, ingress_ok ns) (nv_ingresses v).
Definition objects_ok (m : gmap bytes ns_view) : Prop := map_Forall (λ _, view_ok) m.

Lemma models_ingress ns v ing :
  ns_models ns v → ing ∈ hb_value <$> hash_foreach (ns_ingresses ns) → ∃ k, nv_ingresses v !! k = Some ing.
Proof.
  intros Hm (b & -> & Hb)%list_elem_of_fmap. exists (hb_key b).
  assert (Hin : (hb_key b, hb_value b) ∈ hash_bindings (ns_ingresses ns)) by (apply list_elem_of_fmap; eauto).
  by rewrite (hash_models_bindings _ _ (nm_ingresses _ _ Hm)), elem_of_map_to_list in Hin.
Qed.

Lemma models_namespace cs m b :
  cluster_models cs m → b ∈ hash_foreach (cs_namespaces cs) →
  ∃ v, m !! ns_name (hb_value b) = Some v ∧ ns_models (hb_value b) v.
Proof.
  intros [(hm & Hm & Hv)] Hb.
  assert (Hin : (hb_key b, hb_value b) ∈ hash_bindings (cs_namespaces cs)) by (apply list_elem_of_fmap; eauto).
  rewrite (hash_models_bindings _ _ Hm), elem_of_map_to_list in Hin.
  specialize (Hv (hb_key b)). rewrite Hin in Hv. inversion Hv as [x v [Hns Hn] Hx Hlook|]. subst x. exists v. by rewrite Hn.
Qed.

Lemma view_ok_empty : view_ok ns_empty.
Proof.
  intros ns Hm. split; [|apply map_Forall_empty].
  apply (ns_models_safe ns ns_empty Hm); apply map_Forall_empty.
Qed.

Lemma objects_ok_same m m' : same_objects m m' → objects_ok m' → objects_ok m.
Proof.
  intros Hs Hok name v Hv. specialize (Hs name). rewrite Hv in Hs. cbn in Hs.
  destruct (m' !! name) as [v'|] eqn:E; cbn in Hs; subst v; [by eapply Hok|apply view_ok_empty].
Qed.

Lemma objects_cluster_ok cs m :
  cluster_models cs m → objects_ok m → cc_healthcheck (cs_config cs) ≠ [] → cluster_ok cs.
Proof.
  intros Hm Hok Hh. split; [|..|done].
  - destruct Hm as [(hm & Hm & _)]. by apply (hm_wf _ _ Hm).
  - intros b Hb. destruct (models_namespace _ _ _ Hm Hb) as (v & Hv & Hns). by apply (Hok _ _ Hv).
  - intros ns ing [(b & Hb & <-) Hing]. destruct (models_namespace _ _ _ Hm Hb) as (v & Hv & Hns).
    destruct (models_ingress _ _ _ Hns Hing) as [k Hk]. destruct (Hok _ _ Hv _ Hns) as [_ Hi]. by apply (Hi k).
Qed.

(** The tables determine the objects. *)
Lemma hash_models_inj {A} (h : hash A) m m' : hash_models h m → hash_models h m' → m = m'.
Proof. intros H1 H2. apply map_eq. intros k. by rewrite <- (hash_models_get _ _ _ H1), <- (hash_models_get _ _ _ H2). Qed.

Lemma ns_models_inj ns v v' : ns_models ns v → ns_models ns v' → v = v'.
Proof. destruct v, v'. intros [] []. cbn in *. f_equal; by eapply hash_models_inj. Qed.

Lemma cluster_models_inj cs m m' : cluster_models cs m → cluster_models cs m' → m = m'.
Proof.
  intros [(hm & Hm & Hv)] [(hm' & Hm' & Hv')]. assert (hm' = hm) as -> by (by eapply hash_models_inj).
  apply map_eq. intros k. specialize (Hv k). specialize (Hv' k).
  destruct (hm !! k); inversion Hv as [? ? [Hx _]|]; inversion Hv' as [? ? [Hy _]|]; [|done]. subst. f_equal. by eapply ns_models_inj.
Qed.

(** An Ingress of a cluster, in another one with the same objects. *)
Lemma ingress_of_same cs m m' ns ing :
  cluster_models cs m → same_objects m m' → ingress_of cs ns ing →
  ∃ v k, m' !! ns_name ns = Some v ∧ nv_ingresses v !! k = Some ing.
Proof.
  intros Hm Hs [(b & Hb & <-) Hing]. destruct (models_namespace _ _ _ Hm Hb) as (v & Hv & Hns).
  destruct (models_ingress _ _ _ Hns Hing) as [k Hk]. specialize (Hs (ns_name (hb_value b))). rewrite Hv in Hs. cbn in Hs.
  destruct (m' !! ns_name (hb_value b)) as [v'|]; cbn in Hs; subst v; [by exists v', k|cbn in Hk; by rewrite lookup_empty in Hk].
Qed.

Lemma init_hooks package_version build_id ts_version hostname env st calls :
  TSPluginInit package_version build_id ts_version hostname env = Ok (Some st, calls) →
  TSThreadCreate ∈ calls ∧
  (TSHttpHookAdd TS_HTTP_READ_REQUEST_HDR_HOOK HandleRemap ∈ calls ↔ co_remap (pl_config st) = true).
Proof.
  unfold TSPluginInit. destruct (k8s_config_load env) as [[cfg|]|]; cbn [mbind cres_bind]; [|done..].
  intros Hr. apply (inj Ok), pair_eq in Hr as [Hst <-]. injection Hst as <-. cbn [pl_config].
  split; [set_solver|]. destruct (co_tls cfg), (co_remap cfg); set_solver.
Qed.
End proofs.

(** * Properties *)
Section properties.
Context `{J : JsonC} `{PL : PosixLaws} `{SL : OpenSSLLaws} `{D : Digests}.


(** HTTP/2 per host: once the ports are ready, the handshake of a connection
    to any acceptor does not fault, and a connection that gets a protocol set
    gets the protocols of its acceptor but HTTP/2. *)
Theorem http2_withdrawn (st st' : plugin_state) (acceptors : list proto_set) (acptid : nat) (ps : proto_set) (host : option bytes) (version : bytes) :
  tsi_setup_acceptors true acceptors st = Ok st' → acceptors !! acptid = Some ps →
  ∃ acts, handle_tls (wt_built (pl_watcher st')) (pl_protosets st') acptid host version = Ok acts ∧
    ∀ ps' p, TSRegisterProtocolSet ps' ∈ acts → p ∈ ps' ↔ p ∈ ps ∧ p ≠ TS_ALPN_PROTOCOL_HTTP_2_0.
Proof.
  intros Hs Hps. unfold tsi_setup_acceptors in Hs. apply (inj Ok) in Hs as <-. cbn [pl_watcher pl_protosets].
  assert (Hlook : (without_http2 <$> acceptors) !! acptid = Some (without_http2 ps)) by (by rewrite list_lookup_fmap, Hps).
  unfold handle_tls. destruct host as [host|]; [|eexists; split; [done|]; set_solver].
  destruct (wt_built (pl_watcher st)) as [db|]; [|eexists; split; [done|]; set_solver].
  destruct (remap_db_get_host db host) as [rh|]; [|eexists; split; [done|]; set_solver].
  destruct (rh_ctx rh) as [ctx|]; [|eexists; split; [done|]; set_solver].
  destruct (version_refused _ _); [eexists; split; [done|]; set_solver|].
  destruct (rh_http2 rh); [rewrite bind_ok|cbn [deref]; rewrite bind_ok, (arr_get_ok _ _ _ Hlook), !bind_ok]; eexists; (split; [done|]).
  - set_solver.
  - intros ps' p Hin. assert (ps' = without_http2 ps) as -> by set_solver.
    unfold without_http2. rewrite list_elem_of_filter. naive_solver.
Qed.
End properties.

(** * Examples *)
Module Examples.
#[local] Existing Instance posix_literal.
#[local] Existing Instance posix_literal_laws.
#[local] Existing Instance openssl_list.
#[local] Existing Instance openssl_list_laws.
#[local] Existing Instance digests_pad.
Import EndToEnd.Examples WatchLoop.Examples.

(** A cluster with a Service, its Endpoints and an Ingress. *)
Definition in_shop (name : bytes) : bytes * json :=
  (lit "metadata", JObject [(lit "namespace", JString (lit "shop")); (lit "name", JString name)]).
Definition shop_service : json :=
  JObject [(lit "kind", JString (lit "Service")); in_shop (lit "web");
    (lit "spec", JObject [(lit "type", JString (lit "ClusterIP"));
       (lit "ports", JArray [JObject [(lit "name", JString (lit "http")); (lit "port", JInt 80)]])])].
Definition shop_endpoints : json :=
  JObject [(lit "kind", JString (lit "Endpoints")); in_shop (lit "web");
    (lit "subsets", JArray [JObject [(lit "ports", JArray [JObject [(lit "name", JString (lit "http")); (lit "port", JInt 8080)]]);
       (lit "addresses", JArray [JObject [(lit "ip", JString (lit "10.0.0.1"))]])]])].
Definition shop_ingress : json :=
  JObject [(lit "kind", JString (lit "Ingress")); in_shop (lit "site");
    (lit "spec", JObject [(lit "rules", JArray [JObject [(lit "host", JString (lit "www.example.com"));
       (lit "http", JObject [(lit "paths", JArray [JObject [(lit "path", JString (lit "/app"));
          (lit "backend", JObject [(lit "serviceName", JString (lit "web")); (lit "servicePort", JInt 80)])]])])]])])].
Definition list_of (kind : bytes) (items : list json) : json :=
  JObject [(lit "kind", JString kind); (lit "items", JArray items);
    (lit "metadata", JObject [(lit "resourceVersion", JString (lit "42"))])].

#[local] Instance shop_texts : JsonC := json_tree_with (λ s,
  if streq s (lit "services") then Some (list_of (lit "ServiceList") [shop_service])
  else if streq s (lit "endpoints") then Some (list_of (lit "EndpointsList") [shop_endpoints])
  else if streq s (lit "secrets") then Some (list_of (lit "SecretList") [])
  else if streq s (lit "configmaps") then Some (list_of (lit "ConfigMapList") [])
  else if streq s (lit "ingresses") then Some (list_of (lit "IngressList") [shop_ingress]) else None).

Definition ex_env : environment := Environment None None false (λ n, if streq n (lit "TS_SERVER") then Some (lit "http://api") else None).
Definition lists : list (nat * bytes) :=
  [(0%nat, lit "services"); (1%nat, lit "endpoints"); (2%nat, lit "secrets"); (3%nat, lit "configmaps"); (4%nat, lit "ingresses")].
Definition first_turn : turn :=
  Turn true ex_curls [FetchPoll lists true 0 0 true] ((λ i, CurlMsg true i true) <$> seq 0 5) 0 true ex_curls [Poll [] true 5 1000 true 10].

Definition the_service : service := match service_make shop_service with Ok (Some x) => x | _ => Service [] [] None None None None None None end.
Definition the_endpoints : endpoints := match endpoints_make shop_endpoints with Ok (Some x) => x | _ => Endpoints [] [] [] end.
Definition the_ingress : ingress := match ingress_make shop_ingress with Ok (Some x) => x | _ => Ingress [] [] [] [] (hash_new 1 true) end.
Definition shop_puts : list (bytes * ns_event) :=
  [(lit "shop", PutService the_service); (lit "shop", PutEndpoints the_endpoints); (lit "shop", PutIngress the_ingress)].
Definition shop_cluster : cluster := foldl cluster_apply cluster_make shop_puts.
Definition shop_objects : gmap bytes ns_view :=
  {[lit "shop" := NsView {[lit "site" := the_ingress]} ∅ {[lit "web" := the_service]} {[lit "web" := the_endpoints]}]}.

Definition started : cres (plugin_state * plugin_state * list init_call * turn_end) :=
  '(st, calls) ← TSPluginInit (lit "1.0") None (lit "7.1.2") None ex_env;
  st ← deref st;
  '(st', e) ← plugin_thread (lit "1.0") [] first_turn st;
  Ok (st, st', calls, e).

Lemma started_ok :
  match started with
  | Ok (_, st', _, Watching WatchRunning) => wt_cluster (pl_watcher st') = shop_cluster ∧
      match handle_remap (co_xfp (pl_config st')) (wt_built (pl_watcher st')) ex_get 7 with
      | Ok (_, acts) => existsb contacts acts = true | Fault _ => False end
  | _ => False
  end.
Proof. vm_compute. split; reflexivity. Qed.

Lemma shop_models : cluster_models shop_cluster shop_objects.
Proof.
  assert (shop_objects = foldl views_apply ∅ shop_puts) as -> by (vm_compute; reflexivity).
  apply cluster_models_applies, cluster_models_make.
Qed.

Lemma shop_objects_ok : objects_ok shop_objects.
Proof.
  apply map_Forall_singleton. intros ns Hm. split.
  - apply (ns_models_safe ns _ Hm); cbn [nv_ingresses nv_services nv_endpointses nv_secrets]; [apply map_Forall_singleton..|apply map_Forall_empty].
    + split.
      * intros r p [->|Hr]%elem_of_cons Hp; [|by apply elem_of_nil in Hr].
        apply elem_of_cons in Hp as [->|Hp]; [split; by eexists|by apply elem_of_nil in Hp].
      * intros t Ht. by apply elem_of_nil in Ht.
      * intros b se Hb. assert (He : hash_foreach (in_annotations the_ingress) = []) by (vm_compute; reflexivity).
        rewrite He in Hb. by apply elem_of_nil in Hb.
    + split; [by eexists|]. exists (lit "ClusterIP"). by split.
    + intros s a [->|Hs]%elem_of_cons Ha; [|by apply elem_of_nil in Hs].
      apply elem_of_cons in Ha as [->|Ha]; [by eexists|by apply elem_of_nil in Ha].
  - apply map_Forall_singleton. exists ∅. split; [apply hash_models_new; lia|]. split; intros *; by rewrite lookup_empty.
Qed.

End Examples.
