(* ===== verification/Locks.v ===== *)
(** The threads of the plugin and its two locks: [state->lock] and [cs_lock]
    ([tsapi/remap.c], [tsapi/tls.c], [api/watcher.c], [tsapi/plugin.c]).

    The watcher thread changes the cluster and builds databases; any number of
    threads of Traffic Server run the request hook and the handshake hook.  The
    machine of this file interleaves them step by step, between every two
    accesses to what they share: the locks, [state->db], the memory of the
    databases, and the static buffers of [crypt/crypt_md5.c] and
    [crypt/crypt_des.c], which no lock protects.  The other files treat a region
    under a lock as one step; the refinement below is what justifies it. *)

From S2P Require Import Prelude CString Hash Base64 Env Api Namespace Cluster RemapPath RemapHost Crypt Auth Config RemapDb RemapBuild Watcher TsRemap EndToEnd WatchLoop.

(** * Locks *)

(** A [pthread_rwlock_t]: whether a thread holds it for writing, and how many
    hold it for reading. *)
Record rwlock := RwLock { rw_writer : bool; rw_readers : nat }.

Definition pthread_rwlock_init : rwlock := RwLock false 0.

(** [None] while the caller has to wait.  [yield] tells that a writer waits and
    the implementation lets it go first. *)
Definition pthread_rwlock_rdlock (yield : bool) (l : rwlock) : option rwlock :=
  if rw_writer l || yield then None else Some (RwLock false (S (rw_readers l))).

Definition pthread_rwlock_wrlock (l : rwlock) : option rwlock :=
  if rw_writer l || (0 <? rw_readers l)%nat then None else Some (RwLock true 0).

(** The release of a lock that nobody holds is undefined. *)
Definition pthread_rwlock_unlock (l : rwlock) : cres rwlock :=
  if rw_writer l then Ok (RwLock false (rw_readers l)) else
  match rw_readers l with S n => Ok (RwLock false n) | O => Fault AssertFail end.

(** * Static buffers

    The objects with static storage that the threads of Traffic Server write
    while they check a password: [buf], [salt_copy], [p], [sp] and [ep] of
    [crypt_md5] and its [to64], and [perm] and [tmp32] of [init_des].  A hook
    that runs one of these functions while another hook runs the same one is
    a data race. *)
Inductive static_buffer := Md5Buffers | DesBuffers.

#[export] Instance static_buffer_eq_dec : EqDecision static_buffer.
Proof. solve_decision. Defined.

(** * The machine *)
Section machine.
(** The cluster and its changes, the databases built from it, and the hooks:
    a request, and what the hook does about it. *)
Context {Cs Db Change Req Ans : Type}.
Context (update : Change → Cs → cres Cs) (needs_lock : Change → bool) (build : Cs → cres (Db * Cs))
        (serve : option Db → Req → cres Ans).
(** The static buffer a request needs, if it needs one. *)
Context (static : Db → Req → option static_buffer).
(** Whether the lock of the state lets waiting writers go first. *)
Context (prefer_writer : bool).

Implicit Types (c : Change) (r : Req) (d : Db) (p : nat).

(** Where the watcher thread is: in the loop that waits for the API server; in
    a change of the cluster; in [rebuild_maps] after each of its lines, with
    the address of the new database. *)
Inductive watcher_pc :=
  | Polling
  | Updating c
  | Updated
  | StateRead
  | BothRead
  | Built p
  | BuiltState p
  | Waiting p
  | Writing p
  | Freed p
  | Installed.

(** Where a hook is: not running; with the lock; past the test of [state->db];
    using the database at an address; in a function with a static buffer; done
    with the request. *)
Inductive hook_pc :=
  | Outside
  | Entered r
  | Checked r
  | Using p r
  | Crypting p r (b : static_buffer)
  | Leaving.

Record machine := Machine {
  mc_lock : rwlock;
  mc_cs_lock : rwlock;
  mc_cluster : Cs;
  mc_db : option nat;
  mc_heap : gmap nat Db;
  mc_watcher : watcher_pc;
  mc_hooks : list hook_pc;
}.

Implicit Types (s : machine) (w : watcher_pc) (hs : list hook_pc).

(** What an outside observer sees. *)
Inductive event :=
  | EUpdate c
  | ERebuild
  | EServe r (a : Ans).

(** What the threads do next: the choices of the watcher, the address
    [malloc] returns, and a step of the hook in some thread (with the request
    it starts on, if it is not running). *)
Inductive watcher_move := Update c | Rebuild | Next | Alloc p.
Inductive move := WatcherMoves (mv : watcher_move) | HookMoves (i : nat) r.

Definition result : Type := cres (option (machine * list event)).

(** [free]: of an address that holds no database it is undefined. *)
Definition heap_free (h : gmap nat Db) (q : option nat) : cres (gmap nat Db) :=
  match q with
  | None => Ok h
  | Some q => match h !! q with Some _ => Ok (delete q h) | None => Fault UseAfterFree end
  end.

Definition heap_read (h : gmap nat Db) p : cres Db :=
  match h !! p with Some d => Ok d | None => Fault UseAfterFree end.

(** [Ok None]: the thread waits, or the move is not one of this point. *)
Definition watcher_step (mv : watcher_move) s : result :=
  let '(Machine l cl cs db h w hs) := s in
  let goto l cl w := Ok (Some (Machine l cl cs db h w hs, [])) in
  match w, mv with
  | Polling, Update c =>
      if needs_lock c then
        match pthread_rwlock_wrlock cl with Some cl => goto l cl (Updating c) | None => Ok None end
      else cs ← update c cs; Ok (Some (Machine l cl cs db h Polling hs, [EUpdate c]))
  | Updating c, Next => cs ← update c cs; Ok (Some (Machine l cl cs db h Updated hs, [EUpdate c]))
  | Updated, Next => cl ← pthread_rwlock_unlock cl; goto l cl Polling
  | Polling, Rebuild => match pthread_rwlock_rdlock false l with Some l => goto l cl StateRead | None => Ok None end
  | StateRead, Next => match pthread_rwlock_rdlock false cl with Some cl => goto l cl BothRead | None => Ok None end
  | BothRead, Alloc p =>
      if decide (is_Some (h !! p)) then Ok None else
      '(d, cs) ← build cs; Ok (Some (Machine l cl cs db (<[p := d]> h) (Built p) hs, []))
  | Built p, Next => cl ← pthread_rwlock_unlock cl; goto l cl (BuiltState p)
  | BuiltState p, Next => l ← pthread_rwlock_unlock l; goto l cl (Waiting p)
  | Waiting p, Next => match pthread_rwlock_wrlock l with Some l => goto l cl (Writing p) | None => Ok None end
  | Writing p, Next => h ← heap_free h db; Ok (Some (Machine l cl cs db h (Freed p) hs, []))
  | Freed p, Next => Ok (Some (Machine l cl cs (Some p) h Installed hs, [ERebuild]))
  | Installed, Next => l ← pthread_rwlock_unlock l; goto l cl Polling
  | _, _ => Ok None
  end.

Definition waiting w : bool := match w with Waiting _ => true | _ => false end.

(** Another thread is in a function that uses the buffer. *)
Definition crypting (b : static_buffer) (pc : hook_pc) : bool :=
  match pc with Crypting _ _ b' => bool_decide (b = b') | _ => false end.

(** A request that needs no static buffer is served in one step: it reads a
    database that does not change while hooks hold the lock, and writes only
    what belongs to its own transaction.  One that needs a buffer is served
    while its thread is in the function that uses it; to enter the function
    while another thread is in it is undefined. *)
Definition hook_step (i : nat) (r : Req) s : result :=
  let '(Machine l cl cs db h w hs) := s in
  let goto l pc evs := Ok (Some (Machine l cl cs db h w (<[i := pc]> hs), evs)) in
  match hs !! i with
  | None => Ok None
  | Some Outside =>
      match pthread_rwlock_rdlock (prefer_writer && waiting w) l with Some l => goto l (Entered r) [] | None => Ok None end
  | Some (Entered r) =>
      match db with
      | None => a ← serve None r; goto l Leaving [EServe r a]
      | Some _ => goto l (Checked r) []
      end
  | Some (Checked r) => p ← deref db; goto l (Using p r) []
  | Some (Using p r) =>
      d ← heap_read h p;
      match static d r with
      | None => a ← serve (Some d) r; goto l Leaving [EServe r a]
      | Some b => if existsb (crypting b) hs then Fault DataRace else goto l (Crypting p r b) []
      end
  | Some (Crypting p r _) => d ← heap_read h p; a ← serve (Some d) r; goto l Leaving [EServe r a]
  | Some Leaving => l ← pthread_rwlock_unlock l; goto l Outside []
  end.

Definition thread_step (mv : move) s : result :=
  match mv with WatcherMoves mv => watcher_step mv s | HookMoves i r => hook_step i r s end.

(** A schedule, and the events it gives; [Ok None] when a move of it cannot be
    made. *)
Fixpoint run (ms : list move) s : result :=
  match ms with
  | [] => Ok (Some (s, []))
  | mv :: ms =>
      x ← thread_step mv s;
      match x with
      | None => Ok None
      | Some (s, evs) =>
          y ← run ms s;
          Ok (match y with None => None | Some (s, evs') => Some (s, evs ++ evs') end)
      end
  end.

(** [TSPluginInit]: both locks are free, there is no database, and [n] threads
    may run hooks. *)
Definition start (cs : Cs) (n : nat) : machine :=
  Machine pthread_rwlock_init pthread_rwlock_init cs None ∅ Polling (replicate n Outside).

(** * The atomic program

    The same program when every change, every rebuild and every hook is one
    step. *)
Record atomic := Atomic { at_cluster : Cs; at_db : option Db }.

Inductive atomic_step : atomic → event → atomic → Prop :=
  | atomic_update cs db c cs' : update c cs = Ok cs' → atomic_step (Atomic cs db) (EUpdate c) (Atomic cs' db)
  | atomic_rebuild cs db d cs' : build cs = Ok (d, cs') → atomic_step (Atomic cs db) ERebuild (Atomic cs' (Some d))
  | atomic_serve cs db r a : serve db r = Ok a → atomic_step (Atomic cs db) (EServe r a) (Atomic cs db).

Inductive atomic_run : atomic → list event → atomic → Prop :=
  | atomic_nil a : atomic_run a [] a
  | atomic_cons a1 e a2 es a3 : atomic_step a1 e a2 → atomic_run a2 es a3 → atomic_run a1 (e :: es) a3.

(** * The invariant *)

(** The locks the watcher holds at each point. *)
Definition writes_state w : bool := match w with Writing _ | Freed _ | Installed => true | _ => false end.
Definition reads_state w : nat := match w with StateRead | BothRead | Built _ | BuiltState _ => 1 | _ => 0 end.
Definition writes_cs w : bool := match w with Updating _ | Updated => true | _ => false end.
Definition reads_cs w : nat := match w with BothRead | Built _ => 1 | _ => 0 end.

(** The database the watcher has built and not installed. *)
Definition new_db w : option nat :=
  match w with Built p | BuiltState p | Waiting p | Writing p | Freed p => Some p | _ => None end.

(** The address of the database in [state->db], while it is there. *)
Definition current w (db : option nat) : option nat := match w with Freed _ => None | _ => db end.

Definition inside (pc : hook_pc) : nat := match pc with Outside => 0 | _ => 1 end.

Definition hook_ok (db : option nat) (pc : hook_pc) : Prop :=
  match pc with Checked _ => is_Some db | Using p _ | Crypting p _ _ => db = Some p | _ => True end.

Record inv s : Prop := {
  inv_lock : mc_lock s = RwLock (writes_state (mc_watcher s)) (reads_state (mc_watcher s) + sum_list_with inside (mc_hooks s));
  inv_cs_lock : mc_cs_lock s = RwLock (writes_cs (mc_watcher s)) (reads_cs (mc_watcher s));
  inv_exclusive : writes_state (mc_watcher s) = true → sum_list_with inside (mc_hooks s) = 0;
  inv_hooks : Forall (hook_ok (mc_db s)) (mc_hooks s);
  inv_heap p : is_Some (mc_heap s !! p) ↔ current (mc_watcher s) (mc_db s) = Some p ∨ new_db (mc_watcher s) = Some p;
  inv_fresh p : new_db (mc_watcher s) = Some p → current (mc_watcher s) (mc_db s) ≠ Some p;
}.

(** * Lemmas *)
Lemma sum_insert (f : hook_pc → nat) hs i x y :
  hs !! i = Some x → sum_list_with f (<[i := y]> hs) + f x = sum_list_with f hs + f y.
Proof.
  revert i; induction hs as [|z hs IH]; intros [|i] Hi; simpl in *; [done..|injection Hi as ->; lia|].
  specialize (IH i Hi). lia.
Qed.

Lemma sum_lookup (f : hook_pc → nat) hs i x : hs !! i = Some x → f x ≤ sum_list_with f hs.
Proof. revert i; induction hs as [|z hs IH]; intros [|i] Hi; simpl in *; [done..|injection Hi as ->; lia|]. specialize (IH i Hi). lia. Qed.

Lemma start_inv cs n : inv (start cs n).
Proof.
  assert (Hn : sum_list_with inside (replicate n Outside) = 0) by (induction n; cbn; auto).
  split; cbn; [by rewrite Hn|done|done| | |done].
  - by apply Forall_replicate.
  - intros p. rewrite lookup_empty. split; [by intros [??]|by intros [|]].
Qed.

(** While a thread writes the state, a hook of any thread is outside, so that
    [state->db] may change. *)
Lemma outside_all hs : sum_list_with inside hs = 0 → Forall (λ pc, pc = Outside) hs.
Proof. induction hs as [|pc hs IH]; cbn; intros; constructor; [destruct pc; cbn in *; congruence || lia|]. apply IH. lia. Qed.

Lemma outside_ok db hs : sum_list_with inside hs = 0 → Forall (hook_ok db) hs.
Proof. intros Ho%outside_all. eapply Forall_impl; [done|]. by intros pc ->. Qed.

Ltac cres_steps :=
  repeat match goal with
  | H : Ok _ = Ok _ |- _ => apply (inj Ok) in H
  | H : Some _ = Some _ |- _ => apply (inj Some) in H
  | H : Ok _ = Fault _ |- _ => discriminate H
  | H : Fault _ = Fault _ |- _ => injection H as H
  | H : Fault _ = Ok _ |- _ => discriminate H
  | H : Some _ = None |- _ => discriminate H
  | H : None = Some _ |- _ => discriminate H
  | H : Ok None = Ok (Some _) |- _ => discriminate H
  | H : (_, _) = (_, _) |- _ => apply pair_eq in H as [??]
  | H : (match ?x with _ => _ end) = _ |- _ => destruct x eqn:?; cbn [mbind cres_bind] in H
  | H : (mbind _ ?x) = _ |- _ => destruct x eqn:?; cbn [mbind cres_bind] in H
  end; subst.

Lemma heap_free_lookup h q h' p :
  heap_free h q = Ok h' → is_Some (h' !! p) ↔ is_Some (h !! p) ∧ q ≠ Some p.
Proof.
  unfold heap_free. intros Hf. cres_steps; [|naive_solver].
  destruct (decide (n = p)) as [->|]; [rewrite lookup_delete_eq|rewrite lookup_delete_ne by done]; [split; [by intros [??]|naive_solver]|naive_solver].
Qed.

Lemma deref_Some {A} (p : option A) a : deref p = Ok a → p = Some a.
Proof. destruct p; cbn; [by intros ->%(inj Ok)|done]. Qed.

Lemma no_readers n : (0 <? n) = false → n = 0.
Proof. intros Hn%Nat.ltb_ge. lia. Qed.

Lemma watcher_step_inv mv s s' evs : inv s → watcher_step mv s = Ok (Some (s', evs)) → inv s'.
Proof.
  destruct s as [l cl cs db h w hs]. intros [Hl Hcl Hx Hh Hd Hf] Hs.
  cbn in Hl, Hcl, Hx, Hh, Hd, Hf. subst l cl. unfold watcher_step in Hs.
  destruct w, mv; try discriminate Hs; unfold pthread_rwlock_wrlock, pthread_rwlock_rdlock, pthread_rwlock_unlock in Hs;
    cbn [rw_writer rw_readers writes_state reads_state writes_cs reads_cs orb Nat.add] in Hs; cres_steps;
    cbn [current new_db writes_state] in *; try specialize (Hx eq_refl);
    repeat match goal with H : (0 <? _) = false |- _ => apply no_readers in H end;
    (split; cbn; [f_equal; lia|done|intros; congruence || lia|done || by apply outside_ok|try done|try done]).
  - intros q. destruct (decide (p = q)) as [->|]; [rewrite lookup_insert_eq|rewrite lookup_insert_ne by done; rewrite Hd]; naive_solver.
  - intros q [= <-] ->. naive_solver.
  - intros q. apply (heap_free_lookup _ _ _ q) in Heqc as ->. rewrite Hd. naive_solver.
  - naive_solver.
Qed.

Lemma hook_step_inv i r s s' evs : inv s → hook_step i r s = Ok (Some (s', evs)) → inv s'.
Proof.
  destruct s as [l cl cs db h w hs]. intros [Hl Hcl Hx Hh Hd Hf] Hs.
  cbn in Hl, Hcl, Hx, Hh, Hd, Hf. subst l cl. unfold hook_step in Hs.
  destruct (hs !! i) as [pc|] eqn:Hi; [|discriminate Hs].
  pose proof (λ pc', sum_insert inside hs i pc pc' Hi) as Hsum. pose proof (sum_lookup inside hs i pc Hi) as Hle.
  unfold pthread_rwlock_rdlock, pthread_rwlock_unlock in Hs. cbn [rw_writer rw_readers] in Hs.
  assert (Hw : writes_state w = false).
  { destruct (writes_state w), pc; try done; cbn [inside] in Hle; specialize (Hx eq_refl); lia. }
  rewrite Hw in Hs, Hx. cbn [orb] in Hs.
  destruct pc; cbn [inside] in Hsum, Hle; cres_steps;
    match goal with |- inv (Machine _ _ _ _ _ _ (<[_ := ?pc]> _)) => specialize (Hsum pc) end; cbn [inside] in Hsum;
    (split; cbn; [rewrite Hw; f_equal; lia|done|congruence|apply Forall_insert; [done|try done]|done|done]).
  - by eexists.
  - by apply deref_Some.
  - exact (Forall_lookup_1 _ _ _ _ Hh Hi).
Qed.

Lemma thread_step_inv mv s s' evs : inv s → thread_step mv s = Ok (Some (s', evs)) → inv s'.
Proof. destruct mv; [apply watcher_step_inv|apply hook_step_inv]. Qed.

(** ** Refinement *)

(** The database a hook would find. *)
Definition installed s : option Db := mc_db s ≫= λ p, mc_heap s !! p.

Record simulates s (a : atomic) : Prop := {
  sim_cluster :
    match new_db (mc_watcher s) with
    | None => at_cluster a = mc_cluster s
    | Some p => ∃ d, mc_heap s !! p = Some d ∧ build (at_cluster a) = Ok (d, mc_cluster s)
    end;
  sim_db : (∀ p, mc_watcher s ≠ Freed p) → at_db a = installed s;
}.

Lemma atomic_one a e a' : atomic_step a e a' → atomic_run a [e] a'.
Proof. intros. econstructor; [done|constructor]. Qed.

Lemma watcher_step_simulates mv s s' evs a :
  inv s → simulates s a → watcher_step mv s = Ok (Some (s', evs)) → ∃ a', atomic_run a evs a' ∧ simulates s' a'.
Proof.
  destruct s as [l cl cs db h w hs], a as [acs adb]. intros [_ _ _ _ Hd Hf] [Hc Hdb] Hs.
  cbn in Hd, Hf, Hc, Hdb. unfold watcher_step in Hs.
  destruct w, mv; try discriminate Hs; cres_steps; cbn [current new_db] in *; try specialize (Hdb ltac:(done)); subst;
    first [eexists; split; [by apply atomic_nil|by split]|idtac].
  - eexists; split; [by apply atomic_one, atomic_update|by split].
  - eexists; split; [by apply atomic_one, atomic_update|by split].
  - exists (Atomic cs (db ≫= λ p0, h !! p0)). split; [apply atomic_nil|split; cbn].
    + exists d. by rewrite lookup_insert_eq.
    + intros _. unfold installed; cbn. destruct db as [q|]; cbn; [|done].
      rewrite lookup_insert_ne; [done|]. intros ->. naive_solver.
  - exists (Atomic acs (db ≫= λ p0, h !! p0)). split; [apply atomic_nil|split; cbn; [|intros Hp; by destruct (Hp p)]].
    destruct Hc as (d & Hd' & Hb). exists d. split; [|done].
    unfold heap_free in Heqc. cres_steps; [|done]. rewrite lookup_delete_ne; [done|]. intros ->. by apply (Hf p).
  - destruct Hc as (d & Hd' & Hb). eexists; split; [by apply atomic_one, atomic_rebuild|].
    split; cbn; [done|]. intros _. unfold installed; cbn. by rewrite Hd'.
Qed.

Lemma hook_step_simulates i r s s' evs a :
  inv s → simulates s a → hook_step i r s = Ok (Some (s', evs)) → ∃ a', atomic_run a evs a' ∧ simulates s' a'.
Proof.
  destruct s as [l cl cs db h w hs], a as [acs adb]. intros [_ _ Hx Hh _ _] [Hc Hdb] Hs. cbn in Hx, Hh, Hc, Hdb.
  unfold hook_step in Hs. destruct (hs !! i) as [pc|] eqn:Hi; [|discriminate Hs].
  pose proof (sum_lookup inside hs i pc Hi) as Hle. pose proof (Forall_lookup_1 _ _ _ _ Hh Hi) as Hpc. destruct pc; cres_steps;
    try (eexists; split; [by apply atomic_nil|by split]); cbn [inside hook_ok] in Hle, Hpc.
  all: assert (Hf : ∀ p, w ≠ Freed p) by (intros q ->; specialize (Hx eq_refl); lia); specialize (Hdb Hf);
    unfold installed in Hdb; cbn in Hdb; subst; (eexists; split; [apply atomic_one, atomic_serve|split; [done|by intros _]]).
  - done.
  - unfold heap_read in *. cres_steps. cbn. by rewrite Heqo0.
  - unfold heap_read in *. cres_steps. cbn. by rewrite Heqo.
Qed.

Lemma thread_step_simulates mv s s' evs a :
  inv s → simulates s a → thread_step mv s = Ok (Some (s', evs)) → ∃ a', atomic_run a evs a' ∧ simulates s' a'.
Proof. destruct mv; [apply watcher_step_simulates|apply hook_step_simulates]. Qed.

Lemma atomic_run_app a1 es a2 es' a3 : atomic_run a1 es a2 → atomic_run a2 es' a3 → atomic_run a1 (es ++ es') a3.
Proof. induction 1; cbn; [done|]. intros. econstructor; [done|auto]. Qed.

Lemma run_cons mv ms s s' evs :
  run (mv :: ms) s = Ok (Some (s', evs)) →
  ∃ s1 evs1 evs2, thread_step mv s = Ok (Some (s1, evs1)) ∧ run ms s1 = Ok (Some (s', evs2)) ∧ evs = evs1 ++ evs2.
Proof.
  cbn [run]. intros Hr. destruct (thread_step mv s) as [[[s1 evs1]|]|]; cbn [mbind cres_bind] in Hr; [|discriminate Hr..].
  destruct (run ms s1) as [[[s2 evs2]|]|] eqn:E; cbn [mbind cres_bind] in Hr; [|discriminate Hr..].
  apply (inj Ok), (inj Some), pair_eq in Hr as [-> <-]. eauto 10.
Qed.

Lemma run_simulates ms s s' evs a :
  inv s → simulates s a → run ms s = Ok (Some (s', evs)) → ∃ a', inv s' ∧ atomic_run a evs a' ∧ simulates s' a'.
Proof.
  revert s evs a. induction ms as [|mv ms IH]; intros s evs a Hi Ha Hr.
  - cbn in Hr. apply (inj Ok), (inj Some), pair_eq in Hr as [-> <-]. exists a. split_and!; [done|constructor|done].
  - apply run_cons in Hr as (s1 & evs1 & evs2 & Hs & Hr & ->).
    destruct (thread_step_simulates _ _ _ _ _ Hi Ha Hs) as (a1 & Ha1 & Hs1).
    destruct (IH _ _ _ (thread_step_inv _ _ _ _ Hi Hs) Hs1 Hr) as (a' & Hi' & Ha' & Hs').
    exists a'. split_and!; [done|by eapply atomic_run_app|done].
Qed.

Lemma start_simulates cs n : simulates (start cs n) (Atomic cs None).
Proof. by split. Qed.

Lemma hook_step_watcher i r s s' evs : hook_step i r s = Ok (Some (s', evs)) → mc_watcher s' = mc_watcher s.
Proof. destruct s as [l cl cs db h w hs]. unfold hook_step. intros Hs. cres_steps; done. Qed.

(** A change that is seen was begun by the watcher. *)
Lemma thread_step_updates mv s s' evs c :
  thread_step mv s = Ok (Some (s', evs)) →
  (EUpdate c ∈ evs → mv = WatcherMoves (Update c) ∨ mc_watcher s = Updating c) ∧
  (mc_watcher s' = Updating c → mv = WatcherMoves (Update c) ∨ mc_watcher s = Updating c).
Proof.
  destruct s as [l cl cs db h w hs]. intros Hs. destruct mv as [mv|i r]; cbn [thread_step mc_watcher] in *.
  - unfold watcher_step in Hs. destruct w, mv; try discriminate Hs; cres_steps; cbn; split; try set_solver; naive_solver.
  - rewrite (hook_step_watcher _ _ _ _ _ Hs). unfold hook_step in Hs. cres_steps; cbn; split; try set_solver; naive_solver.
Qed.

Lemma run_updates ms s s' evs c :
  run ms s = Ok (Some (s', evs)) → EUpdate c ∈ evs → WatcherMoves (Update c) ∈ ms ∨ mc_watcher s = Updating c.
Proof.
  revert s evs. induction ms as [|mv ms IH]; intros s evs Hr Hc.
  - cbn in Hr. apply (inj Ok), (inj Some), pair_eq in Hr as [_ <-]. by apply elem_of_nil in Hc.
  - apply run_cons in Hr as (s1 & evs1 & evs2 & Hs & Hr & ->). destruct (thread_step_updates _ _ _ _ c Hs) as [H1 H2].
    apply elem_of_app in Hc as [Hc|Hc]; [destruct (H1 Hc)|destruct (IH _ _ Hr Hc) as [|Hw]; [|destruct (H2 Hw)]]; set_solver.
Qed.

(** ** Faults *)

(** The fault is one of the code that runs in the step, not of the locks, the
    pointers or the memory. *)
Definition blamed s (f : fault) : Prop :=
  (∃ c, update c (mc_cluster s) = Fault f) ∨ build (mc_cluster s) = Fault f ∨ ∃ r, serve (installed s) r = Fault f.

(** A hook enters a function with a static buffer in which another one is. *)
Definition races (mv : move) s (f : fault) : Prop :=
  ∃ i r0 p r d b i' p' r', mv = HookMoves i r0 ∧ f = DataRace ∧
    mc_hooks s !! i = Some (Using p r) ∧ installed s = Some d ∧ static d r = Some b ∧
    mc_hooks s !! i' = Some (Crypting p' r' b).

Lemma unlock_held l f : pthread_rwlock_unlock l = Fault f → rw_writer l = false ∧ rw_readers l = 0.
Proof. destruct l as [[] []]; done. Qed.

Lemma crypting_other b hs : existsb (crypting b) hs = true → ∃ i p r, hs !! i = Some (Crypting p r b).
Proof.
  intros (pc & [i Hi]%list_elem_of_In%list_elem_of_lookup & Hb)%existsb_exists. destruct pc; try discriminate Hb.
  apply bool_decide_eq_true in Hb as <-. eauto.
Qed.

Lemma watcher_step_fault mv s f : inv s → watcher_step mv s = Fault f → blamed s f.
Proof.
  destruct s as [l cl cs db h w hs]. intros [Hl Hcl _ _ Hd _] Hs. cbn in Hl, Hcl, Hd. subst l cl.
  unfold blamed, installed; cbn [mc_cluster mc_db mc_heap]. unfold watcher_step in Hs.
  destruct w, mv; try discriminate Hs; cres_steps;
    try (match goal with H : pthread_rwlock_unlock _ = Fault _ |- _ => by apply unlock_held in H as [??] end); eauto.
  unfold heap_free in *. cres_steps. destruct (Hd n) as [_ [x Hx']]; [by left|]. congruence.
Qed.

(** The database a hook that is inside reads. *)
Lemma inside_reads l cl cs h w hs i pc p :
  inv (Machine l cl cs (Some p) h w hs) → hs !! i = Some pc → inside pc = 1 → ∃ d, heap_read h p = Ok d ∧ h !! p = Some d.
Proof.
  intros [_ _ Hx _ Hd _] Hi Hin. cbn in Hx, Hd. pose proof (sum_lookup inside hs i pc Hi) as Hle.
  assert (Hw : current w (Some p) = Some p) by (destruct w; try done; specialize (Hx eq_refl); lia).
  destruct (Hd p) as [_ [d Hlive]]; [by left|]. exists d. unfold heap_read. by rewrite Hlive.
Qed.

Lemma hook_step_fault i r s f : inv s → hook_step i r s = Fault f → blamed s f ∨ races (HookMoves i r) s f.
Proof.
  intros Hinv Hs. destruct s as [l cl cs db h w hs]. unfold hook_step in Hs.
  destruct (hs !! i) as [pc|] eqn:Hi; [|discriminate Hs].
  pose proof (Forall_lookup_1 _ _ _ _ (inv_hooks _ Hinv) Hi) as Hpc. cbn in Hpc.
  destruct pc as [|r'|r'|p r'|p r' b|]; cbn [hook_ok] in Hpc; subst.
  - cres_steps.
  - left; right; right; exists r'. cres_steps. done.
  - destruct Hpc as [p ->]. discriminate Hs.
  - destruct (inside_reads _ _ _ _ _ _ _ _ _ Hinv Hi eq_refl) as (d & Hread & Hd). rewrite Hread in Hs. cbn [mbind cres_bind] in Hs.
    destruct (static d r') as [b|] eqn:Hst.
    + destruct (existsb (crypting b) hs) eqn:Hb; [|discriminate Hs]. injection Hs as <-. apply crypting_other in Hb as (i' & p' & r'' & Hi').
      right. exists i, r, p, r', d, b, i', p', r''. by split_and!.
    + left; right; right; exists r'. unfold installed; cbn. rewrite Hd. by cres_steps.
  - destruct (inside_reads _ _ _ _ _ _ _ _ _ Hinv Hi eq_refl) as (d & Hread & Hd). rewrite Hread in Hs. cbn [mbind cres_bind] in Hs.
    left; right; right; exists r'. unfold installed; cbn. rewrite Hd. by cres_steps.
  - pose proof (inv_lock _ Hinv) as Hl. pose proof (sum_lookup inside hs i _ Hi) as Hle. cbn in Hl, Hle. cres_steps.
    match goal with H : pthread_rwlock_unlock _ = Fault _ |- _ => apply unlock_held in H as [? Hr] end. cbn in Hr. lia.
Qed.

Lemma thread_step_fault mv s f : inv s → thread_step mv s = Fault f → blamed s f ∨ races mv s f.
Proof. intros Hinv. destruct mv; cbn [thread_step]; intros Hs; [left; by eapply watcher_step_fault|by apply hook_step_fault]. Qed.

(** A hook that uses a database uses the installed one, which is there. *)
Definition uses (pc : hook_pc) p r : Prop := pc = Using p r ∨ ∃ b, pc = Crypting p r b.

Lemma using_live s i pc p r :
  inv s → mc_hooks s !! i = Some pc → uses pc p r → mc_db s = Some p ∧ is_Some (mc_heap s !! p) ∧ ∀ q, mc_watcher s ≠ Freed q.
Proof.
  intros Hinv Hi Hu. pose proof (Forall_lookup_1 _ _ _ _ (inv_hooks _ Hinv) Hi) as Hok.
  assert (Hdb : mc_db s = Some p) by (by destruct Hu as [->|[b ->]]).
  pose proof (sum_lookup inside _ _ _ Hi) as Hle. assert (Hin : inside pc = 1) by (by destruct Hu as [->|[b ->]]). pose proof (inv_exclusive _ Hinv) as Hx.
  assert (Hw : ∀ q, mc_watcher s ≠ Freed q) by (intros q Hq; rewrite Hq in Hx; specialize (Hx eq_refl); lia).
  split; [done|]. split; [|done]. apply (inv_heap _ Hinv). left. rewrite Hdb. destruct (mc_watcher s); try done. by destruct (Hw p0).
Qed.

(** ** Progress *)

(** The steps each thread is still from rest. *)
Definition hook_work (pc : hook_pc) : nat :=
  match pc with Outside => 0 | Entered _ => 5 | Checked _ => 4 | Using _ _ => 3 | Crypting _ _ _ => 2 | Leaving => 1 end.
Definition watcher_work w : nat :=
  match w with
  | Polling => 0 | Updated => 1 | Updating _ => 2
  | Installed => 1 | Freed _ => 2 | Writing _ => 3 | Waiting _ => 4 | BuiltState _ => 5 | Built _ => 6 | BothRead => 7 | StateRead => 8
  end.
Definition work s : nat := watcher_work (mc_watcher s) + sum_list_with hook_work (mc_hooks s).

(** A move that goes on with what a thread is doing. *)
Definition continues (mv : move) s : Prop :=
  match mv with
  | WatcherMoves (Next | Alloc _) => True
  | WatcherMoves _ => False
  | HookMoves i _ => mc_hooks s !! i ≠ Some Outside
  end.

Lemma continue_work mv s s' evs : thread_step mv s = Ok (Some (s', evs)) → continues mv s → work s' < work s.
Proof.
  destruct s as [l cl cs db h w hs]. intros Hs Hc. destruct mv as [mv|i r]; cbn [thread_step continues mc_hooks] in Hs, Hc.
  - unfold watcher_step in Hs. destruct w, mv; try done; cres_steps; unfold work; cbn; lia.
  - unfold hook_step in Hs. destruct (hs !! i) as [pc|] eqn:Hi; [|discriminate Hs].
    pose proof (λ pc', sum_insert hook_work hs i pc pc' Hi) as Hsum.
    destruct pc; [done|..]; cres_steps; unfold work; cbn [mc_watcher mc_hooks];
      match goal with |- context [<[_ := ?pc]> _] => specialize (Hsum pc) end; cbn [hook_work] in Hsum; lia.
Qed.

Lemma inside_runs r s i pc : mc_hooks s !! i = Some pc → pc ≠ Outside → hook_step i r s ≠ Ok None.
Proof.
  destruct s as [l cl cs db h w hs]. cbn. intros -> Hpc Hs. destruct pc; [done|..]; cres_steps; discriminate.
Qed.

Lemma some_inside hs : sum_list_with inside hs ≠ 0 → ∃ i pc, hs !! i = Some pc ∧ pc ≠ Outside.
Proof.
  induction hs as [|pc hs IH]; cbn; intros Hn; [done|]. destruct (decide (inside pc = 0)) as [H0|Hpc].
  - destruct IH as (i & pc' & ? & ?); [lia|]. by exists (S i), pc'.
  - exists 0, pc. split; [done|]. by intros ->.
Qed.

(** The hook to let go on when some are inside: one in a static buffer, if
    there is one. *)
Lemma next_inside hs :
  sum_list_with inside hs ≠ 0 →
  ∃ i pc, hs !! i = Some pc ∧ pc ≠ Outside ∧ ((∃ p r b, pc = Crypting p r b) ∨ ∀ i' p r b, hs !! i' ≠ Some (Crypting p r b)).
Proof.
  intros Hin. destruct (decide (Exists (λ pc, crypting Md5Buffers pc || crypting DesBuffers pc = true) hs)) as [He|Hne].
  - apply Exists_exists in He as (pc & [i Hi]%list_elem_of_lookup & Hpc). exists i, pc. destruct pc; try done. eauto 10.
  - destruct (some_inside hs Hin) as (i & pc & Hi & Hpc). exists i, pc. split_and!; [done..|]. right. intros i' p r b Hi'.
    apply Hne, Exists_exists. exists (Crypting p r b). split; [by eapply list_elem_of_lookup_2|by destruct b].
Qed.

(** Some thread that is not at rest can go on: it is not the case that every
    one of them waits for a lock, or would enter a buffer that is in use. *)
Lemma not_stuck r s : inv s → work s ≠ 0 → ∃ mv, continues mv s ∧ thread_step mv s ≠ Ok None ∧ ∀ f, ¬ races mv s f.
Proof.
  intros Hinv Hw. destruct (decide (sum_list_with inside (mc_hooks s) = 0)) as [H0|Hin].
  - destruct s as [l cl cs db h w hs]. destruct Hinv as [Hl Hcl _ _ _ _]. cbn in Hl, Hcl, H0. subst l cl.
    assert (Hh : sum_list_with hook_work hs = 0).
    { clear Hw. apply outside_all in H0. induction H0 as [|pc hs -> _ IH]; cbn; [done|done]. }
    exists (WatcherMoves (match w with BothRead => Alloc (fresh (dom h)) | _ => Next end)).
    split; [by destruct w|]. split; [|by intros f (?&?&?&?&?&?&?&?&?&?&_)]. cbn [thread_step]. unfold work in Hw. cbn in Hw. rewrite Hh in Hw. rewrite H0.
    destruct w; cbn -[fresh]; try discriminate; try (cbn in Hw; lia).
    + destruct (update c cs); discriminate.
    + rewrite decide_False by (rewrite <- elem_of_dom; apply is_fresh). destruct (build cs) as [[??]|]; discriminate.
    + destruct (heap_free h db); discriminate.
  - apply next_inside in Hin as (i & pc & Hi & Hpc & Hnext). exists (HookMoves i r). cbn [continues thread_step].
    split; [by rewrite Hi; intros [= ->]|]. split; [by eapply inside_runs|].
    intros f (i0 & r0 & p & r1 & d & b & i' & p' & r' & [= -> ->] & _ & Hu & _ & _ & Hc). rewrite Hi in Hu. injection Hu as ->.
    destruct Hnext as [(?&?&?&?)|Hno]; [done|by eapply Hno].
Qed.

Lemma rest_unlocked s : inv s → work s = 0 → mc_lock s = pthread_rwlock_init ∧ mc_cs_lock s = pthread_rwlock_init.
Proof.
  intros [Hl Hcl _ _ _ _] Hw. unfold work in Hw.
  assert (Hin : sum_list_with inside (mc_hooks s) = 0).
  { assert (Hh : sum_list_with hook_work (mc_hooks s) = 0) by lia. clear Hw Hl.
    induction (mc_hooks s) as [|pc hs IH]; cbn in *; [done|]. rewrite IH by lia. destruct pc; cbn in *; lia. }
  rewrite Hl, Hcl, Hin. destruct (mc_watcher s); cbn in Hw; try lia; done.
Qed.

(** With the lock free of readers, a thread that waits to write takes it. *)
Lemma waiting_takes s p : inv s → mc_watcher s = Waiting p → sum_list_with inside (mc_hooks s) = 0 → thread_step (WatcherMoves Next) s ≠ Ok None.
Proof.
  destruct s as [l cl cs db h w hs]. intros [Hl _ _ _ _ _] Hw Hin. cbn in Hl, Hw, Hin. subst w. rewrite Hin in Hl. subst l. discriminate.
Qed.

Lemma hook_yields i r s s' evs :
  prefer_writer && waiting (mc_watcher s) = true → hook_step i r s = Ok (Some (s', evs)) → mc_hooks s !! i ≠ Some Outside.
Proof.
  destruct s as [l cl cs db h w hs]. cbn [mc_hooks mc_watcher]. intros Hy Hs Hi. unfold hook_step in Hs. rewrite Hi in Hs.
  unfold pthread_rwlock_rdlock in Hs. rewrite Hy, orb_true_r in Hs. discriminate.
Qed.
End machine.

(** ** Runs of the atomic program *)
Section atomic.
Context {Cs Db Change Req Ans : Type}.
Context (update : Change → Cs → cres Cs) (build : Cs → cres (Db * Cs)) (serve : option Db → Req → cres Ans).
Local Abbreviation runs := (atomic_run update build serve).

Lemma atomic_run_split a es es' a' : runs a (es ++ es') a' → ∃ a1, runs a es a1 ∧ runs a1 es' a'.
Proof.
  revert a; induction es as [|e es IH]; intros a Hr; [by exists a; split; [constructor|]|].
  inversion Hr as [|? ? a2 ? ? Hs Hr']; subst. destruct (IH _ Hr') as (a1 & H1 & H2). exists a1. split; [by econstructor|done].
Qed.

(** The database of the atomic program is the one its last rebuild built. *)
Lemma atomic_last_rebuild cs es a d :
  runs (Atomic cs None) es a → at_db a = Some d →
  ∃ es0 es1 a0 cs', es = es0 ++ ERebuild :: es1 ∧ ERebuild ∉ es1 ∧ runs (Atomic cs None) es0 a0 ∧ build (at_cluster a0) = Ok (d, cs').
Proof.
  revert a. induction es as [|e es IH] using rev_ind; intros a Hr Hd.
  - inversion Hr; subst. done.
  - apply atomic_run_split in Hr as (a1 & Hr1 & Hr2). inversion Hr2 as [|? ? a2 ? ? Hs Hr3]; subst. inversion Hr3; subst. clear Hr2 Hr3.
    assert (e = ERebuild ∨ e ≠ ERebuild) as [->|Hne] by (destruct e; naive_solver).
    + inversion Hs as [|? ? d' cs' Hb|]; subst. cbn in Hd. injection Hd as ->. exists es, [], (Atomic cs0 db), cs'.
      split_and!; [done|by apply not_elem_of_nil|done|done].
    + destruct (IH a1 Hr1) as (es0 & es1 & a0 & cs' & -> & Hn & Hr0 & Hb); [by inversion Hs; subst|].
      exists es0, (es1 ++ [e]), a0, cs'. split_and!; [by rewrite <- app_assoc|set_solver|done|done].
Qed.
End atomic.

(** * Properties *)
Section properties.
Context {Cs Db Change Req Ans : Type}.
Context (update : Change → Cs → cres Cs) (needs_lock : Change → bool) (build : Cs → cres (Db * Cs))
        (serve : option Db → Req → cres Ans) (static : Db → Req → option static_buffer) (prefer_writer : bool).

Local Abbreviation step := (thread_step update needs_lock build serve static prefer_writer).
Local Abbreviation steps := (run update needs_lock build serve static prefer_writer).

Lemma reachable_inv ms (cs : Cs) n s evs : steps ms (start cs n) = Ok (Some (s, evs)) → inv s.
Proof. intros Hr. destruct (run_simulates _ _ _ _ _ _ _ _ _ _ _ (start_inv cs n) (start_simulates build cs n) Hr) as (a & Hi & _). exact Hi. Qed.

(** C4. Memory and locks, in every interleaving of the threads: a step of any
    thread can only fault in the code that reads an object, builds a database
    or serves a request, or because two hooks use the static buffer of the same
    password function at once; never by using, freeing or dereferencing the
    wrong database or by releasing a lock it does not hold.  A hook that uses a
    database, in or out of a password function, uses the installed one, which
    is not freed before the hook is done; and the databases in memory are the
    installed one and the one the watcher is about to install, so that none is
    lost. *)
Theorem locks_safe ms (cs : Cs) n s evs :
  steps ms (start cs n) = Ok (Some (s, evs)) →
  (∀ mv f, step mv s = Fault f → blamed update build serve s f ∨ races static mv s f) ∧
  (∀ i pc p r, mc_hooks s !! i = Some pc → uses pc p r → mc_db s = Some p ∧ is_Some (mc_heap s !! p)) ∧
  (∀ p, is_Some (mc_heap s !! p) ↔ current (mc_watcher s) (mc_db s) = Some p ∨ new_db (mc_watcher s) = Some p).
Proof.
  intros Hinv%reachable_inv. split; [intros mv f; by apply thread_step_fault|]. split; [|apply (inv_heap _ Hinv)].
  intros i pc p r Hi Hu. destruct (using_live _ _ _ _ _ Hinv Hi Hu) as (Hdb & Hlive & _). done.
Qed.

(** A data race needs two requests that use a static buffer: when no request
    to the installed database needs one, every fault is one of the code that
    runs. *)
Theorem no_buffers_no_race ms (cs : Cs) n s evs mv f :
  steps ms (start cs n) = Ok (Some (s, evs)) → (∀ d r, installed s = Some d → static d r = None) →
  step mv s = Fault f → blamed update build serve s f.
Proof.
  intros Hinv%reachable_inv Hno Hs. destruct (thread_step_fault _ _ _ _ _ _ _ _ _ Hinv Hs) as [Hb|Hrace]; [done|].
  destruct Hrace as (i & r0 & p & r & d & b & i' & p' & r' & _ & _ & _ & Hd & Hst & _). by rewrite Hno in Hst.
Qed.

(** C3. Atomicity.  In every interleaving in which no two hooks are at once in
    the MD5 or at once in the DES password function, the changes, rebuilds and
    answers that can be seen are those of the program in which each change,
    each rebuild and each hook is a single step, in the same order; when the
    threads rest, its state is the one in memory.  The two password functions
    keep their work in static buffers that no lock protects: a hook that enters
    one while another hook is in it faults with [DataRace] in the machine, and
    nothing is said of such a run.  What hooks share otherwise, they only
    read. *)
Theorem locks_atomic ms (cs : Cs) n s evs :
  steps ms (start cs n) = Ok (Some (s, evs)) →
  ∃ a, atomic_run update build serve (Atomic cs None) evs a ∧ (work s = 0 → a = Atomic (mc_cluster s) (installed s)).
Proof.
  intros Hr. destruct (run_simulates _ _ _ _ _ _ _ _ _ _ _ (start_inv cs n) (start_simulates build cs n) Hr) as (a & _ & Ha & [Hc Hd]).
  exists a. split; [done|]. unfold work. intros Hw. destruct a as [acs adb]. cbn in *.
  destruct (mc_watcher s); cbn in Hw; try lia. cbn in Hc. by rewrite Hc, Hd.
Qed.

(** C9. No deadlock: in every reachable state in which some thread is inside a
    region, some thread can go on with what it does, without entering a static
    buffer that is in use, and going on, in any order, brings the program
    nearer to the state in which all are out; there both locks are free.  It
    holds whether or not the lock lets waiting writers go first. *)
Theorem locks_live ms (cs : Cs) n s evs (r : Req) :
  steps ms (start cs n) = Ok (Some (s, evs)) →
  (work s ≠ 0 → ∃ mv, continues mv s ∧ step mv s ≠ Ok None ∧ ∀ f, ¬ races static mv s f) ∧
  (∀ mv s' evs', continues mv s → step mv s = Ok (Some (s', evs')) → work s' < work s) ∧
  (work s = 0 → mc_lock s = pthread_rwlock_init ∧ mc_cs_lock s = pthread_rwlock_init).
Proof.
  intros Hinv%reachable_inv. split_and!.
  - by apply not_stuck.
  - intros mv s' evs' Hc Hs. by eapply continue_work.
  - by apply rest_unlocked.
Qed.

(** With a lock that lets waiting writers go first, the new database is
    installed however many requests arrive: while the watcher waits, the hooks
    make at most as many steps as the ones inside have left, and then the
    watcher can go on. *)
Theorem writer_not_starved ms (cs : Cs) n s evs p (hooks : list (nat * Req)) s' evs' :
  prefer_writer = true → steps ms (start cs n) = Ok (Some (s, evs)) → mc_watcher s = Waiting p →
  steps ((λ h, HookMoves h.1 h.2) <$> hooks) s = Ok (Some (s', evs')) →
  length hooks + sum_list_with hook_work (mc_hooks s') ≤ sum_list_with hook_work (mc_hooks s) ∧ mc_watcher s' = Waiting p ∧
  (sum_list_with inside (mc_hooks s') = 0 → step (WatcherMoves Next) s' ≠ Ok None).
Proof.
  intros Hp Hinv%reachable_inv Hw. revert s evs evs' Hinv Hw. induction hooks as [|[i r] hooks IH]; intros s evs evs' Hinv Hw Hr.
  - cbn in Hr. apply (inj Ok), (inj Some), pair_eq in Hr as [-> _]. split; [cbn; lia|]. split; [done|]. by eapply waiting_takes.
  - rewrite fmap_cons in Hr. apply run_cons in Hr as (s1 & evs1 & evs2 & Hs & Hr & ->). cbn [fst snd] in Hs.
    pose proof (hook_step_watcher _ _ _ _ _ _ _ _ Hs) as Hw1.
    assert (Hlt : work s1 < work s).
    { eapply continue_work; [exact Hs|]. cbn. eapply hook_yields; [|exact Hs]. by rewrite Hp, Hw. }
    destruct (IH s1 evs evs2) as (Hle & Hrest); [by eapply thread_step_inv|by rewrite Hw1|done|].
    split; [|done]. unfold work in Hlt. rewrite Hw1 in Hlt. cbn [length]. lia.
Qed.
End properties.

(** * The password functions a request runs *)
Section passwords.
Context `{P : Posix} `{SSL : OpenSSL} `{D : Digests}.
Implicit Types (rp : remap_path).

(** The password of the Authorization field and the stored hash with which
    [auth_check_basic] calls [crypt_check], when it gets that far. *)
Definition basic_login (hdr : bytes) rp : option (bytes * bytes) :=
  if negb (bool_decide (rp_auth_type rp = REMAP_AUTH_BASIC)) then None else
  users ← rp_users rp;
  '(before, _) ← cut " "%char hdr;
  if (length hdr <? 7)%nat || negb (has_prefix (lit "Basic ") hdr) then None else
  let creds := drop_while isspace (drop (length before) hdr) in
  if bool_decide (creds = []) || bool_decide (base64_decode_len (Z.of_nat (length creds)) > 256 - 1)%Z then None else
  buf ← base64_decode creds;
  if (length buf <? 3)%nat then None else
  '(user, pass) ← cut ":"%char (c_str buf);
  crypted ← hash_get users user;
  Some (pass, crypted).

Lemma auth_check_basic_login hdr rp :
  match basic_login hdr rp with
  | Some (pass, crypted) => auth_check_basic hdr rp = (ok ← crypt_check pass crypted; Ok (if (ok : bool) then 1 else 0)%Z)
  | None => ∃ n, auth_check_basic hdr rp = Ok n ∧ n ≠ 1%Z
  end.
Proof.
  unfold basic_login, auth_check_basic, auth_check_password.
  destruct (negb _); [by exists 0%Z|]. destruct (rp_users rp) as [users|]; [|by exists 0%Z].
  destruct (cut " "%char hdr) as [[before ?]|]; cbn [mbind option_bind]; [|by exists (-1)%Z].
  destruct (_ <? 7); [by exists (-1)%Z|]. destruct (negb _); cbn [orb]; [by exists (-1)%Z|].
  destruct (bool_decide (_ = [])); [by exists (-1)%Z|]. destruct (bool_decide _); cbn [orb]; [by exists (-1)%Z|].
  destruct (base64_decode _) as [buf|]; cbn [mbind option_bind]; [|by exists (-1)%Z]. destruct (_ <? 3); [by exists (-1)%Z|].
  destruct (cut ":"%char _) as [[user pass]|]; cbn [mbind option_bind]; [|by exists (-1)%Z].
  destruct (hash_get users user); cbn [option_bind mbind cres_bind]; [done|by exists 0%Z].
Qed.

(** [rr_check_auth] comes to the password. *)
Definition asks_password (req : remap_request) rp : bool :=
  if bool_decide (rp_auth_type rp = REMAP_AUTH_NONE) then false
  else if bool_decide (rp_auth_addr_list rp = []) then true
  else match rp_auth_satisfy rp, auth_check_address (rr_addr req) rp with
       | REMAP_SATISFY_ANY, Ok ip_ok => negb ip_ok
       | REMAP_SATISFY_ALL, Ok ip_ok => ip_ok
       | _, Fault _ => false
       end.

Lemma rr_check_auth_asks req ret rp :
  rz_path ret = Some rp →
  if asks_password req rp then
    rr_check_auth req ret =
      (ok ← basic_ok (match hash_get (rr_hdrfields req) (lit "authorization") with Some (RemapHdrfield [v]) => Some v | _ => None end) rp;
       if (ok : bool) then Ok (RR_OK, ret) else unauthorized ret)
  else rr_check_auth req ret = Ok (RR_OK, ret) ∨ rr_check_auth req ret = Ok (RR_ERR_FORBIDDEN, ret) ∨
       ∃ f, auth_check_address (rr_addr req) rp = Fault f ∧ rr_check_auth req ret = Fault f.
Proof.
  intros Hp. unfold asks_password, rr_check_auth. rewrite Hp. cbn [deref mbind cres_bind].
  destruct (bool_decide (rp_auth_type rp = _)), (bool_decide (rp_auth_addr_list rp = [])); cbn [andb]; [by left| |done|].
  - destruct (auth_check_address _ rp) as [[]|]; cbn [mbind cres_bind]; eauto.
  - destruct (rp_auth_satisfy rp), (auth_check_address _ rp) as [[]|]; cbn [mbind cres_bind negb]; eauto.
Qed.

(** The static buffer of the function that checks against a stored hash. *)
Definition hash_buffer (hash : bytes) : option static_buffer :=
  match get_crypt_function (if has_prefix (lit "{CRYPT}") hash then drop 7 hash else hash) with
  | Some CheckMd5 => Some Md5Buffers
  | Some CheckDes => Some DesBuffers
  | _ => None
  end.

(** The static buffer that [remap_run] uses for a request: the one of the hash
    of the user who logs in, when the request gets to the check. *)
Definition request_buffer (db : remap_db) (req : remap_request) : option static_buffer :=
  match is_healthcheck db req, rr_host req ≫= remap_db_get_host db with
  | Ok false, Some rh =>
      match remap_host_find_path rh (rr_path req) with
      | Ok (rp, _) =>
          match rr_check_tls req (set_rz_path (set_rz_host result_zero (Some rh)) (Some rp)) with
          | Ok (RR_OK, _) =>
              if asks_password req rp then
                match hash_get (rr_hdrfields req) (lit "authorization") with
                | Some (RemapHdrfield [hdr]) => '(_, crypted) ← basic_login hdr rp; hash_buffer crypted
                | _ => None
                end
              else None
          | _ => None
          end
      | Fault _ => None
      end
  | _, _ => None
  end.

Lemma basic_login_user hdr rp pass crypted :
  basic_login hdr rp = Some (pass, crypted) → ∃ users user, rp_users rp = Some users ∧ hash_get users user = Some crypted.
Proof.
  unfold basic_login. destruct (negb _); [done|]. intros (users & Hu & ([before ?] & _ & Hl)%bind_Some)%bind_Some.
  destruct (_ || _); [done|]. destruct (_ || _); [done|]. apply bind_Some in Hl as (buf & _ & Hl). destruct (_ <? 3); [done|].
  apply bind_Some in Hl as ([user ?] & _ & (c & Hc & [= _ <-])%bind_Some). eauto.
Qed.

(** A request for a path whose users have no MD5 or DES hash uses no static
    buffer. *)
Lemma request_buffer_none db req :
  (∀ host rh rp n users user crypted, rr_host req = Some host → remap_db_get_host db host = Some rh →
     remap_host_find_path rh (rr_path req) = Ok (rp, n) → rp_users rp = Some users → hash_get users user = Some crypted →
     hash_buffer crypted = None) →
  request_buffer db req = None.
Proof.
  intros Hno. unfold request_buffer. destruct (is_healthcheck db req) as [[]|]; [done| |done].
  destruct (rr_host req) as [host|]; cbn [mbind option_bind]; [|done]. destruct (remap_db_get_host db host) as [rh|] eqn:Hh; [|done].
  destruct (remap_host_find_path rh (rr_path req)) as [[rp n]|] eqn:Hf; [|done].
  destruct (rr_check_tls _ _) as [[[] ?]|]; try done. destruct (asks_password req rp); [|done].
  destruct (hash_get (rr_hdrfields req) _) as [[[|hdr []]]|]; try done.
  destruct (basic_login hdr rp) as [[pass crypted]|] eqn:Hl; [|done]. cbn [mbind option_bind].
  apply basic_login_user in Hl as (users & user & Hu & Hg). by eapply Hno.
Qed.
End passwords.

(** * The plugin *)
Section plugin.
Context `{J : JsonC} `{PL : PosixLaws} `{SL : OpenSSLLaws} `{D : Digests}.

(** The changes the watcher makes to the cluster: an event of the watch, the
    ConfigMap of a full fetch (for which it takes no lock), and the
    namespaces of a full fetch. *)
Inductive cluster_change :=
  | WatchChange (e : watch_event)
  | ConfigChange (cm : configmap)
  | SwapNamespaces (newcluster : cluster).

Definition cluster_update (cfg : k8s_config) (c : cluster_change) (cs : cluster) : cres cluster :=
  match c with
  | WatchChange e => ws ← apply_event cfg (WState cs false) e; Ok (ws_cluster ws)
  | ConfigChange cm => Ok (cluster_set_configmap cs (Some cm))
  | SwapNamespaces newcluster => Ok (Cluster (cs_namespaces newcluster) (cs_config cs))
  end.

Definition takes_cs_lock (c : cluster_change) : bool := match c with ConfigChange _ => false | _ => true end.

(** The two hooks that read the database, from the point where they take the
    lock. *)
Inductive hook_call :=
  | CallRemap (txn : ts_txn) (rand : Z)
  | CallTls (acptid : nat) (host version : bytes).

Inductive hook_answer :=
  | RemapAnswer (rctx : option request_ctx) (acts : list ts_action)
  | TlsAnswer (acts : list tls_action).

Definition call_hook (cfg : k8s_config) (protosets : option (list proto_set)) (db : option remap_db) (c : hook_call) : cres hook_answer :=
  match c with
  | CallRemap txn rand => '(rctx, acts) ← handle_remap (co_xfp cfg) db txn rand; Ok (RemapAnswer rctx acts)
  | CallTls acptid host version => acts ← handle_tls db protosets acptid (Some host) version; Ok (TlsAnswer acts)
  end.

Definition call_buffer (db : remap_db) (c : hook_call) : option static_buffer :=
  match c with
  | CallRemap txn _ => request_buffer db (request_from_txn txn)
  | CallTls _ _ _ => None
  end.

Definition plugin_run (prefer_writer : bool) (cfg : k8s_config) (protosets : option (list proto_set)) (n : nat)
    (ms : list (move (Change := cluster_change) (Req := hook_call))) : result :=
  run (cluster_update cfg) takes_cs_lock (remap_db_from_cluster cfg) (call_hook cfg protosets) call_buffer prefer_writer ms (start cluster_make n).

(** The changes that occur: an event is decoded from a line of the watch, and
    the namespaces are swapped when every response of a full fetch has been
    processed. *)
Definition delivered (cfg : k8s_config) (c : cluster_change) : Prop :=
  match c with
  | WatchChange e => ∃ line, decode_event line = Ok (Some e)
  | ConfigChange _ => True
  | SwapNamespaces newcluster =>
      ∃ live live' vs vs' msgs, process_all cfg msgs vs (live, cluster_make) = Ok (true, vs', (live', newcluster))
  end.

(** The cluster holds objects: its tables are well formed. *)
Definition holds_objects (cs : cluster) : Prop := ∃ m, ws_models (WState cs false) m.

Lemma holds_objects_config cs cc : holds_objects cs → holds_objects (Cluster (cs_namespaces cs) cc).
Proof. intros (m & [(hm & Hm)] & Hc). exists m. split; [|done]. split. by exists hm. Qed.

Lemma delivered_holds cfg c cs cs' : holds_objects cs → delivered cfg c → cluster_update cfg c cs = Ok cs' → holds_objects cs'.
Proof.
  intros [m Hm] Hc Hu. destruct c as [e|cm|newcluster]; cbn [cluster_update] in Hu.
  - destruct Hc as [line Hd]. destruct (apply_event cfg (WState cs false) e) as [ws|] eqn:Ea; [|discriminate Hu].
    cbn [mbind cres_bind] in Hu. apply (inj Ok) in Hu as <-.
    destruct (apply_event_spec cfg _ _ _ _ Hm (λ eps, decode_event_name line e eps Hd) Ea) as (eff & _ & Hs & _).
    exists (effect_views eff (we_namespace e) m). destruct ws as [cs' b]. by apply (ws_models_flag cs' b).
  - apply (inj Ok) in Hu as <-. apply holds_objects_config. by exists m.
  - apply (inj Ok) in Hu as <-. destruct Hc as (live & live' & vs & vs' & msgs & Hp).
    destruct (get_all_models cfg live (Cluster (cs_namespaces newcluster) (cs_config live')) vs vs' msgs) as [m' Hm'].
    { unfold fetch_replace. by rewrite Hp. }
    exact (holds_objects_config (Cluster (cs_namespaces newcluster) (cs_config live')) (cs_config cs) (ex_intro _ m' Hm')).
Qed.

Lemma start_holds : holds_objects cluster_make.
Proof. exists ∅. split; [apply cluster_models_make|]. intros n v. by rewrite lookup_empty. Qed.

Lemma atomic_holds cfg protosets a es a' :
  atomic_run (cluster_update cfg) (remap_db_from_cluster cfg) (call_hook cfg protosets) a es a' →
  (∀ c, EUpdate c ∈ es → delivered cfg c) → holds_objects (at_cluster a) → holds_objects (at_cluster a').
Proof.
  induction 1 as [|a1 e a2 es a3 Hs _ IH]; [done|]. intros Hd Hh. apply IH; [intros c Hc; apply Hd; by right|].
  destruct Hs as [cs db c cs' Hu|cs db d cs' Hb|]; cbn [at_cluster] in *; [|..|done].
  - eapply delivered_holds; [done| |done]. apply Hd. by left.
  - destruct Hh as [m Hm]. destruct (keeps_objects (cb := remap_db_from_cluster cfg) _ _ _ _ Hm Hb) as (m' & Hm' & _). by exists m'.
Qed.

Lemma holds_wf cs : holds_objects cs → hash_wf (cs_namespaces cs).
Proof. intros (m & [(hm & Hm & _)] & _). apply (hm_wf _ _ Hm). Qed.


(** A hook that uses a database finds the one of the last rebuild.  If the
    cluster held valid objects then, the request is answered in this step and
    resumed exactly once, wherever the other threads are, when it needs no
    static buffer or has entered it; a request that is about to enter one does
    so, unless another hook is in it, which is a data race. *)
Theorem concurrent_answers (prefer_writer : bool) (cfg : k8s_config) (protosets : option (list proto_set)) (n : nat)
    ms s evs i pc p (txn : ts_txn) (rand : Z) r :
  plugin_run prefer_writer cfg protosets n ms = Ok (Some (s, evs)) → mc_hooks s !! i = Some pc → uses pc p (CallRemap txn rand) →
  is_Some (tx_scheme txn) → length (sa_addr (tx_addr txn)) = addr_length (sa_family (tx_addr txn)) → (0 ≤ rand ≤ RAND_MAX)%Z →
  ∃ es0 es1 cs adb db cs',
    evs = es0 ++ ERebuild :: es1 ∧ ERebuild ∉ es1 ∧
    atomic_run (cluster_update cfg) (remap_db_from_cluster cfg) (call_hook cfg protosets) (Atomic cluster_make None) es0 (Atomic cs adb) ∧
    remap_db_from_cluster cfg cs = Ok (db, cs') ∧
    match pc, request_buffer db (request_from_txn txn) with
    | Using _ _, Some b =>
        hook_step (call_hook cfg protosets) call_buffer prefer_writer i r s =
          (if existsb (crypting b) (mc_hooks s) then Fault DataRace
           else Ok (Some (Machine (mc_lock s) (mc_cs_lock s) (mc_cluster s) (mc_db s) (mc_heap s) (mc_watcher s)
                            (<[i := Crypting p (CallRemap txn rand) b]> (mc_hooks s)), [])))
    | _, _ =>
        cluster_ok cs → ∃ s' rctx acts,
          hook_step (call_hook cfg protosets) call_buffer prefer_writer i r s =
            Ok (Some (s', [EServe (CallRemap txn rand) (RemapAnswer (Some rctx) acts)])) ∧
          length (filter resumes acts) = 1
    end.
Proof.
  intros Hr Hi Hu Hs Hl Hrand. unfold plugin_run in Hr.
  destruct (run_simulates _ _ _ _ _ _ _ _ _ _ _ (start_inv _ n) (start_simulates _ cluster_make n) Hr) as (a & Hinv & Hat & [_ Hsim]).
  destruct (using_live _ _ _ _ _ Hinv Hi Hu) as (Hdb & [db Hlive] & Hw). specialize (Hsim Hw).
  unfold installed in Hsim. rewrite Hdb in Hsim. cbn in Hsim. rewrite Hlive in Hsim.
  destruct (atomic_last_rebuild _ _ _ _ _ _ db Hat Hsim) as (es0 & es1 & [cs adb] & cs' & -> & Hn & Hr0 & Hb).
  exists es0, es1, cs, adb, db, cs'. split_and!; try done.
  assert (Hans : cluster_ok cs → ∃ rctx acts, handle_remap (co_xfp cfg) (Some db) txn rand = Ok (Some rctx, acts) ∧ length (filter resumes acts) = 1).
  { intros Hok. destruct (built_db_ok _ _ _ _ Hok Hb) as [Hsafe Hck]. by apply handle_remap_returns. }
  destruct s as [l cl cs1 db1 h w hs]. cbn [mc_hooks mc_db mc_heap mc_lock mc_cs_lock mc_cluster mc_watcher] in *.
  unfold hook_step. rewrite Hi. destruct Hu as [->|[b ->]]; unfold heap_read; rewrite Hlive; cbn [mbind cres_bind call_hook call_buffer];
    [destruct (request_buffer db (request_from_txn txn)) as [b|]; [done|]|];
    intros Hok; destruct (Hans Hok) as (rctx & acts & -> & Hone); cbn [mbind cres_bind]; eauto 10.
Qed.
End plugin.

(** * Examples *)
Module Examples.

(** A machine with numbers for the cluster, the database and the answers. *)
Abbreviation nat_step prefer :=
  (run (λ c cs, Ok (c + cs)) (λ _, true) (λ cs, Ok (cs, cs)) (λ db (_ : unit), Ok db) (λ _ _, Some DesBuffers) prefer).
Abbreviation W := (WatcherMoves (Req := unit) Next).
Abbreviation H i := (HookMoves (Change := nat) i ()).

(** A request starts before a rebuild and one starts during it; both are
    answered from a database that is there, one after the other in the password
    function. *)
Definition overlapping : list move :=
  [WatcherMoves (Update 3); W; W;
   WatcherMoves Rebuild; W; WatcherMoves (Alloc 0); W; W; W; W; W; W;
   WatcherMoves (Update 4); H 0; W; H 0; W;
   WatcherMoves Rebuild; H 0; W; WatcherMoves (Alloc 1); H 1; W; W; H 0; H 1; H 0; H 0; H 1; H 1; H 1; H 1; W; W; W; W].

Definition after_overlap : machine (Db := nat) (Change := nat) (Req := unit) :=
  Machine pthread_rwlock_init pthread_rwlock_init 7 (Some 1) {[1 := 7]} Polling [Outside; Outside].

Lemma overlapping_run :
  nat_step false overlapping (start 0 2) =
    Ok (Some (after_overlap, [EUpdate 3; ERebuild; EUpdate 4; EServe () (Some 3); EServe () (Some 3); ERebuild])).
Proof. vm_compute. reflexivity. Qed.

Lemma locks_safe_witness : is_Some (mc_heap after_overlap !! 1) ∧ ¬ is_Some (mc_heap after_overlap !! 0).
Proof.
  pose proof (proj2 (proj2 (locks_safe _ _ _ _ _ _ _ _ _ _ _ overlapping_run))) as Hheap.
  split; [apply Hheap; by left|]. intros [Hc|Hc]%Hheap; discriminate Hc.
Defined.

Lemma locks_atomic_witness :
  atomic_run (λ c cs, Ok (c + cs)) (λ cs, Ok (cs, cs)) (λ db (_ : unit), Ok db) (Atomic 0 None)
    [EUpdate 3; ERebuild; EUpdate 4; EServe () (Some 3); EServe () (Some 3); ERebuild] (Atomic 7 (Some 7)).
Proof. destruct (locks_atomic _ _ _ _ _ _ _ _ _ _ _ overlapping_run) as (a & Ha & Hrest). by rewrite (Hrest eq_refl) in Ha. Defined.

(** With the steps of the two requests in another order the second enters the
    password function while the first is in it. *)
Definition racing : list move :=
  [WatcherMoves Rebuild; W; WatcherMoves (Alloc 0); W; W; W; W; W; W; H 0; H 0; H 0; H 1; H 1; H 1; H 0; H 1].

Example racing_run : nat_step false racing (start 5 2) = Fault DataRace.
Proof. vm_compute. reflexivity. Qed.

(** The second rebuild waits for a request that is under way. *)
Definition held_up : list move :=
  [WatcherMoves Rebuild; W; WatcherMoves (Alloc 0); H 0; W; W].
Definition held_machine : machine (Db := nat) (Change := nat) (Req := unit) :=
  Machine (RwLock false 1) pthread_rwlock_init 5 None {[0 := 5]} (Waiting 0) [Entered (); Outside].

Lemma held_up_run prefer : nat_step prefer held_up (start 5 2) = Ok (Some (held_machine, [])).
Proof. destruct prefer; vm_compute; reflexivity. Qed.

Lemma locks_live_witness : ∃ mv, continues mv held_machine ∧
  thread_step (λ c cs, Ok (c + cs)) (λ _, true) (λ cs, Ok (cs, cs)) (λ db (_ : unit), Ok db) (λ _ _, Some DesBuffers) true mv held_machine ≠ Ok None ∧
  ∀ f, ¬ races (λ _ _, Some DesBuffers) mv held_machine f.
Proof. apply (proj1 (locks_live _ _ _ _ _ _ _ _ _ _ _ () (held_up_run true))). discriminate. Defined.

(** A lock that lets readers in while a writer waits may keep the watcher
    waiting for ever: the second hook enters before the first leaves, and so
    on. *)
Definition relay : list move := [H 1; H 0; H 0; H 0; H 1; H 1].

Lemma relay_run : nat_step false relay held_machine = Ok (Some (held_machine, [EServe () None; EServe () None])).
Proof. vm_compute. reflexivity. Qed.

Lemma run_app {Cs Db Change Req Ans} update needs_lock build serve static prefer ms ms' (s s1 s2 : machine (Cs := Cs) (Db := Db) (Change := Change) (Req := Req))
    (evs evs' : list (event (Ans := Ans))) :
  run update needs_lock build serve static prefer ms s = Ok (Some (s1, evs)) →
  run update needs_lock build serve static prefer ms' s1 = Ok (Some (s2, evs')) →
  run update needs_lock build serve static prefer (ms ++ ms') s = Ok (Some (s2, evs ++ evs')).
Proof.
  revert s evs. induction ms as [|mv ms IH]; intros s evs Hr Hr'.
  - cbn in Hr. injection Hr as -> <-. done.
  - apply run_cons in Hr as (s0 & evs1 & evs2 & Hs & Hr & ->). cbn [run app]. rewrite Hs. cbn [mbind cres_bind].
    rewrite (IH _ _ Hr Hr'). cbn [mbind cres_bind]. by rewrite <- app_assoc.
Qed.

Example writer_starves (k : nat) :
  ∃ ms evs, k ≤ length ms ∧ nat_step false ms held_machine = Ok (Some (held_machine, evs)) ∧ Forall (λ mv, mv ≠ W) ms.
Proof.
  induction k as [|k (ms & evs & Hk & Hr & Hw)].
  - exists [], []. split; [done|]. split; [reflexivity|constructor].
  - exists (relay ++ ms), ([EServe () None; EServe () None] ++ evs). split; [rewrite length_app; cbn; lia|].
    split; [exact (run_app _ _ _ _ _ _ _ _ _ _ _ _ _ relay_run Hr)|]. apply Forall_app. split; [by repeat constructor|done].
Qed.

(** The plugin: the watch delivers a Service, its Endpoints and an Ingress that
    asks for no password, the database is built, and a request comes. *)
Definition in_prod (name : bytes) : bytes * json :=
  (lit "metadata", JObject [(lit "namespace", JString (lit "prod")); (lit "name", JString name)]).
Definition added (object : list (bytes * json)) : json := JObject [(lit "type", JString (lit "ADDED")); (lit "object", JObject object)].

Definition service_added : json :=
  added [(lit "kind", JString (lit "Service")); in_prod (lit "web");
    (lit "spec", JObject [(lit "type", JString (lit "ClusterIP"));
       (lit "ports", JArray [JObject [(lit "name", JString (lit "http")); (lit "port", JInt 80)]])])].
Definition endpoints_added : json :=
  added [(lit "kind", JString (lit "Endpoints")); in_prod (lit "web");
    (lit "subsets", JArray [JObject [(lit "ports", JArray [JObject [(lit "name", JString (lit "http")); (lit "port", JInt 8080)]]);
       (lit "addresses", JArray [JObject [(lit "ip", JString (lit "10.0.0.1"))]])]])].
Definition ingress_added : json :=
  added [(lit "kind", JString (lit "Ingress")); in_prod (lit "site");
    (lit "spec", JObject [(lit "rules", JArray [JObject [(lit "host", JString (lit "www.example.com"));
       (lit "http", JObject [(lit "paths", JArray [JObject [(lit "path", JString (lit "/app"));
          (lit "backend", JObject [(lit "serviceName", JString (lit "web")); (lit "servicePort", JInt 80)])]])])]])])].

#[local] Instance site_texts : JsonC := json_tree_with (λ s,
  if streq s (lit "service") then Some service_added else if streq s (lit "endpoints") then Some endpoints_added
  else if streq s (lit "ingress") then Some ingress_added else None).
#[local] Existing Instance posix_literal.
#[local] Existing Instance posix_literal_laws.
#[local] Existing Instance openssl_list.
#[local] Existing Instance openssl_list_laws.
#[local] Existing Instance digests_pad.
Import EndToEnd.Examples.

(** The buffers of requests by a user with a given hash: a request that is
    redirected to https does not come to the password. *)
Definition login_db (hash : bytes) : remap_db :=
  let users := hash_set (hash_new 127 true) (lit "bob") hash in
  let db := RemapDb.Examples.ex_db in
  RemapDb _ _ (rd_config db) (rd_healthcheck db)
    (hash_put (rd_hosts db) (lit "example.com") (set_rh_paths remap_host_new [set_rp_users RemapDb.Examples.ex_path (Some users)])).

Example login_buffers :
  let request := RemapDb.Examples.ex_request in
  request_buffer (login_db (lit "$apr1$ab$xyz")) (request (lit "https")) = Some Md5Buffers ∧
  request_buffer (login_db (lit "{CRYPT}fnNT2T9mSvQWw")) (request (lit "https")) = Some DesBuffers ∧
  request_buffer (login_db (lit "{PLAIN}hunter2")) (request (lit "https")) = None ∧
  request_buffer (login_db (lit "$apr1$ab$xyz")) (request (lit "http")) = None.
Proof. by vm_compute. Qed.

Definition site_change (line : bytes) : cluster_change :=
  WatchChange (match decode_event line with Ok (Some e) => e | _ => WatchEvent false [] [] [] JNull end).
Definition site_changes : list cluster_change := site_change <$> [lit "service"; lit "endpoints"; lit "ingress"].

Lemma site_delivered c : c ∈ site_changes → delivered k8s_config_new c.
Proof.
  intros (line & -> & Hl)%list_elem_of_fmap. exists line. revert line Hl. apply Forall_forall.
  repeat constructor; vm_compute; reflexivity.
Qed.

Definition watched : list (move (Change := cluster_change) (Req := hook_call)) :=
  let next := WatcherMoves Next in let hook := HookMoves 0 (CallRemap ex_get 7) in
  flat_map (λ c, [WatcherMoves (Update c); next; next]) site_changes ++
  [WatcherMoves Rebuild; next; WatcherMoves (Alloc 0); next; next; next; next; next; next; hook; hook; hook; hook].

Definition outcome := plugin_run false k8s_config_new None 1 watched.

Lemma outcome_contacts :
  match outcome with
  | Ok (Some (_, [_; _; _; _; EServe (CallRemap txn _) (RemapAnswer _ acts)])) =>
      bool_decide (rr_host (request_from_txn txn) = Some (lit "www.example.com")) && existsb contacts acts
  | _ => false
  end = true.
Proof. vm_compute. reflexivity. Qed.

Lemma watched_delivered c : WatcherMoves (Update c) ∈ watched → delivered k8s_config_new c.
Proof.
  unfold watched. intros [Hc|Hc]%elem_of_app; [|exfalso; revert Hc; generalize (CallRemap ex_get 7); set_solver].
  apply site_delivered. revert Hc. generalize site_changes. intros l Hc. induction l as [|c' l IH]; set_solver.
Qed.

End Examples.
