(* ===== verification/Rax.v ===== *)
(** [contrib/rax/rax.c]: the radix tree behind the other build of the table
    ([HASH_USE_RAX]).

    A node is a value with the fields of [raxNode]; a pointer to a node is the
    node, since every node has one parent.  The stack of parents that a walk
    leaves holds each parent with the position of the child it went to, which
    the C code finds again by comparing pointers; writing through
    [parentlink] puts the node back into its parents ([relink]).  Characters
    compare as [unsigned char].  Allocation succeeds. *)

From S2P Require Import Prelude.

Create HintDb rax_db.

(** * Data *)

(** [rn_value] is the pointer after the children, where there is one; the
    [size] of a node is the number of its characters. *)
Section node.
Local Unset Elimination Schemes.
Inductive raxNode (V : Type) := RaxNode {
  rn_iskey : bool;
  rn_isnull : bool;
  rn_iscompr : bool;
  rn_data : bytes;
  rn_children : list (raxNode V);
  rn_value : option V;
}.
End node.
Arguments RaxNode {V}.
Arguments rn_iskey {V}.
Arguments rn_isnull {V}.
Arguments rn_iscompr {V}.
Arguments rn_data {V}.
Arguments rn_children {V}.
Arguments rn_value {V}.

(** Induction with a hypothesis for every child. *)
Section induction.
Context {V : Type} (P : raxNode V → Prop).
Context (Hnode : ∀ iskey isnull iscompr data children value,
  Forall P children → P (RaxNode iskey isnull iscompr data children value)).
Fixpoint raxNode_ind (n : raxNode V) : P n :=
  match n with
  | RaxNode iskey isnull iscompr data children value =>
      Hnode iskey isnull iscompr data children value
        ((fix go (l : list (raxNode V)) : Forall P l :=
            match l with [] => Forall_nil_2 P | c :: l => Forall_cons_2 P c l (raxNode_ind c) (go l) end) children)
  end.
End induction.

Record rax (V : Type) := Rax {
  rx_head : raxNode V;
  rx_numele : Z;
  rx_numnodes : Z;
}.
Arguments Rax {V}.
Arguments rx_head {V}.
Arguments rx_numele {V}.
Arguments rx_numnodes {V}.

Definition RAX_NODE_MAX_SIZE : Z := 2 ^ 29 - 1.

(** The order of the bytes of a key. *)
Definition ult (a b : ascii) : bool := (u8 a <? u8 b)%Z.

(** * Operations *)
Section ops.
Context {V : Type}.
Abbreviation node := (raxNode V).
Abbreviation stack := (list (node * nat)).
Implicit Types (n h : node) (s : bytes) (data : option V) (ts : stack) (rx : rax V).

Definition size n : nat := length (rn_data n).

Definition raxNewNode : node := RaxNode false false false [] [] None.

Definition raxNew : rax V := Rax raxNewNode 0 1.

Definition raxSetData n data : node :=
  match data with
  | Some v => RaxNode true false (rn_iscompr n) (rn_data n) (rn_children n) (Some v)
  | None => RaxNode true true (rn_iscompr n) (rn_data n) (rn_children n) (rn_value n)
  end.

Definition raxGetData n : option V := if rn_isnull n then None else rn_value n.

(** The child pointer at a position, and writing one. *)
Definition child_at n (i : nat) : cres node := arr_get (rn_children n) i.
Definition set_child n (i : nat) (c : node) : node :=
  RaxNode (rn_iskey n) (rn_isnull n) (rn_iscompr n) (rn_data n) (<[i := c]> (rn_children n)) (rn_value n).

(** The place of the first character after [c], where its child goes. *)
Fixpoint add_pos (v : bytes) (c : ascii) : nat :=
  match v with
  | [] => 0
  | x :: v => if ult c x then 0 else S (add_pos v c)
  end.

(** The node with the new child, and the position of the child. *)
Definition raxAddChild n (c : ascii) : cres (node * nat) :=
  if rn_iscompr n then Fault AssertFail else
  let pos := add_pos (rn_data n) c in
  Ok (RaxNode (rn_iskey n) (rn_isnull n) false
        (take pos (rn_data n) ++ c :: drop pos (rn_data n))
        (take pos (rn_children n) ++ raxNewNode :: drop pos (rn_children n)) (rn_value n), pos).

Definition raxCompressNode n s : cres node :=
  if negb (size n =? 0) || rn_iscompr n then Fault AssertFail else
  let new := RaxNode (rn_iskey n) (rn_isnull n) true s [raxNewNode] None in
  Ok (if rn_iskey n then raxSetData new (raxGetData n) else new).

(** ** The walk *)

(** Where a walk ended: the bytes of the key that are left, the node, the
    position inside a compressed node, and the parents. *)
Record walk := Walk {
  wk_rest : bytes;
  wk_node : node;
  wk_splitpos : nat;
  wk_stack : stack;
}.

(** How far a compressed node agrees with the key. *)
Fixpoint agree (v s : bytes) : nat :=
  match v, s with
  | x :: v, y :: s => if bool_decide (x = y) then S (agree v s) else 0
  | _, _ => 0
  end.

(** The position of a character among the edges of a node. *)
Fixpoint edge (v : bytes) (c : ascii) : option nat :=
  match v with
  | [] => None
  | x :: v => if bool_decide (x = c) then Some 0 else S <$> edge v c
  end.

Fixpoint walk_loop (fuel : nat) h s ts : cres walk :=
  match fuel with
  | O => Fault Diverges
  | S fuel =>
      match s with
      | [] => Ok (Walk [] h 0 ts)
      | c :: s' =>
          if size h =? 0 then Ok (Walk s h 0 ts)
          else if rn_iscompr h then
            let j := agree (rn_data h) s in
            if negb (j =? size h) then Ok (Walk (drop j s) h j ts)
            else child ← child_at h 0; walk_loop fuel child (drop j s) ((h, 0) :: ts)
          else
            match edge (rn_data h) c with
            | None => Ok (Walk s h 0 ts)
            | Some j => child ← child_at h j; walk_loop fuel child s' ((h, j) :: ts)
            end
      end
  end.

Definition raxLowWalk rx s : cres walk := walk_loop (S (length s)) (rx_head rx) s [].

(** The head of the tree after a node was written to its parent. *)
Definition relink ts h : node := foldl (λ h '(p, j), set_child p j h) h ts.

(** The walk ended at a node that stands for the whole key. *)
Definition at_key (w : walk) : bool :=
  bool_decide (wk_rest w = []) && (negb (rn_iscompr (wk_node w)) || (wk_splitpos w =? 0)).

(** [None] is [raxNotFound]. *)
Definition raxFind rx s : cres (option (option V)) :=
  w ← raxLowWalk rx s;
  Ok (if at_key w && rn_iskey (wk_node w) then Some (raxGetData (wk_node w)) else None).

(** ** Insertion *)

(** The loop that adds the nodes a key still needs below [h]: the node, how
    many nodes and elements were added. *)
Fixpoint insert_missing (fuel : nat) h s data : cres (node * Z * Z) :=
  match fuel with
  | O => Fault Diverges
  | S fuel =>
      match s with
      | [] => Ok (raxSetData h data, 0, if rn_iskey h then 0 else 1)%Z
      | c :: s' =>
          if (size h =? 0) && (1 <? length s) then
            let comprsize := if (RAX_NODE_MAX_SIZE <? Z.of_nat (length s))%Z then Z.to_nat RAX_NODE_MAX_SIZE else length s in
            h ← raxCompressNode h (take comprsize s);
            child ← child_at h 0;
            '(child, nodes, eles) ← insert_missing fuel child (drop comprsize s) data;
            Ok (set_child h 0 child, (1 + nodes)%Z, eles)
          else
            '(h, pos) ← raxAddChild h c;
            child ← child_at h pos;
            '(child, nodes, eles) ← insert_missing fuel child s' data;
            Ok (set_child h pos child, (1 + nodes)%Z, eles)
      end
  end.

(** Algorithm 1: a compressed node is split at the character [j] that differs
    from the key.  The split node, the parents above it, and the nodes added. *)
Definition split_mismatch h (j : nat) ts : cres (node * stack * Z) :=
  next ← child_at h 0;
  c ← arr_get (rn_data h) j;
  let postfixlen := size h - j - 1 in
  let postfix := if postfixlen =? 0 then next
                 else RaxNode false false (1 <? postfixlen) (drop (S j) (rn_data h)) [next] None in
  let splitnode := RaxNode false false false [c] [postfix] None in
  let nodes := if postfixlen =? 0 then 0%Z else 1%Z in
  if j =? 0 then Ok (if rn_iskey h then raxSetData splitnode (raxGetData h) else splitnode, ts, nodes)
  else
    let trimmed := RaxNode (rn_iskey h) (rn_isnull h) (1 <? j) (take j (rn_data h)) [splitnode] None in
    let trimmed := if rn_iskey h && negb (rn_isnull h) then raxSetData trimmed (raxGetData h) else trimmed in
    Ok (splitnode, (trimmed, 0) :: ts, (nodes + 1)%Z).

(** Algorithm 2: the key ends inside a compressed node. *)
Definition split_inside h (j : nat) data : cres node :=
  next ← child_at h 0;
  let postfixlen := size h - j in
  let postfix := raxSetData (RaxNode true false (1 <? postfixlen) (drop j (rn_data h)) [next] None) data in
  let trimmed := RaxNode false false (1 <? j) (take j (rn_data h)) [postfix] None in
  Ok (if rn_iskey h then raxSetData trimmed (raxGetData h) else trimmed).

(** The tree, the result (1 for a new element), and what [*old] is set to. *)
Definition raxInsert rx s data : cres (rax V * bool * option (option V)) :=
  w ← raxLowWalk rx s;
  let h := wk_node w in
  let with_head h nodes eles := Rax (relink (wk_stack w) h) (rx_numele rx + eles)%Z (rx_numnodes rx + nodes)%Z in
  if at_key w then
    if rn_iskey h then Ok (with_head (raxSetData h data) 0 0, false, Some (raxGetData h))%Z
    else Ok (with_head (raxSetData h data) 0 1, true, None)%Z
  else if rn_iscompr h && bool_decide (wk_rest w = []) then
    h ← split_inside h (wk_splitpos w) data;
    Ok (with_head h 1 1, true, None)%Z
  else
    '(h, ts, split) ← (if rn_iscompr h then split_mismatch h (wk_splitpos w) (wk_stack w) else Ok (h, wk_stack w, 0%Z));
    '(h, nodes, eles) ← insert_missing (S (length (wk_rest w))) h (wk_rest w) data;
    Ok (Rax (relink ts h) (rx_numele rx + eles)%Z (rx_numnodes rx + split + nodes)%Z, true, None).

(** ** Removal *)

(** The node without the child at a position. *)
Definition raxRemoveChild parent (i : nat) : node :=
  if rn_iscompr parent then
    let new := RaxNode (rn_iskey parent) false false [] [] (rn_value parent) in
    if rn_iskey parent then raxSetData new (raxGetData parent) else new
  else RaxNode (rn_iskey parent) (rn_isnull parent) false
         (delete i (rn_data parent)) (delete i (rn_children parent)) (rn_value parent).

(** A node that a chain cannot go through: a key, or not exactly one child. *)
Definition stops n : bool := rn_iskey n || (negb (rn_iscompr n) && negb (size n =? 1)).

(** The loop that frees the nodes a removed leaf leaves without use: the node
    that stays, the child it loses, its parents and the nodes freed.  The head
    stays always. *)
Fixpoint climb ts : option (node * nat * stack * Z) :=
  match ts with
  | [] => None
  | (p, j) :: ts =>
      if stops p then Some (p, j, ts, 1%Z)
      else match climb ts with
           | None => Some (p, j, ts, 1%Z)
           | Some (p, j, ts, freed) => Some (p, j, ts, 1 + freed)%Z
           end
  end.

(** The highest node the recompression starts from. *)
Fixpoint seek_start h ts : node * stack :=
  match ts with
  | [] => (h, [])
  | (p, j) :: ts' => if stops p then (h, ts) else seek_start (set_child p j h) ts'
  end.

(** The scan of the nodes that can be joined: how many, and their characters
    together, as far as the size of a node permits. *)
Fixpoint scan_chain h (nodes comprsize : Z) : Z * Z :=
  match rn_data h with
  | [] => (nodes, comprsize)
  | _ =>
      (fix last (l : list node) : Z * Z :=
         match l with
         | [] => (nodes, comprsize)
         | [c] =>
             if stops c then (nodes, comprsize)
             else if (RAX_NODE_MAX_SIZE <? comprsize + Z.of_nat (size c))%Z then (nodes, comprsize)
             else scan_chain c (nodes + 1) (comprsize + Z.of_nat (size c))
         | _ :: l => last l
         end) (rn_children h)
  end.

(** The second scan, which does not look at the size: the characters, the node
    after the chain, and the nodes freed. *)
Fixpoint join_chain h : bytes * node * Z :=
  match rn_data h with
  | [] => ([], h, 0%Z)
  | _ =>
      (fix last (l : list node) : bytes * node * Z :=
         match l with
         | [] => ([], h, 0%Z)
         | [c] =>
             if stops c then (rn_data h, c, 1%Z)
             else let '(chars, rest, freed) := join_chain c in (rn_data h ++ chars, rest, 1 + freed)%Z
         | _ :: l => last l
         end) (rn_children h)
  end.

(** The joined node, with the nodes added; more characters than were counted
    are written past its end. *)
Definition recompress h : cres (node * Z) :=
  let '(nodes, comprsize) := scan_chain h 1 (Z.of_nat (size h)) in
  if (nodes <=? 1)%Z then Ok (h, 0%Z) else
  let '(chars, rest, freed) := join_chain h in
  if negb (Z.of_nat (length chars) =? comprsize)%Z then Fault OutOfBounds
  else Ok (RaxNode false false true chars [rest] None, 1 - freed)%Z.

Definition raxRemove rx s : cres (rax V * option (option V)) :=
  w ← raxLowWalk rx s;
  let h := wk_node w in
  if negb (at_key w && rn_iskey h) then Ok (rx, None) else
  let old := raxGetData h in
  let h := RaxNode false (rn_isnull h) (rn_iscompr h) (rn_data h) (rn_children h) (rn_value h) in
  let '(h, ts, freed, trycompress) :=
    if size h =? 0 then
      match climb (wk_stack w) with
      | None => (h, [], 0%Z, false)
      | Some (p, j, ts, freed) =>
          let new := raxRemoveChild p j in (new, ts, freed, (size new =? 1) && negb (rn_iskey new))
      end
    else (h, wk_stack w, 0%Z, size h =? 1) in
  let '(h, ts) := if trycompress : bool then seek_start h ts else (h, ts) in
  '(h, joined) ← (if trycompress then recompress h else Ok (h, 0%Z));
  Ok (Rax (relink ts h) (rx_numele rx - 1)%Z (rx_numnodes rx - freed + joined)%Z, Some old).

(** ** Release *)

(** How many nodes are freed. *)
Fixpoint raxRecursiveFree n : Z :=
  (1 + (fix all (l : list node) : Z := match l with [] => 0 | c :: l => raxRecursiveFree c + all l end) (rn_children n))%Z.

Definition raxFree rx : cres unit :=
  if (rx_numnodes rx - raxRecursiveFree (rx_head rx) =? 0)%Z then Ok tt else Fault AssertFail.

(** ** The iterator *)

(** Where an iterator is: the node with its parents, the key that leads there
    and the value, and the flags [RAX_ITER_JUST_SEEKED] and [RAX_ITER_EOF].  A
    node without parents is the head. *)
Record raxIterator := RaxIterator {
  it_just_seeked : bool;
  it_eof : bool;
  it_rt : rax V;
  it_key : bytes;
  it_data : option V;
  it_node : option node;
  it_stack : stack;
}.
Implicit Types (it : raxIterator).

Definition raxStart rx : raxIterator := RaxIterator false true rx [] None None [].

(** The characters from a node to its child. *)
Definition label n (j : nat) : bytes := if rn_iscompr n then rn_data n else option_list (rn_data n !! j).

(** The key that the parents spell. *)
Fixpoint path ts : bytes := match ts with [] => [] | (p, j) :: ts => path ts ++ label p j end.

(** [raxIteratorDelChars]: more characters than there are would wrap around. *)
Definition del_chars (key : bytes) (count : nat) : cres bytes :=
  if count <=? length key then Ok (take (length key - count) key) else Fault OutOfBounds.

(** [it->key[it->key_len - 1]] *)
Definition last_char (key : bytes) : cres ascii :=
  match last key with Some c => Ok c | None => Fault OutOfBounds end.

(** The first edge after a character, and the last one before it. *)
Fixpoint next_edge (v : bytes) (c : ascii) : option nat :=
  match v with
  | [] => None
  | x :: v => if ult c x then Some 0 else S <$> next_edge v c
  end.
Fixpoint prev_edge (v : bytes) (c : ascii) : option nat :=
  match v with
  | [] => None
  | x :: v => match prev_edge v c with Some i => Some (S i) | None => if ult x c then Some 0 else None end
  end.

Definition step_chars n : nat := if rn_iscompr n then size n else 1.

(** The loops of [raxIteratorNextStep]: deeper while there are children, else up
    to a node with another child.  [up] tells that the inner loop is running.
    [None] at the end. *)
Fixpoint next_loop (fuel : nat) (noup up : bool) n (key : bytes) ts : cres (option (node * bytes * stack)) :=
  match fuel with
  | O => Fault Diverges
  | S fuel =>
      let enter n i key ts :=
        c ← child_at n i;
        if rn_iskey c then Ok (Some (c, key, (n, i) :: ts)) else next_loop fuel false false c key ((n, i) :: ts) in
      let children := if rn_iscompr n then 1 else size n in
      if negb up && negb noup && negb (children =? 0) then
        enter n 0 (key ++ take (step_chars n) (rn_data n)) ts
      else
        let popped := if noup then Some (n, ts) else match ts with [] => None | (p, _) :: ts => Some (p, ts) end in
        match popped with
        | None => Ok None
        | Some (n, ts) =>
            prevchild ← last_char key;
            key ← del_chars key (step_chars n);
            match (if negb (rn_iscompr n) && ((if noup then 0 else 1) <? size n) then next_edge (rn_data n) prevchild else None) with
            | Some i => enter n i (key ++ label n i) ts
            | None => next_loop fuel false true n key ts
            end
        end
  end.

(** Enough for every node to be entered and left. *)
Definition iter_fuel rx : nat := Z.to_nat (2 * raxRecursiveFree (rx_head rx) + 2).

Definition set_position it (n : node) (key : bytes) ts data : raxIterator :=
  RaxIterator (it_just_seeked it) (it_eof it) (it_rt it) key data (Some n) ts.
Definition set_flags it (just eof : bool) : raxIterator :=
  RaxIterator just eof (it_rt it) (it_key it) (it_data it) (it_node it) (it_stack it).

(** A step with the loop of its direction: the result 0 when the iterator was
    at the end. *)
Definition iterator_step (loop : nat → bool → node → bytes → stack → cres (option (node * bytes * stack))) it (noup : bool)
    : cres (bool * raxIterator) :=
  if it_eof it then Ok (false, it)
  else if it_just_seeked it then Ok (true, set_flags it false false)
  else
    n ← deref (it_node it);
    r ← loop (iter_fuel (it_rt it)) noup n (it_key it) (it_stack it);
    Ok (true, match r with
              | None => set_flags it false true
              | Some (n, key, ts) => set_position it n key ts (raxGetData n)
              end).

Definition raxIteratorNextStep : raxIterator → bool → cres (bool * raxIterator) :=
  iterator_step (λ fuel noup, next_loop fuel noup false).

(** The last node below a node. *)
Fixpoint raxSeekGreatest n (key : bytes) ts {struct n} : node * bytes * stack :=
  match rn_data n with
  | [] => (n, key, ts)
  | v =>
      (fix last_child (i : nat) (l : list node) : node * bytes * stack :=
         match l with
         | [] => (n, key, ts)
         | [c] => raxSeekGreatest c (key ++ if rn_iscompr n then v else option_list (last v)) ((n, i) :: ts)
         | _ :: l => last_child (S i) l
         end) 0 (rn_children n)
  end.

Fixpoint prev_loop (fuel : nat) (noup : bool) n (key : bytes) ts : cres (option (node * bytes * stack)) :=
  match fuel with
  | O => Fault Diverges
  | S fuel =>
      let popped := if noup then Some (n, ts) else match ts with [] => None | (p, _) :: ts => Some (p, ts) end in
      match popped with
      | None => Ok None
      | Some (n, ts) =>
          prevchild ← last_char key;
          key ← del_chars key (step_chars n);
          '(n, key, ts) ←
            match (if negb (rn_iscompr n) && ((if noup then 0 else 1) <? size n) then prev_edge (rn_data n) prevchild else None) with
            | Some i => c ← child_at n i; Ok (raxSeekGreatest c (key ++ label n i) ((n, i) :: ts))
            | None => Ok (n, key, ts)
            end;
          if rn_iskey n then Ok (Some (n, key, ts)) else prev_loop fuel false n key ts
      end
  end.

Definition raxIteratorPrevStep : raxIterator → bool → cres (bool * raxIterator) := iterator_step prev_loop.

(** [raxSeek] for the operators that look up an element. *)
Definition seek_element it (eq lt gt : bool) (ele : bytes) : cres (bool * raxIterator) :=
  w ← raxLowWalk (it_rt it) ele;
  let n := wk_node w in
  if eq && at_key w && rn_iskey n then
    Ok (true, set_flags (set_position it n ele (wk_stack w) (raxGetData n)) true false)
  else if lt || gt then
    let start extra := set_flags (set_position it n (path (wk_stack w) ++ extra) (wk_stack w) (it_data it)) false false in
    let finish r := '(ok, it) ← r; Ok (ok : bool, if ok then set_flags it true (it_eof it) else it) in
    match wk_rest w with
    | c :: _ =>
        if negb (rn_iscompr n) then
          finish (if lt then raxIteratorPrevStep (start [c]) true else raxIteratorNextStep (start [c]) true)
        else
          nodechar ← arr_get (rn_data n) (wk_splitpos w);
          if gt then
            finish (if ult c nodechar then raxIteratorNextStep (start []) false else raxIteratorNextStep (start (rn_data n)) true)
          else if ult nodechar c then
            let '(n, key, ts) := raxSeekGreatest n (path (wk_stack w)) (wk_stack w) in
            finish (Ok (true, set_position (start []) n key ts (it_data it)))
          else finish (raxIteratorPrevStep (start (rn_data n)) true)
    | [] => finish (if gt then raxIteratorNextStep (start []) false else raxIteratorPrevStep (start []) false)
    end
  else Ok (true, RaxIterator true true (it_rt it) [] (it_data it) (Some n) (wk_stack w)).

(** The result 0 for an operator that does not exist. *)
Definition raxSeek it (op : bytes) (ele : bytes) : cres (bool * raxIterator) :=
  let it := RaxIterator true false (it_rt it) [] (it_data it) None [] in
  op0 ← char_at op 0;
  op1 ← (if bool_decide (op0 ∈ lit "><") then char_at op 1 else Ok NUL);
  let eq := bool_decide (op1 = "="%char) in
  if negb (bool_decide (op0 ∈ lit "><=^$")) then Ok (false, it)
  else if (rx_numele (it_rt it) =? 0)%Z then Ok (true, set_flags it true true)
  else if bool_decide (op0 = "^"%char) then seek_element it true false true []
  else if bool_decide (op0 = "$"%char) then
    let '(n, key, ts) := raxSeekGreatest (rx_head (it_rt it)) [] [] in
    if rn_iskey n then Ok (true, set_position it n key ts (it_data it)) else Fault AssertFail
  else if bool_decide (op0 = ">"%char) then seek_element it eq false true ele
  else if bool_decide (op0 = "<"%char) then seek_element it eq true false ele
  else seek_element it true false false ele.

Definition raxNext it : cres (bool * raxIterator) :=
  '(ok, it) ← raxIteratorNextStep it false;
  Ok ((ok : bool) && negb (it_eof it), it).

Definition raxPrev it : cres (bool * raxIterator) :=
  '(ok, it) ← raxIteratorPrevStep it false;
  Ok ((ok : bool) && negb (it_eof it), it).

(** ** Random walks *)

(** [floor (log (n))]: entry [k] is the least integer whose logarithm is at least
    [k]; the table ends where a [double] no longer holds every integer. *)
Definition log_bounds : list Z :=
  [1; 3; 8; 21; 55; 149; 404; 1097; 2981; 8104; 22027; 59875; 162755; 442414; 1202605; 3269018; 8886111; 24154953; 65659970;
   178482301; 485165196; 1318815735; 3584912847; 9744803447; 26489122130; 72004899338; 195729609429; 532048240602; 1446257064292;
   3931334297145; 10686474581525; 29048849665248; 78962960182681; 214643579785917; 583461742527455; 1586013452313431; 4311231547115196]%Z.
Definition floor_log (n : Z) : Z := Z.of_nat (length (filter (λ b, (b <= n)%Z) log_bounds)) - 1.

(** A number below [m] from what [rand] returned. *)
Definition rand_mod (r m : Z) : cres Z := if (m =? 0)%Z then Fault DivZero else Ok (r mod m)%Z.

(** The walk, with the numbers [rand] returns; [None] when it takes more of them. *)
Fixpoint walk_randomly (rands : list Z) n (key : bytes) ts (steps : Z) : cres (option (node * bytes * stack)) :=
  if negb (0 <? steps)%Z && rn_iskey n then Ok (Some (n, key, ts)) else
  match rands with
  | [] => Ok None
  | r :: rands =>
      let numchildren := if rn_iscompr n then 1 else size n in
      r ← rand_mod r (Z.of_nat numchildren + match ts with [] => 0 | _ => 1 end);
      let arrive n key ts := walk_randomly rands n key ts (if rn_iskey n then steps - 1 else steps)%Z in
      if (r =? Z.of_nat numchildren)%Z then
        match ts with
        | [] => Fault NullDeref
        | (p, _) :: ts => key ← del_chars key (step_chars p); arrive p key ts
        end
      else
        c ← child_at n (Z.to_nat r);
        arrive c (key ++ label n (Z.to_nat r)) ((n, Z.to_nat r) :: ts)
  end.

(** The value of the iterator stays what it was. *)
Definition raxRandomWalk it (steps : Z) (rands : list Z) : cres (option (bool * raxIterator)) :=
  if (rx_numele (it_rt it) =? 0)%Z then Ok (Some (false, set_flags it (it_just_seeked it) true)) else
  '(steps, rands) ←
    (if negb (steps =? 0)%Z then Ok (steps, rands)
     else match rands with
          | [] => Ok (0%Z, [])
          | r :: rands => r ← rand_mod r (2 * floor_log (rx_numele (it_rt it))); Ok ((1 + r)%Z, rands)
          end);
  n ← deref (it_node it);
  w ← walk_randomly rands n (it_key it) (it_stack it) steps;
  Ok (match w with None => None | Some (n, key, ts) => Some (true, set_position it n key ts (it_data it)) end).

(** ** Comparison *)
Fixpoint memcmp (a b : bytes) : comparison :=
  match a, b with
  | x :: a, y :: b => if ult x y then Lt else if ult y x then Gt else memcmp a b
  | _, _ => Eq
  end.

Definition raxCompare it (op key : bytes) : cres bool :=
  op0 ← char_at op 0;
  op1 ← char_at op 1;
  let eq := bool_decide (op0 = "="%char) || bool_decide (op1 = "="%char) in
  let gt := bool_decide (op1 = ">"%char) in
  let lt := bool_decide (op1 = "<"%char) in
  if negb gt && negb lt && negb (bool_decide (op1 = "="%char)) then Ok false else
  let cmp := memcmp (it_key it) key in
  let len := length key in let iter_len := length (it_key it) in
  Ok (if negb lt && negb gt then bool_decide (cmp = Eq) && (len =? iter_len)
      else match cmp with
           | Eq => if eq && (len =? iter_len) then true else if lt then iter_len <? len else len <? iter_len
           | Gt => gt
           | Lt => lt
           end).
End ops.
