(* ===== verification/RaxMap.v ===== *)
(** The radix tree of [Rax] refines a finite map from keys to values.

    [rax_get] reads a tree as a function of the key, without the walk; the
    operations are specified by it and by the shape, the number of nodes and
    the height of the tree, which is what the code relies on. *)

From Stdlib Require Import Sorted.
From S2P Require Import Prelude Rax.

Section spec.
Context {V : Type}.
Abbreviation node := (raxNode V).
Implicit Types (n h p c : node) (s t u : bytes) (d : option V) (ts : list (node * nat)) (rx : rax V).

(** * Prefixes *)
Fixpoint strip (l s : bytes) : option bytes :=
  match l, s with
  | [], _ => Some s
  | x :: l, y :: s => if bool_decide (x = y) then strip l s else None
  | _ :: _, [] => None
  end.

Lemma strip_Some l s t : strip l s = Some t ↔ s = l ++ t.
Proof.
  revert s. induction l as [|x l IH]; intros [|y s]; cbn; [naive_solver..|]. case_bool_decide; [subst|naive_solver].
  rewrite IH. naive_solver.
Qed.

Lemma strip_app_same l s : strip l (l ++ s) = Some s.
Proof. by apply strip_Some. Qed.

Lemma strip_None l s : strip l s = None ↔ ∀ t, s ≠ l ++ t.
Proof. rewrite eq_None_not_Some. split; [intros Hs t ->; apply Hs; rewrite strip_app_same; eauto|intros Hs [t ->%strip_Some]; by eapply Hs]. Qed.

Lemma strip_app l l' s : strip (l ++ l') s = strip l s ≫= strip l'.
Proof.
  destruct (strip l s) as [t|] eqn:E; cbn.
  - apply strip_Some in E as ->. apply option_eq. intros u. rewrite !strip_Some, <- app_assoc. split; [apply app_inv_head|by intros ->].
  - apply strip_None. intros t ->. rewrite <- app_assoc, strip_app_same in E. done.
Qed.

Lemma strip_agree l s : strip l s = if (agree l s =? length l) then Some (drop (length l) s) else None.
Proof.
  revert s. induction l as [|x l IH]; intros [|y s]; cbn; [done..|]. case_bool_decide; [|done]. rewrite IH. done.
Qed.

Lemma agree_length l s : agree l s ≤ length l ∧ agree l s ≤ length s.
Proof. revert s. induction l as [|x l IH]; intros [|y s]; cbn; try lia. case_bool_decide; [|lia]. destruct (IH s). lia. Qed.

Lemma agree_take l s : take (agree l s) l = take (agree l s) s.
Proof. revert s. induction l as [|x l IH]; intros [|y s]; cbn; [done..|]. case_bool_decide as E; [|done]. cbn. by rewrite E, IH. Qed.

(** Past the characters that agree, the strings differ or one of them ends. *)
Lemma agree_differ l s x y l' s' : drop (agree l s) l = x :: l' → drop (agree l s) s = y :: s' → x ≠ y.
Proof. revert s. induction l as [|a l IH]; intros [|b s]; cbn; [done..|]. case_bool_decide as E; cbn; [apply IH|]. intros [= -> ->] [= -> ->]. done. Qed.

(** * What a tree holds *)
Definition own n : option (option V) := if rn_iskey n then Some (raxGetData n) else None.

Fixpoint rax_get n s {struct n} : option (option V) :=
  match s with
  | [] => own n
  | x :: s' =>
      if rn_iscompr n then
        match strip (rn_data n) s with
        | Some t => match rn_children n with c :: _ => rax_get c t | [] => None end
        | None => None
        end
      else
        (fix pick (v : bytes) (l : list node) {struct l} : option (option V) :=
           match v, l with
           | y :: v, c :: l => if bool_decide (y = x) then rax_get c s' else pick v l
           | _, _ => None
           end) (rn_data n) (rn_children n)
  end.

(** The child that a key goes to, and what is left of the key. *)
Definition branch n s : option (nat * bytes) :=
  match s with
  | [] => None
  | x :: s' => if rn_iscompr n then pair 0 <$> strip (rn_data n) s else (λ j, (j, s')) <$> edge (rn_data n) x
  end.

Lemma rax_get_eq n s :
  rax_get n s = match s with [] => own n | _ => branch n s ≫= λ '(j, t), rn_children n !! j ≫= λ c, rax_get c t end.
Proof.
  destruct n as [k nl cp v l a]. destruct s as [|x s]; [done|]. cbn [rax_get branch rn_iscompr rn_data rn_children].
  destruct cp.
  - destruct (strip v (x :: s)) as [t|]; cbn; [|done]. by destruct l.
  - revert l. induction v as [|y v IH]; intros [|c l]; cbn [edge]; try done.
    + case_bool_decide; [done|]. destruct (edge v x); done.
    + case_bool_decide; [done|]. rewrite IH. destruct (edge v x); done.
Qed.

#[global] Arguments rax_get : simpl never.

(** * The shape of a tree *)
Definition shape n : Prop :=
  if rn_iscompr n then 2 ≤ size n ∧ length (rn_children n) = 1
  else StronglySorted (λ a b, ult a b = true) (rn_data n) ∧ length (rn_children n) = size n.

Fixpoint wf n : Prop :=
  shape n ∧ (fix all (l : list node) : Prop := match l with [] => True | c :: l => wf c ∧ all l end) (rn_children n).

Lemma wf_iff n : wf n ↔ shape n ∧ Forall wf (rn_children n).
Proof.
  destruct n as [k nl cp v l a]. cbn [wf rn_children]. apply and_iff_compat_l.
  induction l as [|c l IH]; [split; [constructor|done]|]. rewrite Forall_cons. tauto.
Qed.

Lemma wf_child n j c : wf n → rn_children n !! j = Some c → wf c.
Proof. intros [_ Hc]%wf_iff Hj. by eapply Forall_lookup_1. Qed.

(** The number of nodes is what [raxRecursiveFree] counts. *)
Fixpoint count_list (l : list node) : Z := match l with [] => 0 | c :: l => raxRecursiveFree c + count_list l end.

Lemma count_eq n : raxRecursiveFree n = (1 + count_list (rn_children n))%Z.
Proof. by destruct n. Qed.

(** The number of characters on the longest way down. *)
Fixpoint height n : nat :=
  (fix all (l : list node) : nat := match l with [] => 0 | c :: l => (step_chars n + height c) `max` all l end) (rn_children n).

Lemma height_le n k : height n ≤ k ↔ Forall (λ c, step_chars n + height c ≤ k) (rn_children n).
Proof.
  destruct n as [ik nl cp v l a]. cbn [height rn_children]. generalize (step_chars (RaxNode ik nl cp v l a)). intros m.
  induction l as [|c l IH]; [split; [constructor|intros; cbn; lia]|]. rewrite Forall_cons, <- IH. lia.
Qed.

Lemma height_child n j c : rn_children n !! j = Some c → step_chars n + height c ≤ height n.
Proof. intros Hj. pose proof (proj1 (height_le n (height n)) (le_n _)) as Hall. by apply (Forall_lookup_1 _ _ _ _ Hall Hj). Qed.

(** * Edges *)
Lemma edge_Some v x j : edge v x = Some j → v !! j = Some x.
Proof.
  revert j. induction v as [|y v IH]; intros j; cbn; [done|]. case_bool_decide as E; [by intros [= <-]; rewrite E|].
  destruct (edge v x) as [i|]; cbn; [|done]. intros [= <-]. by apply IH.
Qed.

Lemma edge_None v x : edge v x = None ↔ x ∉ v.
Proof.
  induction v as [|y v IH]; cbn; [split; [intros _; apply not_elem_of_nil|done]|]. rewrite not_elem_of_cons.
  case_bool_decide; [naive_solver|]. rewrite fmap_None, IH. naive_solver.
Qed.

Lemma ult_irrefl a : ult a a = false.
Proof. unfold ult. lia. Qed.

Lemma ult_trans a b x : ult a b = true → ult b x = true → ult a x = true.
Proof. unfold ult. lia. Qed.

Lemma ult_total a b : ult a b = false → ult b a = false → a = b.
Proof. unfold ult. intros H1 H2. apply u8_inj. lia. Qed.

Abbreviation sorted := (StronglySorted (λ a b : ascii, ult a b = true)).

Lemma sorted_lookup v j x : sorted v → v !! j = Some x → edge v x = Some j.
Proof.
  intros Hs. revert j. induction Hs as [|y v Hs IH Hall]; intros j Hj; [done|]. cbn. destruct j as [|j]; cbn in Hj.
  - injection Hj as ->. by rewrite bool_decide_eq_true_2.
  - rewrite bool_decide_eq_false_2, (IH _ Hj); [done|]. intros ->. rewrite Forall_forall in Hall.
    specialize (Hall x ltac:(by eapply list_elem_of_lookup_2)). by rewrite ult_irrefl in Hall.
Qed.

(** * Children *)
Lemma shape_lookup n j c : shape n → rn_children n !! j = Some c → if rn_iscompr n then j = 0 else is_Some (rn_data n !! j).
Proof.
  unfold shape. intros Hs Hj%lookup_lt_Some. destruct (rn_iscompr n); [lia|]. apply lookup_lt_is_Some. unfold size in Hs. lia.
Qed.

Lemma label_nonempty n j c : shape n → rn_children n !! j = Some c → label n j ≠ [].
Proof.
  intros Hs Hj. pose proof (shape_lookup _ _ _ Hs Hj) as Hl. unfold label, shape, size in *.
  destruct (rn_iscompr n); [destruct (rn_data n); cbn in Hs; [lia|done]|]. by destruct Hl as [x ->].
Qed.

Lemma branch_label n j c t : shape n → rn_children n !! j = Some c → branch n (label n j ++ t) = Some (j, t).
Proof.
  intros Hs Hj. pose proof (shape_lookup _ _ _ Hs Hj) as Hl. pose proof (label_nonempty _ _ _ Hs Hj) as Hne.
  unfold label, branch, shape in *. destruct (rn_iscompr n).
  - subst j. rewrite strip_app_same. by destruct (rn_data n).
  - destruct Hl as [x Hx]. rewrite Hx. cbn. by rewrite (sorted_lookup _ _ _ (proj1 Hs) Hx).
Qed.

Lemma branch_Some n s j t : branch n s = Some (j, t) → s = label n j ++ t.
Proof.
  unfold branch, label. destruct s as [|x s]; [done|]. destruct (rn_iscompr n).
  - destruct (strip _ _) as [u|] eqn:E; cbn; [|done]. intros [= <- <-]. by apply strip_Some.
  - destruct (edge _ _) as [i|] eqn:E; cbn; [|done]. intros [= <- <-]. by rewrite (edge_Some _ _ _ E).
Qed.

Lemma branch_strip n j c s :
  shape n → rn_children n !! j = Some c →
  strip (label n j) s = match branch n s with Some (i, t) => if decide (i = j) then Some t else None | None => None end.
Proof.
  intros Hs Hj. destruct (strip (label n j) s) as [t|] eqn:E.
  - apply strip_Some in E as ->. rewrite (branch_label _ _ _ _ Hs Hj). by rewrite decide_True.
  - destruct (branch n s) as [[i t]|] eqn:Eb; [|done]. case_decide; [subst i|done]. apply branch_Some in Eb as ->. by rewrite strip_app_same in E.
Qed.

Lemma get_child n j c t : shape n → rn_children n !! j = Some c → rax_get n (label n j ++ t) = rax_get c t.
Proof.
  intros Hs Hj. rewrite rax_get_eq, (branch_label _ _ _ _ Hs Hj). cbn. rewrite Hj. cbn.
  pose proof (label_nonempty _ _ _ Hs Hj). by destruct (label n j).
Qed.

Lemma set_child_same n j c : rn_children n !! j = Some c → set_child n j c = n.
Proof. destruct n. unfold set_child. cbn. intros Hj. by rewrite list_insert_id. Qed.

Lemma get_set_child n j c c' s :
  shape n → rn_children n !! j = Some c →
  rax_get (set_child n j c') s = match strip (label n j) s with Some t => rax_get c' t | None => rax_get n s end.
Proof.
  intros Hs Hj. rewrite (branch_strip _ _ _ _ Hs Hj), !rax_get_eq. destruct s as [|x s]; [done|].
  change (branch (set_child n j c') (x :: s)) with (branch n (x :: s)).
  destruct (branch n (x :: s)) as [[i t]|]; cbn; [|done]. case_decide as Hi; cbn.
  - subst i. by rewrite list_lookup_insert_eq by (by eapply lookup_lt_Some).
  - by rewrite list_lookup_insert_ne.
Qed.

Lemma wf_set_child n j c' : wf n → wf c' → wf (set_child n j c').
Proof.
  intros [Hs Hc]%wf_iff Hw. apply wf_iff. split; [|unfold set_child; cbn; by apply Forall_insert]. unfold shape, set_child, size in *. cbn. by rewrite length_insert.
Qed.

Lemma count_list_insert l j c c' :
  l !! j = Some c → count_list (<[j := c']> l) = (count_list l - raxRecursiveFree c + raxRecursiveFree c')%Z.
Proof.
  revert j. induction l as [|x l IH]; intros [|j] Hj; cbn in Hj; [done..| |].
  - injection Hj as ->. change (<[0 := c']> (c :: l)) with (c' :: l). cbn [count_list]. lia.
  - change (<[S j := c']> (x :: l)) with (x :: <[j := c']> l). cbn [count_list]. rewrite (IH _ Hj). lia.
Qed.

Lemma count_set_child n j c c' :
  rn_children n !! j = Some c → raxRecursiveFree (set_child n j c') = (raxRecursiveFree n - raxRecursiveFree c + raxRecursiveFree c')%Z.
Proof. intros Hj. rewrite (count_eq (set_child _ _ _)), (count_eq n). cbn [set_child rn_children]. rewrite (count_list_insert _ _ _ _ Hj). lia. Qed.

Lemma label_length n j c : shape n → rn_children n !! j = Some c → length (label n j) = step_chars n.
Proof.
  intros Hs Hj. pose proof (shape_lookup _ _ _ Hs Hj) as Hl. unfold label, step_chars. destruct (rn_iscompr n); [done|]. by destruct Hl as [x ->].
Qed.

Lemma height_set_child n j c' k : height n ≤ k → step_chars n + height c' ≤ k → height (set_child n j c') ≤ k.
Proof. rewrite !height_le. intros Hn Hc. cbn [set_child rn_children]. by apply Forall_insert. Qed.

(** * Parents *)

(** The stack leads from the root to a node. *)
Fixpoint linked ts h (root : node) : Prop :=
  match ts with
  | [] => h = root
  | (p, j) :: ts => rn_children p !! j = Some h ∧ linked ts p root
  end.

Lemma linked_relink ts h root : linked ts h root → relink ts h = root.
Proof.
  revert h. induction ts as [|[p j] ts IH]; intros h; cbn; [done|]. intros [Hj Hl]. rewrite (set_child_same _ _ _ Hj). by apply IH.
Qed.

Lemma linked_wf ts h root : linked ts h root → wf root → wf h.
Proof. revert h. induction ts as [|[p j] ts IH]; intros h; cbn; [by intros ->|]. intros [Hj Hl] Hw. eapply wf_child; [by apply IH|done]. Qed.

Lemma get_relink ts h root h' s :
  linked ts h root → wf root →
  rax_get (relink ts h') s = match strip (path ts) s with Some t => rax_get h' t | None => rax_get root s end.
Proof.
  revert h h'. induction ts as [|[p j] ts IH]; intros h h'; cbn [linked path relink foldl]; [by intros ->|].
  intros [Hj Hl] Hw. change (foldl _ (set_child p j h') ts) with (relink ts (set_child p j h')).
  assert (Hp : shape p) by (by apply wf_iff, (linked_wf _ _ _ Hl)).
  rewrite (IH p _ Hl Hw), strip_app. pose proof (IH p p Hl Hw) as Hsame. rewrite (linked_relink _ _ _ Hl) in Hsame.
  destruct (strip (path ts) s) as [t|]; cbn; [|done]. rewrite (get_set_child _ _ _ _ _ Hp Hj). destruct (strip (label p j) t); done.
Qed.

Lemma get_linked ts h root t : linked ts h root → wf root → rax_get root (path ts ++ t) = rax_get h t.
Proof. intros Hl Hw. pose proof (get_relink ts h root h (path ts ++ t) Hl Hw) as Hg. by rewrite (linked_relink _ _ _ Hl), strip_app_same in Hg. Qed.

Lemma wf_relink ts h root h' : linked ts h root → wf root → wf h' → wf (relink ts h').
Proof.
  revert h h'. induction ts as [|[p j] ts IH]; intros h h'; cbn; [done|]. intros [Hj Hl] Hw Hh. apply (IH p); [done..|].
  apply wf_set_child; [by eapply linked_wf|done].
Qed.

Lemma count_relink ts h root h' :
  linked ts h root → raxRecursiveFree (relink ts h') = (raxRecursiveFree root - raxRecursiveFree h + raxRecursiveFree h')%Z.
Proof.
  revert h h'. induction ts as [|[p j] ts IH]; intros h h'; cbn [linked relink foldl]; [intros ->; lia|]. intros [Hj Hl].
  change (foldl _ (set_child p j h') ts) with (relink ts (set_child p j h')). rewrite (IH p _ Hl), (count_set_child _ _ _ _ Hj). lia.
Qed.

Lemma height_linked ts h root : linked ts h root → wf root → length (path ts) + height h ≤ height root.
Proof.
  revert h. induction ts as [|[p j] ts IH]; intros h; cbn [linked path]; [intros ->; cbn; lia|]. intros [Hj Hl] Hw. rewrite length_app.
  pose proof (IH p Hl Hw). pose proof (height_child _ _ _ Hj). rewrite (label_length p j h); [lia| |done]. by apply wf_iff, (linked_wf _ _ _ Hl).
Qed.

Lemma height_relink ts h root h' k :
  linked ts h root → wf root → height root ≤ k → length (path ts) + height h' ≤ k → height (relink ts h') ≤ k.
Proof.
  revert h h'. induction ts as [|[p j] ts IH]; intros h h'; cbn [linked path relink foldl]; [done|]. intros [Hj Hl] Hw Hk Hh.
  change (foldl _ (set_child p j h') ts) with (relink ts (set_child p j h')).
  assert (Hp : shape p) by (by apply wf_iff, (linked_wf _ _ _ Hl)). rewrite length_app, (label_length p j h Hp Hj) in Hh.
  apply (IH p); [done..|]. pose proof (height_linked _ _ _ Hl Hw).
  assert (height (set_child p j h') ≤ k - length (path ts)) by (apply height_set_child; lia). lia.
Qed.

(** * The walk *)

(** Why a walk stops: at the node of the key; at a node without an edge for the
    next character; or inside a compressed node, at a character that differs
    or at the end of the key. *)
Inductive stopped h : nat → bytes → Prop :=
  | stopped_at : stopped h 0 []
  | stopped_edge x s : rn_iscompr h = false → edge (rn_data h) x = None → stopped h 0 (x :: s)
  | stopped_mismatch y l x s j : rn_iscompr h = true → drop j (rn_data h) = y :: l → y ≠ x → stopped h j (x :: s)
  | stopped_inside j : rn_iscompr h = true → 0 < j < size h → stopped h j [].

Lemma walk_loop_spec fuel h s ts root :
  wf root → linked ts h root → length s < fuel →
  ∃ w, walk_loop fuel h s ts = Ok w ∧ linked (wk_stack w) (wk_node w) root ∧
    path ts ++ s = path (wk_stack w) ++ take (wk_splitpos w) (rn_data (wk_node w)) ++ wk_rest w ∧
    stopped (wk_node w) (wk_splitpos w) (wk_rest w).
Proof.
  intros Hw. revert h s ts. induction fuel as [|fuel IH]; intros h s ts Hl Hf; [lia|]. cbn [walk_loop].
  pose proof (linked_wf _ _ _ Hl Hw) as [Hs _]%wf_iff. unfold shape in Hs.
  destruct s as [|x s]; [eexists; split; [done|]; cbn; split_and!; [done|done|constructor]|]. cbn [length] in Hf.
  destruct (size h =? 0) eqn:E0.
  { apply Nat.eqb_eq in E0. destruct (rn_iscompr h) eqn:Ec; [lia|]. eexists; split; [done|]; cbn. split_and!; [done|done|].
    apply stopped_edge; [done|]. apply nil_length_inv in E0. by rewrite E0. }
  destruct (rn_iscompr h) eqn:Ec.
  - destruct Hs as [Hsize Hc]. pose proof (agree_length (rn_data h) (x :: s)) as [Hj1 Hj2]. pose proof (agree_take (rn_data h) (x :: s)) as Ht.
    pose proof (agree_differ (rn_data h) (x :: s)) as Hd.
    set (j := agree (rn_data h) (x :: s)) in *. destruct (j =? size h) eqn:Ej; cbn [negb].
    + apply Nat.eqb_eq in Ej. destruct (rn_children h) as [|c l] eqn:El; [done|]. unfold child_at. rewrite El. cbn [arr_get lookup list_lookup mbind cres_bind].
      destruct (IH c (drop j (x :: s)) ((h, 0) :: ts)) as (w & -> & Hlw & Hp & Hst).
      * cbn. by rewrite El.
      * rewrite length_drop. cbn [length]. lia.
      * exists w. split_and!; try done. rewrite <- Hp. cbn [path]. unfold label. rewrite Ec, <- app_assoc. f_equal.
        rewrite <- (take_ge (rn_data h) j) by (unfold size in Ej; lia). by rewrite Ht, take_drop.
    + apply Nat.eqb_neq in Ej. eexists; split; [done|]. cbn [wk_stack wk_node wk_splitpos wk_rest]. split_and!; [done|by rewrite Ht, take_drop|].
      destruct (drop j (x :: s)) as [|y r] eqn:Er.
      * apply stopped_inside; [done|]. apply (f_equal length) in Er. rewrite length_drop in Er. cbn in Er. unfold size in *. lia.
      * destruct (drop j (rn_data h)) as [|y' l'] eqn:El; [apply (f_equal length) in El; rewrite length_drop in El; cbn in El; unfold size in *; lia|].
        eapply stopped_mismatch; [done..|]. by eapply Hd.
  - destruct (edge (rn_data h) x) as [j|] eqn:Ee.
    + pose proof (edge_Some _ _ _ Ee) as Hx. destruct (rn_children h !! j) as [c|] eqn:Ej.
      2:{ apply lookup_ge_None in Ej. apply lookup_lt_Some in Hx. unfold size in Hs. lia. }
      unfold child_at. rewrite (arr_get_ok _ _ _ Ej). cbn [mbind cres_bind].
      destruct (IH c s ((h, j) :: ts)) as (w & -> & Hlw & Hp & Hst); [done|lia|].
      exists w. split_and!; try done. rewrite <- Hp. cbn [path]. unfold label. by rewrite Ec, Hx, <- app_assoc.
    + eexists; split; [done|]; cbn. split_and!; [done|done|]. by apply stopped_edge.
Qed.

Lemma at_key_stopped w :
  stopped (wk_node w) (wk_splitpos w) (wk_rest w) → at_key w = true → wk_rest w = [] ∧ wk_splitpos w = 0.
Proof.
  destruct w as [r h j ts]. cbn. unfold at_key. cbn. intros [|x s Hc He|y l x s j' Hc Hd Hne|j' Hc Hj]; cbn; try done.
  rewrite Hc. cbn. intros Hj'%Nat.eqb_eq. lia.
Qed.

Lemma off_key w :
  wf (wk_node w) → stopped (wk_node w) (wk_splitpos w) (wk_rest w) → at_key w = false →
  rax_get (wk_node w) (take (wk_splitpos w) (rn_data (wk_node w)) ++ wk_rest w) = None.
Proof.
  destruct w as [r h j ts]. cbn. unfold at_key. cbn. intros [Hs _]%wf_iff Hst Hk.
  destruct Hst as [|x s Hc He|y l x s j Hc Hd Hne|j Hc Hj]; cbn in Hk.
  - by rewrite orb_true_r in Hk.
  - rewrite take_0, rax_get_eq. cbn. unfold branch. by rewrite Hc, He.
  - assert (Hn : strip (rn_data h) (take j (rn_data h) ++ x :: s) = None).
    { apply strip_None. intros t Ht. rewrite <- (take_drop j (rn_data h)) in Ht at 2. rewrite Hd, <- app_assoc in Ht.
      apply app_inv_head in Ht. by injection Ht as ->. }
    rewrite rax_get_eq. unfold branch. rewrite Hc, Hn. by destruct (take j (rn_data h)).
  - assert (Hn : strip (rn_data h) (take j (rn_data h) ++ []) = None).
    { apply strip_None. intros t Ht%(f_equal length). rewrite !length_app, length_take in Ht. unfold size in Hj. cbn in Ht. lia. }
    rewrite rax_get_eq. unfold branch. rewrite Hc, Hn. destruct (take j (rn_data h)) eqn:E; [|done].
    apply (f_equal length) in E. rewrite length_take in E. unfold size in Hj. cbn in E. lia.
Qed.

Lemma raxLowWalk_spec rx s :
  wf (rx_head rx) →
  ∃ w, raxLowWalk rx s = Ok w ∧ linked (wk_stack w) (wk_node w) (rx_head rx) ∧ wf (wk_node w) ∧
    s = path (wk_stack w) ++ take (wk_splitpos w) (rn_data (wk_node w)) ++ wk_rest w ∧
    stopped (wk_node w) (wk_splitpos w) (wk_rest w).
Proof.
  intros Hw. destruct (walk_loop_spec (S (length s)) (rx_head rx) s [] (rx_head rx) Hw eq_refl) as (w & Hr & Hl & Hp & Hs); [lia|].
  exists w. split_and!; try done. by eapply linked_wf.
Qed.

Lemma raxFind_get rx s : wf (rx_head rx) → raxFind rx s = Ok (rax_get (rx_head rx) s).
Proof.
  intros Hw. unfold raxFind. destruct (raxLowWalk_spec rx s Hw) as (w & -> & Hl & Hn & Hp & Hs). cbn [mbind cres_bind]. f_equal.
  rewrite Hp, (get_linked _ _ _ _ Hl Hw). destruct (at_key w) eqn:Ek; cbn [andb].
  - apply at_key_stopped in Ek as [-> ->]; [|done]. rewrite take_0, rax_get_eq. done.
  - by rewrite off_key.
Qed.

(** * A change at one key *)

(** [g] holds what [h] holds, but [r] at [u]. *)
Definition changed h g u (r : option (option V)) : Prop := ∀ t, rax_get g t = if decide (t = u) then r else rax_get h t.

Lemma changed_relink ts h root g u r :
  linked ts h root → wf root → changed h g u r → changed root (relink ts g) (path ts ++ u) r.
Proof.
  intros Hl Hw Hc t. rewrite (get_relink _ _ _ _ _ Hl Hw). destruct (strip (path ts) t) as [t'|] eqn:E.
  - apply strip_Some in E as ->. rewrite (Hc t'), (get_linked _ _ _ _ Hl Hw). destruct (decide (t' = u)) as [->|Hne]; [by rewrite decide_True|].
    rewrite decide_False; [done|]. by intros ?%app_inv_head.
  - rewrite decide_False; [done|]. intros ->. by rewrite strip_app_same in E.
Qed.

(** The same node but for its value. *)
Definition same_body n n' : Prop := rn_iscompr n = rn_iscompr n' ∧ rn_data n = rn_data n' ∧ rn_children n = rn_children n'.

Lemma same_body_set n d : same_body n (raxSetData n d).
Proof. by destruct d. Qed.

Lemma same_body_wf n n' : same_body n n' → wf n → wf n'.
Proof. intros (H1 & H2 & H3) [Hs Hc]%wf_iff. apply wf_iff. unfold shape, size in *. by rewrite <- H1, <- H2, <- H3. Qed.

Lemma same_body_count n n' : same_body n n' → raxRecursiveFree n' = raxRecursiveFree n.
Proof. intros (_ & _ & H3). by rewrite !count_eq, H3. Qed.

Lemma same_body_height n n' : same_body n n' → height n' = height n.
Proof.
  intros (H1 & H2 & H3). destruct n as [k nl cp v l a], n' as [k' nl' cp' v' l' a']. cbn in *. by subst.
Qed.

Lemma same_body_changed n n' : same_body n n' → changed n n' [] (own n').
Proof.
  intros (H1 & H2 & H3) t. rewrite !rax_get_eq. destruct t as [|x t]; [by rewrite decide_True|]. rewrite decide_False by done.
  unfold branch. by rewrite H1, H2, H3.
Qed.

Lemma own_set n d : own (raxSetData n d) = Some d.
Proof. by destruct d. Qed.

Lemma own_set_get n n' : own (if rn_iskey n then raxSetData n' (raxGetData n) else n') = if rn_iskey n then own n else own n'.
Proof. unfold own at 2. by destruct (rn_iskey n); [rewrite own_set|]. Qed.

(** * Insertion *)
Lemma new_node_get t : rax_get raxNewNode t = None.
Proof. by destruct t. Qed.

Lemma new_node_wf : wf raxNewNode.
Proof. split; [split; [constructor|done]|done]. Qed.

Lemma add_pos_length v x : add_pos v x ≤ length v.
Proof. induction v; cbn; [lia|]. destruct (ult _ _); lia. Qed.

(** The character goes to its place: the edges stay sorted. *)
Lemma add_pos_sorted v x : sorted v → x ∉ v → sorted (take (add_pos v x) v ++ x :: drop (add_pos v x) v).
Proof.
  induction 1 as [|y v Hs IH Hall]; intros Hx; cbn; [by repeat constructor|]. apply not_elem_of_cons in Hx as [Hne Hx].
  destruct (ult x y) eqn:E; cbn.
  - constructor; [by constructor|]. constructor; [done|]. eapply Forall_impl; [done|]. cbn. intros z Hz. by eapply ult_trans.
  - constructor; [by apply IH|]. rewrite Forall_app, Forall_cons. rewrite <- (take_drop (add_pos v x) v), Forall_app in Hall.
    destruct Hall as [H1 H2]. split_and!; [done| |done]. destruct (ult y x) eqn:E'; [done|]. by destruct Hne; apply ult_total.
Qed.

(** An edge added to a node. *)
Definition add_edge h x c : node :=
  let pos := add_pos (rn_data h) x in
  RaxNode (rn_iskey h) (rn_isnull h) false (take pos (rn_data h) ++ x :: drop pos (rn_data h))
    (take pos (rn_children h) ++ c :: drop pos (rn_children h)) (rn_value h).

Lemma raxAddChild_edge h x c :
  rn_iscompr h = false → shape h →
  ∃ h' , raxAddChild h x = Ok (h', add_pos (rn_data h) x) ∧ child_at h' (add_pos (rn_data h) x) = Ok raxNewNode ∧
    set_child h' (add_pos (rn_data h) x) c = add_edge h x c.
Proof.
  intros Hc Hs. unfold shape in Hs. rewrite Hc in Hs. unfold raxAddChild. rewrite Hc. eexists. split; [done|].
  pose proof (add_pos_length (rn_data h) x) as Hp.
  assert (Hlen : length (take (add_pos (rn_data h) x) (rn_children h)) = add_pos (rn_data h) x) by (rewrite length_take; unfold size in Hs; lia).
  split.
  - unfold child_at. cbn [rn_children]. apply arr_get_ok. by rewrite <- Hlen at 1; rewrite list_lookup_middle.
  - unfold set_child, add_edge. cbn. f_equal. rewrite <- Hlen at 1. by rewrite insert_app_r_alt, Nat.sub_diag by lia.
Qed.

Lemma add_edge_lookup {A} (l : list A) (x : A) (k i : nat) :
  k ≤ length l → i ≠ k → (take k l ++ x :: drop k l) !! i = l !! (if i <? k then i else i - 1).
Proof.
  intros Hk Hi. destruct (Nat.ltb_spec i k).
  - rewrite lookup_app_l, lookup_take_lt by (rewrite ?length_take; lia). done.
  - rewrite lookup_app_r by (rewrite length_take; lia). rewrite length_take, Nat.min_l by lia.
    destruct (i - k) as [|m] eqn:E; [lia|]. change ((x :: drop k l) !! S m) with (drop k l !! m). rewrite lookup_drop. f_equal. lia.
Qed.

Lemma add_edge_wf h x c : rn_iscompr h = false → wf h → edge (rn_data h) x = None → wf c → wf (add_edge h x c).
Proof.
  intros Hc [Hs Hall]%wf_iff He Hw. apply wf_iff. unfold shape in *. rewrite Hc in Hs. cbn. destruct Hs as [Hs Hlen]. unfold size in *. cbn. split_and!.
  - apply add_pos_sorted; [done|]. by apply edge_None.
  - rewrite !length_app. cbn. rewrite !length_take, !length_drop. lia.
  - apply Forall_app. split; [by apply Forall_take|]. constructor; [done|by apply Forall_drop].
Qed.

Lemma add_edge_get h x c t :
  rn_iscompr h = false → wf h → edge (rn_data h) x = None →
  rax_get (add_edge h x c) t = match t with y :: t' => if decide (y = x) then rax_get c t' else rax_get h t | [] => rax_get h t end.
Proof.
  intros Hc Hw He. assert (Hshape := Hw). apply wf_iff in Hshape as [Hs _]. unfold shape in Hs. rewrite Hc in Hs. destruct Hs as [Hs Hlen].
  pose proof (add_pos_length (rn_data h) x) as Hp. pose proof (proj1 (edge_None _ _) He) as Hx. pose proof (add_pos_sorted _ _ Hs Hx) as Hsort.
  rewrite !rax_get_eq. destruct t as [|y t]; [done|]. unfold branch, add_edge. cbn [rn_iscompr rn_data rn_children]. rewrite Hc. destruct (decide (y = x)) as [->|Hne].
  - rewrite (sorted_lookup _ (add_pos (rn_data h) x) x Hsort); cbn.
    + rewrite lookup_app_r by (rewrite length_take; lia). rewrite length_take. unfold size in Hlen. rewrite Nat.min_l, Nat.sub_diag by lia. done.
    + rewrite lookup_app_r by (rewrite length_take; lia). rewrite length_take, Nat.min_l, Nat.sub_diag by lia. done.
  - destruct (edge (rn_data h) y) as [i|] eqn:Ey.
    + pose proof (edge_Some _ _ _ Ey) as Hi. set (p := add_pos (rn_data h) x) in *.
      set (i' := if i <? p then i else S i). assert (Hi' : i' ≠ p) by (unfold i'; destruct (Nat.ltb_spec i p); lia).
      assert (Hback : (if i' <? p then i' else i' - 1) = i) by (unfold i'; destruct (Nat.ltb_spec i p); [destruct (Nat.ltb_spec i p)|destruct (Nat.ltb_spec (S i) p)]; lia).
      rewrite (sorted_lookup _ i' y Hsort); cbn; [|by rewrite add_edge_lookup, Hback by lia].
      rewrite add_edge_lookup, Hback by (unfold size in Hlen; lia). done.
    + rewrite (proj2 (edge_None _ _)); [done|]. apply edge_None in Ey. rewrite <- (take_drop (add_pos (rn_data h) x) (rn_data h)) in Ey.
      intros Hin. apply Ey. rewrite elem_of_app, elem_of_cons in *. naive_solver.
Qed.

Lemma count_list_app l l' : count_list (l ++ l') = (count_list l + count_list l')%Z.
Proof. induction l; cbn; lia. Qed.

Lemma add_edge_count h x c : raxRecursiveFree (add_edge h x c) = (raxRecursiveFree h + raxRecursiveFree c)%Z.
Proof.
  rewrite (count_eq (add_edge _ _ _)), (count_eq h). unfold add_edge. cbn [rn_children]. rewrite count_list_app. cbn [count_list].
  rewrite <- (take_drop (add_pos (rn_data h) x) (rn_children h)) at 3. rewrite count_list_app. lia.
Qed.

Lemma add_edge_height h x c k : rn_iscompr h = false → height h ≤ k → S (height c) ≤ k → height (add_edge h x c) ≤ k.
Proof.
  rewrite !height_le. unfold add_edge, step_chars. cbn. intros -> Hh Hc. apply Forall_app. split; [by apply Forall_take|].
  constructor; [done|by apply Forall_drop].
Qed.

(** A node that became compressed. *)
Definition compressed h s c : node :=
  let new := RaxNode (rn_iskey h) (rn_isnull h) true s [c] None in
  if rn_iskey h then raxSetData new (raxGetData h) else new.

Lemma compressed_body h s c : same_body (RaxNode false false true s [c] None) (compressed h s c).
Proof. unfold compressed. destruct (rn_iskey h), (raxGetData h); done. Qed.

Lemma compressed_own h s c : own (compressed h s c) = own h.
Proof. unfold compressed. rewrite own_set_get. unfold own. by destruct (rn_iskey h) eqn:E; cbn; rewrite ?E. Qed.

Lemma raxCompressNode_spec h s c :
  size h = 0 → rn_iscompr h = false →
  ∃ h', raxCompressNode h s = Ok h' ∧ child_at h' 0 = Ok raxNewNode ∧ set_child h' 0 c = compressed h s c.
Proof.
  intros H0 Hc. unfold raxCompressNode. rewrite H0, Hc. cbn [negb orb Nat.eqb]. eexists. split; [done|].
  unfold compressed. destruct (rn_iskey h), (raxGetData h); done.
Qed.

Lemma compressed_chain_get k nl s c a t :
  s ≠ [] → rax_get (RaxNode k nl true s [c] a) t =
    match t with [] => own (RaxNode k nl true s [c] a) | _ => strip s t ≫= rax_get c end.
Proof. intros Hs. rewrite rax_get_eq. destruct t as [|x t]; [done|]. unfold branch. cbn. by destruct (strip s (x :: t)). Qed.

Lemma compressed_get h s c t : s ≠ [] → rax_get (compressed h s c) t = match t with [] => own h | _ => strip s t ≫= rax_get c end.
Proof.
  intros Hs. rewrite (same_body_changed _ _ (compressed_body h s c) t), compressed_own, (compressed_chain_get _ _ _ _ _ _ Hs).
  destruct t; [by rewrite decide_True|by rewrite decide_False].
Qed.

Lemma leaf_get h t : shape h → size h = 0 → rn_iscompr h = false → rax_get h t = match t with [] => own h | _ => None end.
Proof.
  intros Hs H0 Hc. rewrite rax_get_eq. destruct t as [|x t]; [done|]. unfold branch. rewrite Hc.
  by rewrite (nil_length_inv (rn_data h) H0).
Qed.

Lemma chain_wf k nl s c a : 2 ≤ length s → wf c → wf (RaxNode k nl true s [c] a).
Proof. intros Hs Hc. apply wf_iff. split; [done|by repeat constructor]. Qed.

Lemma chain_count k nl cp s c a : raxRecursiveFree (RaxNode k nl cp s [c] a) = (1 + raxRecursiveFree c)%Z.
Proof. rewrite count_eq. cbn [rn_children count_list]. lia. Qed.

Lemma leaf_count h : shape h → size h = 0 → rn_iscompr h = false → raxRecursiveFree h = 1%Z.
Proof. unfold shape. intros Hs H0 Hc. rewrite Hc in Hs. rewrite count_eq, (nil_length_inv (rn_children h)); [done|lia]. Qed.

Lemma insert_missing_spec fuel h s d :
  wf h → rn_iscompr h = false → (∀ x t, s = x :: t → edge (rn_data h) x = None) → length s < fuel →
  ∃ g nodes, insert_missing fuel h s d = Ok (g, nodes, if rax_get h s then 0 else 1)%Z ∧ wf g ∧ changed h g s (Some d) ∧
    raxRecursiveFree g = (raxRecursiveFree h + nodes)%Z ∧ (∀ k, height h ≤ k → length s ≤ k → height g ≤ k).
Proof.
  revert h s. induction fuel as [|fuel IH]; intros h s Hw Hc He Hf; [lia|]. cbn [insert_missing].
  destruct s as [|x s].
  { eexists _, _. split_and!.
    - do 2 f_equal. rewrite rax_get_eq. unfold own. by destruct (rn_iskey h).
    - eapply same_body_wf; [apply same_body_set|done].
    - intros t. by rewrite (same_body_changed _ _ (same_body_set h d) t), own_set.
    - rewrite (same_body_count _ _ (same_body_set h d)). lia.
    - by rewrite (same_body_height _ _ (same_body_set h d)). }
  specialize (He x s eq_refl). assert (Hs := Hw). apply wf_iff in Hs as [Hs _]. assert (Hnone : rax_get h (x :: s) = None).
  { rewrite rax_get_eq. unfold branch. by rewrite Hc, He. }
  rewrite Hnone. destruct ((size h =? 0) && (1 <? length (x :: s))) eqn:E.
  - apply andb_prop in E as [H0%Nat.eqb_eq H1%Nat.ltb_lt].
    set (k := if (RAX_NODE_MAX_SIZE <? Z.of_nat (length (x :: s)))%Z then Z.to_nat RAX_NODE_MAX_SIZE else length (x :: s)).
    assert (Hk : 2 ≤ k ≤ length (x :: s)).
    { unfold k. assert (2 ≤ RAX_NODE_MAX_SIZE)%Z by done. revert H. generalize RAX_NODE_MAX_SIZE. intros m Hm. destruct (Z.ltb_spec m (Z.of_nat (length (x :: s)))); lia. }
    destruct (IH raxNewNode (drop k (x :: s))) as (c & nodes & Hi & Hwc & Hch & Hcnt & Hht); [apply new_node_wf|done|done|rewrite length_drop; lia|].
    destruct (raxCompressNode_spec h (take k (x :: s)) c H0 Hc) as (h' & -> & Hcc & Hset). cbn [mbind cres_bind]. rewrite Hcc.
    cbn [mbind cres_bind]. rewrite Hi, new_node_get. cbn [mbind cres_bind]. rewrite Hset. eexists _, _. split; [done|].
    assert (Htake : take k (x :: s) ≠ []) by (destruct k; [lia|done]).
    assert (Hbody := compressed_body h (take k (x :: s)) c). split_and!.
    + eapply same_body_wf; [exact Hbody|]. apply chain_wf; [rewrite length_take; lia|done].
    + intros t. rewrite (compressed_get _ _ _ _ Htake), (leaf_get _ _ Hs H0 Hc). destruct t as [|y t]; [by rewrite decide_False|].
      destruct (strip (take k (x :: s)) (y :: t)) as [u|] eqn:Eu; cbn [mbind option_bind].
      * apply strip_Some in Eu. rewrite (Hch u), new_node_get. pose proof (take_drop k (x :: s)) as Htd.
        destruct (decide (u = drop k (x :: s))) as [->|Hne]; [by rewrite decide_True by congruence|].
        rewrite decide_False; [done|]. intros Hyt. rewrite Hyt, <- Htd in Eu at 1. by apply app_inv_head in Eu.
      * rewrite decide_False; [done|]. intros Hyt. rewrite strip_None in Eu. apply (Eu (drop k (x :: s))). by rewrite take_drop.
    + rewrite (same_body_count _ _ Hbody), chain_count, Hcnt, (leaf_count h) by done. cbn. lia.
    + intros m Hm1 Hm2. rewrite (same_body_height _ _ Hbody). apply height_le. repeat constructor. unfold step_chars, size. cbn [rn_iscompr rn_data].
      assert (height c ≤ m - k) by (apply Hht; [cbn; lia|rewrite length_drop; lia]). rewrite length_take. lia.
  - destruct (IH raxNewNode s) as (c & nodes & Hi & Hwc & Hch & Hcnt & Hht); [apply new_node_wf|done|done|cbn [length] in Hf; lia|].
    destruct (raxAddChild_edge h x c Hc Hs) as (h' & -> & Hcc & Hset). cbn [mbind cres_bind]. rewrite Hcc. cbn [mbind cres_bind].
    rewrite Hi, new_node_get. cbn [mbind cres_bind]. rewrite Hset. eexists _, _. split; [done|]. split_and!.
    + by apply add_edge_wf.
    + intros t. rewrite add_edge_get by done. destruct t as [|y t]; [by rewrite decide_False|]. destruct (decide (y = x)) as [->|Hne].
      * rewrite (Hch t), new_node_get. destruct (decide (t = s)) as [->|Hne]; [by rewrite decide_True|]. rewrite decide_False by congruence.
        rewrite rax_get_eq. unfold branch. by rewrite Hc, He.
      * by rewrite decide_False by congruence.
    + rewrite add_edge_count, Hcnt. cbn. lia.
    + intros m Hm1 Hm2. cbn [length] in Hm2. apply add_edge_height; [done..|]. assert (height c ≤ m - 1) by (apply Hht; [cbn; lia|lia]). lia.
Qed.

(** ** Splitting a node *)

(** A node with one child, compressed if it has more than one character. *)
Definition segment (k nl : bool) s c (a : option V) : node := RaxNode k nl (1 <? length s) s [c] a.

Lemma segment_get k nl s c a t :
  s ≠ [] → rax_get (segment k nl s c a) t = match t with [] => own (segment k nl s c a) | _ => strip s t ≫= rax_get c end.
Proof.
  intros Hs. unfold segment. destruct (Nat.ltb_spec 1 (length s)); [by apply compressed_chain_get|].
  destruct s as [|x [|??]]; [done| |cbn in *; lia]. rewrite rax_get_eq. destruct t as [|y t]; [done|]. unfold branch. cbn. by case_bool_decide.
Qed.

Lemma segment_get_plain nl s c a t : s ≠ [] → rax_get (segment false nl s c a) t = strip s t ≫= rax_get c.
Proof. intros Hs. rewrite segment_get by done. destruct t; [|done]. by destruct s. Qed.

Lemma segment_wf k nl s c a : s ≠ [] → wf c → wf (segment k nl s c a).
Proof.
  intros Hs Hc. unfold segment. destruct (Nat.ltb_spec 1 (length s)); [by apply chain_wf|]. apply wf_iff. split; [|by repeat constructor].
  destruct s as [|x [|??]]; [done| |cbn in *; lia]. split; [by repeat constructor|done].
Qed.

Lemma segment_count k nl s c a : raxRecursiveFree (segment k nl s c a) = (1 + raxRecursiveFree c)%Z.
Proof. apply chain_count. Qed.

Lemma segment_height k nl s c a m : s ≠ [] → height (segment k nl s c a) ≤ m ↔ length s + height c ≤ m.
Proof.
  intros Hs. rewrite height_le. unfold segment, step_chars, size. cbn [rn_children rn_iscompr rn_data]. rewrite Forall_cons.
  destruct (Nat.ltb_spec 1 (length s)); [split; [by intros [? _]|done]|]. destruct s as [|x [|??]]; cbn in *; [done| |lia].
  split; [by intros [? _]|done].
Qed.

(** The part of a compressed node after a split. *)
Definition postfix s c : node := if (length s =? 0) then c else segment false false s c None.

Lemma postfix_get s c t : rax_get (postfix s c) t = strip s t ≫= rax_get c.
Proof. unfold postfix. destruct s as [|x s]; [done|]. by apply segment_get_plain. Qed.

Lemma postfix_wf s c : wf c → wf (postfix s c).
Proof. intros Hc. unfold postfix. destruct s as [|x s]; [done|]. by apply segment_wf. Qed.

Lemma postfix_count s c : raxRecursiveFree (postfix s c) = ((if (length s =? 0)%nat then 0 else 1) + raxRecursiveFree c)%Z.
Proof. unfold postfix. destruct s as [|x s]; [done|]. apply segment_count. Qed.

Lemma postfix_height s c m : height (postfix s c) ≤ m ↔ length s + height c ≤ m.
Proof. unfold postfix. destruct s as [|x s]; [done|]. by apply segment_height. Qed.

(** A compressed node, taken apart. *)
Lemma compr_inv h : wf h → rn_iscompr h = true → ∃ next, rn_children h = [next] ∧ wf next ∧ 2 ≤ length (rn_data h) ∧
  (∀ t, rax_get h t = match t with [] => own h | _ => strip (rn_data h) t ≫= rax_get next end) ∧
  raxRecursiveFree h = (1 + raxRecursiveFree next)%Z ∧ height h = length (rn_data h) + height next.
Proof.
  intros Hw Hc. assert (Hs := Hw). apply wf_iff in Hs as [Hs Hall]. unfold shape in Hs. rewrite Hc in Hs. destruct Hs as [Hlen Hch].
  destruct h as [k nl cp v l a]. unfold size in Hlen. cbn [rn_iscompr rn_data rn_children] in *. subst cp. destruct l as [|next [|??]]; [done| |done]. exists next.
  split; [done|]. split; [by inversion Hall|]. split; [done|]. split; [|split; [apply chain_count|cbn; unfold step_chars, size; cbn; lia]].
  intros t. apply compressed_chain_get. destruct v; [cbn in Hlen; lia|done].
Qed.

(** What a split at character [j] makes of a node: the node of the character, the
    frame above it, and the nodes added. *)
Definition splits h (j : nat) (y : ascii) (sn : node) (fr : list (node * nat)) (nodes : Z) : Prop :=
  linked fr sn (relink fr sn) ∧ wf (relink fr sn) ∧ (∀ t, rax_get (relink fr sn) t = rax_get h t) ∧ path fr = take j (rn_data h) ∧
  raxRecursiveFree (relink fr sn) = (raxRecursiveFree h + nodes)%Z ∧ height (relink fr sn) ≤ height h ∧ rn_data sn = [y] ∧ rn_iscompr sn = false.

Section split.
Context (h next : node) (y : ascii) (l : bytes).
Context (Hw : wf next)
  (Hget : ∀ t, rax_get h t = match t with [] => own h | _ => strip (rn_data h) t ≫= rax_get next end)
  (Hcnt : raxRecursiveFree h = (1 + raxRecursiveFree next)%Z) (Hht : height h = length (rn_data h) + height next).
Let sn0 : node := segment false false [y] (postfix l next) None.

Lemma split_node_wf : wf sn0.
Proof. apply segment_wf; [done|by apply postfix_wf]. Qed.

Lemma split_node_get t : rax_get sn0 t = strip (y :: l) t ≫= rax_get next.
Proof.
  unfold sn0. rewrite segment_get_plain by done. change (y :: l) with ([y] ++ l). rewrite strip_app.
  destruct (strip [y] t); cbn [mbind option_bind]; [apply postfix_get|done].
Qed.

Lemma split_node_count : raxRecursiveFree sn0 = (1 + ((if (length l =? 0)%nat then 0 else 1) + raxRecursiveFree next))%Z.
Proof. unfold sn0. by rewrite segment_count, postfix_count. Qed.

Lemma split_node_height : height sn0 ≤ 1 + (length l + height next).
Proof. apply segment_height; [done|]. assert (height (postfix l next) ≤ length l + height next) by (by apply postfix_height). cbn [length]. lia. Qed.

(** The first character differs: the node of the character takes the key over. *)
Lemma split_at_start :
  rn_data h = y :: l →
  splits h 0 y (if rn_iskey h then raxSetData sn0 (raxGetData h) else sn0) [] (if length l =? 0 then 0%Z else 1%Z).
Proof.
  intros Hdata. assert (Hbody : same_body sn0 (if rn_iskey h then raxSetData sn0 (raxGetData h) else sn0)) by (destruct (rn_iskey h); [apply same_body_set|done]).
  unfold splits. cbn [relink foldl linked path]. split_and!; try done.
  - eapply same_body_wf; [exact Hbody|apply split_node_wf].
  - intros t. rewrite (same_body_changed _ _ Hbody t), own_set_get, Hget. destruct t as [|x t].
    + rewrite decide_True by done. unfold own. by destruct (rn_iskey h).
    + rewrite decide_False by done. by rewrite split_node_get, Hdata.
  - rewrite (same_body_count _ _ Hbody), split_node_count, Hcnt. lia.
  - rewrite (same_body_height _ _ Hbody), Hht, Hdata. pose proof split_node_height. cbn [length]. lia.
  - by destruct (rn_iskey h), (raxGetData h).
  - by destruct (rn_iskey h), (raxGetData h).
Qed.

(** The characters before it stay in a node above, with the key. *)
Lemma split_later j :
  rn_data h = take j (rn_data h) ++ y :: l → length (take j (rn_data h)) = j → j ≠ 0 →
  let tr0 := RaxNode (rn_iskey h) (rn_isnull h) (1 <? j) (take j (rn_data h)) [sn0] None in
  splits h j y sn0 [(if rn_iskey h && negb (rn_isnull h) then raxSetData tr0 (raxGetData h) else tr0, 0)] ((if (length l =? 0)%nat then 0 else 1) + 1).
Proof.
  intros Hdata Hlj Ej tr0. set (tr := if rn_iskey h && negb (rn_isnull h) then _ else _).
  assert (Htr0 : tr0 = segment (rn_iskey h) (rn_isnull h) (take j (rn_data h)) sn0 None) by (unfold segment; by rewrite Hlj).
  assert (Htake : take j (rn_data h) ≠ []) by (intros E; rewrite E in Hlj; cbn in Hlj; lia).
  assert (Hbody : same_body tr0 tr) by (unfold tr; destruct (_ && _); [apply same_body_set|done]).
  assert (Hown : own tr = own h) by (unfold tr, own, raxGetData, tr0; destruct (rn_iskey h), (rn_isnull h), (rn_value h); done).
  assert (Hch : rn_children tr = [sn0]) by (destruct Hbody as (_ & _ & <-); done).
  unfold splits. cbn [relink foldl]. rewrite (set_child_same tr 0 sn0) by (by rewrite Hch). split_and!; try done.
  - cbn [linked]. by rewrite Hch.
  - eapply same_body_wf; [exact Hbody|]. rewrite Htr0. apply segment_wf; [done|apply split_node_wf].
  - intros t. rewrite (same_body_changed _ _ Hbody t), Hown, Hget. destruct t as [|x t]; [by rewrite decide_True|].
    rewrite decide_False by done. rewrite Htr0, segment_get by done. rewrite Hdata at 2. rewrite strip_app.
    destruct (strip (take j (rn_data h)) (x :: t)) as [t'|]; cbn [mbind option_bind]; [apply split_node_get|done].
  - cbn [path]. unfold label. destruct Hbody as (Hb1 & Hb2 & _). rewrite <- Hb1, <- Hb2. cbn [rn_iscompr rn_data tr0]. clear -Hlj Ej.
    destruct (Nat.ltb_spec 1 j); [done|]. destruct (take j (rn_data h)) as [|z [|??]]; cbn in *; [lia|done|lia].
  - rewrite (same_body_count _ _ Hbody), Htr0, segment_count, split_node_count, Hcnt. lia.
  - rewrite (same_body_height _ _ Hbody), Htr0. apply segment_height; [done|]. pose proof split_node_height.
    apply (f_equal length) in Hdata. rewrite length_app in Hdata. cbn [length] in Hdata. lia.
Qed.
End split.

Lemma split_mismatch_spec h j ts y l :
  wf h → rn_iscompr h = true → drop j (rn_data h) = y :: l →
  ∃ sn fr nodes, split_mismatch h j ts = Ok (sn, fr ++ ts, nodes) ∧ splits h j y sn fr nodes.
Proof.
  intros Hw Hc Hd. destruct (compr_inv h Hw Hc) as (next & Hn & Hwn & Hlen & Hget & Hcnt & Hht).
  assert (Hj : rn_data h !! j = Some y) by (rewrite <- (Nat.add_0_r j), <- lookup_drop, Hd; done).
  assert (Hl : drop (S j) (rn_data h) = l) by (rewrite <- Nat.add_1_r, <- drop_drop, Hd; done).
  assert (Hpl : size h - j - 1 = length l) by (rewrite <- Hl, length_drop; unfold size; lia).
  assert (Hdata : rn_data h = take j (rn_data h) ++ y :: l) by (rewrite <- (take_drop j (rn_data h)) at 1; by rewrite Hd).
  unfold split_mismatch, child_at. rewrite Hn. cbn [arr_get lookup list_lookup mbind cres_bind]. rewrite (arr_get_ok _ _ _ Hj). cbn [mbind cres_bind].
  rewrite Hpl, Hl. change (if length l =? 0 then next else _) with (postfix l next).
  change (RaxNode false false false [y] [postfix l next] None) with (segment false false [y] (postfix l next) None : node).
  destruct (j =? 0) eqn:Ej.
  - apply Nat.eqb_eq in Ej as ->. eexists _, [], _. split; [done|]. by apply (split_at_start h next y l).
  - apply Nat.eqb_neq in Ej. eexists _, [(_, 0)], _. split; [done|].
    apply (split_later h next y l); try done. rewrite length_take. apply lookup_lt_Some in Hj. lia.
Qed.

Lemma split_inside_spec h j d :
  wf h → rn_iscompr h = true → 0 < j < size h →
  ∃ g, split_inside h j d = Ok g ∧ wf g ∧ changed h g (take j (rn_data h)) (Some d) ∧
    raxRecursiveFree g = (raxRecursiveFree h + 1)%Z ∧ height g ≤ height h.
Proof.
  intros Hw Hc Hj. destruct (compr_inv h Hw Hc) as (next & Hn & Hwn & Hlen & Hget & Hcnt & Hht). unfold size in *.
  unfold split_inside, child_at. rewrite Hn. cbn [arr_get lookup list_lookup mbind cres_bind]. unfold size.
  rewrite <- (length_drop (rn_data h) j). set (u := drop j (rn_data h)). set (v := take j (rn_data h)).
  assert (Hv : length v = j) by (unfold v; rewrite length_take; lia). assert (Hu : length u = length (rn_data h) - j) by (unfold u; by rewrite length_drop).
  assert (Hune : u ≠ []) by (intros E; rewrite E in Hu; cbn in Hu; lia). assert (Hvne : v ≠ []) by (intros E; rewrite E in Hv; cbn in Hv; lia).
  assert (Hdata : rn_data h = v ++ u) by (by unfold u, v; rewrite take_drop).
  set (pf := raxSetData (segment true false u next None) d). set (tr := segment false false v pf None).
  assert (Hpb : same_body (segment true false u next None) pf) by apply same_body_set.
  assert (Htb : same_body tr (if rn_iskey h then raxSetData tr (raxGetData h) else tr)) by (destruct (rn_iskey h); [apply same_body_set|done]).
  exists (if rn_iskey h then raxSetData tr (raxGetData h) else tr). split; [unfold tr, segment; by rewrite Hv|].
  assert (Hwt : wf tr) by (apply segment_wf; [done|]; eapply same_body_wf; [exact Hpb|by apply segment_wf]).
  split; [by eapply same_body_wf|]. split; [|split].
  - intros t. rewrite (same_body_changed _ _ Htb t), own_set_get, Hget. destruct t as [|x t].
    { rewrite decide_True, decide_False by congruence. unfold own. by destruct (rn_iskey h). }
    rewrite decide_False by done. unfold tr. rewrite segment_get_plain, Hdata, strip_app by done.
    destruct (strip v (x :: t)) as [t'|] eqn:E; cbn [mbind option_bind].
    + apply strip_Some in E. rewrite (same_body_changed _ _ Hpb t'), E. unfold pf. rewrite own_set. destruct t' as [|z t'].
      * rewrite !decide_True; [done|by rewrite app_nil_r|done].
      * rewrite !decide_False; [by apply segment_get| |done]. intros Hx. rewrite <- (app_nil_r v) in Hx at 2. by apply app_inv_head in Hx.
    + rewrite decide_False; [done|]. intros Hx. pose proof (strip_app_same v []) as Hv0. rewrite app_nil_r in Hv0. congruence.
  - rewrite (same_body_count _ _ Htb). unfold tr. rewrite segment_count, (same_body_count _ _ Hpb), segment_count. lia.
  - rewrite (same_body_height _ _ Htb). unfold tr. apply segment_height; [done|]. rewrite (same_body_height _ _ Hpb), Hht, Hdata, length_app.
    assert (height (segment true false u next None) ≤ length u + height next) by (by apply segment_height). lia.
Qed.

(** Lifting a change of a subtree to the tree. *)
Record replaced (root root' : node) s (r : option (option V)) (nodes : Z) : Prop := {
  rp_wf : wf root';
  rp_changed : changed root root' s r;
  rp_count : raxRecursiveFree root' = (raxRecursiveFree root + nodes)%Z;
  rp_height k : height root ≤ k → length s ≤ k → height root' ≤ k;
}.

Lemma replaced_relink ts h root g u r nodes :
  linked ts h root → wf root → replaced h g u r nodes → replaced root (relink ts g) (path ts ++ u) r nodes.
Proof.
  intros Hl Hw [Hwg Hc Hn Hh]. split.
  - by eapply wf_relink.
  - by apply (changed_relink ts h).
  - rewrite (count_relink _ _ _ _ Hl), Hn. lia.
  - intros k Hk Hs. rewrite length_app in Hs. pose proof (height_linked _ _ _ Hl Hw). eapply height_relink; [done..|].
    assert (height g ≤ k - length (path ts)) by (apply Hh; lia). lia.
Qed.

Lemma replaced_set h d : wf h → replaced h (raxSetData h d) [] (Some d) 0.
Proof.
  intros Hw. pose proof (same_body_set h d) as Hb. split.
  - by eapply same_body_wf.
  - intros t. by rewrite (same_body_changed _ _ Hb t), own_set.
  - rewrite (same_body_count _ _ Hb). lia.
  - by rewrite (same_body_height _ _ Hb).
Qed.

Lemma relink_app fr ts h : relink (fr ++ ts) h = relink ts (relink fr h).
Proof. apply foldl_app. Qed.

Lemma raxInsert_spec rx s d :
  wf (rx_head rx) →
  ∃ head nodes, raxInsert rx s d =
      Ok (Rax head (rx_numele rx + if rax_get (rx_head rx) s then 0 else 1) (rx_numnodes rx + nodes),
          bool_decide (rax_get (rx_head rx) s = None), rax_get (rx_head rx) s)%Z ∧
    replaced (rx_head rx) head s (Some d) nodes.
Proof.
  intros Hw. unfold raxInsert. destruct (raxLowWalk_spec rx s Hw) as (w & -> & Hl & Hn & Hp & Hst). cbn [mbind cres_bind].
  assert (Hget : rax_get (rx_head rx) s = rax_get (wk_node w) (take (wk_splitpos w) (rn_data (wk_node w)) ++ wk_rest w)).
  { by rewrite Hp at 1; rewrite (get_linked _ _ _ _ Hl Hw). }
  destruct (at_key w) eqn:Ek.
  { apply at_key_stopped in Ek as [Er Ej]; [|done]. rewrite Er, Ej, take_0 in Hget, Hp. rewrite (rax_get_eq (wk_node w)) in Hget. unfold own in Hget. cbn in Hget.
    exists (relink (wk_stack w) (raxSetData (wk_node w) d)), 0%Z. rewrite Hget. split; [by destruct (rn_iskey (wk_node w))|].
    rewrite Hp. cbn [app]. eapply replaced_relink; [done..|]. by apply replaced_set. }
  rewrite (off_key w Hn Hst Ek) in Hget. rewrite Hget. destruct w as [r h j ts]. cbn [wk_rest wk_node wk_splitpos wk_stack] in *. rewrite Hp.
  destruct Hst as [|x s' Hc He|y l x s' j Hc Hd Hne|j Hc Hj].
  - unfold at_key in Ek. cbn in Ek. by rewrite orb_true_r in Ek.
  - rewrite Hc. cbn [andb mbind cres_bind]. rewrite take_0. cbn [app].
    destruct (insert_missing_spec (S (length (x :: s'))) h (x :: s') d) as (g & nodes & -> & Hwg & Hch & Hcnt & Hht); [done|done|by intros ?? [= <- <-]|lia|].
    cbn [mbind cres_bind]. rewrite (rax_get_eq h). unfold branch. rewrite Hc, He. cbn [fmap option_fmap option_map mbind option_bind].
    exists (relink ts g), nodes. rewrite Z.add_0_r. split; [done|]. eapply replaced_relink; [done..|]. by split.
  - rewrite Hc. cbn [andb].
    destruct (split_mismatch_spec h j ts y l Hn Hc Hd) as (sn & fr & n1 & -> & Hls & Hws & Hgs & Hps & Hcs & Hhs & Hds & Hcn).
    cbn [bool_decide mbind cres_bind]. assert (Hwsn : wf sn) by (by eapply linked_wf).
    destruct (insert_missing_spec (S (length (x :: s'))) sn (x :: s') d) as (g & nodes & -> & Hwg & Hch & Hcnt & Hht);
      [done|done|intros ?? [= <- <-]; rewrite Hds; cbn; by rewrite bool_decide_eq_false_2|lia|].
    cbn [mbind cres_bind]. exists (relink (fr ++ ts) g), (n1 + nodes)%Z.
    assert (Hnone : rax_get sn (x :: s') = None) by (rewrite rax_get_eq; unfold branch; rewrite Hcn, Hds; cbn; by rewrite bool_decide_eq_false_2).
    rewrite Hnone, Z.add_assoc. split; [done|]. rewrite relink_app. eapply replaced_relink; [done..|].
    destruct (replaced_relink fr sn (relink fr sn) g (x :: s') (Some d) nodes Hls Hws) as [H1 H2 H3 H4]; [by split|].
    rewrite Hps in H2, H4. split; [done|..].
    + intros t. by rewrite (H2 t), Hgs.
    + rewrite H3, Hcs. lia.
    + intros k Hk Hsk. apply H4; [lia|done].
  - rewrite Hc. cbn [andb]. destruct (split_inside_spec h j d Hn Hc Hj) as (g & -> & Hwg & Hch & Hcnt & Hht).
    exists (relink ts g), 1%Z. split; [done|]. rewrite app_nil_r. eapply replaced_relink; [done..|]. split; [done..|]. intros; lia.
Qed.

(** * Removal *)

(** A node that a chain goes through. *)
Lemma single_inv h : wf h → stops h = false → ∃ c, rn_children h = [c] ∧ wf c ∧ rn_data h ≠ [] ∧ label h 0 = rn_data h ∧
  (∀ t, rax_get h t = strip (rn_data h) t ≫= rax_get c) ∧
  raxRecursiveFree h = (1 + raxRecursiveFree c)%Z ∧ height h = length (rn_data h) + height c.
Proof.
  intros Hw [Hk Hs]%orb_false_iff. assert (Hshape := Hw). apply wf_iff in Hshape as [Hshape Hall].
  destruct h as [k nl cp v l a]. unfold shape, size in *. cbn [rn_iskey rn_iscompr rn_data rn_children] in *. subst k.
  assert (length l = 1 ∧ v ≠ [] ∧ cp = (1 <? length v)) as (Hl & Hv & ->).
  { destruct cp; cbn [negb andb] in Hs; [destruct Hshape as [Hv2 Hl1]; split_and!; [done|intros ->; cbn in Hv2; lia|symmetry; apply Nat.ltb_lt; lia]|].
    apply negb_false_iff, Nat.eqb_eq in Hs. split_and!; [lia|intros ->; discriminate|by rewrite Hs]. }
  destruct l as [|c [|??]]; [done| |done]. exists c. split; [done|]. split; [by inversion Hall|]. split; [done|]. split; [|split; [|split]].
  - unfold label. cbn [rn_iscompr rn_data]. destruct (Nat.ltb_spec 1 (length v)) as [|Hv1]; [done|]. destruct v as [|x [|??]]; [done|done|cbn in Hv1; lia].
  - intros t. by apply segment_get_plain.
  - apply chain_count.
  - pose proof (segment_height false nl v c a (height (segment false nl v c a)) Hv) as [H1 _].
    pose proof (segment_height false nl v c a (length v + height c) Hv) as [_ H2]. specialize (H1 (le_n _)). specialize (H2 (le_n _)).
    unfold segment in *. lia.
Qed.

(** At most one key is below a node. *)
Definition sole h u : Prop := ∀ t, t ≠ u → rax_get h t = None.

Lemma climb_spec ts h u root p j ts' freed :
  climb ts = Some (p, j, ts', freed) → linked ts h root → wf root → sole h u →
  ∃ c u', rn_children p !! j = Some c ∧ linked ts' p root ∧ sole c u' ∧ path ts ++ u = path ts' ++ label p j ++ u' ∧
    raxRecursiveFree c = (raxRecursiveFree h + freed - 1)%Z.
Proof.
  revert h u freed. induction ts as [|[q i] ts IH]; intros h u freed; cbn [climb linked]; [done|]. intros Hc [Hi Hl] Hw Hsole.
  assert (Hhere : q = p → i = j → ts = ts' → freed = 1%Z → ∃ c u', rn_children p !! j = Some c ∧ linked ts' p root ∧ sole c u' ∧
    path ((q, i) :: ts) ++ u = path ts' ++ label p j ++ u' ∧ raxRecursiveFree c = (raxRecursiveFree h + freed - 1)%Z).
  { intros -> -> -> ->. exists h, u. split_and!; try done; [cbn [path]; by rewrite <- app_assoc|lia]. }
  destruct (stops q) eqn:Eq; [by injection Hc as <- <- <- <-; apply Hhere|].
  destruct (climb ts) as [[[[p' j'] ts''] freed']|] eqn:Ec; [|by injection Hc as <- <- <- <-; apply Hhere].
  injection Hc as -> -> -> <-.
  destruct (single_inv q) as (c & Hch & Hwc & Hv & Hlab & Hget & Hcnt & _); [by eapply linked_wf|done|].
  rewrite Hch in Hi. destruct i as [|i]; cbn in Hi; [injection Hi as ->|done].
  destruct (IH q (rn_data q ++ u) freed' eq_refl Hl Hw) as (c & u' & H1 & H2 & H3 & H4 & H5).
  - intros t Ht. rewrite Hget. destruct (strip (rn_data q) t) as [t'|] eqn:E; cbn; [|done]. apply strip_Some in E as ->. apply Hsole. congruence.
  - exists c, u'. split_and!; try done; [|lia]. rewrite <- H4. cbn [path]. by rewrite Hlab, <- app_assoc.
Qed.

Lemma climb_none ts : climb ts = None → ts = [].
Proof. destruct ts as [|[q i] ts]; cbn; [done|]. destruct (stops q); [done|]. by destruct (climb ts) as [[[[??]?]?]|]. Qed.

Lemma add_pos_delete v j x : sorted v → v !! j = Some x → add_pos (delete j v) x = j.
Proof.
  intros Hs. revert j. induction Hs as [|y v Hs IH Hall]; intros j Hj; [done|]. destruct j as [|j].
  - cbn in Hj. injection Hj as ->. change (delete 0 (x :: v)) with v. destruct Hall as [|z v Hz _]; cbn; [done|]. by rewrite Hz.
  - change (v !! j = Some x) in Hj. change (delete (S j) (y :: v)) with (y :: delete j v). cbn [add_pos]. rewrite (IH _ Hj).
    rewrite Forall_forall in Hall. specialize (Hall x ltac:(by eapply list_elem_of_lookup_2)).
    destruct (ult x y) eqn:E; [|done]. pose proof (ult_trans _ _ _ E Hall) as Hxx. by rewrite ult_irrefl in Hxx.
Qed.

Lemma sorted_delete v j : sorted v → sorted (delete j v).
Proof.
  intros Hs. revert j. induction Hs as [|y v Hs IH Hall]; intros [|j]; [constructor..|done|].
  change (delete (S j) (y :: v)) with (y :: delete j v). constructor; [apply IH|]. by apply Forall_delete.
Qed.

Lemma delete_restore {A} (l : list A) (j : nat) (x : A) : l !! j = Some x → take j (delete j l) ++ x :: drop j (delete j l) = l.
Proof.
  intros Hj. rewrite delete_take_drop. rewrite take_app_le, drop_app_le by (rewrite length_take; apply lookup_lt_Some in Hj; lia).
  rewrite take_take, Nat.min_id. rewrite drop_ge by (rewrite length_take; lia). cbn. by apply take_drop_middle.
Qed.

(** A child is gone, with every key below it. *)
Lemma raxRemoveChild_spec p j c :
  wf p → rn_children p !! j = Some c →
  wf (raxRemoveChild p j) ∧
  (∀ t, rax_get (raxRemoveChild p j) t = match strip (label p j) t with Some _ => None | None => rax_get p t end) ∧
  raxRecursiveFree (raxRemoveChild p j) = (raxRecursiveFree p - raxRecursiveFree c)%Z ∧ height (raxRemoveChild p j) ≤ height p.
Proof.
  intros Hw Hj. assert (Hs := Hw). apply wf_iff in Hs as [Hs Hall]. pose proof (shape_lookup _ _ _ Hs Hj) as Hlj. unfold raxRemoveChild, label.
  destruct (rn_iscompr p) eqn:Ec.
  - subst j. destruct (compr_inv p Hw Ec) as (next & Hn & Hwn & Hlen & Hget & Hcnt & Hht). rewrite Hn in Hj. injection Hj as ->.
    set (leaf := RaxNode (rn_iskey p) false false [] [] (rn_value p) : node).
    assert (Hb : same_body leaf (if rn_iskey p then raxSetData leaf (raxGetData p) else leaf)) by (destruct (rn_iskey p); [apply same_body_set|done]).
    split; [eapply same_body_wf; [exact Hb|]; split; [split; [constructor|done]|done]|]. split; [|split].
    + intros t. rewrite (same_body_changed _ _ Hb t), own_set_get, Hget. destruct t as [|x t].
      * rewrite decide_True by done. destruct (rn_data p); [cbn in Hlen; lia|]. cbn. unfold own. by destruct (rn_iskey p) eqn:E; rewrite ?E.
      * rewrite decide_False by done. by destruct (strip (rn_data p) (x :: t)).
    + rewrite (same_body_count _ _ Hb), Hcnt, (leaf_count leaf); [lia|split; [constructor|done]|done|done].
    + rewrite (same_body_height _ _ Hb). cbn. lia.
  - destruct Hlj as [x Hx]. rewrite Hx. change (option_list (Some x)) with [x]. unfold shape in Hs. rewrite Ec in Hs. destruct Hs as [Hsort Hlen]. unfold size in Hlen.
    set (new := RaxNode (rn_iskey p) (rn_isnull p) false (delete j (rn_data p)) (delete j (rn_children p)) (rn_value p) : node).
    assert (Hwn : wf new).
    { apply wf_iff. split; [split; [by apply sorted_delete|]|by apply Forall_delete]. unfold size. cbn [rn_children rn_data new].
      by rewrite !length_delete, Hlen by eauto. }
    assert (Hedge : edge (rn_data new) x = None).
    { apply edge_None. intros [i Hi]%list_elem_of_lookup. cbn [rn_data new] in Hi.
      pose proof (sorted_lookup _ _ _ Hsort Hx) as E1. destruct (decide (i < j)).
      - rewrite list_lookup_delete_lt in Hi by done. rewrite (sorted_lookup _ _ _ Hsort Hi) in E1. injection E1. lia.
      - rewrite list_lookup_delete_ge in Hi by lia. rewrite (sorted_lookup _ _ _ Hsort Hi) in E1. injection E1. lia. }
    assert (Hp : p = add_edge new x c).
    { unfold add_edge. cbn [rn_data rn_children rn_iskey rn_isnull rn_value new]. rewrite (add_pos_delete _ _ _ Hsort Hx), !delete_restore by done.
      destruct p; cbn in *; by subst. }
    split; [done|]. split; [|split].
    + intros t. pose proof (add_edge_get new x c t eq_refl Hwn Hedge) as Hg. rewrite <- Hp in Hg. rewrite Hg. destruct t as [|y t]; [done|]. destruct (decide (y = x)) as [->|Hne].
      * change (x :: t) with ([x] ++ t) at 2. rewrite strip_app_same, rax_get_eq. unfold branch. cbn [rn_iscompr new]. by rewrite Hedge.
      * assert (strip [x] (y :: t) = None) as -> by (apply strip_None; cbn; congruence). done.
    + pose proof (add_edge_count new x c) as Hcnt. rewrite <- Hp in Hcnt. lia.
    + apply height_le. cbn [rn_children new]. apply Forall_delete. pose proof (proj1 (height_le p (height p)) (le_n _)) as Hh.
      unfold step_chars in *. rewrite Ec in Hh. done.
Qed.

(** ** Joining a chain *)
Lemma join_chain_eq h c :
  rn_children h = [c] → rn_data h ≠ [] →
  join_chain h = if stops c then (rn_data h, c, 1%Z)
                 else let '(chars, rest, freed) := join_chain c in (rn_data h ++ chars, rest, (1 + freed)%Z).
Proof. destruct h as [k nl cp v l a]. cbn [rn_children rn_data]. intros -> Hv. by destruct v. Qed.

Lemma scan_chain_eq h c nodes sz :
  rn_children h = [c] → rn_data h ≠ [] →
  scan_chain h nodes sz = if stops c then (nodes, sz)
    else if (RAX_NODE_MAX_SIZE <? sz + Z.of_nat (size c))%Z then (nodes, sz) else scan_chain c (nodes + 1) (sz + Z.of_nat (size c)).
Proof. destruct h as [k nl cp v l a]. cbn [rn_children rn_data]. intros -> Hv. by destruct v. Qed.

(** The chain from a node, and the two scans of it, which agree when the joined
    node is small enough. *)
Lemma chain_spec h :
  wf h → stops h = false →
  ∃ chars rest freed, join_chain h = (chars, rest, freed) ∧ wf rest ∧ (∀ t, rax_get h t = strip chars t ≫= rax_get rest) ∧
    raxRecursiveFree h = (freed + raxRecursiveFree rest)%Z ∧ height h = length chars + height rest ∧
    (1 ≤ freed ≤ Z.of_nat (length chars))%Z ∧ size h ≤ length chars ∧
    ∀ nodes sz, (sz + Z.of_nat (length chars - size h) ≤ RAX_NODE_MAX_SIZE)%Z →
      scan_chain h nodes sz = (nodes + freed - 1, sz + Z.of_nat (length chars - size h))%Z.
Proof.
  induction h as [k nl cp v l a IH]. intros Hw Hs. set (h := RaxNode k nl cp v l a) in *.
  destruct (single_inv h Hw Hs) as (c & Hch & Hwc & Hv & _ & Hget & Hcnt & Hht).
  assert (Hlen : 1 ≤ length (rn_data h)) by (destruct (rn_data h); [done|cbn; lia]).
  rewrite (join_chain_eq h c Hch Hv). destruct (stops c) eqn:Ec.
  - exists (rn_data h), c, 1%Z. split_and!; try done; [lia|]. intros nodes sz _. rewrite (scan_chain_eq h c nodes sz Hch Hv), Ec.
    unfold size. rewrite Nat.sub_diag. f_equal; lia.
  - assert (Hl : l = [c]) by exact Hch. rewrite Hl in IH. inversion IH as [|?? IHc _]; subst.
    destruct (IHc Hwc Ec) as (chars & rest & freed & -> & Hwr & Hg & Hcn & Hh & Hf & Hsz & Hscan).
    exists (rn_data h ++ chars), rest, (1 + freed)%Z. rewrite length_app. split_and!; try done; try lia.
    + intros t. rewrite Hget, strip_app. destruct (strip (rn_data h) t); cbn; [apply Hg|done].
    + unfold size. lia.
    + intros nodes sz Hsmall. unfold size in Hsmall at 1. rewrite (scan_chain_eq h c nodes sz Hch Hv), Ec.
      destruct (Z.ltb_spec RAX_NODE_MAX_SIZE (sz + Z.of_nat (size c))); [lia|]. rewrite Hscan by lia. unfold size at 3. f_equal; lia.
Qed.

Lemma recompress_spec h :
  wf h → stops h = false → (Z.of_nat (height h) ≤ RAX_NODE_MAX_SIZE)%Z →
  ∃ g nodes, recompress h = Ok (g, nodes) ∧ wf g ∧ (∀ t, rax_get g t = rax_get h t) ∧
    raxRecursiveFree g = (raxRecursiveFree h + nodes)%Z ∧ height g ≤ height h.
Proof.
  intros Hw Hs Hmax. destruct (chain_spec h Hw Hs) as (chars & rest & freed & Hj & Hwr & Hg & Hcn & Hh & Hf & Hsz & Hscan).
  unfold recompress. rewrite Hscan by lia. destruct (Z.leb_spec (1 + freed - 1) 1).
  { exists h, 0%Z. split_and!; try done. lia. }
  rewrite Hj. replace (Z.of_nat (size h) + Z.of_nat (length chars - size h))%Z with (Z.of_nat (length chars)) by lia.
  rewrite Z.eqb_refl. cbn [negb]. exists (RaxNode false false true chars [rest] None), (1 - freed)%Z.
  assert (Hne : chars ≠ []) by (intros ->; cbn in *; lia). split; [done|]. split; [apply chain_wf; [lia|done]|]. split; [|split].
  - intros t. rewrite Hg, compressed_chain_get by done. destruct t; [|done]. by destruct chars.
  - rewrite chain_count, Hcn. lia.
  - apply height_le. repeat constructor. unfold step_chars, size. cbn [rn_iscompr rn_data]. lia.
Qed.

(** ** The whole removal *)
Lemma height_below ts q root h : linked ts q root → wf root → length (path ts) + height h ≤ height (relink ts h).
Proof.
  revert q h. induction ts as [|[p j] ts IH]; intros q h; cbn [linked path relink foldl]; [done|]. intros [Hj Hl] Hw. rewrite length_app.
  change (foldl _ (set_child p j h) ts) with (relink ts (set_child p j h)). specialize (IH p (set_child p j h) Hl Hw).
  assert (Hp : shape p) by (by apply wf_iff, (linked_wf _ _ _ Hl)). rewrite (label_length p j q Hp Hj).
  assert (Hc : rn_children (set_child p j h) !! j = Some h) by (apply list_lookup_insert_eq; by eapply lookup_lt_Some).
  pose proof (height_child _ _ _ Hc) as Hh. change (step_chars (set_child p j h)) with (step_chars p) in Hh. lia.
Qed.

Lemma replaced_same ts q root h g s r nodes k :
  linked ts q root → wf root → wf g → (∀ t, rax_get g t = rax_get h t) → raxRecursiveFree g = (raxRecursiveFree h + k)%Z → height g ≤ height h →
  replaced root (relink ts h) s r nodes → replaced root (relink ts g) s r (nodes + k).
Proof.
  intros Hl Hw Hwg Hget Hcnt Hht [_ Hch Hn Hh]. split.
  - by eapply wf_relink.
  - intros t. rewrite <- (Hch t), !(get_relink _ _ _ _ _ Hl Hw). by destruct (strip (path ts) t).
  - rewrite (count_relink ts q root g Hl). rewrite (count_relink ts q root h Hl) in Hn. lia.
  - intros m Hm Hs. eapply height_relink; [done..|]. pose proof (height_below ts q root h Hl Hw). specialize (Hh m Hm Hs). lia.
Qed.

Lemma seek_start_spec ts q root h h' ts' :
  linked ts q root → wf root → wf h → stops h = false → seek_start h ts = (h', ts') →
  ∃ q', linked ts' q' root ∧ relink ts' h' = relink ts h ∧ wf h' ∧ stops h' = false.
Proof.
  revert q h. induction ts as [|[p j] ts IH]; intros q h; cbn [linked seek_start].
  - intros Hl Hw Hh Hs [= <- <-]. by exists q.
  - intros [Hj Hl] Hw Hh Hs. destruct (stops p) eqn:Ep; [intros [= <- <-]; by exists q|]. intros Hst.
    apply (IH p (set_child p j h)); [done..| |done|done]. apply wf_set_child; [by eapply linked_wf|done].
Qed.

(** The key is taken from its node. *)
Lemma replaced_unset h : wf h → replaced h (RaxNode false (rn_isnull h) (rn_iscompr h) (rn_data h) (rn_children h) (rn_value h)) [] None 0.
Proof.
  intros Hw. set (g := RaxNode false _ _ _ _ _). assert (Hb : same_body h g) by done. split.
  - by eapply same_body_wf.
  - intros t. by rewrite (same_body_changed _ _ Hb t).
  - rewrite (same_body_count _ _ Hb). lia.
  - by rewrite (same_body_height _ _ Hb).
Qed.

(** The node that holds the last key of its branch loses the branch. *)
Lemma replaced_remove p j c u :
  wf p → rn_children p !! j = Some c → sole c u →
  replaced p (raxRemoveChild p j) (label p j ++ u) None (- raxRecursiveFree c).
Proof.
  intros Hw Hj Hsole. destruct (raxRemoveChild_spec p j c Hw Hj) as (Hwn & Hget & Hcnt & Hht). split; [done| |lia|lia].
  intros t. rewrite Hget. destruct (strip (label p j) t) as [t'|] eqn:E.
  - apply strip_Some in E as ->. destruct (decide (label p j ++ t' = label p j ++ u)) as [|Hne]; [done|].
    rewrite (get_child _ _ _ _ (proj1 (proj1 (wf_iff _) Hw)) Hj), Hsole; [done|]. congruence.
  - rewrite decide_False; [done|]. intros ->. by rewrite strip_app_same in E.
Qed.

(** What the removal does before it tries to join nodes. *)
Definition removed (h : node) ts : node * list (node * nat) * Z * bool :=
  if size h =? 0 then
    match climb ts with
    | None => (h, [], 0%Z, false)
    | Some (p, j, ts, freed) =>
        let new := raxRemoveChild p j in (new, ts, freed, (size new =? 1) && negb (rn_iskey new))
    end
  else (h, ts, 0%Z, size h =? 1).

Lemma removed_spec h ts root h' ts' freed try :
  linked ts h root → wf root →
  removed (RaxNode false (rn_isnull h) (rn_iscompr h) (rn_data h) (rn_children h) (rn_value h)) ts = (h', ts', freed, try) →
  ∃ q, linked ts' q root ∧ wf h' ∧ replaced root (relink ts' h') (path ts) None (- freed) ∧ (try = true → stops h' = false).
Proof.
  intros Hl Hw. pose proof (linked_wf _ _ _ Hl Hw) as Hwh. pose proof (replaced_unset h Hwh) as Hun.
  set (h1 := RaxNode false _ _ _ _ _) in *. unfold removed. change (size h1) with (size h).
  assert (Hstay : ∃ q, linked ts q root ∧ wf h1 ∧ replaced root (relink ts h1) (path ts) None (- 0)).
  { exists h. split; [done|]. split; [apply (rp_wf _ _ _ _ _ Hun)|]. rewrite <- (app_nil_r (path ts)). by eapply replaced_relink. }
  destruct (size h =? 0) eqn:E0.
  - apply Nat.eqb_eq in E0. assert (Hs := Hwh). apply wf_iff in Hs as [Hs _]. assert (Hc : rn_iscompr h = false).
    { unfold shape in Hs. destruct (rn_iscompr h); [lia|done]. }
    destruct (climb ts) as [[[[p j] ts2] fr]|] eqn:Ec.
    2:{ apply climb_none in Ec as ->. intros [= <- <- <- <-]. destruct Hstay as (q & ?&?&?). by exists q. }
    intros [= <- <- <- <-]. destruct (climb_spec _ _ [] _ _ _ _ _ Ec Hl Hw) as (c & u & Hj & Hl2 & Hsole & Hpath & Hcnt).
    { intros t Ht. rewrite (leaf_get _ _ Hs E0 Hc). by destruct t. }
    rewrite app_nil_r in Hpath. rewrite (leaf_count h) in Hcnt by done. assert (Hwp : wf p) by (by eapply linked_wf).
    pose proof (replaced_remove p j c u Hwp Hj Hsole) as Hrep. exists p. split; [done|]. split; [apply (rp_wf _ _ _ _ _ Hrep)|]. split.
    + rewrite Hpath. replace (- fr)%Z with (- raxRecursiveFree c)%Z by lia. by eapply replaced_relink.
    + intros [H1%Nat.eqb_eq H2%negb_true_iff]%andb_prop. unfold stops. rewrite H2, H1. cbn. by rewrite andb_false_r.
  - intros [= <- <- <- <-]. destruct Hstay as (q & ?&?&?). exists q. split_and!; try done. intros Hsz. unfold stops.
    change (size h1) with (size h). rewrite Hsz. cbn. by rewrite andb_false_r.
Qed.

Lemma raxRemove_spec rx s :
  wf (rx_head rx) → (Z.of_nat (height (rx_head rx)) ≤ RAX_NODE_MAX_SIZE)%Z →
  match rax_get (rx_head rx) s with
  | None => raxRemove rx s = Ok (rx, None)
  | Some old => ∃ head nodes, raxRemove rx s = Ok (Rax head (rx_numele rx - 1) (rx_numnodes rx + nodes), Some old)%Z ∧
      replaced (rx_head rx) head s None nodes
  end.
Proof.
  intros Hw Hmax. unfold raxRemove. destruct (raxLowWalk_spec rx s Hw) as (w & -> & Hl & Hn & Hp & Hst). cbn [mbind cres_bind].
  rewrite Hp, (get_linked _ _ _ _ Hl Hw). destruct (at_key w) eqn:Ek; cbn [andb negb]; [|by rewrite (off_key w Hn Hst Ek)].
  apply at_key_stopped in Ek as [-> ->]; [|done]. rewrite take_0. cbn [app]. rewrite app_nil_r, rax_get_eq. unfold own.
  destruct (rn_iskey (wk_node w)) eqn:Eiskey; cbn [negb]; [|done].
  change (if size _ =? 0 then _ else _) with
    (removed (RaxNode false (rn_isnull (wk_node w)) (rn_iscompr (wk_node w)) (rn_data (wk_node w)) (rn_children (wk_node w)) (rn_value (wk_node w))) (wk_stack w)).
  destruct (removed _ _) as [[[h1 ts1] freed] try] eqn:Er.
  destruct (removed_spec _ _ _ _ _ _ _ Hl Hw Er) as (q & Hl1 & Hw1 & Hrep & Htry).
  destruct try.
  2:{ cbn [mbind cres_bind]. exists (relink ts1 h1), (- freed)%Z. split; [do 3 f_equal; lia|done]. }
  destruct (seek_start h1 ts1) as [h2 ts2] eqn:Es.
  destruct (seek_start_spec _ _ _ _ _ _ Hl1 Hw Hw1 (Htry eq_refl) Es) as (q2 & Hl2 & Hrel & Hw2 & Hs2).
  rewrite <- Hrel in Hrep. destruct (recompress_spec h2 Hw2 Hs2) as (g & k & -> & Hwg & Hget & Hcnt & Hht).
  { pose proof (height_below ts2 q2 _ h2 Hl2 Hw). pose proof (height_linked _ _ _ Hl Hw).
    pose proof (rp_height _ _ _ _ _ Hrep (height (rx_head rx)) (le_n _) ltac:(lia)). lia. }
  cbn [mbind cres_bind]. exists (relink ts2 g), (- freed + k)%Z. split; [do 3 f_equal; lia|]. by eapply replaced_same.
Qed.

(** * The tree and the map it stands for *)
Record rax_models rx (m : gmap bytes (option V)) : Prop := {
  xm_wf : wf (rx_head rx);
  xm_get s : rax_get (rx_head rx) s = m !! s;
  xm_numele : rx_numele rx = Z.of_nat (base.size m);
  xm_numnodes : rx_numnodes rx = raxRecursiveFree (rx_head rx);
  xm_height : (Z.of_nat (height (rx_head rx)) ≤ RAX_NODE_MAX_SIZE)%Z;
}.

(** A key that a node has room for. *)
Definition rax_key_fits s : Prop := (Z.of_nat (length s) ≤ RAX_NODE_MAX_SIZE)%Z.

Lemma raxNew_models : rax_models raxNew ∅.
Proof. split; [apply new_node_wf|intros s; by rewrite new_node_get, lookup_empty|by rewrite map_size_empty|done|done]. Qed.

Lemma raxFind_models rx m s : rax_models rx m → raxFind rx s = Ok (m !! s).
Proof. intros Hm. rewrite raxFind_get by apply Hm. by rewrite (xm_get _ _ Hm). Qed.

Lemma raxInsert_models rx m s d :
  rax_models rx m → rax_key_fits s →
  ∃ rx', raxInsert rx s d = Ok (rx', bool_decide (m !! s = None), m !! s) ∧ rax_models rx' (<[s := d]> m).
Proof.
  intros Hm Hs. destruct (raxInsert_spec rx s d (xm_wf _ _ Hm)) as (head & nodes & Hr & [Hw Hc Hn Hh]).
  rewrite (xm_get _ _ Hm) in Hr. eexists. split; [exact Hr|]. split; cbn.
  - done.
  - intros t. rewrite (Hc t), (xm_get _ _ Hm). destruct (decide (t = s)) as [->|Hne]; [by rewrite lookup_insert_eq|by rewrite lookup_insert_ne].
  - rewrite map_size_insert, (xm_numele _ _ Hm). destruct (m !! s); cbn; lia.
  - by rewrite Hn, (xm_numnodes _ _ Hm).
  - unfold rax_key_fits in Hs. assert (height head ≤ Z.to_nat RAX_NODE_MAX_SIZE); [|lia]. pose proof (xm_height _ _ Hm). apply Hh; lia.
Qed.

Lemma raxRemove_models rx m s :
  rax_models rx m → ∃ rx', raxRemove rx s = Ok (rx', m !! s) ∧ rax_models rx' (delete s m).
Proof.
  intros Hm. pose proof (raxRemove_spec rx s (xm_wf _ _ Hm) (xm_height _ _ Hm)) as Hr. rewrite (xm_get _ _ Hm) in Hr.
  destruct (m !! s) as [old|] eqn:Es.
  2:{ exists rx. split; [done|]. by rewrite delete_id. }
  destruct Hr as (head & nodes & Hr & [Hw Hc Hn Hh]). eexists. split; [exact Hr|]. split; cbn.
  - done.
  - intros t. rewrite (Hc t), (xm_get _ _ Hm). destruct (decide (t = s)) as [->|Hne]; [by rewrite lookup_delete_eq|by rewrite lookup_delete_ne].
  - rewrite map_size_delete, Es, (xm_numele _ _ Hm). cbn. assert (base.size m ≠ 0); [|lia]. apply map_size_ne_0_lookup. eauto.
  - by rewrite Hn, (xm_numnodes _ _ Hm).
  - pose proof (xm_height _ _ Hm) as Hmax. assert (height head ≤ height (rx_head rx)); [|lia]. apply Hh; [done|].
    destruct (raxLowWalk_spec rx s (xm_wf _ _ Hm)) as (w & _ & Hl & Hwn & Hp & Hst).
    pose proof (xm_get _ _ Hm s) as Hg. rewrite Es, Hp, (get_linked _ _ _ _ Hl (xm_wf _ _ Hm)) in Hg.
    destruct (at_key w) eqn:Ek; [|by rewrite off_key in Hg]. apply at_key_stopped in Ek as [Er Ej]; [|done].
    rewrite Hp, Er, Ej, take_0. cbn [app]. rewrite app_nil_r. pose proof (height_linked _ _ _ Hl (xm_wf _ _ Hm)). lia.
Qed.

Lemma raxFree_models rx m : rax_models rx m → raxFree rx = Ok tt.
Proof. intros Hm. unfold raxFree. by rewrite (xm_numnodes _ _ Hm), Z.sub_diag. Qed.

(** ** Sequences of operations *)
Inductive rax_op := RaxPut s d | RaxDel s.

Definition rax_apply rx (op : rax_op) : cres (rax V) :=
  match op with
  | RaxPut s d => '(rx, _, _) ← raxInsert rx s d; Ok rx
  | RaxDel s => '(rx, _) ← raxRemove rx s; Ok rx
  end.

Definition map_apply (m : gmap bytes (option V)) (op : rax_op) : gmap bytes (option V) :=
  match op with RaxPut s d => <[s := d]> m | RaxDel s => delete s m end.

Definition op_fits (op : rax_op) : Prop := match op with RaxPut s _ => rax_key_fits s | RaxDel _ => True end.

Lemma rax_apply_all ops rx m :
  rax_models rx m → Forall op_fits ops → ∃ rx', foldC rax_apply ops rx = Ok rx' ∧ rax_models rx' (foldl map_apply m ops).
Proof.
  revert rx m. induction ops as [|op ops IH]; intros rx m Hm Hf; [by exists rx|]. inversion Hf as [|?? Hop Hrest]; subst.
  assert (∃ rx1, rax_apply rx op = Ok rx1 ∧ rax_models rx1 (map_apply m op)) as (rx1 & Hr & Hm1).
  { destruct op as [s d|s]; cbn [rax_apply map_apply].
    - destruct (raxInsert_models rx m s d Hm Hop) as (rx1 & -> & Hm1). by exists rx1.
    - destruct (raxRemove_models rx m s Hm) as (rx1 & -> & Hm1). by exists rx1. }
  cbn [foldC foldl]. rewrite Hr. cbn [mbind cres_bind]. by apply IH.
Qed.

(** C37. The radix tree refines a finite map: after any sequence of insertions, of
    keys of at most 2^29 - 1 bytes, and removals, none of which faults, a lookup finds exactly what the map has, an
    insertion and a removal report what the map had, the element count is the
    size of the map, and releasing the tree frees as many nodes as were
    counted, so that its assertion holds. *)
Theorem rax_refines_map (ops : list rax_op) :
  Forall op_fits ops →
  ∃ rx, foldC rax_apply ops raxNew = Ok rx ∧ let m := foldl map_apply ∅ ops in
    (∀ s, raxFind rx s = Ok (m !! s)) ∧
    (∀ s d, rax_key_fits s → ∃ rx', raxInsert rx s d = Ok (rx', bool_decide (m !! s = None), m !! s) ∧ ∀ t, raxFind rx' t = Ok (<[s := d]> m !! t)) ∧
    (∀ s, ∃ rx', raxRemove rx s = Ok (rx', m !! s) ∧ ∀ t, raxFind rx' t = Ok (delete s m !! t)) ∧
    rx_numele rx = Z.of_nat (base.size m) ∧ raxFree rx = Ok tt.
Proof.
  intros Hf. destruct (rax_apply_all ops raxNew ∅ raxNew_models Hf) as (rx & Hr & Hm). exists rx. split; [done|]. cbn zeta. split_and!.
  - intros s. by apply raxFind_models.
  - intros s d Hs. destruct (raxInsert_models rx _ s d Hm Hs) as (rx' & Hi & Hm'). exists rx'. split; [done|]. intros t. by apply raxFind_models.
  - intros s. destruct (raxRemove_models rx _ s Hm) as (rx' & Hi & Hm'). exists rx'. split; [done|]. intros t. by apply raxFind_models.
  - apply (xm_numele _ _ Hm).
  - by eapply raxFree_models.
Qed.
End spec.

(** * Examples *)
Module Examples.

(** The keys of the comments in [rax.c], and a tree after some of them are gone. *)
Definition puts : list rax_op :=
  [RaxPut (lit "ANNIBALESCO") (Some 1); RaxPut (lit "ANNIENTARE") (Some 2); RaxPut (lit "ANNIBALI") (Some 3); RaxPut (lit "AGO") None;
   RaxPut (lit "CIAO") (Some 5); RaxPut (lit "ANNI") (Some 6); RaxDel (lit "ANNIBALI"); RaxDel (lit "AGO"); RaxDel (lit "ANNIENTARE")].

Lemma puts_fit : Forall (op_fits (V := nat)) puts.
Proof. repeat constructor; unfold op_fits, rax_key_fits; vm_compute; discriminate. Qed.

Lemma rax_refines_map_witness :
  ∃ rx, foldC rax_apply puts raxNew = Ok rx ∧ raxFind rx (lit "ANNIBALESCO") = Ok (Some (Some 1)) ∧ raxFind rx (lit "AGO") = Ok None.
Proof.
  destruct (rax_refines_map puts puts_fit) as (rx & Hr & Hf & _). exists rx. split; [exact Hr|]. split; rewrite Hf; vm_compute; reflexivity.
Defined.

(** The comment on the recompression says that after "FOO" is removed from "FOO"
    and "FOOBAR" the two nodes are joined; the node of the removed key is
    compressed, has more than one character and is left alone. *)
Example foo_not_joined :
  (rx_numnodes <$> foldC rax_apply [RaxPut (lit "FOO") (Some 1); RaxPut (lit "FOOBAR") (Some 2); RaxDel (lit "FOO")] raxNew) = Ok 3%Z ∧
  (rx_numnodes <$> foldC rax_apply [RaxPut (lit "FOOBAR") (Some 2)] raxNew) = Ok 2%Z.
Proof. split; vm_compute; reflexivity. Qed.
End Examples.
