(* ===== verification/RaxIter.v ===== *)
(** The iterator of the radix tree ([raxSeek], [raxNext]): it yields the keys of
    the map in the order of their bytes. *)

From stdpp Require Import sorting.
From S2P Require Import Prelude Rax RaxMap.

(** * The order of keys *)

(** [memcmp] on the common length, and the shorter key first. *)
Fixpoint key_le (a b : bytes) : bool :=
  match a, b with
  | [], _ => true
  | _ :: _, [] => false
  | x :: a, y :: b => ult x y || (bool_decide (x = y) && key_le a b)
  end.

Lemma key_le_app p a b : key_le (p ++ a) (p ++ b) = key_le a b.
Proof. induction p as [|x p IH]; cbn; [done|]. by rewrite ult_irrefl, bool_decide_eq_true_2, IH. Qed.

Lemma key_le_refl a : key_le a a = true.
Proof. induction a as [|x a IH]; cbn; [done|]. by rewrite bool_decide_eq_true_2, IH, orb_true_r. Qed.

Lemma key_le_extend a b : key_le a (a ++ b) = true.
Proof. rewrite <- (app_nil_r a) at 1. by rewrite key_le_app. Qed.

Lemma key_le_longer p a : p ≠ [] → key_le (a ++ p) a = false.
Proof. intros Hp. rewrite <- (app_nil_r a) at 2. rewrite key_le_app. by destruct p. Qed.

Lemma key_le_char x y a b : x ≠ y → key_le (x :: a) (y :: b) = ult x y.
Proof. intros Hne. cbn. rewrite bool_decide_eq_false_2 by done. by rewrite orb_false_r. Qed.

Section iter.
Context {V : Type}.
Abbreviation node := (raxNode V).
Abbreviation elem := (bytes * option V)%type.
Abbreviation sorted := (StronglySorted (λ a b : ascii, ult a b = true)).
Implicit Types (n h p c : node) (s t u : bytes) (d : option V) (ts : list (node * nat)) (rx : rax V) (l : list elem).

(** * The elements of a tree in order *)
Definition prefixed (q : bytes) (l : list elem) : list elem := prod_map (app q) id <$> l.

Lemma prefixed_nil l : prefixed [] l = l.
Proof. induction l as [|[k d] l IH]; cbn; [done|]. by f_equal. Qed.

Lemma prefixed_app (q : bytes) l l' : prefixed q (l ++ l') = prefixed q l ++ prefixed q l'.
Proof. apply fmap_app. Qed.

Lemma prefixed_prefixed (q r : bytes) l : prefixed q (prefixed r l) = prefixed (q ++ r) l.
Proof. unfold prefixed. rewrite <- list_fmap_compose. apply list_fmap_ext. intros i [k d] _. cbn. by rewrite app_assoc. Qed.

Definition own_elem n : list elem := if rn_iskey n then [([], raxGetData n)] else [].

Fixpoint elems n : list elem :=
  own_elem n ++
  (fix below_edges (i : nat) (l : list node) : list elem :=
     match l with [] => [] | c :: l => prefixed (label n i) (elems c) ++ below_edges (S i) l end) 0 (rn_children n).

(** The elements below the children from a position on. *)
Fixpoint below_from n (i : nat) (l : list node) : list elem :=
  match l with [] => [] | c :: l => prefixed (label n i) (elems c) ++ below_from n (S i) l end.
Definition below_edges n (i : nat) : list elem := below_from n i (drop i (rn_children n)).

Lemma elems_eq n : elems n = own_elem n ++ below_edges n 0.
Proof.
  destruct n as [k nl cp v cs a]. unfold below_edges. cbn [elems rn_children]. f_equal. change (drop 0 cs) with cs.
  generalize (RaxNode k nl cp v cs a). intros n. generalize 0.
  induction cs as [|c cs IH]; intros i; [done|]. cbn [below_from]. by rewrite IH.
Qed.

Lemma below_step n i c : rn_children n !! i = Some c → below_edges n i = prefixed (label n i) (elems c) ++ below_edges n (S i).
Proof. intros Hi. unfold below_edges. by rewrite (drop_S _ _ _ Hi). Qed.

Lemma below_end n i : length (rn_children n) ≤ i → below_edges n i = [].
Proof. intros Hi. unfold below_edges. by rewrite drop_ge. Qed.

(** The elements after a node: to the right of the way to it. *)
Fixpoint right ts : list elem :=
  match ts with [] => [] | (p, j) :: ts => prefixed (path ts) (below_edges p (S j)) ++ right ts end.

(** What a step from a node goes through. *)
Definition ahead n ts : list elem := prefixed (path ts) (below_edges n 0) ++ right ts.

Lemma ahead_child n i c ts :
  rn_children n !! i = Some c →
  prefixed (path ts) (below_edges n i) ++ right ts = prefixed (path ((n, i) :: ts)) (own_elem c) ++ ahead c ((n, i) :: ts).
Proof.
  intros Hi. rewrite (below_step _ _ _ Hi). unfold ahead. cbn [right path]. rewrite elems_eq, !prefixed_app, !prefixed_prefixed.
  by rewrite <- !app_assoc.
Qed.

(** ** Membership and order *)
Lemma below_from_elem n i (cs : list node) e :
  e ∈ below_from n i cs ↔ ∃ k c t d, cs !! k = Some c ∧ e = (label n (i + k) ++ t, d) ∧ (t, d) ∈ elems c.
Proof.
  revert i. induction cs as [|c cs IH]; intros i; cbn [below_from].
  { split; [by intros ?%not_elem_of_nil|]. by intros (k & c & t & d & Hk & _). }
  rewrite elem_of_app, IH. unfold prefixed. rewrite list_elem_of_fmap. split.
  - intros [([t d] & -> & Ht)|(k & c' & t & d & Hk & -> & Ht)].
    + exists 0, c, t, d. by rewrite Nat.add_0_r.
    + exists (S k), c', t, d. by rewrite Nat.add_succ_r.
  - intros ([|k] & c' & t & d & Hk & -> & Ht); cbn in Hk.
    + injection Hk as ->. left. exists (t, d). by rewrite Nat.add_0_r.
    + right. exists k, c', t, d. by rewrite Nat.add_succ_r.
Qed.

Lemma below_elem n i e :
  e ∈ below_edges n i ↔ ∃ k c t d, i ≤ k ∧ rn_children n !! k = Some c ∧ e = (label n k ++ t, d) ∧ (t, d) ∈ elems c.
Proof.
  unfold below_edges. rewrite below_from_elem. split.
  - intros (k & c & t & d & Hk & He). rewrite lookup_drop in Hk. exists (i + k), c, t, d. split; [lia|done].
  - intros (k & c & t & d & Hik & Hk & He). exists (k - i), c, t, d. rewrite lookup_drop. by replace (i + (k - i)) with k by lia.
Qed.

(** The elements are the bindings. *)
Lemma elems_get n s d : wf n → (s, d) ∈ elems n ↔ rax_get n s = Some d.
Proof.
  revert s d. induction n as [k nl cp v cs a IH] using raxNode_ind. intros s d Hw. set (n := RaxNode k nl cp v cs a) in *.
  rewrite elems_eq, elem_of_app, below_elem. pose proof Hw as [Hs Hc]%wf_iff. rewrite rax_get_eq. unfold own_elem, own. split.
  - intros [Hown|(j & c & t & d' & _ & Hj & He & Ht)].
    + destruct (rn_iskey n); [|by apply not_elem_of_nil in Hown]. apply list_elem_of_singleton in Hown. by injection Hown as -> ->.
    + injection He as -> ->. rewrite (branch_label _ _ _ _ Hs Hj). cbn. change cs with (rn_children n). rewrite Hj. cbn.
      pose proof (label_nonempty _ _ _ Hs Hj). destruct (label n j); [done|]. cbn. apply (Forall_lookup_1 _ _ _ _ IH Hj); [by eapply wf_child|done].
  - destruct s as [|x s].
    + destruct (rn_iskey n); [|done]. intros [= ->]. left. by apply list_elem_of_singleton.
    + destruct (branch n (x :: s)) as [[j t]|] eqn:Eb; cbn; [|done]. destruct (cs !! j) as [c|] eqn:Ej; cbn; [|done]. intros Hg. right.
      exists j, c, t, d. split; [lia|]. split; [done|]. split; [by rewrite (branch_Some _ _ _ _ Eb)|].
      apply (Forall_lookup_1 _ _ _ _ IH Ej); [by eapply wf_child|done].
Qed.

(** What a seek looks for: the keys from [e] on, or after it. *)
Definition beyond (strict : bool) (e k : bytes) : bool := key_le e k && negb (strict && bool_decide (e = k)).
Definition key_lt (a b : bytes) : bool := beyond true a b.
Definition keep (strict : bool) (e : bytes) l : list elem := filter (λ b, beyond strict e b.1 = true) l.

Lemma beyond_app strict (q e k : bytes) : beyond strict (q ++ e) (q ++ k) = beyond strict e k.
Proof. unfold beyond. rewrite key_le_app. do 3 f_equal. apply bool_decide_ext. naive_solver. Qed.

Lemma beyond_char strict x y (e k : bytes) : x ≠ y → beyond strict (x :: e) (y :: k) = ult x y.
Proof. intros Hne. unfold beyond. rewrite key_le_char by done. rewrite bool_decide_eq_false_2 by congruence. by rewrite andb_false_r, andb_true_r. Qed.

Lemma beyond_empty strict (e : bytes) : e ≠ [] → beyond strict e [] = false.
Proof. by destruct e. Qed.

Lemma keep_app strict e l l' : keep strict e (l ++ l') = keep strict e l ++ keep strict e l'.
Proof. apply filter_app. Qed.

Lemma keep_cons strict e b l : keep strict e (b :: l) = if beyond strict e b.1 then b :: keep strict e l else keep strict e l.
Proof. unfold keep. rewrite filter_cons. destruct (beyond strict e b.1) eqn:E; by case_decide. Qed.

Lemma keep_prefixed strict (q e : bytes) l : keep strict (q ++ e) (prefixed q l) = prefixed q (keep strict e l).
Proof.
  induction l as [|[k d] l IH]; [done|]. change (prefixed q ((k, d) :: l)) with ((q ++ k, d) :: prefixed q l). rewrite !keep_cons. cbn [fst].
  rewrite beyond_app, IH. by destruct (beyond strict e k).
Qed.

Lemma keep_every strict e l : (∀ b, b ∈ l → beyond strict e b.1 = true) → keep strict e l = l.
Proof. induction l as [|b l IH]; intros Hl; [done|]. rewrite keep_cons, (Hl b) by set_solver. f_equal. apply IH. set_solver. Qed.

Lemma keep_none strict e l : (∀ b, b ∈ l → beyond strict e b.1 = false) → keep strict e l = [].
Proof. induction l as [|b l IH]; intros Hl; [done|]. rewrite keep_cons, (Hl b) by set_solver. apply IH. set_solver. Qed.

Lemma keep_elem strict e b l : b ∈ keep strict e l ↔ b ∈ l ∧ beyond strict e b.1 = true.
Proof. unfold keep. rewrite list_elem_of_filter. tauto. Qed.

Lemma sorted_lt v i j a b : sorted v → v !! i = Some a → v !! j = Some b → i < j → ult a b = true.
Proof.
  intros Hs. revert i j. induction Hs as [|y v Hs IH Hall]; intros i j Hi Hj Hlt; [done|]. destruct j as [|j]; [lia|]. cbn in Hj.
  destruct i as [|i]; cbn in Hi; [|apply (IH i j); [done..|lia]]. injection Hi as <-. rewrite Forall_forall in Hall. apply Hall. by eapply list_elem_of_lookup_2.
Qed.

(** Two children of a node go different ways, in order. *)
Lemma labels_differ n i j c c' :
  shape n → rn_children n !! i = Some c → rn_children n !! j = Some c' → i < j →
  ∃ a b, label n i = [a] ∧ label n j = [b] ∧ ult a b = true.
Proof.
  intros Hs Hi Hj Hlt. pose proof (shape_lookup _ _ _ Hs Hi) as Ha. pose proof (shape_lookup _ _ _ Hs Hj) as Hb. unfold label, shape in *.
  destruct (rn_iscompr n); [lia|]. destruct Ha as [a Ha], Hb as [b Hb]. exists a, b. rewrite Ha, Hb. split_and!; [done..|]. eapply sorted_lt; [apply Hs|done..].
Qed.

Lemma ult_neq a b : ult a b = true → a ≠ b ∧ ult b a = false.
Proof.
  intros Hab. split; [intros ->; by rewrite ult_irrefl in Hab|]. destruct (ult b a) eqn:E; [|done].
  pose proof (ult_trans _ _ _ Hab E) as Haa. by rewrite ult_irrefl in Haa.
Qed.

Lemma below_split n j : j ≤ length (rn_children n) → below_edges n 0 = below_from n 0 (take j (rn_children n)) ++ below_edges n j.
Proof.
  intros Hj. unfold below_edges. change (drop 0 (rn_children n)) with (rn_children n). rewrite <- (take_drop j (rn_children n)) at 1.
  assert (Happ : ∀ i (l l' : list node), below_from n i (l ++ l') = below_from n i l ++ below_from n (i + length l) l').
  { intros i l. revert i. induction l as [|c l IH]; intros i l'; cbn [app below_from length]; [by rewrite Nat.add_0_r|].
    by rewrite IH, <- app_assoc, Nat.add_succ_r. }
  rewrite Happ. cbn [plus]. by rewrite length_take_le by done.
Qed.

(** The elements from a key on, where the key goes to a child. *)
Lemma keep_child strict n j c (u : bytes) :
  shape n → rn_children n !! j = Some c →
  keep strict (label n j ++ u) (elems n) = prefixed (label n j) (keep strict u (elems c)) ++ below_edges n (S j).
Proof.
  intros Hs Hj. pose proof (label_nonempty _ _ _ Hs Hj) as Hne.
  rewrite elems_eq, (below_split n j) by (by apply Nat.lt_le_incl, (lookup_lt_Some _ _ c)). rewrite (below_step _ _ _ Hj), !keep_app, keep_prefixed.
  rewrite (keep_none _ _ (own_elem n)), (keep_none _ _ (below_from _ _ _)), (keep_every _ _ (below_edges n (S j))); [done|..].
  - intros b (k & c' & t & d & Hk & Hc' & -> & _)%below_elem. destruct (labels_differ n j k c c' Hs Hj Hc') as (x & y & -> & -> & Hxy); [lia|].
    cbn [fst app]. rewrite beyond_char by (by apply ult_neq). done.
  - intros b (k & c' & t & d & Hk & -> & _)%below_from_elem. apply lookup_take_Some in Hk as [Hk Hkj].
    destruct (labels_differ n k j c' c Hs Hk Hj Hkj) as (y & x & Hy & -> & Hxy). cbn [plus]. rewrite Hy. cbn [fst app].
    apply ult_neq in Hxy as [Hn Hxy]. by rewrite beyond_char.
  - intros b Hb. unfold own_elem in Hb. destruct (rn_iskey n); [|by apply not_elem_of_nil in Hb]. apply list_elem_of_singleton in Hb as ->.
    apply beyond_empty. by destruct (label n j).
Qed.

(** ... and where it goes through the parents of a node. *)
Lemma keep_linked strict ts n root (u : bytes) :
  linked ts n root → wf root →
  keep strict (path ts ++ u) (elems root) = prefixed (path ts) (keep strict u (elems n)) ++ right ts.
Proof.
  intros Hl Hw. revert n u Hl. induction ts as [|[p j] ts IH]; intros n u; cbn [linked path right].
  - intros ->. by rewrite prefixed_nil, app_nil_r.
  - intros [Hj Hl]. rewrite <- app_assoc, (IH p _ Hl), (keep_child _ _ _ n); [|by apply wf_iff, (linked_wf _ _ _ Hl)|done].
    by rewrite prefixed_app, prefixed_prefixed, <- app_assoc.
Qed.

(** ... and at the node where a walk stops. *)
Lemma keep_own strict n e : e ≠ [] → keep strict e (own_elem n) = [].
Proof.
  intros He. apply keep_none. intros b Hb. unfold own_elem in Hb. destruct (rn_iskey n); [|by apply not_elem_of_nil in Hb].
  apply list_elem_of_singleton in Hb as ->. by apply beyond_empty.
Qed.

Lemma keep_at strict n : shape n → keep strict [] (elems n) = (if strict then [] else own_elem n) ++ below_edges n 0.
Proof.
  intros Hs. rewrite elems_eq, keep_app. f_equal.
  - destruct strict; [|by apply keep_every]. apply keep_none. intros b Hb. unfold own_elem in Hb.
    destruct (rn_iskey n); [|by apply not_elem_of_nil in Hb]. by apply list_elem_of_singleton in Hb as ->.
  - apply keep_every. intros b (k & c & t & d & _ & Hk & -> & _)%below_elem. pose proof (label_nonempty _ _ _ Hs Hk) as Hne. unfold beyond. cbn [key_le fst andb].
    destruct (label n k); [done|]. by rewrite andb_comm.
Qed.

Lemma next_edge_lt v x i : next_edge v x = Some i → i < length v.
Proof.
  revert i. induction v as [|y v IH]; intros i; cbn; [done|]. destruct (ult x y); [intros [= <-]; lia|].
  destruct (next_edge v x) as [k|]; cbn; [|done]. intros [= <-]. specialize (IH k eq_refl). lia.
Qed.

Lemma next_edge_spec v x : sorted v → x ∉ v →
  match next_edge v x with
  | Some i => ∀ k y, v !! k = Some y → ult x y = (i <=? k)
  | None => ∀ k y, v !! k = Some y → ult x y = false
  end.
Proof.
  intros Hs. induction Hs as [|y v Hs IH Hall]; cbn [next_edge]; [done|]. intros [Hne Hx]%not_elem_of_cons. specialize (IH Hx).
  destruct (ult x y) eqn:E.
  - intros [|k] z Hz; cbn in Hz; [by injection Hz as <-|]. rewrite Forall_forall in Hall. eapply ult_trans; [exact E|]. apply Hall. by eapply list_elem_of_lookup_2.
  - destruct (next_edge v x) as [i|]; cbn [fmap option_fmap option_map]; intros [|k] z Hz; cbn in Hz; try (by injection Hz as <-); by apply (IH k).
Qed.

Lemma keep_edge strict n x s :
  shape n → rn_iscompr n = false → edge (rn_data n) x = None →
  keep strict (x :: s) (elems n) = match next_edge (rn_data n) x with Some i => below_edges n i | None => [] end.
Proof.
  intros Hs Hc Hx%edge_None. pose proof Hs as Hs'. unfold shape, size in Hs'. rewrite Hc in Hs'. destruct Hs' as [Hsort Hlen].
  assert (Hlab : ∀ k c, rn_children n !! k = Some c → ∃ y, rn_data n !! k = Some y ∧ label n k = [y] ∧ x ≠ y).
  { intros k c Hk. pose proof (shape_lookup _ _ _ Hs Hk) as Hy. rewrite Hc in Hy. destruct Hy as [y Hy]. exists y. unfold label. rewrite Hc, Hy.
    split_and!; [done..|]. intros ->. apply Hx. by eapply list_elem_of_lookup_2. }
  pose proof (next_edge_spec _ _ Hsort Hx) as Hn. rewrite elems_eq, keep_app, keep_own by done. cbn [app].
  destruct (next_edge (rn_data n) x) as [i|] eqn:E.
  - rewrite (below_split n i), keep_app by (rewrite Hlen; by apply Nat.lt_le_incl, (next_edge_lt _ x)). rewrite keep_none, keep_every; [done|..].
    + intros b (k & c & t & d & Hik & Hk & -> & _)%below_elem. destruct (Hlab _ _ Hk) as (y & Hy & -> & Hne). cbn [fst app]. rewrite beyond_char by done.
      rewrite (Hn _ _ Hy). by apply Nat.leb_le.
    + intros b (k & c & t & d & Hk & -> & _)%below_from_elem. apply lookup_take_Some in Hk as [Hk Hki]. destruct (Hlab _ _ Hk) as (y & Hy & Hl & Hne).
      cbn [plus]. rewrite Hl. cbn [fst app]. rewrite beyond_char by done. rewrite (Hn _ _ Hy). by apply Nat.leb_gt.
  - apply keep_none. intros b (k & c & t & d & _ & Hk & -> & _)%below_elem. destruct (Hlab _ _ Hk) as (y & Hy & -> & Hne).
    cbn [fst app]. rewrite beyond_char by done. by apply (Hn k).
Qed.

Lemma keep_mismatch strict n j y (v : bytes) x s :
  shape n → rn_iscompr n = true → drop j (rn_data n) = y :: v → y ≠ x →
  keep strict (take j (rn_data n) ++ x :: s) (elems n) = if ult x y then below_edges n 0 else [].
Proof.
  intros Hs Hc Hd Hne. rewrite elems_eq, keep_app, keep_own by (by destruct (take j (rn_data n))). cbn [app].
  assert (Hb : ∀ b, b ∈ below_edges n 0 → beyond strict (take j (rn_data n) ++ x :: s) b.1 = ult x y).
  { intros b (k & c & t & d & _ & Hk & -> & _)%below_elem. unfold label. rewrite Hc. cbn [fst]. rewrite <- (take_drop j (rn_data n)) at 2.
    rewrite Hd, <- app_assoc, beyond_app. cbn [app]. by rewrite beyond_char. }
  destruct (ult x y); [by apply keep_every|by apply keep_none].
Qed.

Lemma keep_inside strict n j :
  shape n → rn_iscompr n = true → 0 < j < size n → keep strict (take j (rn_data n)) (elems n) = below_edges n 0.
Proof.
  unfold size. intros Hs Hc Hj. assert (Hd : drop j (rn_data n) ≠ []) by (intros Hd%(f_equal length); rewrite length_drop in Hd; cbn in Hd; lia).
  assert (Ht : take j (rn_data n) ≠ []) by (intros Ht%(f_equal length); rewrite length_take in Ht; cbn in Ht; lia).
  rewrite elems_eq, keep_app, keep_own by done. cbn [app]. apply keep_every. intros b (k & c & t & d & _ & Hk & -> & _)%below_elem. unfold label. rewrite Hc. cbn [fst].
  rewrite <- (take_drop j (rn_data n)) at 2. rewrite <- (app_nil_r (take j (rn_data n))) at 1. rewrite <- app_assoc, beyond_app.
  unfold beyond. cbn [key_le andb]. destruct (drop j (rn_data n)); [done|]. cbn. by rewrite andb_comm.
Qed.

(** ... in the order of the keys. *)
Abbreviation in_order := (StronglySorted (λ a b : elem, key_lt a.1 b.1 = true)).

Lemma prefixed_order (q : bytes) l : in_order l → in_order (prefixed q l).
Proof. intros Hl. eapply StronglySorted_fmap; [|exact Hl]. intros [a d] [b d'] Hab. cbn [prod_map fst] in *. unfold key_lt. by rewrite beyond_app. Qed.

Lemma below_order n i : shape n → Forall (λ c, in_order (elems c)) (rn_children n) → in_order (below_edges n i).
Proof.
  intros Hs Hc. remember (length (rn_children n) - i) as k eqn:Ek. revert i Ek. induction k as [|k IH]; intros i Ek.
  { rewrite below_end by lia. constructor. }
  destruct (rn_children n !! i) as [c|] eqn:Hi; [|apply lookup_ge_None in Hi; lia]. rewrite (below_step _ _ _ Hi).
  apply StronglySorted_app_2; [|by apply prefixed_order, (Forall_lookup_1 _ _ _ _ Hc Hi)|by apply IH; lia].
  intros b b' Hb (k' & c' & t & d & Hk & Hk' & -> & _)%below_elem. unfold prefixed in Hb. apply list_elem_of_fmap in Hb as ([u d'] & -> & _).
  destruct (labels_differ n i k' c c' Hs Hi Hk') as (x & y & -> & -> & Hxy); [lia|]. cbn [prod_map fst app]. unfold key_lt.
  rewrite beyond_char by (by apply ult_neq). done.
Qed.

Lemma elems_order n : wf n → in_order (elems n).
Proof.
  induction n as [k nl cp v cs a IH] using raxNode_ind. intros Hw. set (n := RaxNode k nl cp v cs a) in *. pose proof Hw as [Hs Hc]%wf_iff.
  rewrite elems_eq. assert (Hb : in_order (below_edges n 0)).
  { apply below_order; [done|]. apply Forall_lookup_2. intros i c Hi. apply (Forall_lookup_1 _ _ _ _ IH Hi). by eapply wf_child. }
  unfold own_elem. destruct (rn_iskey n); [|done]. cbn [app]. apply StronglySorted_cons. split; [|done]. apply Forall_forall.
  intros b (j & c & t & d & _ & Hj & -> & _)%below_elem. pose proof (label_nonempty _ _ _ Hs Hj). unfold key_lt, beyond. cbn [fst key_le andb].
  by destruct (label n j).
Qed.

Lemma keep_order strict e l : in_order l → in_order (keep strict e l).
Proof.
  induction 1 as [|b l Hl IH Hb]; [constructor|]. rewrite keep_cons. destruct (beyond strict e b.1); [|done]. constructor; [done|].
  apply Forall_forall. intros b' [Hb' _]%keep_elem. rewrite Forall_forall in Hb. by apply Hb.
Qed.

(** * The step to the next element *)

(** The loop ends at the first of the elements, with the others ahead. *)
Definition arrives (root : node) (r : option (node * bytes * list (node * nat))) l : Prop :=
  match l with
  | [] => r = None
  | (k, d) :: l => ∃ n ts, r = Some (n, k, ts) ∧ linked ts n root ∧ path ts = k ∧ own n = Some d ∧ ahead n ts = l
  end.

(** How often the loop can still go up and down. *)
Fixpoint work_up ts : Z :=
  match ts with [] => 0 | (p, j) :: ts => 1 + 2 * count_list (drop (S j) (rn_children p)) + work_up ts end.

Lemma count_pos n : (1 ≤ raxRecursiveFree n)%Z.
Proof.
  induction n as [k nl cp v l a IH]. rewrite count_eq. cbn [rn_children]. assert (0 ≤ count_list l)%Z; [|lia].
  induction IH; cbn [count_list]; lia.
Qed.

Lemma count_list_pos (l : list node) : (0 ≤ count_list l)%Z.
Proof. induction l as [|c l IH]; cbn; [done|]. pose proof (count_pos c). lia. Qed.

Lemma count_drop (l : list node) i c : l !! i = Some c → count_list (drop i l) = (raxRecursiveFree c + count_list (drop (S i) l))%Z.
Proof. intros Hi. by rewrite (drop_S _ _ _ Hi). Qed.

Lemma count_children_drop n i c : rn_children n !! i = Some c → (raxRecursiveFree c + count_list (drop (S i) (rn_children n)) ≤ raxRecursiveFree n - 1)%Z.
Proof.
  intros Hi. rewrite (count_eq n). pose proof (count_list_app (take i (rn_children n)) (drop i (rn_children n))) as Hc.
  rewrite take_drop, (count_drop _ _ _ Hi) in Hc. pose proof (count_list_pos (take i (rn_children n))). lia.
Qed.

Lemma work_linked ts n root : linked ts n root → (2 * raxRecursiveFree n + work_up ts ≤ 2 * raxRecursiveFree root)%Z.
Proof.
  revert n. induction ts as [|[p j] ts IH]; intros n; cbn [linked work_up]; [intros ->; lia|]. intros [Hj Hl].
  specialize (IH p Hl). pose proof (count_children_drop _ _ _ Hj). lia.
Qed.

Lemma work_up_pos ts : (0 ≤ work_up ts)%Z.
Proof. induction ts as [|[p j] ts IH]; cbn [work_up]; [done|]. pose proof (count_list_pos (drop (S j) (rn_children p))). lia. Qed.

(** The test for children, and the characters to the first one. *)
Lemma no_children n : shape n → rn_children n = [] → ((if rn_iscompr n then 1 else size n) =? 0) = true.
Proof. unfold shape. intros Hs Hc. rewrite Hc in Hs. cbn in Hs. destruct (rn_iscompr n); [lia|]. destruct Hs as [_ <-]. done. Qed.

Lemma some_children n j c : shape n → rn_children n !! j = Some c → ((if rn_iscompr n then 1 else size n) =? 0) = false.
Proof. unfold shape. intros Hs Hc%lookup_lt_Some. destruct (rn_iscompr n); [done|]. apply Nat.eqb_neq. lia. Qed.

Lemma first_label n c : shape n → rn_children n !! 0 = Some c → take (step_chars n) (rn_data n) = label n 0.
Proof.
  intros Hs Hc. pose proof (shape_lookup _ _ _ Hs Hc) as Hl. unfold step_chars, label. destruct (rn_iscompr n); [by rewrite take_ge|].
  destruct Hl as [x Hx]. destruct (rn_data n) as [|y v]; [done|]. by injection Hx as ->.
Qed.

Lemma next_edge_sorted v j x : sorted v → v !! j = Some x → next_edge v x = if (S j <? length v) then Some (S j) else None.
Proof.
  intros Hs. revert j. induction Hs as [|y v Hs IH Hall]; intros j Hj; [done|]. cbn [next_edge]. destruct j as [|j]; cbn in Hj.
  - injection Hj as ->. rewrite ult_irrefl. destruct Hall as [|z v Hz _]; [done|]. cbn. by rewrite Hz.
  - rewrite (IH j Hj). rewrite Forall_forall in Hall. specialize (Hall x ltac:(by eapply list_elem_of_lookup_2)).
    assert (ult x y = false) as -> by (destruct (ult x y) eqn:E; [|done]; pose proof (ult_trans _ _ _ E Hall) as Hxx; by rewrite ult_irrefl in Hxx).
    cbn [length]. change (S (S j) <? S (length v)) with (S j <? length v). by destruct (S j <? length v).
Qed.

Lemma del_label ts p j c : shape p → rn_children p !! j = Some c → del_chars (path ts ++ label p j) (step_chars p) = Ok (path ts).
Proof.
  intros Hs Hj. unfold del_chars. rewrite length_app, (label_length _ _ _ Hs Hj). rewrite (proj2 (Nat.leb_le _ _)) by lia.
  f_equal. by rewrite Nat.add_sub, take_app_length.
Qed.

Lemma last_label (q : bytes) p j c : shape p → rn_children p !! j = Some c →
  ∃ x, last_char (q ++ label p j) = Ok x ∧ (rn_iscompr p = false → rn_data p !! j = Some x).
Proof.
  intros Hs Hj. pose proof (label_nonempty _ _ _ Hs Hj) as Hne. unfold last_char. rewrite last_app.
  destruct (last (label p j)) as [x|] eqn:E; [|by apply last_None in E]. exists x. split; [done|]. intros Hc. unfold label in E. rewrite Hc in E.
  destruct (rn_data p !! j); [|done]. by injection E as ->.
Qed.

(** The next edge after the one a step came from. *)
Lemma next_sibling p j c x k :
  shape p → rn_children p !! j = Some c → (rn_iscompr p = false → rn_data p !! j = Some x) → k ≤ 1 →
  (if negb (rn_iscompr p) && (k <? size p) then next_edge (rn_data p) x else None)
  = if S j <? length (rn_children p) then Some (S j) else None.
Proof.
  unfold shape, size. intros Hs Hj Hx Hk. pose proof (lookup_lt_Some _ _ _ Hj) as Hlt. destruct (rn_iscompr p); cbn [negb andb].
  - rewrite (proj2 (Nat.ltb_ge _ _)) by lia. done.
  - destruct Hs as [Hs Hl]. rewrite (next_edge_sorted _ _ _ Hs (Hx eq_refl)), Hl.
    destruct (k <? length (rn_data p)) eqn:E1; [done|]. apply Nat.ltb_ge in E1. by rewrite (proj2 (Nat.ltb_ge _ _)) by lia.
Qed.

Section steps.
Context (root : node) (Hroot : wf root).

Definition goes_deeper (fuel : nat) : Prop := ∀ n ts,
  linked ts n root → (2 * raxRecursiveFree n - 1 + work_up ts ≤ Z.of_nat fuel)%Z →
  ∃ r, next_loop fuel false false n (path ts) ts = Ok r ∧ arrives root r (ahead n ts).

Definition goes_up (fuel : nat) : Prop := ∀ n ts,
  linked ts n root → (work_up ts + 1 ≤ Z.of_nat fuel)%Z →
  ∃ r, next_loop fuel false true n (path ts) ts = Ok r ∧ arrives root r (right ts).

Lemma enter_child fuel n i c ts :
  goes_deeper fuel → linked ts n root → rn_children n !! i = Some c →
  (2 * count_list (drop i (rn_children n)) + work_up ts ≤ Z.of_nat fuel)%Z →
  ∃ r, (if rn_iskey c then Ok (Some (c, path ts ++ label n i, (n, i) :: ts))
        else next_loop fuel false false c (path ts ++ label n i) ((n, i) :: ts)) = Ok r ∧
    arrives root r (prefixed (path ts) (below_edges n i) ++ right ts).
Proof.
  intros IH Hl Hi Hf. rewrite (ahead_child _ _ _ _ Hi). unfold own_elem. assert (Hlc : linked ((n, i) :: ts) c root) by done.
  destruct (rn_iskey c) eqn:Ek.
  - eexists. split; [done|]. cbn [prefixed fmap list_fmap app arrives prod_map fst snd]. exists c, ((n, i) :: ts). rewrite app_nil_r.
    split_and!; try done. unfold own. by rewrite Ek.
  - cbn [prefixed fmap list_fmap app]. apply (IH c ((n, i) :: ts)); [done|]. cbn [work_up]. rewrite (count_drop _ _ _ Hi) in Hf. lia.
Qed.

(** The inner loop at a node whose parent it goes to. *)
Lemma up_step fuel (up : bool) n p j ts :
  goes_deeper fuel → goes_up fuel → linked ((p, j) :: ts) n root → (work_up ((p, j) :: ts) ≤ Z.of_nat fuel)%Z →
  up = true ∨ rn_children n = [] →
  ∃ r, next_loop (S fuel) false up n (path ((p, j) :: ts)) ((p, j) :: ts) = Ok r ∧ arrives root r (right ((p, j) :: ts)).
Proof.
  intros Hdeep Hup [Hj Hl] Hf Hdown. assert (Hp : shape p) by (by apply wf_iff, (linked_wf _ _ _ Hl)).
  assert (Hn : shape n) by (apply wf_iff, (linked_wf ((p, j) :: ts) n root); done).
  cbn [next_loop]. assert (negb up && negb false && negb ((if rn_iscompr n then 1 else size n) =? 0) = false) as ->.
  { destruct Hdown as [->|Hc]; [done|]. by rewrite (no_children _ Hn Hc), andb_false_r. }
  destruct (last_label (path ts) p j n Hp Hj) as (x & Hx & Hxj). cbn [path]. rewrite Hx. cbn [mbind cres_bind].
  rewrite (del_label ts p j n Hp Hj). cbn [mbind cres_bind]. rewrite (next_sibling p j n x 1 Hp Hj Hxj) by lia. cbn [right work_up] in *.
  destruct (S j <? length (rn_children p)) eqn:E.
  - apply Nat.ltb_lt, lookup_lt_is_Some in E as [c Hc]. unfold child_at. rewrite (arr_get_ok _ _ _ Hc). cbn [mbind cres_bind].
    apply enter_child; [done..|]. lia.
  - apply Nat.ltb_ge in E. rewrite (below_end _ _ E). cbn [prefixed fmap list_fmap app]. apply Hup; [done|]. pose proof (count_list_pos (drop (S j) (rn_children p))). lia.
Qed.

Lemma next_loop_spec fuel : goes_deeper fuel ∧ goes_up fuel.
Proof.
  induction fuel as [|fuel [Hdeep Hup]].
  { split; intros n ts Hl Hf; pose proof (work_up_pos ts); pose proof (count_pos n); lia. }
  split; intros n ts Hl Hf.
  2:{ destruct ts as [|[p j] ts]; [by exists None|]. apply up_step; [done..|lia|by left]. }
  pose proof (linked_wf _ _ _ Hl Hroot) as [Hs _]%wf_iff. unfold ahead. rewrite (count_eq n) in Hf.
  destruct (rn_children n) as [|c l] eqn:Ec.
  - rewrite below_end by (rewrite Ec; done). cbn [count_list prefixed fmap list_fmap app] in *. destruct ts as [|[p j] ts].
    + exists None. split; [|done]. cbn [next_loop]. by rewrite (no_children _ Hs Ec).
    + apply up_step; [done..|lia|by right].
  - assert (Hc : rn_children n !! 0 = Some c) by (by rewrite Ec). cbn [next_loop]. rewrite (some_children _ _ _ Hs Hc).
    rewrite (first_label _ _ Hs Hc). unfold child_at. rewrite (arr_get_ok _ _ _ Hc). cbn [mbind cres_bind negb andb].
    apply enter_child; [done..|]. rewrite Ec. change (drop 0 (c :: l)) with (c :: l). lia.
Qed.

(** The first step of a seek that stopped at a node: the element goes on with
    [x], and the scan starts with the edges of the node. *)
Lemma noup_plain fuel n ts x :
  linked ts n root → rn_iscompr n = false → (2 * raxRecursiveFree n - 1 + work_up ts ≤ Z.of_nat fuel)%Z →
  ∃ r, next_loop (S fuel) true false n (path ts ++ [x]) ts = Ok r ∧
    arrives root r (match next_edge (rn_data n) x with Some i => prefixed (path ts) (below_edges n i) | None => [] end ++ right ts).
Proof.
  intros Hl Hc Hf. pose proof (linked_wf _ _ _ Hl Hroot) as [Hs _]%wf_iff. unfold shape in Hs. rewrite Hc in Hs. destruct Hs as [_ Hs].
  destruct (next_loop_spec fuel) as [Hdeep Hup]. pose proof (count_pos n). cbn [next_loop andb negb].
  unfold last_char, del_chars, step_chars. rewrite Hc, last_snoc, length_app. cbn [mbind cres_bind length negb andb].
  rewrite (proj2 (Nat.leb_le _ _)), Nat.add_sub, take_app_length by lia. cbn [mbind cres_bind].
  assert ((if 0 <? size n then next_edge (rn_data n) x else None) = next_edge (rn_data n) x) as ->.
  { unfold size. by destruct (rn_data n). }
  destruct (next_edge (rn_data n) x) as [i|] eqn:E; [|cbn [app]; apply Hup; [done|lia]].
  assert (is_Some (rn_children n !! i)) as [c Hi].
  { apply lookup_lt_is_Some. rewrite Hs. by eapply next_edge_lt. }
  unfold child_at. rewrite (arr_get_ok _ _ _ Hi). cbn [mbind cres_bind]. apply enter_child; [done..|].
  pose proof (count_children_drop _ _ _ Hi). rewrite (count_drop _ _ _ Hi). lia.
Qed.

(** The seek stopped in a compressed node that comes before the element. *)
Lemma noup_compressed fuel n ts :
  linked ts n root → rn_iscompr n = true → (work_up ts + 1 ≤ Z.of_nat fuel)%Z →
  ∃ r, next_loop (S fuel) true false n (path ts ++ rn_data n) ts = Ok r ∧ arrives root r (right ts).
Proof.
  intros Hl Hc Hf. pose proof (linked_wf _ _ _ Hl Hroot) as [Hs _]%wf_iff. unfold shape in Hs. rewrite Hc in Hs. destruct Hs as [Hsize Hs].
  destruct (next_loop_spec fuel) as [Hdeep Hup]. cbn [next_loop andb negb].
  unfold last_char, del_chars, step_chars. rewrite Hc, last_app, length_app. unfold size in *.
  destruct (last (rn_data n)) as [x|] eqn:E; [|apply last_None in E; rewrite E in Hsize; cbn in Hsize; lia]. cbn [mbind cres_bind negb andb].
  rewrite (proj2 (Nat.leb_le _ _)), Nat.add_sub, take_app_length by lia. cbn [mbind cres_bind]. by apply Hup.
Qed.
End steps.

(** * The iterator *)

(** The elements that an iterator will yield: none at the end; the current one
    first after a seek; those after the current node otherwise. *)
Definition positioned (it : raxIterator) n ts : Prop :=
  it_node it = Some n ∧ it_stack it = ts ∧ it_key it = path ts ∧ linked ts n (rx_head (it_rt it)).

Inductive upcoming (it : raxIterator) : list elem → Prop :=
  | upcoming_eof : it_eof it = true → upcoming it []
  | upcoming_seeked n ts :
      it_eof it = false → it_just_seeked it = true → positioned it n ts → own n = Some (it_data it) →
      upcoming it ((path ts, it_data it) :: ahead n ts)
  | upcoming_at n ts : it_eof it = false → it_just_seeked it = false → positioned it n ts → upcoming it (ahead n ts).

Lemma iter_fuel_enough rx ts n :
  linked ts n (rx_head rx) → ∃ fuel, iter_fuel rx = S fuel ∧ (2 * raxRecursiveFree n + work_up ts ≤ Z.of_nat fuel)%Z.
Proof.
  intros Hl. pose proof (work_linked _ _ _ Hl). pose proof (count_pos (rx_head rx)). unfold iter_fuel.
  exists (Z.to_nat (2 * raxRecursiveFree (rx_head rx) + 1)). lia.
Qed.

Lemma own_data n d : own n = Some d → raxGetData n = d.
Proof. unfold own. destruct (rn_iskey n); [by intros [= ->]|done]. Qed.

(** A call of [raxNext] yields the first of the elements, or ends. *)
Lemma raxNext_spec it l :
  wf (rx_head (it_rt it)) → upcoming it l →
  ∃ it', it_rt it' = it_rt it ∧
    match l with
    | [] => raxNext it = Ok (false, it')
    | (k, d) :: l => raxNext it = Ok (true, it') ∧ it_key it' = k ∧ it_data it' = d ∧ upcoming it' l
    end.
Proof.
  intros Hw [He|n ts He Hj Hp Hown|n ts He Hj (Hn & Hts & Hk & Hl)]; unfold raxNext, raxIteratorNextStep, iterator_step; rewrite He.
  - by exists it.
  - rewrite Hj. cbn [mbind cres_bind it_eof set_flags negb andb]. exists (set_flags it false false). split; [done|cbn beta iota]. destruct Hp as (Hn & Hts & Hk & Hl).
    split_and!; [done|done|done|]. by apply upcoming_at.
  - rewrite Hj, Hn, Hts, Hk. cbn [deref mbind cres_bind].
    destruct (iter_fuel_enough _ _ _ Hl) as (fuel & -> & Hf). pose proof (count_pos n).
    destruct (proj1 (next_loop_spec (rx_head (it_rt it)) Hw (S fuel)) n ts Hl) as (r & -> & Har); [lia|]. cbn [mbind cres_bind].
    destruct (ahead n ts) as [|[k d] l']; cbn [arrives] in Har.
    + subst r. by exists (set_flags it false true).
    + destruct Har as (n' & ts' & -> & Hl' & Hk' & Hown & <-). cbn [mbind cres_bind it_eof set_position]. rewrite He. cbn [negb andb].
      exists (set_position it n' k ts' (raxGetData n')). split; [done|cbn beta iota].
      split_and!; [done|done|by apply own_data|]. by apply upcoming_at.
Qed.

(** A seek ends with a step, after which the iterator has arrived. *)
Lemma seek_step it noup n key ts l :
  (∃ r, next_loop (iter_fuel (it_rt it)) noup false n key ts = Ok r ∧ arrives (rx_head (it_rt it)) r l) →
  ∃ it', ('(ok, it) ← raxIteratorNextStep (set_flags (set_position it n key ts (it_data it)) false false) noup;
          Ok (ok : bool, if ok then set_flags it true (it_eof it) else it)) = Ok (true, it') ∧
    it_rt it' = it_rt it ∧ upcoming it' l.
Proof.
  intros (r & Hr & Har). unfold raxIteratorNextStep, iterator_step. cbn [it_eof it_just_seeked it_node it_rt it_key it_stack set_flags set_position deref mbind cres_bind].
  rewrite Hr. cbn [mbind cres_bind]. eexists. split; [done|]. destruct l as [|[k d] l]; cbn [arrives] in Har.
  - subst r. split; [done|]. by apply upcoming_eof.
  - destruct Har as (n' & ts' & -> & Hl' & <- & Hown & <-). split; [done|]. rewrite <- (own_data _ _ Hown). apply upcoming_seeked; [done..|].
    cbn [it_data set_flags set_position]. by rewrite (own_data _ _ Hown).
Qed.

(** Where a walk stopped, what is beyond the element is ahead. *)
Definition stop_ahead strict (w : walk) : list elem :=
  let n := wk_node w in let ts := wk_stack w in
  match wk_rest w with
  | [] => (if strict || negb (wk_splitpos w =? 0) then [] else prefixed (path ts) (own_elem n)) ++ ahead n ts
  | x :: _ =>
      if rn_iscompr n then
        match drop (wk_splitpos w) (rn_data n) with y :: _ => if ult x y then ahead n ts else right ts | [] => [] end
      else match next_edge (rn_data n) x with Some i => prefixed (path ts) (below_edges n i) | None => [] end ++ right ts
  end.

Lemma keep_stop strict w root s :
  wf root → linked (wk_stack w) (wk_node w) root → s = path (wk_stack w) ++ take (wk_splitpos w) (rn_data (wk_node w)) ++ wk_rest w →
  stopped (wk_node w) (wk_splitpos w) (wk_rest w) → keep strict s (elems root) = stop_ahead strict w.
Proof.
  destruct w as [rest n j ts]. unfold stop_ahead. cbn. intros Hw Hl -> Hst. rewrite (keep_linked _ _ _ _ _ Hl Hw).
  pose proof (linked_wf _ _ _ Hl Hw) as [Hs _]%wf_iff. destruct Hst as [|x s Hc He|y v x s j Hc Hd Hne|j Hc Hj]; unfold ahead.
  - rewrite take_0. cbn [app Nat.eqb negb]. rewrite keep_at, prefixed_app, <- app_assoc, orb_false_r by done. by destruct strict.
  - rewrite take_0. cbn [app]. rewrite Hc, keep_edge by done. by destruct (next_edge (rn_data n) x).
  - rewrite Hc, Hd, (keep_mismatch _ _ _ y v) by done. by destruct (ult x y).
  - rewrite app_nil_r, keep_inside by done. rewrite (proj2 (Nat.eqb_neq _ _)) by lia. by rewrite orb_true_r.
Qed.

Lemma seek_gt_spec it (eq : bool) ele :
  wf (rx_head (it_rt it)) →
  ∃ it', seek_element it eq false true ele = Ok (true, it') ∧ it_rt it' = it_rt it ∧ upcoming it' (keep (negb eq) ele (elems (rx_head (it_rt it)))).
Proof.
  intros Hw. unfold seek_element. destruct (raxLowWalk_spec (it_rt it) ele Hw) as (w & -> & Hl & Hn & Hp & Hst). cbn [mbind cres_bind].
  rewrite (keep_stop _ w _ _ Hw Hl Hp Hst). destruct (iter_fuel_enough _ _ _ Hl) as (fuel & Hfuel & Hf).
  pose proof (count_pos (wk_node w)) as Hcnt. destruct (next_loop_spec (rx_head (it_rt it)) Hw (S fuel)) as [Hdeep _].
  destruct (eq && at_key w && rn_iskey (wk_node w)) eqn:Eeq.
  { apply andb_prop in Eeq as [[Heq Hk]%andb_prop Hkey]. destruct (at_key_stopped w Hst Hk) as [Hr Hj]. rewrite Hr, Hj, take_0 in Hp. cbn [app] in Hp.
    rewrite app_nil_r in Hp. eexists. split; [done|]. split; [done|]. unfold stop_ahead, own_elem. rewrite Hr, Hj, Hkey, Heq.
    cbn [negb orb Nat.eqb prefixed fmap list_fmap prod_map app id]. rewrite app_nil_r. apply upcoming_seeked; [done..| |].
    - by split_and!.
    - unfold own. by rewrite Hkey. }
  destruct w as [rest n j ts]. cbn [wk_node wk_rest wk_splitpos wk_stack orb] in *. unfold stop_ahead. cbn [wk_node wk_rest wk_splitpos wk_stack].
  destruct Hst as [|x s Hc He|y v x s j Hc Hd Hne|j Hc Hj].
  - rewrite app_nil_r in *. apply seek_step. rewrite Hfuel.
    assert ((if negb eq || negb (0 =? 0) then [] else prefixed (path ts) (own_elem n)) = []) as ->.
    { unfold own_elem. destruct eq; cbn; [|done]. cbn in Eeq. rewrite orb_true_r in Eeq. cbn in Eeq. by rewrite Eeq. }
    apply Hdeep; [done|lia].
  - rewrite Hc. cbn [negb]. apply seek_step. rewrite Hfuel. apply noup_plain; [done..|lia].
  - rewrite Hc. cbn [negb]. rewrite (arr_get_ok _ _ y) by (by rewrite <- (Nat.add_0_r j), <- lookup_drop, Hd). cbn [mbind cres_bind]. rewrite Hd.
    destruct (ult x y); apply seek_step; rewrite Hfuel; [rewrite app_nil_r; apply Hdeep; [done|lia]|apply noup_compressed; [done..|lia]].
  - apply seek_step. rewrite app_nil_r, Hfuel, (proj2 (Nat.eqb_neq _ _)) by lia. cbn [negb]. rewrite orb_true_r. apply Hdeep; [done|lia].
Qed.

(** ** The loop over an iterator *)

(** What a forward seek looks for: the first key from an element on, or after it. *)
Definition seek_forward (op ele : bytes) : option (bool * bytes) :=
  if bool_decide (op = lit "^") then Some (false, [])
  else if bool_decide (op = lit ">=") then Some (false, ele)
  else if bool_decide (op = lit ">") then Some (true, ele)
  else None.

Lemma raxSeek_forward it op ele strict e :
  wf (rx_head (it_rt it)) → (rx_numele (it_rt it) = 0%Z → elems (rx_head (it_rt it)) = []) → seek_forward op ele = Some (strict, e) →
  ∃ it', raxSeek it op ele = Ok (true, it') ∧ it_rt it' = it_rt it ∧ upcoming it' (keep strict e (elems (rx_head (it_rt it)))).
Proof.
  intros Hw H0 Hop. set (it0 := RaxIterator true false (it_rt it) [] (it_data it) None []).
  assert (raxSeek it op ele = if (rx_numele (it_rt it) =? 0)%Z then Ok (true, set_flags it0 true true) else seek_element it0 (negb strict) false true e) as ->.
  { unfold seek_forward in Hop. case_bool_decide; [|case_bool_decide; [|case_bool_decide; [|done]]]; subst op; by injection Hop as <- <-. }
  destruct (rx_numele (it_rt it) =? 0)%Z eqn:E.
  - apply Z.eqb_eq in E. rewrite (H0 E). eexists. split; [done|]. split; [done|]. by apply upcoming_eof.
  - pose proof (seek_gt_spec it0 (negb strict) e Hw) as Hs. by rewrite negb_involutive in Hs.
Qed.

(** [while (raxNext (&it)) ...] *)
Fixpoint rax_drain (fuel : nat) (it : raxIterator) : cres (list elem) :=
  match fuel with
  | O => Fault Diverges
  | S fuel =>
      '(ok, it) ← raxNext it;
      if ok : bool then l ← rax_drain fuel it; Ok ((it_key it, it_data it) :: l) else Ok []
  end.

Lemma rax_drain_spec fuel it l : wf (rx_head (it_rt it)) → upcoming it l → length l < fuel → rax_drain fuel it = Ok l.
Proof.
  revert it l. induction fuel as [|fuel IH]; intros it l Hw Hu Hf; [lia|]. cbn [rax_drain].
  destruct (raxNext_spec it l Hw Hu) as (it' & Hrt & Hn). destruct l as [|[k d] l]; [by rewrite Hn|].
  destruct Hn as (-> & <- & <- & Hu'). cbn [mbind cres_bind length] in *. rewrite (IH it' l); [done|by rewrite Hrt|done|lia].
Qed.

(** The elements of a tree that stands for a map. *)
Lemma elems_models rx m k d : rax_models rx m → (k, d) ∈ elems (rx_head rx) ↔ m !! k = Some d.
Proof. intros Hm. rewrite elems_get by apply Hm. by rewrite (xm_get _ _ Hm). Qed.

Lemma order_NoDup l : in_order l → NoDup l.
Proof.
  induction 1 as [|b l Hl IH Hb]; constructor; [|done]. intros Hin. rewrite Forall_forall in Hb. specialize (Hb b Hin).
  unfold key_lt, beyond in Hb. rewrite bool_decide_eq_true_2 in Hb by done. by rewrite andb_comm in Hb.
Qed.

Lemma elems_map rx m : rax_models rx m → elems (rx_head rx) ≡ₚ map_to_list m.
Proof.
  intros Hm. apply NoDup_Permutation; [apply order_NoDup, elems_order, Hm|apply NoDup_map_to_list|]. intros [k d].
  by rewrite (elems_models _ _ _ _ Hm), elem_of_map_to_list.
Qed.

Lemma elems_length rx m : rax_models rx m → length (elems (rx_head rx)) = base.size m.
Proof. intros Hm. by rewrite (elems_map _ _ Hm), length_map_to_list. Qed.

Lemma keep_length strict e l : length (keep strict e l) ≤ length l.
Proof. induction l as [|b l IH]; [done|]. rewrite keep_cons. destruct (beyond strict e b.1); cbn; lia. Qed.

Lemma iteration_models rx m it op ele strict e :
  rax_models rx m → it_rt it = rx → seek_forward op ele = Some (strict, e) →
  ∃ it' l, raxSeek it op ele = Ok (true, it') ∧ it_rt it' = rx ∧ upcoming it' l ∧ rax_drain (S (base.size m)) it' = Ok l ∧ in_order l ∧
    ∀ k d, (k, d) ∈ l ↔ m !! k = Some d ∧ beyond strict e k = true.
Proof.
  intros Hm Hrt Hop. subst rx. destruct (raxSeek_forward it op ele strict e (xm_wf _ _ Hm)) as (it' & Hs & Hrt & Hu); [|done|].
  - intros H0. rewrite (xm_numele _ _ Hm) in H0. apply length_zero_iff_nil. rewrite (elems_length _ _ Hm). lia.
  - exists it'. eexists. split; [exact Hs|]. split; [done|]. split; [exact Hu|]. split_and!.
    + apply rax_drain_spec; [rewrite Hrt; apply Hm|done|]. pose proof (keep_length strict e (elems (rx_head (it_rt it)))). rewrite (elems_length _ _ Hm) in *. lia.
    + apply keep_order, elems_order, Hm.
    + intros k d. by rewrite keep_elem, (elems_models _ _ _ _ Hm).
Qed.

(** C38. Iteration over the radix tree: after any sequence of insertions, of
    keys of at most 2^29 - 1 bytes, and removals, a seek with "^", ">=" or ">" and the loop over [raxNext] ends and
    yields, in the order of the bytes of the keys, exactly the bindings of the
    map whose keys are all keys, those from the element on, or those after it. *)
Theorem rax_iteration (ops : list rax_op) (op ele : bytes) strict e :
  Forall op_fits ops → seek_forward op ele = Some (strict, e) →
  ∃ rx, foldC rax_apply ops raxNew = Ok rx ∧ let m := foldl map_apply ∅ ops in
    ∃ it l, raxSeek (raxStart rx) op ele = Ok (true, it) ∧ rax_drain (S (base.size m)) it = Ok l ∧ in_order l ∧
      ∀ k d, (k, d) ∈ l ↔ m !! k = Some d ∧ beyond strict e k = true.
Proof.
  intros Hf Hop. destruct (rax_apply_all ops raxNew ∅ raxNew_models Hf) as (rx & Hr & Hm). exists rx. split; [done|]. cbn zeta.
  destruct (iteration_models rx _ (raxStart rx) op ele strict e Hm eq_refl Hop) as (it & l & Hs & _ & _ & Hd & Ho & Hl). by exists it, l.
Qed.
End iter.

(** * Examples *)
Module IterExamples.

Definition words : list rax_op :=
  [RaxPut (lit "foobar") (Some 2); RaxPut (lit "foo") (Some 1); RaxPut (lit "fox") (Some 3); RaxPut (lit "apple") (Some 0); RaxDel (lit "apple")].

Lemma words_fit : Forall (op_fits (V := nat)) words.
Proof. repeat constructor; unfold op_fits, rax_key_fits; vm_compute; discriminate. Qed.

Lemma rax_iteration_witness :
  ∃ rx it l, foldC rax_apply words raxNew = Ok rx ∧ raxSeek (raxStart rx) (lit ">") (lit "foo") = Ok (true, it) ∧ rax_drain 4 it = Ok l ∧
    (lit "foobar", Some 2) ∈ l ∧ (lit "foo", Some 1) ∉ l.
Proof.
  destruct (rax_iteration words (lit ">") (lit "foo") true (lit "foo") words_fit eq_refl) as (rx & Hr & it & l & Hs & Hd & _ & Hl).
  exists rx, it, l. split; [exact Hr|]. split; [exact Hs|]. split; [exact Hd|].
  split; [apply Hl; split; vm_compute; reflexivity|]. intros Hin%Hl. destruct Hin as [_ Hin]. vm_compute in Hin. discriminate.
Defined.

(** A tree with the elements, an iterator at a position, what it stands at. *)
Definition tree (l : list (bytes * nat)) : cres (rax nat) := foldC rax_apply ((λ '(k, v), RaxPut k (Some v)) <$> l) raxNew.
Definition sought (l : list (bytes * nat)) (op ele : bytes) : cres (bool * raxIterator) := rx ← tree l; raxSeek (raxStart rx) op ele.
Definition seen (r : cres (bool * @raxIterator nat)) : cres (bool * bytes * option nat) := '(_, it) ← r; Ok (it_eof it, it_key it, it_data it).

(** A seek for a smaller key misses the key of a compressed node when the element
    ends inside the node: there is "foo" before "foob", and the iterator ends. *)
Example seek_less_misses :
  seen (sought [(lit "foo", 1); (lit "foobar", 2)] (lit "<") (lit "foob")) = Ok (true, lit "foo", None) ∧
  seen (sought [(lit "foo", 1); (lit "foobar", 2)] (lit "<") (lit "fooba0")) = Ok (false, lit "foo", Some 1).
Proof. split; vm_compute; reflexivity. Qed.

(** A seek that takes the greatest key of a subtree finds the key but not its value. *)
Example seek_greatest_no_value :
  seen (sought [(lit "foo", 1); (lit "foobar", 2)] (lit "$") []) = Ok (false, lit "foobar", None) ∧
  seen (sought [(lit "foo", 1); (lit "foobar", 2)] (lit "<") (lit "fooz")) = Ok (false, lit "foobar", None).
Proof. split; vm_compute; reflexivity. Qed.

(** [raxCompare] takes the direction from the second character of the operator:
    ">=", ">" and "=" do not hold where they should. *)
Example compare_operators :
  let cmp op key := '(_, it) ← sought [(lit "foo", 1)] (lit "^") []; raxCompare it op key in
  cmp (lit ">=") (lit "bar") = Ok false ∧ cmp (lit ">") (lit "bar") = Ok false ∧ cmp (lit "=") (lit "foo") = Ok false ∧
  cmp (lit "=>") (lit "bar") = Ok true ∧ cmp (lit "==") (lit "foo") = Ok true.
Proof. cbn zeta. split_and!; vm_compute; reflexivity. Qed.

(** A random walk of random length in a tree of one or two elements, and a walk
    in a tree with the empty key alone, divide by zero. *)
Example random_walk_faults :
  ('(_, it) ← sought [(lit "foo", 1); (lit "fo", 2)] (lit "^") []; raxRandomWalk it 0 [5; 6; 7]%Z) = Fault DivZero ∧
  ('(_, it) ← sought [([], 1)] (lit "^") []; raxRandomWalk it 3 [5; 6; 7]%Z) = Fault DivZero.
Proof. split; vm_compute; reflexivity. Qed.
End IterExamples.
