(* ===== verification/HashRax.v ===== *)
(** [util/hash.c] built with [HASH_USE_RAX]: the same operations over the radix
    tree of [Rax].  [hash.h] selects the chained table of [Hash]; both are
    instances of the interface that the clients of the table rely on.

    A value is a pointer, [None] for [NULL].  The values that an operation
    passes to the free function are part of its result. *)

From S2P Require Import Prelude CString Hash Rax RaxMap RaxIter.
From stdpp Require Import sorting.

(** * Operations *)
Section ops.
Context {V : Type}.

(** [struct hash]: whether there is a free function, and the tree. *)
Record rhash := RHash {
  rh_free_fn : bool;
  rh_rax : rax V;
}.
Implicit Types (h : rhash) (key : bytes) (value : option V).

(** The size is not used. *)
Definition rhash_new (sz : nat) (freefn : bool) : rhash := RHash freefn raxNew.

(** An iterator at the first element, and the bound on the loops over it. *)
Definition rhash_start h : cres (@raxIterator V) :=
  '(_, it) ← raxSeek (raxStart (rh_rax h)) (lit "^") []; Ok it.
Definition rhash_fuel h : nat := S (Z.to_nat (rx_numele (rh_rax h))).

Definition rhash_free h : cres (list V) :=
  it ← rhash_start h;
  l ← rax_drain (rhash_fuel h) it;
  _ ← raxFree (rh_rax h);
  Ok (if rh_free_fn h then omap snd l else []).

(** The state is [None] until the first call has set the iterator up. *)
Definition rhash_iterate h (st : option raxIterator) : cres (option (bytes * option V) * option raxIterator) :=
  it ← match st with Some it => Ok it | None => rhash_start h end;
  '(ok, it) ← raxNext it;
  Ok (if ok : bool then Some (it_key it, it_data it) else None, Some it).

Fixpoint rhash_loop (fuel : nat) h (st : option raxIterator) : cres (list (bytes * option V)) :=
  match fuel with
  | O => Fault Diverges
  | S fuel =>
      '(r, st) ← rhash_iterate h st;
      match r with None => Ok [] | Some b => l ← rhash_loop fuel h st; Ok (b :: l) end
  end.

(** [hash_foreach]: what the body of the loop sees. *)
Definition rhash_foreach h : cres (list (bytes * option V)) := rhash_loop (rhash_fuel h) h None.

(** The callback gets a copy of the key that [strndup] made, up to a [NUL]. *)
Fixpoint rhash_find_loop (fuel : nat) (fn : bytes → option V → bool) (it : raxIterator) : cres (option V) :=
  match fuel with
  | O => Fault Diverges
  | S fuel =>
      '(ok, it) ← raxNext it;
      if negb ok then Ok None
      else if fn (c_str (it_key it)) (it_data it) then Ok (it_data it) else rhash_find_loop fuel fn it
  end.
Definition rhash_find h (fn : bytes → option V → bool) : cres (option V) :=
  it ← rhash_start h; rhash_find_loop (rhash_fuel h) fn it.

(** The table, and the old value if it goes to the free function. *)
Definition rhash_setn h key value : cres (rhash * list V) :=
  '(rx, _, old) ← raxInsert (rh_rax h) key value;
  let oldvalue := default None old in
  Ok (RHash (rh_free_fn h) rx, if rh_free_fn h then option_list oldvalue else []).
Definition rhash_set h key value : cres (rhash * list V) := rhash_setn h key value.

Definition rhash_getn h key : cres (option V) :=
  data ← raxFind (rh_rax h) key; Ok (default None data).
Definition rhash_get h key : cres (option V) := rhash_getn h key.

(** The free function is called for a removed [NULL] as well. *)
Definition rhash_deln h key : cres (rhash * list (option V)) :=
  '(rx, data) ← raxRemove (rh_rax h) key;
  Ok (RHash (rh_free_fn h) rx, if rh_free_fn h then option_list data else []).
Definition rhash_del h key : cres (rhash * list (option V)) := rhash_deln h key.
End ops.
Arguments rhash V : clear implicits.

(** * The map a table stands for *)
Section models.
Context {V : Type}.
Implicit Types (h : rhash V) (m : gmap bytes (option V)) (key : bytes) (value : option V).

Definition rhash_models h m : Prop := rax_models (rh_rax h) m.

Lemma rhash_new_models sz ff : rhash_models (rhash_new sz ff) ∅.
Proof. apply raxNew_models. Qed.

Lemma rhash_get_models h m key : rhash_models h m → rhash_get h key = Ok (default None (m !! key)).
Proof. intros Hm. unfold rhash_get, rhash_getn. by rewrite (raxFind_models _ _ _ Hm). Qed.

Lemma rhash_set_models h m key value :
  rhash_models h m → rax_key_fits key →
  ∃ h', rhash_set h key value = Ok (h', if rh_free_fn h then option_list (default None (m !! key)) else []) ∧
    rhash_models h' (<[key := value]> m) ∧ rh_free_fn h' = rh_free_fn h.
Proof.
  intros Hm Hk. unfold rhash_set, rhash_setn. destruct (raxInsert_models _ _ key value Hm Hk) as (rx & -> & Hm'). cbn [mbind cres_bind]. by eexists.
Qed.

Lemma rhash_del_models h m key :
  rhash_models h m →
  ∃ h', rhash_del h key = Ok (h', if rh_free_fn h then option_list (m !! key) else []) ∧ rhash_models h' (delete key m) ∧ rh_free_fn h' = rh_free_fn h.
Proof.
  intros Hm. unfold rhash_del, rhash_deln. destruct (raxRemove_models _ _ key Hm) as (rx & -> & Hm'). cbn [mbind cres_bind]. by eexists.
Qed.

(** The loops over the table see its bindings in the order of the keys. *)
Abbreviation bindings h := (elems (rx_head (rh_rax h))).

Lemma rhash_start_models h m :
  rhash_models h m → ∃ it, rhash_start h = Ok it ∧ it_rt it = rh_rax h ∧ upcoming it (bindings h) ∧ length (bindings h) < rhash_fuel h.
Proof.
  intros Hm. unfold rhash_start. destruct (raxSeek_forward (raxStart (rh_rax h)) (lit "^") [] false []) as (it & -> & Hrt & Hu); [apply Hm| |done|].
  - cbn [it_rt raxStart]. intros H0. rewrite (xm_numele _ _ Hm) in H0. apply length_zero_iff_nil. rewrite (elems_length _ _ Hm). lia.
  - exists it. cbn [mbind cres_bind]. cbn [it_rt raxStart] in *. rewrite keep_every in Hu by done. split_and!; try done.
    rewrite (elems_length _ _ Hm). unfold rhash_fuel. rewrite (xm_numele _ _ Hm). lia.
Qed.

Lemma rhash_free_models h m :
  rhash_models h m → rhash_free h = Ok (if rh_free_fn h then omap snd (bindings h) else []).
Proof.
  intros Hm. unfold rhash_free. destruct (rhash_start_models h m Hm) as (it & -> & Hrt & Hu & Hf). cbn [mbind cres_bind].
  rewrite (rax_drain_spec _ it _) by (rewrite ?Hrt; try done; apply Hm). cbn [mbind cres_bind]. by rewrite (raxFree_models _ _ Hm).
Qed.

Lemma rhash_loop_upcoming fuel h it l :
  wf (rx_head (it_rt it)) → upcoming it l → length l < fuel → rhash_loop fuel h (Some it) = Ok l.
Proof.
  revert it l. induction fuel as [|fuel IH]; intros it l Hw Hu Hf; [lia|]. cbn [rhash_loop rhash_iterate mbind cres_bind].
  destruct (raxNext_spec it l Hw Hu) as (it' & Hrt & Hn). destruct l as [|[k d] l]; [by rewrite Hn|].
  destruct Hn as (-> & <- & <- & Hu'). cbn [mbind cres_bind length] in *. rewrite (IH it' l); [done|by rewrite Hrt|done|lia].
Qed.

Lemma rhash_foreach_models h m : rhash_models h m → rhash_foreach h = Ok (bindings h).
Proof.
  intros Hm. unfold rhash_foreach. destruct (rhash_start_models h m Hm) as (it & Hs & Hrt & Hu & Hf).
  assert (rhash_loop (rhash_fuel h) h None = rhash_loop (rhash_fuel h) h (Some it)) as ->.
  { unfold rhash_fuel. cbn [rhash_loop]. unfold rhash_iterate. by rewrite Hs. }
  apply rhash_loop_upcoming; [rewrite Hrt; apply Hm|done|done].
Qed.

(** The first binding for which the callback holds. *)
Fixpoint first_of (fn : bytes → option V → bool) (l : list (bytes * option V)) : option V :=
  match l with [] => None | (k, d) :: l => if fn (c_str k) d then d else first_of fn l end.

Lemma rhash_find_models h m fn : rhash_models h m → rhash_find h fn = Ok (first_of fn (bindings h)).
Proof.
  intros Hm. unfold rhash_find. destruct (rhash_start_models h m Hm) as (it & -> & Hrt & Hu & Hf). cbn [mbind cres_bind].
  assert (Hw : wf (rx_head (it_rt it))) by (rewrite Hrt; apply Hm). clear Hrt Hm. revert it Hw Hu. generalize (bindings h) Hf. generalize (rhash_fuel h). clear.
  intros fuel. induction fuel as [|fuel IH]; intros l Hf it Hw Hu; [lia|]. cbn [rhash_find_loop]. destruct (raxNext_spec it l Hw Hu) as (it' & Hrt & Hn).
  destruct l as [|[k d] l]; [by rewrite Hn|]. destruct Hn as (-> & <- & <- & Hu'). cbn [mbind cres_bind length negb first_of] in *.
  destruct (fn _ _); [done|]. apply IH; [lia|by rewrite Hrt|done].
Qed.
End models.

(** * Ownership of the values *)
Section ownership.
Context {V : Type}.
Implicit Types (h : rhash V) (m : gmap bytes (option V)) (freed : list (option V)).

Definition values m : list V := omap snd (map_to_list m).

Lemma values_fresh m k d : m !! k = None → values (<[k := d]> m) ≡ₚ option_list d ++ values m.
Proof. intros Hk. unfold values. rewrite (map_to_list_insert _ _ _ Hk). by destruct d. Qed.

Lemma values_delete m k : option_list (default None (m !! k)) ++ values (delete k m) ≡ₚ values m.
Proof.
  destruct (m !! k) as [d|] eqn:E; cbn [default]; [|by rewrite (delete_id _ _ E)].
  rewrite <- (values_fresh (delete k m) k d) by apply lookup_delete_eq. by rewrite insert_delete_id.
Qed.

Lemma values_insert m k d : option_list (default None (m !! k)) ++ values (<[k := d]> m) ≡ₚ option_list d ++ values m.
Proof.
  rewrite <- (insert_delete_eq m k d), (values_fresh (delete k m)) by apply lookup_delete_eq.
  rewrite <- (values_delete m k). rewrite !app_assoc. f_equiv. apply Permutation_app_comm.
Qed.

(** A table with what was passed to the free function so far. *)
Definition rhash_apply (s : rhash V * list (option V)) (op : @rax_op V) : cres (rhash V * list (option V)) :=
  let '(h, freed) := s in
  match op with
  | RaxPut k d => '(h, f) ← rhash_set h k d; Ok (h, freed ++ (Some <$> f))
  | RaxDel k => '(h, f) ← rhash_del h k; Ok (h, freed ++ f)
  end.

(** From [hash_new] to [hash_free]. *)
Definition rhash_life (sz : nat) (ff : bool) (ops : list (@rax_op V)) : cres (list (option V)) :=
  '(h, freed) ← foldC rhash_apply ops (rhash_new sz ff, []);
  f ← rhash_free h;
  Ok (freed ++ (Some <$> f)).

Definition values_stored (ops : list (@rax_op V)) : list V :=
  omap (λ op, match op with RaxPut _ d => d | RaxDel _ => None end) ops.

Lemma omap_Some (l : list V) : omap id (Some <$> l) = l.
Proof. induction l as [|v l IH]; [done|]. cbn. by rewrite IH. Qed.

Lemma omap_option_list (o : option (option V)) : omap id (option_list o) = option_list (default None o).
Proof. by destruct o as [[v|]|]. Qed.

Lemma rhash_apply_owned ops h m freed :
  rhash_models h m → rh_free_fn h = true → Forall op_fits ops →
  ∃ h' m' freed', foldC rhash_apply ops (h, freed) = Ok (h', freed') ∧ rhash_models h' m' ∧ rh_free_fn h' = true ∧
    omap id freed' ++ values m' ≡ₚ omap id freed ++ values m ++ values_stored ops.
Proof.
  revert h m freed. induction ops as [|op ops IH]; intros h m freed Hm Hff Hf.
  { exists h, m, freed. split_and!; try done. by rewrite app_nil_r. }
  inversion Hf as [|?? Hop Hrest]; subst. destruct op as [k d|k]; cbn [foldC rhash_apply].
  - destruct (rhash_set_models h m k d Hm Hop) as (h1 & -> & Hm1 & Hff1). cbn [mbind cres_bind]. rewrite Hff in *.
    destruct (IH h1 _ (freed ++ (Some <$> option_list (default None (m !! k)))) Hm1 Hff1 Hrest) as (h' & m' & freed' & Hr & Hm' & Hff' & Hp).
    exists h', m', freed'. split_and!; try done. rewrite Hp, omap_app, omap_Some, <- !app_assoc. f_equiv.
    rewrite (app_assoc (option_list _)), values_insert. change (values_stored (RaxPut k d :: ops)) with (match d with Some v => v :: values_stored ops | None => values_stored ops end).
    destruct d; cbn; [|done]. by rewrite Permutation_middle.
  - destruct (rhash_del_models h m k Hm) as (h1 & -> & Hm1 & Hff1). cbn [mbind cres_bind]. rewrite Hff in *.
    destruct (IH h1 _ (freed ++ option_list (m !! k)) Hm1 Hff1 Hrest) as (h' & m' & freed' & Hr & Hm' & Hff' & Hp).
    exists h', m', freed'. split_and!; try done. rewrite Hp, omap_app, omap_option_list, <- !app_assoc. f_equiv.
    by rewrite (app_assoc (option_list _)), values_delete.
Qed.

(** A table over the radix tree that owns its values frees each of them once:
    over any sequence of [hash_set], also of a key that is there, and
    [hash_del], up to [hash_free], no operation faults and the values passed to
    the free function, [NULL] left out, are exactly the values that were
    stored, as often as they were stored. *)
Theorem rhash_frees_once (sz : nat) (ops : list (@rax_op V)) :
  Forall op_fits ops → ∃ freed, rhash_life sz true ops = Ok freed ∧ omap id freed ≡ₚ values_stored ops.
Proof.
  intros Hf. unfold rhash_life.
  destruct (rhash_apply_owned ops (rhash_new sz true) ∅ [] (rhash_new_models sz true) eq_refl Hf) as (h & m & freed & -> & Hm & Hff & Hp).
  cbn [mbind cres_bind]. rewrite (rhash_free_models h m Hm), Hff. cbn [mbind cres_bind]. eexists. split; [done|].
  rewrite omap_app, omap_Some. unfold values in Hp. rewrite (elems_map _ _ Hm), Hp. by rewrite map_to_list_empty.
Qed.
End ownership.

(** * The interface of the table *)

(** What the clients of [hash.h] use. *)
Class Table (V T : Type) := {
  tbl_set : T → bytes → V → cres T;
  tbl_get : T → bytes → cres (option V);
  tbl_del : T → bytes → cres T;
  tbl_foreach : T → cres (list (bytes * V));
}.

(** What they rely on: [hash.h] leaves it open what a set of a key that is there
    does. *)
Class TableLaws {V T : Type} `{Table V T} (models : T → gmap bytes V → Prop) := {
  law_get t m key : models t m → tbl_get t key = Ok (m !! key);
  law_set t m key v : models t m → m !! key = None → rax_key_fits key → ∃ t', tbl_set t key v = Ok t' ∧ models t' (<[key := v]> m);
  law_del t m key : models t m → ∃ t', tbl_del t key = Ok t' ∧ models t' (delete key m);
  law_foreach t m : models t m → ∃ l, tbl_foreach t = Ok l ∧ l ≡ₚ map_to_list m;
}.

Section client.
Context {V : Type}.

Inductive request := RSet (key : bytes) (v : V) | RGet (key : bytes) | RDel (key : bytes).

(** A key is set only when it is not there. *)
Fixpoint allowed (m : gmap bytes V) (reqs : list request) : Prop :=
  match reqs with
  | [] => True
  | RSet key v :: reqs => m !! key = None ∧ rax_key_fits key ∧ allowed (<[key := v]> m) reqs
  | RGet _ :: reqs => allowed m reqs
  | RDel key :: reqs => allowed (delete key m) reqs
  end.

(** The answers that the map gives, and the map at the end. *)
Fixpoint map_serve (m : gmap bytes V) (reqs : list request) : gmap bytes V * list (option V) :=
  match reqs with
  | [] => (m, [])
  | RSet key v :: reqs => map_serve (<[key := v]> m) reqs
  | RGet key :: reqs => let '(m', answers) := map_serve m reqs in (m', m !! key :: answers)
  | RDel key :: reqs => map_serve (delete key m) reqs
  end.

Section table.
Context {T : Type} `{Table V T}.

Fixpoint serve (t : T) (reqs : list request) : cres (T * list (option V)) :=
  match reqs with
  | [] => Ok (t, [])
  | RSet key v :: reqs => t ← tbl_set t key v; serve t reqs
  | RGet key :: reqs => a ← tbl_get t key; '(t, answers) ← serve t reqs; Ok (t, a :: answers)
  | RDel key :: reqs => t ← tbl_del t key; serve t reqs
  end.

Lemma serve_map `{!TableLaws models} t m reqs :
  models t m → allowed m reqs → ∃ t', serve t reqs = Ok (t', (map_serve m reqs).2) ∧ models t' (map_serve m reqs).1.
Proof.
  revert t m. induction reqs as [|[key v|key|key] reqs IH]; intros t m Hm Ha; cbn [serve allowed map_serve] in *.
  - by exists t.
  - destruct Ha as (Hn & Hk & Ha). destruct (law_set t m key v Hm Hn Hk) as (t1 & -> & Hm1). by apply IH.
  - rewrite (law_get t m key Hm). cbn [mbind cres_bind]. destruct (IH t m Hm Ha) as (t' & -> & Hm'). exists t'.
    by destruct (map_serve m reqs).
  - destruct (law_del t m key Hm) as (t1 & -> & Hm1). by apply IH.
Qed.
End table.

(** Two tables with the laws give a client the same answers. *)
Lemma tables_agree {T T' : Type} `{Table V T} `{Table V T'} `{!TableLaws (T := T) models} `{!TableLaws (T := T') models'} t t' m reqs :
  models t m → models' t' m → allowed m reqs →
  ∃ t1 t1' answers l l', serve t reqs = Ok (t1, answers) ∧ serve t' reqs = Ok (t1', answers) ∧
    tbl_foreach t1 = Ok l ∧ tbl_foreach t1' = Ok l' ∧ l ≡ₚ l'.
Proof.
  intros Hm Hm' Ha. destruct (serve_map t m reqs Hm Ha) as (t1 & Hs & Hm1). destruct (serve_map t' m reqs Hm' Ha) as (t1' & Hs' & Hm1').
  destruct (law_foreach _ _ Hm1) as (l & Hl & Hp). destruct (law_foreach _ _ Hm1') as (l' & Hl' & Hp'). exists t1, t1', (map_serve m reqs).2, l, l'.
  split_and!; try done. by rewrite Hp, Hp'.
Qed.
End client.
Arguments request V : clear implicits.

(** ** The two builds *)
#[export] Instance chained_table V : Table V (hash V) := {
  tbl_set h key v := Ok (hash_set h key v);
  tbl_get h key := Ok (hash_get h key);
  tbl_del h key := Ok (hash_del h key);
  tbl_foreach h := Ok (hash_bindings h);
}.

#[export] Instance chained_laws V : TableLaws (hash_models (V := V)).
Proof.
  split; cbn.
  - intros t m key Hm. by rewrite (hash_models_get _ _ _ Hm).
  - intros t m key v Hm Hn _. eexists. split; [done|]. by apply hash_models_set.
  - intros t m key Hm. eexists. split; [done|]. by apply hash_models_del.
  - intros t m Hm. eexists. split; [done|]. by apply hash_models_bindings.
Qed.

Section rax_table.
Context {V : Type}.

(** The values that are not [NULL]. *)
Definition present (l : list (bytes * option V)) : list (bytes * V) := omap (λ b : bytes * option V, pair b.1 <$> b.2) l.

#[export] Instance rax_table : Table V (rhash V) := {
  tbl_set h key v := '(h, _) ← rhash_set h key (Some v); Ok h;
  tbl_get h key := rhash_get h key;
  tbl_del h key := '(h, _) ← rhash_del h key; Ok h;
  tbl_foreach h := l ← rhash_foreach h; Ok (present l);
}.

(** No value is [NULL]. *)
Definition rhash_holds (h : rhash V) (m : gmap bytes V) : Prop := rhash_models h (Some <$> m).

Lemma present_some (l : list (bytes * V)) : present (prod_map id Some <$> l) = l.
Proof. induction l as [|[k v] l IH]; [done|]. cbn. f_equal. exact IH. Qed.

Lemma present_order (l : list (bytes * option V)) :
  StronglySorted (λ a b, key_lt a.1 b.1 = true) l → StronglySorted (λ a b, key_lt a.1 b.1 = true) (present l).
Proof.
  induction 1 as [|[k d] l Hl IH Hb]; [constructor|]. destruct d as [v|]; cbn; [|done]. constructor; [done|]. apply Forall_forall.
  intros b ([k' d'] & Hin & Hd)%list_elem_of_omap. destruct d' as [v'|]; [|done]. injection Hd as <-. rewrite Forall_forall in Hb. by apply (Hb _ Hin).
Qed.

#[export] Instance rax_laws : TableLaws rhash_holds.
Proof.
  split; unfold rhash_holds; cbn [tbl_get tbl_set tbl_del tbl_foreach rax_table].
  - intros t m key Hm. rewrite (rhash_get_models _ _ _ Hm), lookup_fmap. by destruct (m !! key).
  - intros t m key v Hm _ Hk. destruct (rhash_set_models t _ key (Some v) Hm Hk) as (t' & -> & Hm' & _). exists t'. split; [done|]. by rewrite fmap_insert.
  - intros t m key Hm. destruct (rhash_del_models t _ key Hm) as (t' & -> & Hm' & _). exists t'. split; [done|]. by rewrite fmap_delete.
  - intros t m Hm. rewrite (rhash_foreach_models _ _ Hm). eexists. split; [done|]. unfold present. rewrite (elems_map _ _ Hm), map_to_list_fmap. by rewrite present_some.
Qed.
End rax_table.

(** C39. The two builds of the table agree: for any sequence of requests in which a
    key has at most 2^29 - 1 bytes and is set only when it is not there, the chained table of any non-zero
    size and the table over the radix tree give the same answers without a
    fault, and a [hash_foreach] loop sees the same bindings, in the order of
    the keys for the radix tree. *)
Theorem table_builds_agree (V : Type) (sz : nat) (ff : bool) (reqs : list (request V)) :
  allowed ∅ reqs →
  ∃ t t' answers l l', serve (hash_new (S sz) ff) reqs = Ok (t, answers) ∧ serve (rhash_new (S sz) ff) reqs = Ok (t', answers) ∧
    tbl_foreach t = Ok l ∧ tbl_foreach t' = Ok l' ∧ l ≡ₚ l' ∧ StronglySorted (λ a b, key_lt a.1 b.1 = true) l'.
Proof.
  intros Ha. assert (Hr : rhash_holds (rhash_new (S sz) ff) (∅ : gmap bytes V)) by (unfold rhash_holds; rewrite fmap_empty; apply rhash_new_models).
  destruct (tables_agree (hash_new (S sz) ff) (rhash_new (S sz) ff) ∅ reqs (hash_models_new (S sz) ff ltac:(lia)) Hr Ha)
    as (t & t' & answers & l & l' & Hs & Hs' & Hl & Hl' & Hp).
  exists t, t', answers, l, l'. split_and!; try done.
  destruct (serve_map (rhash_new (S sz) ff) ∅ reqs Hr Ha) as (t2 & Hs2 & Hm). rewrite Hs' in Hs2. injection Hs2 as <- _.
  cbn [tbl_foreach rax_table] in Hl'. rewrite (rhash_foreach_models _ _ Hm) in Hl'. injection Hl' as <-. apply present_order, elems_order, Hm.
Qed.

(** * Examples *)
Module TableExamples.

Definition requests : list (request nat) :=
  [RSet (lit "b") 1; RSet (lit "a") 2; RGet (lit "b"); RDel (lit "b"); RGet (lit "b"); RSet (lit "b") 3; RSet (lit "abc") 4; RGet (lit "a")].

Lemma requests_allowed : allowed ∅ requests.
Proof. cbn [allowed requests]. split_and!; try done; unfold rax_key_fits; vm_compute; discriminate. Qed.

Lemma table_builds_agree_witness :
  ∃ t t' l l', serve (hash_new 3 true) requests = Ok (t, [Some 1; None; Some 2]) ∧ serve (rhash_new 3 true) requests = Ok (t', [Some 1; None; Some 2]) ∧
    tbl_foreach t = Ok l ∧ tbl_foreach t' = Ok l' ∧ l ≡ₚ l'.
Proof.
  destruct (table_builds_agree nat 2 true requests requests_allowed) as (t & t' & answers & l & l' & Hs & Hs' & Hl & Hl' & Hp & _).
  assert (Hans : answers = [Some 1; None; Some 2]).
  { revert Hs. vm_compute. intros H. injection H as _ H. symmetry. exact H. }
  rewrite Hans in Hs, Hs'. exists t, t', l, l'. split_and!; assumption.
Defined.

Definition owned : list (@rax_op nat) :=
  [RaxPut (lit "k") (Some 1); RaxPut (lit "k") (Some 2); RaxPut (lit "n") None; RaxDel (lit "n"); RaxPut (lit "x") (Some 3); RaxDel (lit "k")].

Lemma owned_fit : Forall op_fits owned.
Proof. repeat constructor; unfold op_fits, rax_key_fits; vm_compute; discriminate. Qed.

Lemma rhash_frees_once_witness :
  ∃ freed, rhash_life 1 true owned = Ok freed ∧ omap id freed ≡ₚ [1; 2; 3].
Proof. exact (rhash_frees_once 1 owned owned_fit). Defined.

(** The builds differ where [hash.h] leaves it open: a key that is set twice and
    then deleted is back in the chained table and gone from the radix tree. *)
Example set_twice_differs :
  let twice := [RSet (lit "k") 1; RSet (lit "k") 2; RDel (lit "k"); RGet (lit "k")] in
  (snd <$> serve (hash_new 1 true) twice) = Ok [Some 1] ∧ (snd <$> serve (rhash_new 1 true) twice) = Ok [None].
Proof. cbn zeta. split; vm_compute; reflexivity. Qed.
End TableExamples.
